(* ===== verification/_CoqProject ===== *)
-Q . S2P
Prelude.v
Text.v
Mem.v
Cpu.v
Interp.v
InterpFacts.v
Snapshot.v
Run.v
Chain.v
Elf.v
JobFmt.v
ContentStore.v
Wire.v
Quorum.v
Ledger.v
Dispute.v
ZkJudge.v
Server.v
Serve.v
ServeCmd.v
ServeFacts.v
DispatchFacts.v
Worker.v
Local.v
EndToEnd.v
NetDemo.v
EndDemo.v
LocalDemo.v
Sp1.v
Sp1Facts.v
Sp1Demo.v
Jobkit.v
JobkitFacts.v
JobkitDemo.v
Isa.v
IsaFacts.v
IsaShort.v
IsaRun.v
Conformance.v
ConformanceCmd.v
Tls.v
Difftest.v
Jobs.v
DemoBinary.v
DemoJob.v
Scaffold.v
Sp1Emu.v
HarnessDemo.v
Fuzz.v
UnitTests.v
Stress.v
Lifecycle.v
Peers.v
Proving.v
LifeDemo.v
