(* ===== verification/Prelude.v ===== *)
(** * provework: a verified model of deterministic verifiable compute

    provework runs deterministic RISC-V jobs on untrusted workers and makes their results
    checkable at three tiers: a quorum of signed results with bonds, an optimistic tier with a
    dispute game over chunk-hash chains, and zk receipts.  This library models the Rust crates
    under src/crates that carry that logic, the programs of the zk tier under src/sp1-host and
    src/sp1-guest, the jobs under src/jobs and the test harnesses, and proves what makes them
    correct, each alone and composed.

    ** The program and the files that model it

    - rvcore, the deterministic emulator.  [Mem] is mem.rs: sparse paged memory as a page
      directory, append-only slots and a direct-mapped lookaside cache, refined to a map from
      page numbers to pages ([abs]).  [Cpu] is cpu.rs, hash.rs and the constants of abi.
      [Interp] is the step function of interp.rs, the whole RV64IMC decoder with CSRs, traps
      and the syscall mode; [InterpFacts] its invariant and determinism.  [Snapshot] is
      snapshot.rs.  [Run] is the run loop and the judge's [execute_chunk_from]; [Chain] relates
      the hash chain of a run to its states.  [Elf] is elf.rs.
    - What the emulator is measured against.  [Isa] is a reference machine written from the
      RISC-V manual: instructions as data, their encodings and their meaning over byte memory.
      [IsaFacts] relates the decoder's fields to the encodings and proves the full-length
      instructions, [IsaShort] the compressed ones, [IsaRun] whole runs.
    - [JobFmt] is jobfmt: manifests, job directories, results, journals, the messages that are
      signed, and the decoder of untrusted hexadecimal.  [Text] holds the string functions of
      the Rust library the crates share: bytes of a str, slicing with its panics, hexadecimal,
      lossy decoding and trimming.
    - [ContentStore] is contentstore; [Wire] is wire/src/lib.rs (frames, messages, proof of
      work); [Tls] is wire/src/tls.rs and the connections of coordinator, daemon and submitter
      that use it.
    - The coordinator.  [Quorum] is lib.rs (decide, slashing, verify_signature), [Ledger] is
      ledger.rs, [Dispute] is dispute.rs and optimistic.rs, [ZkJudge] is receipt.rs and
      zk_judge.rs.  net.rs is [Server] (connections, session threads, one handler per event)
      and [Serve] (the scan of the jobs directory, dispatch, escalation, judging, finishing,
      the proving queue, one turn of the loop, and the system as a step relation).
      [ServeFacts] holds the invariants of every reachable state, [DispatchFacts] dispatch,
      admission and progress, [NetDemo] executable sessions.  main.rs is [ServeCmd] (the
      configuration, certificate files and report of serve) and part of [Local].
    - The worker.  [Worker] is daemon.rs: identity, greeting, the job loop, fetching from peers
      and coordinator, execution, signing, submission, the peer server and the reconnect loop.
      [Local] is the worker's own command line together with the coordinator's local commands
      (the quorum run over spawned workers, disputes, the optimistic demo, publish and fetch).
    - The zk tier.  [Sp1] is the guest programs of src/sp1-guest and src/jobs/demo-v2, the
      zk-judge and zk-verify processes of src/sp1-host, and the sp1 build of the worker;
      [Sp1Facts] relates them to the emulator, the worker and the coordinator.
    - The job owner.  [Jobkit] is jobkit: build, submit, evidence and verify; [JobkitFacts] its
      composition with the coordinator and with zk-verify; [Scaffold] is jobkit new with the
      texts of scaffold.rs.
    - The jobs.  [Jobs] is demo-hash, the scaffolded job and agent-task as programs over the
      guest's memory; [DemoBinary] is the committed machine code of demo-hash-nano, byte for
      byte, with the proof that it implements demo-hash; [DemoJob] takes that through the
      network.  [Conformance] is the conformance job with its inline assembly encoded.
    - The harnesses.  [ConformanceCmd] is crates/conformance, [Difftest] crates/difftest,
      [Sp1Emu] the emu program of sp1-host, [Fuzz] the fuzz targets, [Stress] the stress
      harness of the coordinator's examples, [UnitTests] the tests inside the sources.
    - The compositions.  [EndToEnd] is workers and coordinator, [Lifecycle] the turns from a
      file in the jobs directory to a settled job, [Peers] the exchange of blobs between two
      daemons, [Proving] the proving queue with its cache.  [EndDemo], [LocalDemo], [Sp1Demo],
      [JobkitDemo], [HarnessDemo] and [LifeDemo] hold executable runs at which the theorems
      are applied.

    The emulator does not know the network; the coordinator calls the emulator through
    [Dispute.replay] and [Dispute.judge_by_snapshot], the store through [ContentStore], the
    decision through [Quorum.Pool.decide] and the judge and verifier through [Procs]; a worker
    and a submitter meet it only through the messages of [Wire], which [Server.session_event]
    turns into events.

    ** How the code is represented

    Machine integers are [Z] with the wrap-around written out; bytes are [Z] in a list; a Rust
    str is its bytes.  Fallible functions return [outcome]: [Ok], [Err] or [Panic]; functions
    with [&mut] arguments are in the state monad [M], which keeps the state of an early error
    return.  Maps are [gmap].  What is not part of the repository is a parameter stated as a
    class with what the code relies on: BLAKE3 and SHA-256 ([Blake3], [Sha256]: digests of 32
    bytes), ed25519 ([Ed25519]), serde_json ([Json], and [JsonLaws] where decoding must invert
    encoding), the disk and the machine ([Os], [NetOs], [TmpOs], [WorkerOs]), the byte sink
    ([Sink]), signing ([Signer]), the external processes ([Procs], [Commands]), bincode
    ([Bincode]), the SP1 SDK ([Sp1.Sp1]) and rustls with its certificates ([Tls.Rustls]).  A theorem that depends on the zkVM says so by a
    hypothesis: [executes] (the executor runs a compiled guest as its source says) or [proves]
    (what verifies was committed by a run of the guest).  Collision resistance is never assumed: theorems
    that need it end in an explicit collision of two named byte strings.  Every class has a
    concrete instance, and the theorems are applied at concrete inputs.

    ** What the theorems show

    - The emulator: reads and writes through the cache refine the page map; the memory root and
      the state hash commit to the architectural state; every step keeps the machine well
      formed and is deterministic; every run ends and is a function of the image, the input and
      the configuration; snapshots round-trip and restoring untrusted bytes never panics; the
      judge's chunk computes the link the run computes, but for traps the guest handles and a
      budget that ends inside the chunk, which are characterised.
    - The instruction set: every base and compressed instruction at the pc is executed as the
      manual says, but for word divisions by a register whose low word alone is zero and the
      zero-shift hints of C.SRLI and C.SRAI, and a whole run is the run of the reference
      machine; as a check, the conformance program evaluates to the manual's values.
    - The jobs: the committed demo-hash-nano binary, parsed, loaded and run on any input, halts
      after an exact number of instructions with the output of the Rust source, so a hash
      accepted for it on one honest result, or by replay, is the digest of that function; the output of agent-task is characterised.
    - Untrusted input: the ELF parser, the snapshot reader, the frame reader, the hexadecimal
      decoder and [confined_name] are total and accept only what they should.
    - Verification: acceptance needs a strict majority of the dispatched pool; an honest chain
      wins its disputes, but at a link whose chunk routes a trap to the guest or at the last
      link of a run that hit its limit, where it can lose; a verdict or receipt is bound to the job and its digest recomputed;
      signed messages, journals and content ids bind their content; an acceptance moves the
      bonds exactly.
    - The network: in every reachable state votes are single, signed and under dispatched
      ids, and an acceptance without a receipt comes from a quorum or from the
      coordinator's own replay; admission, dispatch and progress are characterised.
    - End to end: a hash accepted without a receipt is the digest of the published job's own
      run as soon as one result of the accepting majority is that of an unmodified daemon, and
      always when the coordinator replayed the job; an honest result loses bond only to a
      receipt or to a majority of results without an honest one; when the counted results are
      those of an honest majority the job is accepted as soon as it is complete.  Results are
      counted under worker ids, which are not bound to keys: one connection can submit under
      several ids and so outvote the honest workers of a pool
      ([NetDemo.one_connection_forges_quorum]), so none of this is a bound on the number of
      dishonest workers.  Honest daemons agree whatever their machines and peers do, are
      admitted, complete what they can fetch, and their sessions end unless the coordinator's
      challenge has no solution; the local quorum run accepts the true run.
    - The life of a job: a file in the jobs directory is dispatched, the results of an honest
      majority are counted one turn each while the others stay silent, and the job is accepted
      with the digest of its run; a worker without the job's blobs gets them from its peers
      alone; a proof asked for is a proof of the run, fresh or cached, and reaches the
      submitter.
    - The zk tier, for jobs of the emulator format: with the repository's zk-judge as its
      command, the coordinator's zk judge decides by the true run whatever the prover does; a
      receipt claim, and a receipt checked by the job owner, stand for a run of the job with
      exactly the descriptor's content ids; the two builds of the worker agree.  For V2 jobs,
      which only the zkVM executes, workers agree with the judge, and zk-verify reports what the
      guest commits for an input with the descriptor's input id.
    - The job owner: a submission is answered, stored and queued, what was built is what is
      published, and a pinned TLS session is with the holder of the pinned certificate.
    - The harnesses: what jobkit new writes, when the differential and emulator comparisons
      pass, when the stress harness fails, that no fuzz target can panic and that the unit
      tests pass for every hash function and disk.
    - Lemmas outside these claims record what the code does not prevent (in [NetDemo],
      [Dispute], [ContentStore], [ZkJudge], [EndDemo], [LocalDemo], [Sp1Demo], [JobkitDemo],
      [IsaRun], [Tls], [Difftest], [HarnessDemo]).

    ** Bounds and fuel

    [Run.run_fuel] is the instruction budget plus one, and [run_terminates] proves it enough;
    the judge's chunk has the chunk size as fuel ([judged_chunk_agrees] proves it enough for a
    positive size).  The endless search of [mine_pow] has no fuel: [Wire.mine_pow] is the first
    solution among all 64-bit counters, found by halving the range, and [None] when there is
    none, which is when the search never ends.  [Text.strip_all]
    has the length of the text, since every step removes a character.  The job loop of a worker
    and the wait of a submitter have the size of their stream as fuel, since every message
    consumes some of it; [session_ends] and [submit_ends] prove that they end exactly when the
    puzzle of the server can be solved.  Executing a stream is structural on
    its events.

    ** What is not modelled

    The libraries: rustls and rcgen, the SP1 SDK, ed25519, BLAKE3, serde and clap, with the
    declarations that clap reads; the assembly that jumps to a job's entry and its panic
    handler.  In net.rs a turn of the main loop and a turn of a session thread are atomic
    steps: the connection table cannot change between two lock acquisitions of one turn; log
    lines appear only where evaluating them can panic; environment-variable tracing in the run
    loop is left out.  In the worker the peer server's connections are separate functions of
    the store, not interleaved with the session.

    The integration tests under crates/*/tests are not modelled as programs: they start the
    modelled processes over sockets, and their scenarios are sessions of the demo files. *)

From stdpp Require Export prelude gmap sorting strings.
From Stdlib Require Export ZArith Lia.

#[global] Open Scope Z_scope.

(** ** Results of fallible Rust code

    [Ok] and [Err] are the two constructors of [Result]; [Panic] is a Rust
    panic (a failed slice index, an integer division by zero, an [unwrap] on
    [None]), which unwinds the thread instead of returning. *)

Inductive outcome (E A : Type) : Type :=
  | Ok (a : A)
  | Err (e : E)
  | Panic.
Arguments Ok {E A} a.
Arguments Err {E A} e.
Arguments Panic {E A}.

#[export] Instance outcome_ret E : MRet (outcome E) := fun A a => Ok a.
#[export] Instance outcome_bind E : MBind (outcome E) := fun A B f c =>
  match c with
  | Ok a => f a
  | Err e => Err e
  | Panic => Panic
  end.

#[export] Instance outcome_eq_dec E A `{EqDecision E, EqDecision A} :
  EqDecision (outcome E A).
Proof. solve_decision. Defined.

(** [r.ok()] *)
Definition ok {E A} (c : outcome E A) : option A :=
  match c with Ok a => Some a | _ => None end.

(** [r.map_err(f)] *)
Definition map_err {E F A} (f : E -> F) (c : outcome E A) : outcome F A :=
  match c with Ok a => Ok a | Err e => Err (f e) | Panic => Panic end.

(** [o.ok_or(e)] *)
Definition ok_or {E A} (o : option A) (e : E) : outcome E A :=
  match o with Some a => Ok a | None => Err e end.

(** [r.expect(..)] and [r.unwrap()] *)
Definition expect {E A} (r : outcome E A) : outcome E A :=
  match r with Ok a => Ok a | _ => Panic end.

(** ** A state and error monad

    Rust functions that take [&mut] arguments and return a [Result] keep every
    mutation made before an early [Err] return: the state is threaded through
    both outcomes. *)

Definition M (S E A : Type) : Type := S -> outcome E A * S.

#[export] Instance M_ret S E : MRet (M S E) := fun A a s => (Ok a, s).
#[export] Instance M_bind S E : MBind (M S E) := fun A B f c s =>
  match c s with
  | (Ok a, s') => f a s'
  | (Err e, s') => (Err e, s')
  | (Panic, s') => (Panic, s')
  end.

Definition mfail {S E A} (e : E) : M S E A := fun s => (Err e, s).
Definition mpanic {S E A} : M S E A := fun s => (Panic, s).
Definition mget {S E A} (f : S -> A) : M S E A := fun s => (Ok (f s), s).
Definition mmodify {S E} (f : S -> S) : M S E unit := fun s => (Ok tt, f s).

(** Running a bind whose first part succeeds. *)
Lemma bind_eq {S E A B} (k : M S E A) (f : A -> M S E B) s a s1 : k s = (Ok a, s1) -> (x ← k; f x) s = f a s1.
Proof. intros Hk. unfold mbind, M_bind. by rewrite Hk. Qed.

(** Monadic inversion: a successful bind has a successful first part. *)
Lemma bind_ok {S E A B} (k : M S E A) (f : A -> M S E B) s b s' :
  (a ← k; f a) s = (Ok b, s') -> exists a s1, k s = (Ok a, s1) /\ f a s1 = (Ok b, s').
Proof. unfold mbind, M_bind. destruct (k s) as [[a|?|] s1]; [|done..]. intros Hf. by exists a, s1. Qed.

Lemma obind_ok {E A B} (r : outcome E A) (f : A -> outcome E B) b :
  (a ← r; f a) = Ok b -> exists a, r = Ok a /\ f a = Ok b.
Proof. destruct r as [a|?|]; [|done..]. intros Hf. by exists a. Qed.

Lemma expect_ok {E A} (r : outcome E A) a : expect r = Ok a -> r = Ok a.
Proof. by destruct r. Qed.

Lemma map_err_ok {E F A} (f : E -> F) (r : outcome E A) a : map_err f r = Ok a -> r = Ok a.
Proof. destruct r; simpl; congruence. Qed.

(** ** Machine integers

    A [w]-bit unsigned value is a [Z] in [0, 2^w).  [wrap w] is the cast
    [as uW] (truncation of the two's complement representation) and [sint w]
    the cast [as iW] (reinterpretation as a signed number). *)

Definition wrap (w z : Z) : Z := z mod 2 ^ w.

Definition sint (w z : Z) : Z :=
  let m := wrap w z in
  if m <? 2 ^ (w - 1) then m else m - 2 ^ w.

Definition is_u (w z : Z) : Prop := 0 <= z < 2 ^ w.
Abbreviation is_u64 := (is_u 64).
Abbreviation is_u32 := (is_u 32).
Abbreviation is_byte := (is_u 8).

Declare Scope bits_scope.
Delimit Scope bits_scope with bits.
Infix ".&" := Z.land (at level 32, left associativity) : bits_scope.
Infix ".|" := Z.lor (at level 34, left associativity) : bits_scope.
Infix ".^" := Z.lxor (at level 33, left associativity) : bits_scope.
Infix ".<<" := Z.shiftl (at level 31, left associativity) : bits_scope.
Infix ".>>" := Z.shiftr (at level 31, left associativity) : bits_scope.
#[global] Open Scope bits_scope.

(** [checked_add] on [u64]/[usize] *)
Definition checked_add64 (a b : Z) : option Z :=
  if a + b <? 2 ^ 64 then Some (a + b) else None.

(** [checked_mul] on [u64]/[usize] *)
Definition checked_mul64 (a b : Z) : option Z :=
  if a * b <? 2 ^ 64 then Some (a * b) else None.

(** ** Little-endian encodings *)

(** [to_le_bytes] of an [8*n]-bit integer *)
Fixpoint le_bytes (n : nat) (z : Z) : list Z :=
  match n with
  | O => []
  | S n' => z mod 256 :: le_bytes n' (z / 256)
  end.

(** [from_le_bytes] *)
Fixpoint le_val (l : list Z) : Z :=
  match l with
  | [] => 0
  | b :: t => b + 256 * le_val t
  end.

(** ** Slices

    [&l[a..b]] panics unless [a <= b <= l.len()]; [l.get(a..b)] is [None] then. *)

Definition slice_get (l : list Z) (a b : Z) : option (list Z) :=
  if (0 <=? a) && (a <=? b) && (b <=? Z.of_nat (length l))
  then Some (take (Z.to_nat (b - a)) (drop (Z.to_nat a) l)) else None.

Definition slice {E} (l : list Z) (a b : Z) : outcome E (list Z) :=
  match slice_get l a b with Some s => Ok s | None => Panic end.

(** [uN::from_le_bytes(l[o..o + n].try_into().unwrap())] *)
Definition le_at {E} (l : list Z) (o n : Z) : outcome E Z :=
  s ← slice l o (o + n); mret (le_val s).

(** ** External hash functions

    The crates [blake3] and [sha2] are not part of the repository.  What the code
    relies on: a hasher fed piecewise digests the concatenation of the pieces, and
    a digest is 32 bytes. *)

Class Blake3 : Type := {
  blake3 : list Z -> list Z;
  blake3_len : forall x, length (blake3 x) = 32%nat;
  blake3_byte : forall x, Forall is_byte (blake3 x);
}.

Class Sha256 : Type := {
  sha256 : list Z -> list Z;
  sha256_len : forall x, length (sha256 x) = 32%nat;
  sha256_byte : forall x, Forall is_byte (sha256 x);
}.

(** A concrete 32-byte digest, to evaluate definitions on concrete inputs. *)
Definition toy_digest (l : list Z) : list Z :=
  le_bytes 32 (fold_left (fun acc b => (acc * 31 + b + 1) .& 0x3fffffff) l 0).

Lemma toy_digest_len l : length (toy_digest l) = 32%nat.
Proof. done. Qed.

Lemma toy_digest_byte l : Forall is_byte (toy_digest l).
Proof.
  unfold toy_digest. generalize (fold_left (fun acc b => (acc * 31 + b + 1) .& 0x3fffffff) l 0).
  generalize 32%nat. intros n. induction n; intros; constructor; [|done].
  apply Z.mod_pos_bound. lia.
Qed.

Definition toy_blake3 : Blake3 :=
  {| blake3 := toy_digest; blake3_len := toy_digest_len; blake3_byte := toy_digest_byte |}.
Definition toy_sha256 : Sha256 :=
  {| sha256 := toy_digest; sha256_len := toy_digest_len; sha256_byte := toy_digest_byte |}.

(** An explicit collision of a hash function. *)
Definition collision (h : list Z -> list Z) (x y : list Z) : Prop := x <> y /\ h x = h y.

(** ** Arithmetic facts shared by the components *)

Lemma pow2_pos w : 0 <= w -> 0 < 2 ^ w.
Proof. intros. by apply Z.pow_pos_nonneg. Qed.

Lemma wrap_range w z : 0 <= w -> is_u w (wrap w z).
Proof. intros. apply Z.mod_pos_bound. by apply pow2_pos. Qed.

Lemma wrap_small w z : is_u w z -> wrap w z = z.
Proof. apply Z.mod_small. Qed.

Lemma wrap_wrap w z : 0 <= w -> wrap w (wrap w z) = wrap w z.
Proof. intros. by apply wrap_small, wrap_range. Qed.

Lemma sint_range w z : 0 < w -> - 2 ^ (w - 1) <= sint w z < 2 ^ (w - 1).
Proof.
  intros. unfold sint. pose proof (wrap_range w z ltac:(lia)) as [??].
  assert (2 ^ w = 2 * 2 ^ (w - 1)) by (rewrite <- Z.pow_succ_r by lia; f_equal; lia).
  destruct (Z.ltb_spec (wrap w z) (2 ^ (w - 1))); lia.
Qed.

(** Casting a signed reinterpretation back is the original truncation. *)
Lemma wrap_sint w z : 0 <= w -> wrap w (sint w z) = wrap w z.
Proof.
  intros. unfold sint. destruct (Z.ltb_spec (wrap w z) (2 ^ (w - 1))).
  - by apply wrap_wrap.
  - unfold wrap at 1. replace (wrap w z - 2 ^ w) with (wrap w z + (-1) * 2 ^ w) by lia.
    rewrite Z.mod_add by (pose proof (pow2_pos w); lia). by apply wrap_wrap.
Qed.

(** A number fits [w] bits exactly when its bits from [w] upwards are clear. *)
Lemma is_u_testbit w z :
  0 <= w -> is_u w z <-> (forall i, w <= i -> Z.testbit z i = false).
Proof.
  intros Hw. split.
  - intros Hz i Hi. rewrite <- (wrap_small w z Hz). apply Z.mod_pow2_bits_high. lia.
  - intros Hz. replace z with (wrap w z); [by apply wrap_range|].
    apply Z.bits_inj'. intros i Hi. unfold wrap.
    destruct (decide (i < w)); [apply Z.mod_pow2_bits_low; lia|].
    rewrite Z.mod_pow2_bits_high by lia. symmetry. apply Hz. lia.
Qed.

Ltac by_testbit :=
  intros; apply is_u_testbit; [lia|];
  let i := fresh "i" in let Hi := fresh "Hi" in
  intros i Hi; rewrite ?Z.land_spec, ?Z.lor_spec, ?Z.lxor_spec, ?Z.ldiff_spec;
  repeat match goal with
         | H : is_u ?w ?z |- context [Z.testbit ?z i] =>
             rewrite (proj1 (is_u_testbit w z ltac:(lia)) H i) by lia
         end;
  rewrite ?andb_false_l, ?andb_false_r; try reflexivity.

Lemma land_range w a b : 0 <= w -> is_u w a -> is_u w (a .& b).
Proof. by_testbit. Qed.

Lemma land_range_r w a b : 0 <= w -> is_u w b -> is_u w (a .& b).
Proof. by_testbit. Qed.

Lemma lor_range w a b : 0 <= w -> is_u w a -> is_u w b -> is_u w (a .| b).
Proof. by_testbit. Qed.

Lemma lxor_range w a b : 0 <= w -> is_u w a -> is_u w b -> is_u w (a .^ b).
Proof. by_testbit. Qed.

Lemma ldiff_range w a b : 0 <= w -> is_u w a -> is_u w (Z.ldiff a b).
Proof. by_testbit. Qed.

Lemma shiftr_range w a n : 0 <= w -> 0 <= n -> is_u w a -> is_u w (a .>> n).
Proof.
  intros Hw Hn Ha. apply is_u_testbit; [done|]. intros i Hi.
  rewrite Z.shiftr_spec by lia. apply (proj1 (is_u_testbit w a Hw) Ha). lia.
Qed.

Lemma is_u_weaken w w' z : 0 <= w <= w' -> is_u w z -> is_u w' z.
Proof. intros ? [??]. split; [done|]. pose proof (Z.pow_le_mono_r 2 w w'). lia. Qed.

(** ** Little-endian encodings: round trips *)

Lemma length_le_bytes n z : length (le_bytes n z) = n.
Proof. revert z. induction n; intros; simpl; [done|]. by rewrite IHn. Qed.

Lemma le_bytes_range n z : Forall is_byte (le_bytes n z).
Proof.
  revert z. induction n; intros; simpl; constructor; [|done].
  apply Z.mod_pos_bound. lia.
Qed.

Lemma le_val_le_bytes n z : is_u (8 * Z.of_nat n) z -> le_val (le_bytes n z) = z.
Proof.
  revert z. induction n as [|n IH]; intros z [Hz1 Hz2].
  - simpl in *. lia.
  - cbn [le_bytes le_val]. rewrite IH.
    + pose proof (Z.div_mod z 256). lia.
    + split; [by apply Z.div_pos|].
      apply Z.div_lt_upper_bound; [lia|].
      replace (8 * Z.of_nat (S n)) with (8 + 8 * Z.of_nat n) in Hz2 by lia.
      rewrite Z.pow_add_r in Hz2 by lia. done.
Qed.

Lemma le_val_range l : Forall is_byte l -> is_u (8 * Z.of_nat (length l)) (le_val l).
Proof.
  unfold is_u. induction 1 as [|b l [Hb1 Hb2] _ [IH1 IH2]]; [done|]. cbn [le_val length].
  replace (8 * Z.of_nat (S (length l))) with (8 + 8 * Z.of_nat (length l)) by lia.
  rewrite Z.pow_add_r by lia. change (2 ^ 8) with 256 in *. lia.
Qed.

Lemma le_bytes_le_val l n : Forall is_byte l -> length l = n -> le_bytes n (le_val l) = l.
Proof.
  intros Hl <-. induction Hl as [|b l [Hb1 Hb2] _ IH]; [done|].
  change (2 ^ 8) with 256 in *. cbn [length le_bytes le_val]. f_equal.
  - rewrite (Z.mul_comm 256), Z.mod_add by lia. by apply Z.mod_small.
  - rewrite (Z.mul_comm 256), Z.div_add by lia. by rewrite Z.div_small, Z.add_0_l by lia.
Qed.

Lemma le_bytes_inj n a b :
  is_u (8 * Z.of_nat n) a -> is_u (8 * Z.of_nat n) b -> le_bytes n a = le_bytes n b -> a = b.
Proof.
  intros Ha Hb Heq. by rewrite <- (le_val_le_bytes n a), <- (le_val_le_bytes n b), Heq.
Qed.

(** Splitting a concatenation whose left parts have the same length. *)
Lemma app_inj_len {A} (l1 l2 k1 k2 : list A) :
  length l1 = length l2 -> l1 ++ k1 = l2 ++ k2 -> l1 = l2 /\ k1 = k2.
Proof. intros ? ?. by apply app_inj_1. Qed.

Lemma le_bytes_app_inj n a b (k1 k2 : list Z) :
  is_u (8 * Z.of_nat n) a -> is_u (8 * Z.of_nat n) b ->
  le_bytes n a ++ k1 = le_bytes n b ++ k2 -> a = b /\ k1 = k2.
Proof.
  intros Ha Hb Heq. apply app_inj_len in Heq as [Heq ->]; [|by rewrite !length_le_bytes].
  split; [|done]. by eapply le_bytes_inj.
Qed.

(** Prepending a byte is an [or] with the shifted rest, as the load loops do it. *)
Lemma byte_cons_lor b r : is_byte b -> b .| (r .<< 8) = b + 256 * r.
Proof.
  intros Hb. assert (Z.land b (r .<< 8) = 0) as Hl.
  { apply Z.bits_inj'. intros i Hi. rewrite Z.land_spec, Z.bits_0.
    destruct (decide (i < 8)).
    - rewrite Z.shiftl_spec_low by lia. by rewrite andb_false_r.
    - by rewrite (proj1 (is_u_testbit 8 b ltac:(lia)) Hb i) by lia. }
  rewrite <- (Z.lxor_lor _ _ Hl), <- (Z.add_nocarry_lxor _ _ Hl).
  rewrite Z.shiftl_mul_pow2 by lia. lia.
Qed.

Lemma lor_shift_step v b r i :
  is_byte b -> 0 <= i ->
  (v .| (b .<< (8 * i))) .| (r .<< (8 * (i + 1))) = v .| ((b + 256 * r) .<< (8 * i)).
Proof.
  intros Hb Hi. rewrite <- byte_cons_lor by done.
  rewrite Z.shiftl_lor, Z.shiftl_shiftl by lia.
  replace (8 * (i + 1)) with (8 + 8 * i) by lia. by rewrite Z.lor_assoc.
Qed.

Lemma seqZ_S_cons m n : seqZ m (Z.of_nat (S n)) = m :: seqZ (m + 1) (Z.of_nat n).
Proof. rewrite seqZ_cons by lia. f_equal. f_equal; lia. Qed.

(** ** Slices of concatenations *)

Lemma slice_get_app l a k :
  slice_get (l ++ a ++ k) (Z.of_nat (length l)) (Z.of_nat (length l) + Z.of_nat (length a)) = Some a.
Proof.
  unfold slice_get. rewrite !length_app.
  rewrite !(proj2 (Z.leb_le _ _)) by lia. simpl. f_equal.
  rewrite Nat2Z.id, drop_app_length.
  replace (Z.to_nat (Z.of_nat (length l) + Z.of_nat (length a) - Z.of_nat (length l)))
    with (length a) by lia. apply take_app_length.
Qed.

Lemma slice_app {E} l a k i j :
  i = Z.of_nat (length l) -> j = i + Z.of_nat (length a) ->
  slice (E := E) (l ++ a ++ k) i j = Ok a.
Proof. intros -> ->. unfold slice. by rewrite slice_get_app. Qed.

(** Reading back a little-endian field at its offset. *)
Lemma le_at_app {E} l n v k i m :
  i = Z.of_nat (length l) -> m = Z.of_nat n -> is_u (8 * m) v ->
  le_at (E := E) (l ++ le_bytes n v ++ k) i m = Ok v.
Proof.
  intros Hi -> Hv. unfold le_at.
  rewrite (slice_app l (le_bytes n v) k) by (rewrite ?length_le_bytes; lia).
  unfold mbind, outcome_bind, mret, outcome_ret. by rewrite le_val_le_bytes.
Qed.

Lemma slice_get_Some l a b :
  0 <= a <= b -> b <= Z.of_nat (length l) ->
  exists s, slice_get l a b = Some s /\ Z.of_nat (length s) = b - a /\
            (Forall is_byte l -> Forall is_byte s).
Proof.
  intros Hab Hb. unfold slice_get. rewrite !(proj2 (Z.leb_le _ _)) by lia. simpl.
  eexists. split; [done|]. rewrite length_take, length_drop. split; [lia|].
  intros. by apply Forall_take, Forall_drop.
Qed.

Lemma slice_get_inv l a b s :
  slice_get l a b = Some s ->
  0 <= a <= b /\ b <= Z.of_nat (length l) /\ Z.of_nat (length s) = b - a.
Proof.
  unfold slice_get. intros Hs. case_match eqn:E; [|done]. injection Hs as <-.
  apply andb_true_iff in E as [E E3]. apply andb_true_iff in E as [E1 E2].
  rewrite !Z.leb_le in *. rewrite length_take, length_drop. lia.
Qed.

Lemma le_at_ok {E} l o n :
  0 <= o -> 0 <= n -> o + n <= Z.of_nat (length l) ->
  exists v, le_at (E := E) l o n = Ok v /\ (Forall is_byte l -> is_u (8 * n) v).
Proof.
  intros. unfold le_at, slice.
  destruct (slice_get_Some l o (o + n)) as (s & -> & Hl & Hb); [lia..|].
  exists (le_val s). split; [done|]. intros Hf.
  replace (8 * n) with (8 * Z.of_nat (length s)) by lia. by apply le_val_range, Hb.
Qed.

(** ** Lists *)

Lemma filter_none {A} (P : A -> Prop) `{forall x, Decision (P x)} (l : list A) :
  (forall x, x ∈ l -> ~ P x) -> filter P l = [].
Proof.
  induction l as [|a l IH]; intros Hl; [done|].
  rewrite filter_cons_False by (apply Hl; by left). apply IH. intros x Hx. apply Hl. by right.
Qed.

(** Elements of a list are told apart by a key without repetitions. *)
Lemma NoDup_fmap_eq {A B} (f : A -> B) l x y : NoDup (f <$> l) -> x ∈ l -> y ∈ l -> f x = f y -> x = y.
Proof.
  induction l as [|z l IH]; [by intros _ ?%elem_of_nil|]. csimpl. intros [Hz Hnd]%NoDup_cons Hx Hy Hf.
  apply elem_of_cons in Hx as [->|Hx], Hy as [->|Hy]; [done| | |by apply IH].
  - destruct Hz. rewrite Hf. by apply list_elem_of_fmap_2.
  - destruct Hz. rewrite <- Hf. by apply list_elem_of_fmap_2.
Qed.

(** ** Automation *)

Create HintDb ranges.
#[export] Hint Resolve wrap_range lor_range lxor_range land_range ldiff_range le_bytes_range
  length_le_bytes : ranges.
#[export] Hint Extern 1 (_ <= _) => lia : ranges.
#[export] Hint Extern 1 (_ < _) => lia : ranges.

(** Case analysis on every [match] and [if] of the goal, dropping the branches
    that contradict the context. *)
Ltac cases :=
  repeat (case_match; simplify_eq; try done).

(** Turn boolean comparisons in the context into propositions. *)
Ltac bools :=
  repeat match goal with
  | H : (_ =? _) = true |- _ => apply Z.eqb_eq in H
  | H : (_ =? _) = false |- _ => apply Z.eqb_neq in H
  | H : (_ <? _) = true |- _ => apply Z.ltb_lt in H
  | H : (_ <? _) = false |- _ => apply Z.ltb_ge in H
  | H : (_ <=? _) = true |- _ => apply Z.leb_le in H
  | H : (_ <=? _) = false |- _ => apply Z.leb_gt in H
  | H : (_ && _) = true |- _ => apply andb_true_iff in H as [? ?]
  | H : (_ || _) = false |- _ => apply orb_false_iff in H as [? ?]
  | H : negb _ = true |- _ => apply negb_true_iff in H
  | H : negb _ = false |- _ => apply negb_false_iff in H
  | H : bool_decide _ = true |- _ => apply bool_decide_eq_true in H
  | H : bool_decide _ = false |- _ => apply bool_decide_eq_false in H
  end.
