(* ===== verification/Text.v ===== *)
(** * Strings, bytes and hexadecimal

    A Rust [str] is its UTF-8 bytes; [string] holds them one byte per [ascii].
    Slicing at a byte offset panics off a character boundary.  The hexadecimal
    encoder ([format!("{b:02x}")] over bytes, the [hex]/[to_hex] helpers of every
    crate) and [u8::from_str_radix(_, 16)] are the library functions the crates
    share. *)

From stdpp Require Export pretty.
From Stdlib Require Export Ascii.
From S2P Require Import Prelude.

#[global] Open Scope Z_scope.

(** [s.as_bytes()] *)
Definition as_bytes (s : string) : list Z :=
  (fun a => Z.of_N (N_of_ascii a)) <$> String.list_ascii_of_string s.

Definition from_bytes (l : list Z) : string :=
  String.string_of_list_ascii ((fun b => ascii_of_N (Z.to_N b)) <$> l).

(** [s.len()] *)
Definition str_len (s : string) : Z := Z.of_nat (length (as_bytes s)).

Lemma as_bytes_inj s1 s2 : as_bytes s1 = as_bytes s2 -> s1 = s2.
Proof.
  intros Heq. rewrite <- (String.string_of_list_ascii_of_string s1), <- (String.string_of_list_ascii_of_string s2).
  f_equal. unfold as_bytes in Heq. revert Heq. apply list_fmap_eq_inj.
  intros a b Hab. apply N2Z.inj in Hab. rewrite <- (ascii_N_embedding a), <- (ascii_N_embedding b).
  by rewrite Hab.
Qed.

Lemma as_bytes_app a b : as_bytes (a +:+ b) = as_bytes a ++ as_bytes b.
Proof.
  induction a as [|c a IH]; [done|].
  change (as_bytes (String c a +:+ b)) with (Z.of_N (Ascii.N_of_ascii c) :: as_bytes (a +:+ b)). by rewrite IH.
Qed.

Lemma string_length_app a b : String.length (a +:+ b) = (String.length a + String.length b)%nat.
Proof. induction a as [|c a IH]; [done|]. simpl. by rewrite IH. Qed.

Lemma as_bytes_range s : Forall is_byte (as_bytes s).
Proof.
  apply Forall_fmap, Forall_true. intros a. simpl. pose proof (N_ascii_bounded a). split; lia.
Qed.

Lemma as_from_bytes l : Forall is_byte l -> as_bytes (from_bytes l) = l.
Proof.
  intros Hl. unfold as_bytes, from_bytes. rewrite String.list_ascii_of_string_of_list_ascii.
  induction Hl as [|b l [Hb1 Hb2] _ IH]; [done|]. rewrite !fmap_cons, IH. f_equal.
  rewrite N_ascii_embedding by lia. lia.
Qed.

Lemma from_as_bytes s : from_bytes (as_bytes s) = s.
Proof. apply as_bytes_inj, as_from_bytes, as_bytes_range. Qed.

Lemma mapM_cons_ok {E A B} (f : A -> outcome E B) x l y ys :
  f x = Ok y -> mapM f l = Ok ys -> mapM f (x :: l) = Ok (y :: ys).
Proof. intros Hx Hl. cbn [mapM]. rewrite Hx. unfold mbind at 1, outcome_bind at 1. by rewrite Hl. Qed.

(** ** Character boundaries *)

Definition is_char_boundary (s : string) (i : Z) : bool :=
  (i =? 0) || (i =? str_len s) ||
  match as_bytes s !! Z.to_nat i with
  | Some b => (i <? str_len s) && negb (b .& 0xc0 =? 0x80)
  | None => false
  end.

(** [&s[a..b]] *)
Definition str_slice {E} (s : string) (a b : Z) : outcome E string :=
  match slice_get (as_bytes s) a b with
  | Some l => if is_char_boundary s a && is_char_boundary s b then Ok (from_bytes l) else Panic
  | None => Panic
  end.

(** ** Hexadecimal *)

(** The lowercase digit of a nibble, in ASCII. *)
Definition hex_nibble (d : Z) : Z := if d <? 10 then 48 + d else 87 + d.

Definition hex_bytes (l : list Z) : list Z :=
  concat ((fun b => [hex_nibble (b / 16); hex_nibble (b mod 16)]) <$> l).

(** [bytes.iter().map(|b| format!("{b:02x}")).collect()] *)
Definition hex (l : list Z) : string := from_bytes (hex_bytes l).

(** The value of an ASCII hexadecimal digit, either case. *)
Definition nibble_val (c : Z) : option Z :=
  if (48 <=? c) && (c <=? 57) then Some (c - 48)
  else if (97 <=? c) && (c <=? 102) then Some (c - 97 + 10)
  else if (65 <=? c) && (c <=? 70) then Some (c - 65 + 10)
  else None.

Fixpoint radix16 (l : list Z) (acc : Z) : outcome string Z :=
  match l with
  | [] => Ok acc
  | c :: t =>
      match nibble_val c with
      | None => Err "invalid digit found in string"%string
      | Some d =>
          if 255 <? acc * 16 + d then Err "number too large to fit in target type"%string
          else radix16 t (acc * 16 + d)
      end
  end.

(** [u8::from_str_radix(s, 16)]: a leading ["+"] is accepted before at least one digit. *)
Definition from_str_radix16 (s : string) : outcome string Z :=
  match as_bytes s with
  | [] => Err "cannot parse integer from empty string"%string
  | c :: t =>
      if bool_decide (t = []) && ((c =? 43) || (c =? 45)) then
        Err "invalid digit found in string"%string
      else if c =? 43 then radix16 t 0
      else radix16 (c :: t) 0
  end.

Lemma hex_nibble_range d : is_byte (hex_nibble d) \/ d < 0 \/ 16 <= d.
Proof. unfold hex_nibble, is_u. case_match; bools; lia. Qed.

Lemma nibble_val_hex d : 0 <= d < 16 -> nibble_val (hex_nibble d) = Some d.
Proof.
  intros Hd. unfold nibble_val, hex_nibble. repeat case_match; bools; try (f_equal; lia); exfalso;
    repeat match goal with H : _ && _ = false |- _ => apply andb_false_iff in H as [H|H] end; bools; lia.
Qed.

Lemma byte_nibbles b : is_byte b -> 0 <= b / 16 < 16 /\ 0 <= b mod 16 < 16 /\ b = b / 16 * 16 + b mod 16.
Proof.
  intros [Hb1 Hb2]. change (2 ^ 8) with 256 in Hb2.
  pose proof (Z.div_mod b 16). pose proof (Z.mod_pos_bound b 16).
  assert (0 <= b / 16) by (apply Z.div_pos; lia).
  assert (b / 16 < 16) by (apply Z.div_lt_upper_bound; lia). lia.
Qed.

Lemma hex_bytes_range l : Forall is_byte l -> Forall is_byte (hex_bytes l).
Proof.
  unfold hex_bytes. induction 1 as [|b l Hb _ IH]; [constructor|]. rewrite fmap_cons, concat_cons.
  destruct (byte_nibbles b Hb) as (?&?&_). apply Forall_app. split; [|done].
  repeat constructor; unfold hex_nibble, is_u; case_match; bools; lia.
Qed.

Lemma length_hex_bytes l : length (hex_bytes l) = (2 * length l)%nat.
Proof.
  unfold hex_bytes. induction l; [done|]. rewrite fmap_cons, concat_cons, length_app, IHl. simpl. lia.
Qed.

Lemma as_bytes_hex l : Forall is_byte l -> as_bytes (hex l) = hex_bytes l.
Proof. intros Hl. apply as_from_bytes, hex_bytes_range, Hl. Qed.

Lemma str_len_hex l : Forall is_byte l -> str_len (hex l) = 2 * Z.of_nat (length l).
Proof. intros Hl. unfold str_len. rewrite as_bytes_hex, length_hex_bytes by done. lia. Qed.

Lemma hex_nibble_inj a b : 0 <= a < 16 -> 0 <= b < 16 -> hex_nibble a = hex_nibble b -> a = b.
Proof. unfold hex_nibble. intros. repeat case_match; bools; lia. Qed.

Lemma hex_inj l1 l2 : Forall is_byte l1 -> Forall is_byte l2 -> hex l1 = hex l2 -> l1 = l2.
Proof.
  intros H1 H2 Heq. assert (hex_bytes l1 = hex_bytes l2) as Hb by (by rewrite <- !as_bytes_hex, Heq).
  clear Heq. revert l2 H2 Hb. induction H1 as [|a l1 Ha _ IH]; intros [|b l2] H2 Hb; try done.
  apply Forall_cons in H2 as [Hbb H2]. unfold hex_bytes in Hb. rewrite !fmap_cons, !concat_cons in Hb.
  injection Hb as Hh Hl Ht. destruct (byte_nibbles a Ha) as (?&?&->), (byte_nibbles b Hbb) as (?&?&->).
  apply hex_nibble_inj in Hh, Hl; [|done..]. rewrite Hh, Hl. f_equal. by apply IH.
Qed.

(** ** Lossy decoding and trimming *)

(** U+FFFD, the replacement character. *)
Definition REPLACEMENT : list Z := [0xef; 0xbf; 0xbd].

Definition between (a b x : Z) : bool := (a <=? x) && (x <=? b).

(** The second bytes that may follow a leading byte of a three- or four-byte character. *)
Definition second_ok (b1 b2 : Z) : bool :=
  if b1 =? 0xe0 then between 0xa0 0xbf b2
  else if b1 =? 0xed then between 0x80 0x9f b2
  else if b1 =? 0xf0 then between 0x90 0xbf b2
  else if b1 =? 0xf4 then between 0x80 0x8f b2
  else between 0x80 0xbf b2.

(** [String::from_utf8_lossy]: every maximal part of a broken character becomes U+FFFD. *)
Fixpoint utf8_lossy (l : list Z) : list Z :=
  match l with
  | [] => []
  | b1 :: l1 =>
      if b1 <? 0x80 then b1 :: utf8_lossy l1
      else if between 0xc2 0xdf b1 then
        match l1 with
        | b2 :: l2 => if between 0x80 0xbf b2 then b1 :: b2 :: utf8_lossy l2 else REPLACEMENT ++ utf8_lossy l1
        | [] => REPLACEMENT
        end
      else if between 0xe0 0xf4 b1 then
        match l1 with
        | b2 :: l2 =>
            if negb (second_ok b1 b2) then REPLACEMENT ++ utf8_lossy l1
            else
              match l2 with
              | b3 :: l3 =>
                  if negb (between 0x80 0xbf b3) then REPLACEMENT ++ utf8_lossy l2
                  else if b1 <? 0xf0 then b1 :: b2 :: b3 :: utf8_lossy l3
                  else
                    match l3 with
                    | b4 :: l4 =>
                        if between 0x80 0xbf b4 then b1 :: b2 :: b3 :: b4 :: utf8_lossy l4
                        else REPLACEMENT ++ utf8_lossy l3
                    | [] => REPLACEMENT
                    end
              | [] => REPLACEMENT
              end
        | [] => REPLACEMENT
        end
      else REPLACEMENT ++ utf8_lossy l1
  end.

(** The characters with the Unicode property White_Space, encoded. *)
Definition WHITE_SPACE : list (list Z) :=
  ((fun b => [b]) <$> [9; 10; 11; 12; 13; 32]) ++ [[0xc2; 0x85]; [0xc2; 0xa0]; [0xe1; 0x9a; 0x80]] ++
  ((fun b => [0xe2; 0x80; b]) <$> (seqZ 0x80 11 ++ [0xa8; 0xa9; 0xaf])) ++
  [[0xe2; 0x81; 0x9f]; [0xe3; 0x80; 0x80]].

(** [l] without the prefix [p], if it has it. *)
Fixpoint strip_prefix (p l : list Z) : option (list Z) :=
  match p, l with
  | [], _ => Some l
  | a :: p', b :: l' => if a =? b then strip_prefix p' l' else None
  | _, [] => None
  end.

(** Strip any of the patterns from the front, as often as possible. *)
Fixpoint strip_all (fuel : nat) (ps : list (list Z)) (l : list Z) : list Z :=
  match fuel with
  | O => l
  | S f =>
      match head (omap (fun p => strip_prefix p l) ps) with
      | Some l' => strip_all f ps l'
      | None => l
      end
  end.

Definition strip_end (ps : list (list Z)) (l : list Z) : list Z :=
  reverse (strip_all (length l) (reverse <$> ps) (reverse l)).

(** [s.trim()] on the bytes of a string; no pattern is empty, so the length is enough fuel. *)
Definition trim (l : list Z) : list Z :=
  strip_end WHITE_SPACE (strip_all (length l) WHITE_SPACE l).

(** ** File names *)

(** The last dot splits a name. *)
Fixpoint rsplit_dot (l : list Z) : option (list Z * list Z) :=
  match l with
  | [] => None
  | c :: t =>
      match rsplit_dot t with
      | Some (a, b) => Some (c :: a, b)
      | None => if c =? 46 then Some ([], t) else None
      end
  end.

(** [Path::extension] of a file name *)
Definition extension (name : string) : option (list Z) :=
  match rsplit_dot (as_bytes name) with
  | Some (_ :: _, b) => Some b
  | _ => None
  end.

(** [Path::file_stem] of a file name *)
Definition file_stem (name : string) : string :=
  match rsplit_dot (as_bytes name) with
  | Some (c :: a, _) => from_bytes (c :: a)
  | _ => name
  end.
