(* ===== verification/Mem.v ===== *)
(** * Sparse paged memory (crates/rvcore/src/mem.rs)

    The memory of the emulator: a page directory, append-only page slots, and a
    direct-mapped lookaside that caches the directory.  The file models every
    operation of [impl Mem] with the lookaside and the slots explicit, and shows
    that they are invisible: the operations refine the same operations on a plain
    map from page numbers to pages, and two memories with the same pages are
    indistinguishable ([mem_equiv], with [Proper] instances). *)

From S2P Require Import Prelude.

(** ** Data *)

Definition PAGE_SIZE : Z := 4096.
Definition ADDR_SPACE : Z := 2 ^ 32.
Definition LOOKASIDE_SLOTS : Z := 2048.
Definition NO_SLOT : Z := 2 ^ 32 - 1.
Definition NO_PAGE : Z := 2 ^ 32 - 1.

Inductive MemError : Type := OutOfRange.

#[export] Instance MemError_eq_dec : EqDecision MemError.
Proof. solve_decision. Defined.

(** [page_slots] is the vector of pages, [page_dir] the sorted directory,
    [lookaside] the vector of [(page tag, slot)] pairs. *)
Record Mem : Type := mkMem {
  page_slots : list (list Z);
  page_dir : gmap Z nat;
  lookaside : list (Z * Z);
  syscall_log : list Z;
}.

Definition zero_page : list Z := replicate (Z.to_nat PAGE_SIZE) 0.

#[global] Arguments PAGE_SIZE : simpl never.
#[global] Arguments LOOKASIDE_SLOTS : simpl never.
#[global] Arguments ADDR_SPACE : simpl never.
#[global] Arguments zero_page : simpl never.

(** ** Operations *)

Definition new : Mem :=
  {| page_slots := [];
     page_dir := ∅;
     lookaside := replicate (Z.to_nat LOOKASIDE_SLOTS) (NO_PAGE, NO_SLOT);
     syscall_log := [] |}.

Definition look_idx (page : Z) : nat := Z.to_nat (page mod LOOKASIDE_SLOTS).

Definition look_get (m : Mem) (page : Z) : Z * Z :=
  default (NO_PAGE, NO_SLOT) (lookaside m !! look_idx page).

Definition look_set (m : Mem) (page : Z) (e : Z * Z) : Mem :=
  {| page_slots := page_slots m; page_dir := page_dir m;
     lookaside := <[look_idx page := e]> (lookaside m); syscall_log := syscall_log m |}.

(** [slot_of]: a hit answers from the lookaside, a miss walks the directory and
    fills the lookaside (only when the page exists). *)
Definition slot_of (m : Mem) (page : Z) : option nat * Mem :=
  let '(tag, slot) := look_get m page in
  if tag =? page then
    (if slot =? NO_SLOT then None else Some (Z.to_nat slot), m)
  else
    match page_dir m !! page with
    | None => (None, m)
    | Some s => (Some s, look_set m page (page, wrap 32 (Z.of_nat s)))
    end.

Definition slot_of_ro (m : Mem) (page : Z) : option nat :=
  let '(tag, slot) := look_get m page in
  if tag =? page then
    if slot =? NO_SLOT then None else Some (Z.to_nat slot)
  else page_dir m !! page.

Definition slot_mut_or_alloc (m : Mem) (page : Z) : nat * Mem :=
  let '(tag, slot) := look_get m page in
  if (tag =? page) && negb (slot =? NO_SLOT) then (Z.to_nat slot, m)
  else
    let '(s, m') :=
      match page_dir m !! page with
      | Some s => (s, m)
      | None =>
          let s := length (page_slots m) in
          (s, {| page_slots := page_slots m ++ [zero_page];
                 page_dir := <[page := s]> (page_dir m);
                 lookaside := lookaside m; syscall_log := syscall_log m |})
      end in
    (s, look_set m' page (page, wrap 32 (Z.of_nat s))).

Definition page_at (m : Mem) (s : nat) : list Z := default [] (page_slots m !! s).

(** [self.page_slots[s][off]] *)
Definition slot_byte (m : Mem) (s : nat) (off : Z) : Z :=
  default 0 (page_at m s !! Z.to_nat off).

(** [self.page_slots[s][off] = b] *)
Definition set_slot_byte (m : Mem) (s : nat) (off b : Z) : Mem :=
  {| page_slots := alter (fun pg => <[Z.to_nat off := b]> pg) s (page_slots m);
     page_dir := page_dir m; lookaside := lookaside m; syscall_log := syscall_log m |}.

Definition page_num (a : Z) : Z := wrap 32 (a / PAGE_SIZE).
Definition page_off (a : Z) : Z := a mod PAGE_SIZE.

Definition in_bounds (addr len : Z) : bool :=
  match checked_add64 addr len with
  | None => false
  | Some e => negb (ADDR_SPACE <? e)
  end.

Fixpoint read_loop (m : Mem) (addr i : Z) (n : nat) (val : Z) : Z * Mem :=
  match n with
  | O => (val, m)
  | S n' =>
      let a := addr + i in
      let '(s, m') := slot_of m (page_num a) in
      let b := match s with Some s => slot_byte m' s (page_off a) | None => 0 end in
      read_loop m' addr (i + 1) n' (val .| (b .<< (8 * i)))
  end.

Definition read (m : Mem) (addr len : Z) : outcome MemError Z * Mem :=
  if negb (len =? 1) && negb (len =? 2) && negb (len =? 4) && negb (len =? 8) then
    (Err OutOfRange, m)
  else if negb (in_bounds addr len) then (Err OutOfRange, m)
  else
    let '(v, m') := read_loop m addr 0 (Z.to_nat len) 0 in
    (Ok v, m').

Fixpoint write_loop (m : Mem) (a : Z) (bytes : list Z) : Mem :=
  match bytes with
  | [] => m
  | b :: rest =>
      let '(s, m') := slot_mut_or_alloc m (page_num a) in
      write_loop (set_slot_byte m' s (page_off a) b) (a + 1) rest
  end.

Definition write (m : Mem) (addr : Z) (bytes : list Z) : outcome MemError unit * Mem :=
  if negb (in_bounds addr (Z.of_nat (length bytes))) then (Err OutOfRange, m)
  else (Ok tt, write_loop m addr bytes).

Definition load_image (m : Mem) (base : Z) (bytes : list Z) : outcome MemError unit * Mem :=
  write m base bytes.

Definition read_region (m : Mem) (addr len : Z) : outcome MemError (list Z) :=
  if negb (in_bounds addr len) then Err OutOfRange
  else
    Ok ((fun a =>
           match slot_of_ro m (page_num a) with
           | Some s => slot_byte m s (page_off a)
           | None => 0
           end) <$> seqZ addr len).

(** The keys of the directory in ascending order: the iteration order of the
    [BTreeMap]. *)
Definition sorted_keys {A} (d : gmap Z A) : list Z :=
  merge_sort Z.le (elements (dom d)).

Definition page_iter (m : Mem) : list (Z * list Z) :=
  (fun k => (k, page_at m (default O (page_dir m !! k)))) <$> sorted_keys (page_dir m).

Definition allocated_pages (m : Mem) : nat := size (page_dir m).

(** The byte string fed to the hasher by [merkle_root]. *)
Definition root_preimage (m : Mem) : list Z :=
  concat ((fun '(idx, page) => le_bytes 4 idx ++ page) <$> page_iter m).

Definition insert_page (m : Mem) (idx : Z) (page : list Z) : Mem :=
  let m' :=
    match page_dir m !! idx with
    | Some s =>
        {| page_slots := <[s := page]> (page_slots m); page_dir := page_dir m;
           lookaside := lookaside m; syscall_log := syscall_log m |}
    | None =>
        {| page_slots := page_slots m ++ [page];
           page_dir := <[idx := length (page_slots m)]> (page_dir m);
           lookaside := lookaside m; syscall_log := syscall_log m |}
    end in
  look_set m' idx (NO_PAGE, NO_SLOT).

(** [mem.syscall_log.extend_from_slice(bytes)] *)
Definition log_extend (m : Mem) (bytes : list Z) : Mem :=
  {| page_slots := page_slots m; page_dir := page_dir m; lookaside := lookaside m;
     syscall_log := syscall_log m ++ bytes |}.

(** [std::mem::take(&mut mem.syscall_log)] *)
Definition log_take (m : Mem) : list Z * Mem :=
  (syscall_log m,
   {| page_slots := page_slots m; page_dir := page_dir m; lookaside := lookaside m;
      syscall_log := [] |}).

(** ** Abstract memory: a map from page numbers to pages *)

Definition abs (m : Mem) : gmap Z (list Z) := page_at m <$> page_dir m.

(** The byte at address [a]: unallocated pages read as zero. *)
Definition abyte (A : gmap Z (list Z)) (a : Z) : Z :=
  match A !! (a / PAGE_SIZE) with
  | Some pg => default 0 (pg !! Z.to_nat (a mod PAGE_SIZE))
  | None => 0
  end.

Definition awrite1 (A : gmap Z (list Z)) (a b : Z) : gmap Z (list Z) :=
  let p := a / PAGE_SIZE in
  <[p := <[Z.to_nat (a mod PAGE_SIZE) := b]> (default zero_page (A !! p))]> A.

Fixpoint awrite (A : gmap Z (list Z)) (a : Z) (bytes : list Z) : gmap Z (list Z) :=
  match bytes with
  | [] => A
  | b :: rest => awrite (awrite1 A a b) (a + 1) rest
  end.

(** ** The representation invariant *)

(** Pages of the pinned 4 GiB space. *)
Definition in_space (p : Z) : Prop := 0 <= p < 2 ^ 20.

Definition page_ok (pg : list Z) : Prop :=
  length pg = Z.to_nat PAGE_SIZE /\ Forall is_byte pg.

(** A lookaside entry is empty or repeats a directory entry of its own index. *)
Definition look_ok (d : gmap Z nat) (i : nat) (e : Z * Z) : Prop :=
  e = (NO_PAGE, NO_SLOT) \/
  exists s, look_idx e.1 = i /\ d !! e.1 = Some s /\ e.2 = Z.of_nat s.

Record mem_wf (m : Mem) : Prop := {
  wf_look_len : length (lookaside m) = Z.to_nat LOOKASIDE_SLOTS;
  wf_look : forall i e, lookaside m !! i = Some e -> look_ok (page_dir m) i e;
  wf_space : forall p s, page_dir m !! p = Some s -> in_space p;
  wf_slot : forall p s, page_dir m !! p = Some s -> (s < length (page_slots m))%nat;
  wf_inj : forall p q s, page_dir m !! p = Some s -> page_dir m !! q = Some s -> p = q;
  wf_count : length (page_slots m) = size (page_dir m);
  wf_pages : Forall page_ok (page_slots m);
}.

(** Two memories are equivalent when they are well formed and hold the same pages
    and the same log: slots and lookaside contents do not matter. *)
Definition mem_equiv (m1 m2 : Mem) : Prop :=
  mem_wf m1 /\ mem_wf m2 /\ abs m1 = abs m2 /\ syscall_log m1 = syscall_log m2.

#[export] Instance mem_equiv_per : RelationClasses.PER mem_equiv.
Proof.
  split.
  - intros m1 m2 (?&?&?&?). by split_and!.
  - intros m1 m2 m3 (?&?&?&?) (?&?&?&?). split_and!; try done; congruence.
Qed.

Lemma mem_equiv_refl m : mem_wf m -> mem_equiv m m.
Proof. intros. by split_and!. Qed.

(** ** Counting pages *)

Lemma size_bounded (X : gset Z) n :
  (forall x, x ∈ X -> 0 <= x < n) -> Z.of_nat (size X) <= Z.max 0 n.
Proof.
  intros HX. assert (X ⊆ list_to_set (seqZ 0 n)) as Hsub.
  { intros x Hx. apply elem_of_list_to_set, elem_of_seqZ. specialize (HX x Hx). lia. }
  apply subseteq_size in Hsub. rewrite size_list_to_set in Hsub by apply NoDup_seqZ.
  rewrite length_seqZ in Hsub. lia.
Qed.

Lemma slots_bound m : mem_wf m -> Z.of_nat (length (page_slots m)) <= 2 ^ 20.
Proof.
  intros W. rewrite (wf_count m W), <- size_dom.
  etrans; [apply (size_bounded _ (2 ^ 20))|lia].
  intros p [s Hs]%elem_of_dom. by eapply wf_space.
Qed.

Lemma slot_u32 m p s :
  mem_wf m -> page_dir m !! p = Some s -> Z.of_nat s < NO_SLOT /\ wrap 32 (Z.of_nat s) = Z.of_nat s.
Proof.
  intros W Hs. pose proof (slots_bound m W). pose proof (wf_slot m W p s Hs).
  assert (Z.of_nat s < 2 ^ 20) by lia. unfold NO_SLOT.
  split; [lia|]. apply wrap_small. unfold is_u. lia.
Qed.

(** ** The lookaside is transparent *)

Lemma look_idx_lt p : (look_idx p < Z.to_nat LOOKASIDE_SLOTS)%nat.
Proof. unfold look_idx, LOOKASIDE_SLOTS. pose proof (Z.mod_pos_bound p 2048). lia. Qed.

Lemma look_get_ok m p : mem_wf m -> look_ok (page_dir m) (look_idx p) (look_get m p).
Proof.
  intros W. unfold look_get. destruct (lookaside m !! look_idx p) eqn:E; simpl.
  - by eapply wf_look.
  - by left.
Qed.

(** A hit in the lookaside is the directory's answer. *)
Lemma look_hit m p t s :
  mem_wf m -> in_space p -> look_get m p = (t, s) -> t = p ->
  s <> NO_SLOT /\ page_dir m !! p = Some (Z.to_nat s).
Proof.
  intros W Hp Hg ->. pose proof (look_get_ok m p W) as Hok. rewrite Hg in Hok.
  destruct Hok as [[= -> ->]|(s' & _ & Hd & Hs)]; simpl in *.
  - unfold in_space, NO_PAGE in *. lia.
  - subst. destruct (slot_u32 m p s' W Hd). split; [lia|]. by rewrite Nat2Z.id.
Qed.

Lemma look_set_wf m p e :
  mem_wf m -> look_ok (page_dir m) (look_idx p) e -> mem_wf (look_set m p e).
Proof.
  intros [] He. constructor; simpl; try done.
  - by rewrite length_insert.
  - intros i e' [(<-&<-&?)|[??]]%list_lookup_insert_Some; eauto.
Qed.

Lemma look_fill_ok m p s :
  mem_wf m -> page_dir m !! p = Some s ->
  look_ok (page_dir m) (look_idx p) (p, wrap 32 (Z.of_nat s)).
Proof.
  intros W Hs. right. exists s. simpl. destruct (slot_u32 m p s W Hs) as [_ ->]. done.
Qed.

(** [slot_of] answers the directory and changes nothing but the lookaside. *)
Lemma slot_of_spec m p :
  mem_wf m -> in_space p ->
  exists m', slot_of m p = (page_dir m !! p, m') /\ mem_equiv m m' /\
             page_dir m' = page_dir m /\ page_slots m' = page_slots m.
Proof.
  intros W Hp. unfold slot_of. destruct (look_get m p) as [t s] eqn:Hg.
  destruct (Z.eqb_spec t p) as [Ht|Ht].
  - destruct (look_hit m p t s W Hp Hg Ht) as [Hs ->].
    rewrite (proj2 (Z.eqb_neq s NO_SLOT) Hs).
    exists m. split_and!; auto using mem_equiv_refl.
  - destruct (page_dir m !! p) as [s'|] eqn:Hd; [|exists m; split_and!; auto using mem_equiv_refl].
    exists (look_set m p (p, wrap 32 (Z.of_nat s'))). unfold mem_equiv. split_and!; try done.
    apply look_set_wf; [done|by apply look_fill_ok].
Qed.

Lemma slot_of_ro_spec m p : mem_wf m -> in_space p -> slot_of_ro m p = page_dir m !! p.
Proof.
  intros W Hp. unfold slot_of_ro. destruct (look_get m p) as [t s] eqn:Hg.
  destruct (Z.eqb_spec t p) as [Ht|Ht]; [|done].
  destruct (look_hit m p t s W Hp Hg Ht) as [Hs ->].
  by rewrite (proj2 (Z.eqb_neq s NO_SLOT) Hs).
Qed.

(** ** Reads *)

Lemma page_num_space a : 0 <= a < ADDR_SPACE -> page_num a = a / PAGE_SIZE /\ in_space (page_num a).
Proof.
  unfold page_num, in_space, ADDR_SPACE, PAGE_SIZE. intros Ha.
  assert (0 <= a / 4096 < 2 ^ 20) by
    (split; [apply Z.div_pos; lia|apply Z.div_lt_upper_bound; lia]).
  rewrite wrap_small by (unfold is_u; lia). lia.
Qed.

Lemma in_bounds_true addr len :
  is_u64 addr -> 0 <= len -> in_bounds addr len = true <-> addr + len <= ADDR_SPACE.
Proof.
  unfold in_bounds, checked_add64, ADDR_SPACE. intros [??] ?.
  destruct (Z.ltb_spec (addr + len) (2 ^ 64)); [|lia].
  rewrite negb_true_iff, Z.ltb_ge. done.
Qed.

Lemma abs_lookup m p : abs m !! p = page_at m <$> page_dir m !! p.
Proof. apply lookup_fmap. Qed.

Lemma abs_page_ok m p pg : mem_wf m -> abs m !! p = Some pg -> page_ok pg.
Proof.
  intros W Hp. rewrite abs_lookup in Hp. destruct (page_dir m !! p) as [s|] eqn:Hs; [|done].
  injection Hp as <-. unfold page_at.
  destruct (lookup_lt_is_Some_2 (page_slots m) s) as [pg Hpg]; [by eapply wf_slot|].
  rewrite Hpg. simpl. eapply Forall_lookup_1; [by apply wf_pages|done].
Qed.

Lemma abyte_range m a : mem_wf m -> is_byte (abyte (abs m) a).
Proof.
  intros W. unfold abyte. destruct (abs m !! _) as [pg|] eqn:Hp; [|done].
  destruct (abs_page_ok m _ pg W Hp) as [_ Hb].
  destruct (pg !! _) eqn:Hl; simpl; [|done]. by eapply Forall_lookup_1.
Qed.

(** One byte through a slot is the abstract byte. *)
Lemma slot_byte_abs m a :
  0 <= a < ADDR_SPACE ->
  match page_dir m !! page_num a with
  | Some s => slot_byte m s (page_off a)
  | None => 0
  end = abyte (abs m) a.
Proof.
  intros Ha. destruct (page_num_space a Ha) as [-> _].
  unfold abyte, slot_byte, page_off. rewrite abs_lookup. by destruct (page_dir m !! _).
Qed.

Lemma read_loop_spec m addr i n val :
  mem_wf m -> 0 <= i -> 0 <= addr -> addr + i + Z.of_nat n <= ADDR_SPACE ->
  exists m', read_loop m addr i n val =
    (val .| (le_val (abyte (abs m) <$> seqZ (addr + i) (Z.of_nat n)) .<< (8 * i)), m') /\
    mem_equiv m m'.
Proof.
  revert m i val. induction n as [|n IH]; intros m i val W Hi Ha Hb.
  - exists m. simpl. rewrite Z.shiftl_0_l, Z.lor_0_r. auto using mem_equiv_refl.
  - cbn [read_loop]. destruct (page_num_space (addr + i)) as [_ Hp]; [lia|].
    destruct (slot_of_spec m _ W Hp) as (m' & -> & He & Hd & Hs).
    destruct (IH m' (i + 1) (val .| (abyte (abs m) (addr + i) .<< (8 * i)))) as (m2 & Hr & He2);
      [apply He|lia..|].
    exists m2. split; [|by etrans].
    assert (match page_dir m !! page_num (addr + i) with
            | Some s => slot_byte m' s (page_off (addr + i)) | None => 0 end
            = abyte (abs m) (addr + i)) as ->.
    { destruct He as (_&_&->&_). rewrite <- Hd. apply slot_byte_abs. lia. }
    rewrite Hr, seqZ_S_cons. cbn [fmap list_fmap le_val]. f_equal.
    rewrite <- (lor_shift_step val) by (try apply abyte_range; done || lia).
    do 4 f_equal; [|f_equal; lia]. by destruct He as (_&_&->&_).
Qed.

Definition valid_len (len : Z) : Prop := len = 1 \/ len = 2 \/ len = 4 \/ len = 8.

#[export] Instance valid_len_dec len : Decision (valid_len len).
Proof. unfold valid_len. apply _. Defined.

(** An in-range read of 1, 2, 4 or 8 bytes is the little-endian value of the
    abstract bytes and leaves an equivalent memory. *)
Lemma read_ok m addr len :
  mem_wf m -> is_u64 addr -> valid_len len -> addr + len <= ADDR_SPACE ->
  exists m', read m addr len = (Ok (le_val (abyte (abs m) <$> seqZ addr len)), m') /\
             mem_equiv m m'.
Proof.
  intros W Ha Hl Hb. unfold read.
  replace (negb (len =? 1) && negb (len =? 2) && negb (len =? 4) && negb (len =? 8)) with false
    by (destruct Hl as [->|[->|[->| ->]]]; done).
  assert (0 < len) by (unfold valid_len in Hl; lia).
  rewrite (proj2 (in_bounds_true addr len Ha ltac:(lia)) Hb). simpl negb. cbn iota.
  destruct (read_loop_spec m addr 0 (Z.to_nat len) 0) as (m' & -> & He); [done|destruct Ha; lia..|].
  exists m'. split; [|done]. do 2 f_equal.
  rewrite Z.lor_0_l, Z.shiftl_0_r, Z.add_0_r, Z2Nat.id by lia. done.
Qed.

(** Every other read is the error, and changes nothing. *)
Lemma read_err m addr len :
  is_u64 addr -> 0 <= len -> ~ (valid_len len /\ addr + len <= ADDR_SPACE) ->
  read m addr len = (Err OutOfRange, m).
Proof.
  intros Ha Hlen Hn. unfold read.
  destruct (in_bounds addr len) eqn:Hb; [|by destruct (_ && _)].
  apply in_bounds_true in Hb; [|done..].
  replace (negb (len =? 1) && negb (len =? 2) && negb (len =? 4) && negb (len =? 8)) with true;
    [done|]. unfold valid_len in Hn. lia.
Qed.

Lemma read_region_spec m addr len :
  mem_wf m -> is_u64 addr -> 0 <= len ->
  read_region m addr len =
    if addr + len <=? ADDR_SPACE then Ok (abyte (abs m) <$> seqZ addr len) else Err OutOfRange.
Proof.
  intros W Ha Hlen. unfold read_region.
  destruct (Z.leb_spec (addr + len) ADDR_SPACE) as [Hb|Hb].
  - rewrite (proj2 (in_bounds_true addr len Ha Hlen) Hb). simpl. f_equal.
    apply list_fmap_ext. intros i a Hi. apply lookup_seqZ in Hi as [-> Hi].
    destruct Ha. destruct (page_num_space (addr + Z.of_nat i)) as [_ Hp]; [lia|].
    rewrite slot_of_ro_spec by done. apply slot_byte_abs. lia.
  - destruct (in_bounds addr len) eqn:E; [|done]. apply in_bounds_true in E; [lia|done..].
Qed.

(** ** Writes *)

Lemma zero_page_ok : page_ok zero_page.
Proof.
  split; [apply length_replicate|]. apply Forall_replicate. done.
Qed.

Lemma alloc_wf m p :
  mem_wf m -> in_space p -> page_dir m !! p = None ->
  mem_wf {| page_slots := page_slots m ++ [zero_page];
            page_dir := <[p := length (page_slots m)]> (page_dir m);
            lookaside := lookaside m; syscall_log := syscall_log m |}.
Proof.
  intros W Hp Hn. destruct W. constructor; simpl; try done.
  - intros i e He. destruct (wf_look0 i e He) as [|(s&?&Hd&?)]; [by left|right].
    exists s. rewrite lookup_insert_ne; [done|congruence].
  - intros q s [[-> _]|[_ ?]]%lookup_insert_Some; eauto.
  - intros q s. rewrite length_app. simpl.
    intros [[-> <-]|[_ Hs]]%lookup_insert_Some; [lia|]. specialize (wf_slot0 q s Hs). lia.
  - intros q r s [[-> <-]|[? Hq]]%lookup_insert_Some [[-> Hr]|[? Hr]]%lookup_insert_Some;
      try done; eauto.
    + specialize (wf_slot0 r _ Hr). lia.
    + subst. specialize (wf_slot0 q _ Hq). lia.
  - rewrite length_app, map_size_insert_None by done. simpl. lia.
  - apply Forall_app_2; [done|]. apply Forall_singleton, zero_page_ok.
Qed.

Lemma alloc_abs m p :
  mem_wf m -> page_dir m !! p = None ->
  abs {| page_slots := page_slots m ++ [zero_page];
         page_dir := <[p := length (page_slots m)]> (page_dir m);
         lookaside := lookaside m; syscall_log := syscall_log m |} = <[p := zero_page]> (abs m).
Proof.
  intros W Hn. apply map_eq. intros q. rewrite abs_lookup. simpl.
  destruct (decide (p = q)) as [->|Hpq].
  - rewrite !lookup_insert_eq. simpl. unfold page_at. simpl.
    by rewrite lookup_app_r, Nat.sub_diag by lia.
  - rewrite !lookup_insert_ne by done. rewrite abs_lookup.
    destruct (page_dir m !! q) as [s|] eqn:Hs; [|done]. simpl. f_equal.
    unfold page_at. simpl. by rewrite lookup_app_l by (by eapply wf_slot).
Qed.

(** After [slot_mut_or_alloc] the page exists, at the returned slot; a fresh page
    is all zeros, an existing one is untouched. *)
Lemma slot_mut_or_alloc_spec m p :
  mem_wf m -> in_space p ->
  exists s m', slot_mut_or_alloc m p = (s, m') /\ mem_wf m' /\
    page_dir m' !! p = Some s /\
    abs m' = <[p := default zero_page (abs m !! p)]> (abs m) /\
    syscall_log m' = syscall_log m.
Proof.
  intros W Hp. unfold slot_mut_or_alloc. destruct (look_get m p) as [t s] eqn:Hg.
  destruct ((t =? p) && negb (s =? NO_SLOT)) eqn:Hhit.
  - bools. destruct (look_hit m p t s W Hp Hg) as [_ Hd]; [done|].
    exists (Z.to_nat s), m. split_and!; try done.
    rewrite abs_lookup, Hd. simpl. rewrite insert_id; [done|]. by rewrite abs_lookup, Hd.
  - destruct (page_dir m !! p) as [s'|] eqn:Hd.
    + eexists _, _. split; [done|]. split_and!; try done.
      * apply look_set_wf; [done|by apply look_fill_ok].
      * change (abs (look_set _ _ _)) with (abs m).
        rewrite abs_lookup, Hd. simpl. rewrite insert_id; [done|]. by rewrite abs_lookup, Hd.
    + eexists _, _. split; [done|]. split_and!; try done.
      * apply look_set_wf; [by apply alloc_wf|]. apply (look_fill_ok _ p); [by apply alloc_wf|].
        apply lookup_insert_eq.
      * apply lookup_insert_eq.
      * rewrite (abs_lookup m p), Hd. simpl. by apply alloc_abs.
Qed.

Lemma set_slot_byte_wf m s off b :
  mem_wf m -> is_byte b -> mem_wf (set_slot_byte m s off b).
Proof.
  intros [] Hb. constructor; simpl; rewrite ?length_alter; try done.
  apply Forall_alter; [done|]. intros pg _ [Hl Hbs]. split; [by rewrite length_insert|].
  by apply Forall_insert.
Qed.

Lemma set_slot_byte_abs m p s off b :
  mem_wf m -> page_dir m !! p = Some s ->
  abs (set_slot_byte m s off b) =
    <[p := <[Z.to_nat off := b]> (default zero_page (abs m !! p))]> (abs m).
Proof.
  intros W Hs. apply map_eq. intros q. rewrite abs_lookup. simpl.
  assert (forall q' s', page_dir m !! q' = Some s' -> is_Some (page_slots m !! s')) as Hin.
  { intros. apply lookup_lt_is_Some_2. by eapply wf_slot. }
  destruct (decide (p = q)) as [<-|Hpq].
  - rewrite lookup_insert_eq, abs_lookup, Hs. simpl. unfold page_at, set_slot_byte. simpl.
    destruct (Hin p s Hs) as [pg Hpg]. by rewrite list_lookup_alter_eq, Hpg.
  - rewrite lookup_insert_ne, abs_lookup by done.
    destruct (page_dir m !! q) as [s'|] eqn:Hs'; [|done]. simpl. f_equal.
    unfold page_at, set_slot_byte. simpl. rewrite list_lookup_alter_ne; [done|].
    intros ->. apply Hpq. by eapply wf_inj.
Qed.

Lemma write_loop_spec m addr bytes :
  mem_wf m -> 0 <= addr -> addr + Z.of_nat (length bytes) <= ADDR_SPACE ->
  Forall is_byte bytes ->
  let m' := write_loop m addr bytes in
  mem_wf m' /\ abs m' = awrite (abs m) addr bytes /\ syscall_log m' = syscall_log m.
Proof.
  intros W Ha Hb Hbs. revert m addr W Ha Hb. induction Hbs as [|b bytes Hb' _ IH]; intros m addr W Ha Hb.
  - done.
  - cbn [length] in Hb. cbn [write_loop awrite].
    destruct (page_num_space addr) as [Hn Hp]; [lia|].
    destruct (slot_mut_or_alloc_spec m _ W Hp) as (s & m' & -> & W' & Hs & Habs & Hlog).
    destruct (IH (set_slot_byte m' s (page_off addr) b) (addr + 1)) as (W2 & Habs2 & Hlog2);
      [by apply set_slot_byte_wf|lia..|].
    split_and!; [done| |simpl in *; congruence].
    rewrite Habs2. f_equal. rewrite (set_slot_byte_abs m' (page_num addr)) by done.
    rewrite Habs, lookup_insert_eq, insert_insert_eq, Hn. done.
Qed.

Lemma write_ok m addr bytes :
  mem_wf m -> is_u64 addr -> addr + Z.of_nat (length bytes) <= ADDR_SPACE ->
  Forall is_byte bytes ->
  exists m', write m addr bytes = (Ok tt, m') /\ mem_wf m' /\
    abs m' = awrite (abs m) addr bytes /\ syscall_log m' = syscall_log m.
Proof.
  intros W Ha Hb Hbs. unfold write.
  rewrite (proj2 (in_bounds_true addr (Z.of_nat (length bytes)) Ha ltac:(lia)) Hb). simpl.
  exists (write_loop m addr bytes). split; [done|]. destruct Ha. by apply write_loop_spec.
Qed.

Lemma write_err m addr bytes :
  is_u64 addr -> ADDR_SPACE < addr + Z.of_nat (length bytes) ->
  write m addr bytes = (Err OutOfRange, m).
Proof.
  intros Ha Hb. unfold write. destruct (in_bounds _ _) eqn:E; [|done].
  apply in_bounds_true in E; [lia|done|lia].
Qed.

(** ** Bytes after a write *)

Definition pages_ok (A : gmap Z (list Z)) : Prop := map_Forall (fun _ pg => page_ok pg) A.

Lemma abs_pages_ok m : mem_wf m -> pages_ok (abs m).
Proof. intros W p pg Hp. by eapply abs_page_ok. Qed.

Lemma page_off_lt a : (Z.to_nat (a mod PAGE_SIZE) < Z.to_nat PAGE_SIZE)%nat.
Proof. unfold PAGE_SIZE. pose proof (Z.mod_pos_bound a 4096). lia. Qed.

Lemma awrite1_ok A a b : pages_ok A -> is_byte b -> pages_ok (awrite1 A a b).
Proof.
  intros HA Hb. apply map_Forall_insert_2; [|done].
  assert (page_ok (default zero_page (A !! (a / PAGE_SIZE)))) as [Hl Hbs].
  { destruct (A !! _) as [pg|] eqn:E; [by apply (HA _ _ E)|apply zero_page_ok]. }
  split; [by rewrite length_insert|by apply Forall_insert].
Qed.

Lemma abyte_awrite1 A a b a' :
  pages_ok A -> abyte (awrite1 A a b) a' = if decide (a = a') then b else abyte A a'.
Proof.
  intros HA. unfold abyte, awrite1.
  assert (length (default zero_page (A !! (a / PAGE_SIZE))) = Z.to_nat PAGE_SIZE) as Hlen.
  { destruct (A !! _) as [pg|] eqn:E; [by apply (HA _ _ E)|apply zero_page_ok]. }
  pose proof (page_off_lt a) as Hoff.
  destruct (decide (a = a')) as [<-|Hne].
  - rewrite lookup_insert_eq, list_lookup_insert_eq by lia. done.
  - destruct (decide (a / PAGE_SIZE = a' / PAGE_SIZE)) as [Hp|Hp];
      [|by rewrite lookup_insert_ne by done].
    rewrite Hp, lookup_insert_eq. rewrite list_lookup_insert_ne.
    + destruct (A !! (a' / PAGE_SIZE)) as [pg|]; [done|]. simpl. unfold zero_page.
      rewrite lookup_replicate_2; [done|]. apply page_off_lt.
    + intros Heq. apply Hne. unfold PAGE_SIZE in *.
      pose proof (Z.div_mod a 4096). pose proof (Z.div_mod a' 4096).
      pose proof (Z.mod_pos_bound a 4096). pose proof (Z.mod_pos_bound a' 4096). lia.
Qed.

(** A write changes the written range to the given bytes and nothing else. *)
Lemma abyte_awrite A addr bytes a :
  pages_ok A -> Forall is_byte bytes ->
  abyte (awrite A addr bytes) a =
    if decide (addr <= a < addr + Z.of_nat (length bytes))
    then default 0 (bytes !! Z.to_nat (a - addr)) else abyte A a.
Proof.
  intros HA Hbs. revert A addr HA. induction Hbs as [|b bytes Hb _ IH]; intros A addr HA.
  - simpl. by rewrite decide_False by lia.
  - cbn [awrite length]. rewrite IH by (by apply awrite1_ok).
    rewrite abyte_awrite1 by done. rewrite Nat2Z.inj_succ. repeat case_decide; try lia; subst.
    + by replace (Z.to_nat (a - addr)) with (S (Z.to_nat (a - (addr + 1)))) by lia.
    + by rewrite Z.sub_diag.
Qed.

(** ** Pages in canonical order *)

Definition apages (A : gmap Z (list Z)) : list (Z * list Z) :=
  (fun k => (k, default [] (A !! k))) <$> sorted_keys A.

Lemma elem_of_sorted_keys {A} (d : gmap Z A) k : k ∈ sorted_keys d <-> is_Some (d !! k).
Proof.
  unfold sorted_keys. rewrite merge_sort_Permutation, elem_of_elements. apply elem_of_dom.
Qed.

Lemma NoDup_sorted_keys {A} (d : gmap Z A) : NoDup (sorted_keys d).
Proof. unfold sorted_keys. rewrite merge_sort_Permutation. apply NoDup_elements. Qed.

Lemma sorted_sorted_keys {A} (d : gmap Z A) : StronglySorted Z.le (sorted_keys d).
Proof. apply (StronglySorted_merge_sort Z.le). Qed.

Lemma page_iter_abs m : page_iter m = apages (abs m).
Proof.
  unfold page_iter, apages.
  assert (sorted_keys (abs m) = sorted_keys (page_dir m)) as ->.
  { unfold sorted_keys, abs. by rewrite dom_fmap_L. }
  apply list_fmap_ext. intros i k Hk. apply list_elem_of_lookup_2, elem_of_sorted_keys in Hk as [s Hs].
  by rewrite abs_lookup, Hs.
Qed.

Lemma apages_fst A : (apages A).*1 = sorted_keys A.
Proof.
  unfold apages. rewrite <- list_fmap_compose. apply list_fmap_id.
Qed.

Lemma elem_of_apages A k pg : (k, pg) ∈ apages A <-> A !! k = Some pg.
Proof.
  unfold apages. rewrite list_elem_of_fmap. setoid_rewrite elem_of_sorted_keys. split.
  - intros (k' & [= -> ->] & [pg' ->]). done.
  - intros Hk. exists k. rewrite Hk. eauto.
Qed.

Lemma list_to_map_apages A : list_to_map (apages A) = A.
Proof.
  apply map_eq. intros k. destruct (A !! k) as [pg|] eqn:Hk.
  - apply elem_of_list_to_map_1; [rewrite apages_fst; apply NoDup_sorted_keys|].
    by apply elem_of_apages.
  - apply not_elem_of_list_to_map_1. rewrite apages_fst, elem_of_sorted_keys, Hk.
    by intros [??].
Qed.

Lemma allocated_pages_abs m : allocated_pages m = length (apages (abs m)).
Proof.
  unfold allocated_pages. rewrite <- page_iter_abs. unfold page_iter, sorted_keys.
  rewrite length_fmap, merge_sort_Permutation. by rewrite <- size_dom.
Qed.

(** Records of a four-byte index and a page: the encoding shared by the memory
    root and the snapshot. *)
Definition page_rec (r : Z * list Z) : list Z := le_bytes 4 r.1 ++ r.2.

Lemma root_preimage_abs m : root_preimage m = concat (page_rec <$> apages (abs m)).
Proof.
  unfold root_preimage. rewrite page_iter_abs. f_equal. apply list_fmap_ext.
  by intros ? [??] _.
Qed.

Definition rec_ok (r : Z * list Z) : Prop := is_u32 r.1 /\ page_ok r.2.

Lemma apages_rec_ok m : mem_wf m -> Forall rec_ok (apages (abs m)).
Proof.
  intros W. apply Forall_forall. intros [k pg] Hk%elem_of_apages. split; simpl.
  - rewrite abs_lookup in Hk. destruct (page_dir m !! k) as [s|] eqn:Hs; [|done].
    pose proof (wf_space m W k s Hs). unfold in_space, is_u in *. lia.
  - by eapply abs_page_ok.
Qed.

Lemma concat_page_rec_inj l1 l2 :
  Forall rec_ok l1 -> Forall rec_ok l2 ->
  concat (page_rec <$> l1) = concat (page_rec <$> l2) -> l1 = l2.
Proof.
  intros H1. revert l2. induction H1 as [|[k pg] l1 [Hk [Hpg _]] _ IH]; intros l2 H2 Heq;
    destruct H2 as [|[k2 pg2] l2 [Hk2 [Hpg2 _]] H2]; [done|discriminate..|].
  cbn [fmap list_fmap concat] in Heq.
  change (concat (list_fmap _ _ page_rec ?l)) with (concat (page_rec <$> l)) in Heq.
  unfold page_rec at 1 3 in Heq. cbn [fst snd] in *. rewrite <- !app_assoc in Heq.
  apply le_bytes_app_inj in Heq as [-> Heq]; [|done..].
  apply app_inj_len in Heq as [-> Heq]; [|congruence].
  f_equal. by apply IH.
Qed.

(** The preimage of the memory root determines the pages. *)
Lemma root_preimage_inj m1 m2 :
  mem_wf m1 -> mem_wf m2 -> root_preimage m1 = root_preimage m2 -> abs m1 = abs m2.
Proof.
  intros W1 W2. rewrite !root_preimage_abs. intros Heq.
  apply concat_page_rec_inj in Heq; [|by apply apages_rec_ok..].
  by rewrite <- (list_to_map_apages (abs m1)), <- (list_to_map_apages (abs m2)), Heq.
Qed.

(** ** The memory root *)

Definition merkle_root `{Blake3} (m : Mem) : list Z := blake3 (root_preimage m).

(** ** Construction and page insertion *)

Lemma new_wf : mem_wf new.
Proof.
  constructor; unfold new; cbn [lookaside page_dir page_slots]; try done.
  intros i e He. apply lookup_replicate in He as [-> _]. by left.
Qed.

Lemma new_abs : abs new = ∅.
Proof. apply fmap_empty. Qed.

Lemma insert_slots_wf m idx s page :
  mem_wf m -> page_ok page -> page_dir m !! idx = Some s ->
  mem_wf {| page_slots := <[s := page]> (page_slots m); page_dir := page_dir m;
            lookaside := lookaside m; syscall_log := syscall_log m |}.
Proof.
  intros [] Hpg Hs. constructor; simpl; rewrite ?length_insert; try done. by apply Forall_insert.
Qed.

Lemma append_slot_wf m idx page :
  mem_wf m -> in_space idx -> page_ok page -> page_dir m !! idx = None ->
  mem_wf {| page_slots := page_slots m ++ [page];
            page_dir := <[idx := length (page_slots m)]> (page_dir m);
            lookaside := lookaside m; syscall_log := syscall_log m |}.
Proof.
  intros W Hi Hpg Hn. destruct (alloc_wf m idx W Hi Hn). constructor; simpl in *; try done.
  - rewrite length_app in *. simpl in *. done.
  - rewrite length_app in *. simpl in *. done.
  - apply Forall_app_2; [by apply wf_pages|by apply Forall_singleton].
Qed.

Lemma insert_page_wf m idx page :
  mem_wf m -> in_space idx -> page_ok page -> mem_wf (insert_page m idx page).
Proof.
  intros W Hi Hpg. unfold insert_page. apply look_set_wf; [|by left].
  destruct (page_dir m !! idx) as [s|] eqn:Hs; [by eapply insert_slots_wf|by apply append_slot_wf].
Qed.

(** The directory maps pages to existing slots, one each. *)
Definition slots_ok (m : Mem) : Prop :=
  (forall p s, page_dir m !! p = Some s -> (s < length (page_slots m))%nat) /\
  (forall p q s, page_dir m !! p = Some s -> page_dir m !! q = Some s -> p = q).

Lemma wf_slots_ok m : mem_wf m -> slots_ok m.
Proof. intros []. by split. Qed.

Lemma insert_page_slots_ok m idx page : slots_ok m -> slots_ok (insert_page m idx page).
Proof.
  intros [Hs Hi]. unfold insert_page. destruct (page_dir m !! idx) as [s|] eqn:Hd; split; simpl.
  - intros p q Hp. rewrite length_insert. by eapply Hs.
  - done.
  - intros p q. rewrite length_app. simpl. destruct (decide (idx = p)) as [<-|].
    + rewrite lookup_insert_eq. intros [= <-]. lia.
    + rewrite lookup_insert_ne by done. intros ?%Hs. lia.
  - intros p q s. destruct (decide (idx = p)) as [<-|], (decide (idx = q)) as [<-|];
      rewrite ?lookup_insert_eq, ?lookup_insert_ne by done; intros H1 H2; simplify_eq; try done.
    + apply Hs in H2. lia.
    + apply Hs in H1. lia.
    + by eapply Hi.
Qed.

Lemma insert_page_abs m idx page :
  slots_ok m -> abs (insert_page m idx page) = <[idx := page]> (abs m).
Proof.
  intros [Wslot Winj]. apply map_eq. intros q. rewrite abs_lookup. unfold insert_page.
  destruct (page_dir m !! idx) as [s|] eqn:Hs; simpl.
  - destruct (decide (idx = q)) as [<-|Hq].
    + rewrite lookup_insert_eq, Hs. unfold page_at. simpl.
      rewrite list_lookup_insert_eq; [done|]. by eapply Wslot.
    + rewrite lookup_insert_ne, abs_lookup by done.
      destruct (page_dir m !! q) as [s'|] eqn:Hs'; [|done]. simpl. unfold page_at. simpl.
      rewrite list_lookup_insert_ne; [done|]. intros ->. apply Hq. by eapply Winj.
  - destruct (decide (idx = q)) as [<-|Hq].
    + rewrite !lookup_insert_eq. unfold page_at. simpl.
      by rewrite lookup_app_r, Nat.sub_diag by lia.
    + rewrite !lookup_insert_ne, abs_lookup by done.
      destruct (page_dir m !! q) as [s'|] eqn:Hs'; [|done]. simpl. unfold page_at. simpl.
      by rewrite lookup_app_l by (by eapply Wslot).
Qed.

(** ** Equivalent memories are indistinguishable *)

Lemma mem_equiv_wf_l m1 m2 : mem_equiv m1 m2 -> mem_wf m1.
Proof. by intros (?&?&?&?). Qed.

Lemma mem_equiv_wf_r m1 m2 : mem_equiv m1 m2 -> mem_wf m2.
Proof. by intros (?&?&?&?). Qed.

#[export] Instance page_iter_proper : Proper (mem_equiv ==> eq) page_iter.
Proof. intros m1 m2 (_&_&Ha&_). by rewrite !page_iter_abs, Ha. Qed.

#[export] Instance allocated_pages_proper : Proper (mem_equiv ==> eq) allocated_pages.
Proof. intros m1 m2 (_&_&Ha&_). by rewrite !allocated_pages_abs, Ha. Qed.

#[export] Instance root_preimage_proper : Proper (mem_equiv ==> eq) root_preimage.
Proof. intros m1 m2 (_&_&Ha&_). by rewrite !root_preimage_abs, Ha. Qed.

#[export] Instance merkle_root_proper `{Blake3} : Proper (mem_equiv ==> eq) merkle_root.
Proof. intros m1 m2 He. unfold merkle_root. by rewrite He. Qed.

#[export] Instance syscall_log_proper : Proper (mem_equiv ==> eq) syscall_log.
Proof. by intros m1 m2 (_&_&_&Hl). Qed.

Lemma read_dec m addr len :
  is_u64 addr -> 0 <= len ->
  {valid_len len /\ addr + len <= ADDR_SPACE} + {read m addr len = (Err OutOfRange, m)}.
Proof.
  intros Ha Hl. destruct (decide (valid_len len /\ addr + len <= ADDR_SPACE)) as [|Hn].
  - by left.
  - right. by apply read_err.
Defined.

Lemma read_equiv m1 m2 addr len :
  mem_equiv m1 m2 -> is_u64 addr -> 0 <= len ->
  (read m1 addr len).1 = (read m2 addr len).1 /\
  mem_equiv (read m1 addr len).2 (read m2 addr len).2.
Proof.
  intros He Ha Hl. pose proof He as (W1&W2&Habs&_).
  destruct (read_dec m1 addr len Ha Hl) as [[Hv Hb]|Hr1].
  - destruct (read_ok m1 addr len) as (m1' & -> & He1); [done..|].
    destruct (read_ok m2 addr len) as (m2' & -> & He2); [done..|]. simpl.
    rewrite Habs. split; [done|]. etrans; [by symmetry|]. by apply (transitivity He).
  - destruct (read_dec m2 addr len Ha Hl) as [[Hv Hb]|Hr2].
    + destruct (read_ok m1 addr len) as (m1' & Hr & _); [done..|]. congruence.
    + by rewrite Hr1, Hr2.
Qed.

Lemma write_equiv m1 m2 addr bytes :
  mem_equiv m1 m2 -> is_u64 addr -> Forall is_byte bytes ->
  (write m1 addr bytes).1 = (write m2 addr bytes).1 /\
  mem_equiv (write m1 addr bytes).2 (write m2 addr bytes).2.
Proof.
  intros He Ha Hbs. pose proof He as (W1&W2&Habs&Hlog).
  destruct (decide (addr + Z.of_nat (length bytes) <= ADDR_SPACE)).
  - destruct (write_ok m1 addr bytes) as (m1' & -> & ? & ? & ?); [done..|].
    destruct (write_ok m2 addr bytes) as (m2' & -> & ? & ? & ?); [done..|]. simpl.
    split; [done|]. unfold mem_equiv. split_and!; congruence.
  - rewrite !write_err by (done || lia). done.
Qed.

Lemma read_region_equiv m1 m2 addr len :
  mem_equiv m1 m2 -> is_u64 addr -> 0 <= len ->
  read_region m1 addr len = read_region m2 addr len.
Proof.
  intros (W1&W2&Habs&_) Ha Hl. by rewrite !read_region_spec, Habs.
Qed.

Lemma log_extend_equiv m1 m2 bytes :
  mem_equiv m1 m2 -> mem_equiv (log_extend m1 bytes) (log_extend m2 bytes).
Proof.
  intros (W1&W2&Habs&Hlog). unfold mem_equiv. split_and!; simpl; try done; [..|by f_equal].
  - by destruct W1.
  - by destruct W2.
Qed.

(** ** Theorems *)

(** Reads and writes never touch the log, whatever the state. *)
Lemma read_log m addr len : syscall_log (read m addr len).2 = syscall_log m.
Proof.
  unfold read. do 2 (case_match; [done|]).
  assert (forall n m i v, syscall_log (read_loop m addr i n v).2 = syscall_log m) as Hl.
  { intros n. induction n as [|n IH]; intros m0 i v; [done|]. cbn [read_loop]. unfold slot_of.
    repeat case_match; simplify_eq; by rewrite IH. }
  specialize (Hl (Z.to_nat len) m 0 0). by destruct (read_loop m addr 0 (Z.to_nat len) 0).
Qed.

Lemma write_log m addr bytes : syscall_log (write m addr bytes).2 = syscall_log m.
Proof.
  unfold write. case_match; [done|]. simpl. clear. revert m addr.
  induction bytes as [|b bytes IH]; intros m addr; [done|]. cbn [write_loop].
  destruct (slot_mut_or_alloc m (page_num addr)) as [s m'] eqn:E. rewrite IH. simpl.
  revert E. unfold slot_mut_or_alloc, slot_of. repeat case_match; intros; by simplify_eq.
Qed.

(** C29. [Mem::read]: on a well-formed memory, a read of 1, 2, 4 or 8 bytes that ends
    inside the 4 GiB space returns the little-endian value of the bytes stored at
    those addresses (zero where no page is allocated), whatever the lookaside holds,
    and leaves an equivalent memory; every other read is [OutOfRange] and changes
    nothing. *)
Theorem read_correct m addr len :
  mem_wf m -> is_u64 addr -> 0 <= len ->
  (valid_len len /\ addr + len <= ADDR_SPACE ->
     (read m addr len).1 = Ok (le_val (abyte (abs m) <$> seqZ addr len)) /\
     mem_equiv m (read m addr len).2) /\
  (~ (valid_len len /\ addr + len <= ADDR_SPACE) -> read m addr len = (Err OutOfRange, m)).
Proof.
  intros W Ha Hl. split; [|by apply read_err]. intros [Hv Hb].
  by destruct (read_ok m addr len) as (m' & -> & He).
Qed.

(** C30. [Mem::write]: a write that ends inside the space succeeds, keeps the memory
    well formed, and afterwards every address reads as the written byte inside the
    range and as before outside it; a write past the end is [OutOfRange] and stores
    nothing, not even the part that fits. *)
Theorem write_correct m addr bytes :
  mem_wf m -> is_u64 addr -> Forall is_byte bytes ->
  (addr + Z.of_nat (length bytes) <= ADDR_SPACE ->
     exists m', write m addr bytes = (Ok tt, m') /\ mem_wf m' /\
       forall a, abyte (abs m') a =
         if decide (addr <= a < addr + Z.of_nat (length bytes))
         then default 0 (bytes !! Z.to_nat (a - addr)) else abyte (abs m) a) /\
  (ADDR_SPACE < addr + Z.of_nat (length bytes) -> write m addr bytes = (Err OutOfRange, m)).
Proof.
  intros W Ha Hbs. split; [|by apply write_err]. intros Hb.
  destruct (write_ok m addr bytes) as (m' & Hw & W' & Habs & _); [done..|].
  exists m'. split_and!; [done..|]. intros a. rewrite Habs.
  apply abyte_awrite; [by apply abs_pages_ok|done].
Qed.

(** The memory root commits to the pages and to nothing else: memories reached by
    different allocation orders, or with different lookaside contents, have the same root;
    and memories with the same root have the same pages, or the encodings of their pages are
    an explicit BLAKE3 collision. *)
Theorem merkle_root_canonical `{Blake3} m1 m2 :
  mem_wf m1 -> mem_wf m2 ->
  (abs m1 = abs m2 -> merkle_root m1 = merkle_root m2) /\
  (merkle_root m1 = merkle_root m2 -> abs m1 = abs m2 \/ collision blake3 (root_preimage m1) (root_preimage m2)).
Proof.
  intros W1 W2. split.
  - intros Ha. unfold merkle_root. by rewrite !root_preimage_abs, Ha.
  - intros Heq. destruct (decide (root_preimage m1 = root_preimage m2)) as [Hp|]; [left|by right].
    by apply root_preimage_inj.
Qed.

(** ** Concrete instances *)

(** Two stores into different pages, in either order. *)
Definition two_stores (a b : Z) : Mem := (write (write new a [0x11; 0x22]).2 b [0x33; 0x44]).2.

Lemma write_wf m a bytes :
  mem_wf m -> is_u64 a -> a + Z.of_nat (length bytes) <= ADDR_SPACE -> Forall is_byte bytes ->
  mem_wf (write m a bytes).2.
Proof. intros. by destruct (write_ok m a bytes) as (m' & -> & ? & _). Qed.

Lemma two_stores_wf a b :
  is_u64 a -> is_u64 b -> a + 2 <= ADDR_SPACE -> b + 2 <= ADDR_SPACE -> mem_wf (two_stores a b).
Proof. intros. repeat apply write_wf; try apply new_wf; try done; by repeat constructor. Qed.

Lemma read_correct_witness :
  (read (two_stores 0x1fff 0x8000) 0x1fff 2).1 = Ok 0x2211 /\
  read (two_stores 0x1fff 0x8000) (ADDR_SPACE - 1) 2 = (Err OutOfRange, two_stores 0x1fff 0x8000).
Proof.
  assert (mem_wf (two_stores 0x1fff 0x8000)) as W by (by apply two_stores_wf).
  split.
  - destruct (read_correct (two_stores 0x1fff 0x8000) 0x1fff 2) as [[-> _] _];
      [done|done|done|split; [by right; left|done]|vm_compute; reflexivity].
  - apply (read_correct (two_stores 0x1fff 0x8000) (ADDR_SPACE - 1) 2); [done|done|done|].
    by intros [_ ?].
Defined.

Lemma write_correct_witness :
  exists m', write (two_stores 0x1fff 0x8000) 0x2000 [0x77] = (Ok tt, m') /\ mem_wf m' /\
    abyte (abs m') 0x2000 = 0x77 /\ abyte (abs m') 0x1fff = 0x11.
Proof.
  destruct (write_correct (two_stores 0x1fff 0x8000) 0x2000 [0x77]) as [Hok _];
    [by apply two_stores_wf|done|by repeat constructor|].
  destruct Hok as (m' & Hw & W & Hb); [done|]. exists m'. rewrite !Hb.
  split_and!; [done..|]. vm_compute. reflexivity.
Defined.

Lemma merkle_root_canonical_witness :
  page_slots (two_stores 0x1000 0x8000) <> page_slots (write (write new 0x8000 [0x33; 0x44]).2 0x1000 [0x11; 0x22]).2 /\
  @merkle_root toy_blake3 (two_stores 0x1000 0x8000) =
    @merkle_root toy_blake3 (write (write new 0x8000 [0x33; 0x44]).2 0x1000 [0x11; 0x22]).2.
Proof.
  split; [by vm_compute|].
  apply (@merkle_root_canonical toy_blake3); [by apply two_stores_wf| |vm_compute; reflexivity].
  repeat apply write_wf; try apply new_wf; try done; by repeat constructor.
Defined.
