(* ===== verification/Cpu.v ===== *)
(** * Machine state and its hash (crates/rvcore/src/cpu.rs, hash.rs, crates/abi/src/lib.rs)

    The register file with its hard-wired zero register, the machine CSRs, and the
    canonical state hash; the hash is shown to bind every architectural field. *)

From S2P Require Import Prelude Mem.

(** ** The job ABI *)

Definition INPUT_LEN_ADDR : Z := 0x10000000.
Definition INPUT_DATA_ADDR : Z := 0x10000008.
Definition INPUT_MAX : Z := Z.shiftl 64 20.
Definition OUTPUT_LEN_ADDR : Z := 0x20000000.
Definition OUTPUT_DATA_ADDR : Z := 0x20000008.
Definition OUTPUT_MAX : Z := Z.shiftl 1 20.
Definition STACK_TOP : Z := 0x83F00000.
Definition ISA : string := "rv64imc".

(** ** Registers *)

Record Cpu : Type := mkCpu {
  x : list Z;
  pc : Z;
  mtvec : Z;
  mepc : Z;
  mcause : Z;
  mstatus : Z;
  tohost : option Z;
}.

Definition cpu_new (pc0 sp : Z) : Cpu :=
  {| x := <[2%nat := sp]> (replicate 32 0); pc := pc0;
     mtvec := 0; mepc := 0; mcause := 0; mstatus := 0; tohost := None |}.

Definition with_x (c : Cpu) (r : list Z) : Cpu :=
  {| x := r; pc := pc c; mtvec := mtvec c; mepc := mepc c; mcause := mcause c;
     mstatus := mstatus c; tohost := tohost c |}.
Definition with_pc (c : Cpu) (v : Z) : Cpu :=
  {| x := x c; pc := v; mtvec := mtvec c; mepc := mepc c; mcause := mcause c;
     mstatus := mstatus c; tohost := tohost c |}.
Definition with_mtvec (c : Cpu) (v : Z) : Cpu :=
  {| x := x c; pc := pc c; mtvec := v; mepc := mepc c; mcause := mcause c;
     mstatus := mstatus c; tohost := tohost c |}.
Definition with_mepc (c : Cpu) (v : Z) : Cpu :=
  {| x := x c; pc := pc c; mtvec := mtvec c; mepc := v; mcause := mcause c;
     mstatus := mstatus c; tohost := tohost c |}.
Definition with_mcause (c : Cpu) (v : Z) : Cpu :=
  {| x := x c; pc := pc c; mtvec := mtvec c; mepc := mepc c; mcause := v;
     mstatus := mstatus c; tohost := tohost c |}.
Definition with_mstatus (c : Cpu) (v : Z) : Cpu :=
  {| x := x c; pc := pc c; mtvec := mtvec c; mepc := mepc c; mcause := mcause c;
     mstatus := v; tohost := tohost c |}.
Definition with_tohost (c : Cpu) (v : option Z) : Cpu :=
  {| x := x c; pc := pc c; mtvec := mtvec c; mepc := mepc c; mcause := mcause c;
     mstatus := mstatus c; tohost := v |}.

(** [Cpu::set]: writes to register 0 are dropped. *)
Definition set (c : Cpu) (reg val : Z) : Cpu :=
  if negb (reg =? 0) then with_x c (<[Z.to_nat reg := val]> (x c)) else c.

Definition get (c : Cpu) (reg : Z) : Z := default 0 (x c !! Z.to_nat reg).

(** ** The state invariant: 32 registers, [x0 = 0], every field a [u64] *)

Record cpu_wf (c : Cpu) : Prop := {
  wf_len : length (x c) = 32%nat;
  wf_zero : x c !! 0%nat = Some 0;
  wf_regs : Forall is_u64 (x c);
  wf_pc : is_u64 (pc c);
  wf_mtvec : is_u64 (mtvec c);
  wf_mepc : is_u64 (mepc c);
  wf_mcause : is_u64 (mcause c);
  wf_mstatus : is_u64 (mstatus c);
}.

(** The widths alone: what a parsed state has, where [x0] may be anything. *)
Definition cpu_ranges (c : Cpu) : Prop :=
  length (x c) = 32%nat /\ Forall is_u64 (x c) /\ is_u64 (pc c) /\ is_u64 (mtvec c) /\
  is_u64 (mepc c) /\ is_u64 (mcause c) /\ is_u64 (mstatus c).

Lemma cpu_wf_ranges c : cpu_wf c -> cpu_ranges c.
Proof. intros []. by unfold cpu_ranges. Qed.

Lemma get_range c r : cpu_wf c -> is_u64 (get c r).
Proof.
  intros W. unfold get. destruct (x c !! Z.to_nat r) eqn:E; simpl; [|done].
  eapply Forall_lookup_1; [by apply wf_regs|done].
Qed.

Lemma get_zero c : cpu_wf c -> get c 0 = 0.
Proof. intros W. unfold get. change (Z.to_nat 0) with 0%nat. by rewrite (wf_zero c W). Qed.

Lemma set_wf c r v : cpu_wf c -> 0 <= r -> is_u64 v -> cpu_wf (set c r v).
Proof.
  intros [] Hr Hv. unfold set. destruct (Z.eqb_spec r 0); simpl; [done|].
  constructor; simpl; rewrite ?length_insert; try done.
  - rewrite list_lookup_insert_ne; [done|lia].
  - by apply Forall_insert.
Qed.

Lemma with_pc_wf c v : cpu_wf c -> is_u64 v -> cpu_wf (with_pc c v).
Proof. intros [] ?. by constructor. Qed.
Lemma with_mtvec_wf c v : cpu_wf c -> is_u64 v -> cpu_wf (with_mtvec c v).
Proof. intros [] ?. by constructor. Qed.
Lemma with_mepc_wf c v : cpu_wf c -> is_u64 v -> cpu_wf (with_mepc c v).
Proof. intros [] ?. by constructor. Qed.
Lemma with_mcause_wf c v : cpu_wf c -> is_u64 v -> cpu_wf (with_mcause c v).
Proof. intros [] ?. by constructor. Qed.
Lemma with_mstatus_wf c v : cpu_wf c -> is_u64 v -> cpu_wf (with_mstatus c v).
Proof. intros [] ?. by constructor. Qed.
Lemma with_tohost_wf c v : cpu_wf c -> cpu_wf (with_tohost c v).
Proof. intros []. by constructor. Qed.

#[export] Hint Resolve get_range set_wf with_pc_wf with_mtvec_wf with_mepc_wf with_mcause_wf
  with_mstatus_wf with_tohost_wf wf_pc wf_mtvec wf_mepc wf_mcause wf_mstatus : ranges.

Lemma cpu_new_wf e sp : is_u64 e -> is_u64 sp -> cpu_wf (cpu_new e sp).
Proof.
  intros. constructor; try done. by apply Forall_insert; [apply Forall_replicate|].
Qed.

(** Reading back a written register. *)
Lemma get_set c r r' v :
  cpu_wf c -> 0 <= r < 32 -> 0 <= r' ->
  get (set c r v) r' = if decide (r = r' /\ r <> 0) then v else get c r'.
Proof.
  intros [] Hr Hr'. unfold get, set. destruct (Z.eqb_spec r 0) as [->|Hn]; simpl.
  - by rewrite decide_False by tauto.
  - destruct (decide (r = r')) as [<-|Hne].
    + rewrite decide_True by done. rewrite list_lookup_insert_eq by lia. done.
    + rewrite decide_False by tauto. rewrite list_lookup_insert_ne by lia. done.
Qed.

(** ** The state hash (hash.rs) *)

Definition GENESIS : list Z := replicate 32 0.

Section StateHash.
Context `{Blake3}.

(** The bytes [state_hash] feeds to the hasher: the previous hash, x0..x31, pc, the
    four CSRs and the memory root. *)
Definition state_preimage (prev : list Z) (c : Cpu) (m : Mem) : list Z :=
  prev ++ concat (le_bytes 8 <$> x c) ++ le_bytes 8 (pc c) ++
  concat (le_bytes 8 <$> [mtvec c; mepc c; mcause c; mstatus c]) ++ merkle_root m.

Definition state_hash (prev : list Z) (c : Cpu) (m : Mem) : list Z :=
  blake3 (state_preimage prev c m).

(** Everything the hash covers: the [tohost] latch and the log are I/O effects. *)
Definition same_state (c1 : Cpu) (m1 : Mem) (c2 : Cpu) (m2 : Mem) : Prop :=
  with_tohost c1 None = with_tohost c2 None /\ abs m1 = abs m2.

Lemma u64_list_inj (l1 l2 k1 k2 : list Z) :
  Forall is_u64 l1 -> Forall is_u64 l2 -> length l1 = length l2 ->
  concat (le_bytes 8 <$> l1) ++ k1 = concat (le_bytes 8 <$> l2) ++ k2 -> l1 = l2 /\ k1 = k2.
Proof.
  intros H1. revert l2. induction H1 as [|a l1 Ha _ IH]; intros [|b l2] H2 Hl Heq; try done.
  inversion H2 as [|? ? Hb H2']; subst. rewrite !fmap_cons, !concat_cons, <- !app_assoc in Heq.
  apply le_bytes_app_inj in Heq as [-> Heq]; [|done..].
  simpl in Hl. apply IH in Heq as [-> ->]; [done|done|lia].
Qed.

Lemma state_preimage_inj p1 c1 m1 p2 c2 m2 :
  length p1 = 32%nat -> length p2 = 32%nat -> cpu_ranges c1 -> cpu_ranges c2 ->
  state_preimage p1 c1 m1 = state_preimage p2 c2 m2 ->
  p1 = p2 /\ with_tohost c1 None = with_tohost c2 None /\ merkle_root m1 = merkle_root m2.
Proof.
  intros Hp1 Hp2 (L1&R1&P1&T1&E1&A1&S1) (L2&R2&P2&T2&E2&A2&S2) Heq. unfold state_preimage in Heq.
  apply app_inj_len in Heq as [-> Heq]; [|congruence].
  apply u64_list_inj in Heq as [Hx Heq]; [|done|done|congruence].
  apply le_bytes_app_inj in Heq as [Hpc Heq]; [|done..].
  apply u64_list_inj in Heq as [[= ????] Hr]; [|by rewrite !Forall_cons, Forall_nil..|done].
  split_and!; [done| |done]. destruct c1, c2; simpl in *. unfold with_tohost. simpl. congruence.
Qed.

(** C31. The state hash binds the whole architectural state: if two well-formed states
    chained on two previous hashes have the same state hash, then the previous hashes,
    all registers, pc, the CSRs and every memory page are equal, or the two hashed
    byte strings (or the two memory-root preimages) are an explicit BLAKE3 collision. *)
Theorem state_hash_binds p1 c1 m1 p2 c2 m2 :
  length p1 = 32%nat -> length p2 = 32%nat -> cpu_wf c1 -> cpu_wf c2 ->
  mem_wf m1 -> mem_wf m2 ->
  state_hash p1 c1 m1 = state_hash p2 c2 m2 ->
  (p1 = p2 /\ same_state c1 m1 c2 m2) \/
  collision blake3 (state_preimage p1 c1 m1) (state_preimage p2 c2 m2) \/
  collision blake3 (root_preimage m1) (root_preimage m2).
Proof.
  intros Hp1 Hp2 W1 W2 M1 M2 Heq.
  destruct (decide (state_preimage p1 c1 m1 = state_preimage p2 c2 m2)) as [Hpre|];
    [|right; left; done].
  apply state_preimage_inj in Hpre as (-> & Hc & Hr); [|done|done|by apply cpu_wf_ranges..].
  destruct (decide (root_preimage m1 = root_preimage m2)) as [Hroot|]; [|right; right; done].
  left. split; [done|]. split; [done|]. by apply root_preimage_inj.
Qed.

#[export] Instance state_hash_proper :
  Proper (eq ==> eq ==> mem_equiv ==> eq) state_hash.
Proof.
  intros p ? <- c ? <- m1 m2 He. unfold state_hash, state_preimage. by rewrite He.
Qed.
End StateHash.

(** Two representations of one state, the second with the tohost latch set. *)
Lemma state_hash_binds_witness :
  let c1 := cpu_new 0x1000 STACK_TOP in
  let c2 := with_tohost c1 (Some 1) in
  let m1 := two_stores 0x1000 0x8000 in
  let m2 := (write (write new 0x8000 [0x33; 0x44]).2 0x1000 [0x11; 0x22]).2 in
  (GENESIS = GENESIS /\ same_state c1 m1 c2 m2) \/
  collision (@blake3 toy_blake3) (@state_preimage toy_blake3 GENESIS c1 m1) (@state_preimage toy_blake3 GENESIS c2 m2) \/
  collision (@blake3 toy_blake3) (root_preimage m1) (root_preimage m2).
Proof.
  apply (@state_hash_binds toy_blake3).
  - reflexivity.
  - reflexivity.
  - by apply cpu_new_wf.
  - by apply with_tohost_wf, cpu_new_wf.
  - by apply two_stores_wf.
  - repeat apply write_wf; try apply new_wf; try done; by repeat constructor.
  - vm_compute. reflexivity.
Defined.
