(* ===== verification/Interp.v ===== *)
(** * The interpreter step (crates/rvcore/src/interp.rs, lines 1-724)

    One [step_mode] of the RV64IMC emulator: fetch, decode and execute of the 32-bit
    encodings, the compressed encodings ([step_c]) and the two system calls of the
    conformance mode.  A step runs in the monad [M (Cpu * Mem) Trap]: changes made
    before a trap stay, and [Panic] is a Rust panic. *)

From S2P Require Import Prelude Mem Cpu.

Inductive Trap : Type :=
  | FetchUnaligned
  | FetchOutOfRange
  | IllegalInstruction (pc inst : Z)
  | LoadOutOfRange (addr : Z)
  | StoreOutOfRange (addr : Z)
  | Ecall
  | OutputTooLarge.

#[export] Instance Trap_eq_dec : EqDecision Trap.
Proof. solve_decision. Defined.

Abbreviation machine := (Cpu * Mem)%type.
Abbreviation Step := (M machine Trap).

Definition illegal {A} (pc inst : Z) : Step A := mfail (IllegalInstruction pc inst).

Definition trap_load (e : MemError) (addr : Z) : Trap :=
  match e with OutOfRange => LoadOutOfRange addr end.
Definition trap_store (e : MemError) (addr : Z) : Trap :=
  match e with OutOfRange => StoreOutOfRange addr end.

(** ** Access to the machine state *)

Definition get_cpu : Step Cpu := mget fst.
Definition put_cpu (f : Cpu -> Cpu) : Step unit := mmodify (fun s => (f s.1, s.2)).

Definition mem_read (on_err : MemError -> Trap) (addr len : Z) : Step Z :=
  fun s => let '(r, m') := read s.2 addr len in (map_err on_err r, (s.1, m')).

Definition mem_write (on_err : MemError -> Trap) (addr : Z) (bytes : list Z) : Step unit :=
  fun s => let '(r, m') := write s.2 addr bytes in (map_err on_err r, (s.1, m')).

(** [cpu.set(rd, val); cpu.pc = next] and [Ok(false)] *)
Definition set_next (rd val next : Z) : Step bool :=
  _ ← put_cpu (fun c => with_pc (set c rd val) next); mret false.

(** [cpu.pc = next] and [Ok(false)] *)
Definition goto (next : Z) : Step bool :=
  _ ← put_cpu (fun c => with_pc c next); mret false.

(** ** Instruction fields and immediates *)

Definition f_opcode (inst : Z) : Z := inst .& 0x7f.
Definition f_rd (inst : Z) : Z := (inst .>> 7) .& 0x1f.
Definition f_f3 (inst : Z) : Z := (inst .>> 12) .& 0x7.
Definition f_rs1 (inst : Z) : Z := (inst .>> 15) .& 0x1f.
Definition f_rs2 (inst : Z) : Z := (inst .>> 20) .& 0x1f.
Definition f_f7 (inst : Z) : Z := (inst .>> 25) .& 0x7f.

(** The immediates are [i64] values, except [imm_u], which is a [u64]. *)
Definition imm_i (inst : Z) : Z := sint 32 inst .>> 20.
Definition imm_s (inst : Z) : Z :=
  ((sint 32 inst .>> 20) .& Z.lnot 0x1f) .| ((inst .>> 7) .& 0x1f).
Definition imm_b (inst : Z) : Z :=
  let v := (((inst .>> 31) .& 1) .<< 12)
        .| (((inst .>> 7) .& 1) .<< 11)
        .| (((inst .>> 25) .& 0x3f) .<< 5)
        .| (((inst .>> 8) .& 0xf) .<< 1) in
  sint 32 (v .<< 19) .>> 19.
Definition imm_u (inst : Z) : Z := wrap 64 (sint 32 (inst .& 0xfffff000)).
Definition imm_j (inst : Z) : Z :=
  let v := (((inst .>> 31) .& 1) .<< 20)
        .| (((inst .>> 12) .& 0xff) .<< 12)
        .| (((inst .>> 20) .& 1) .<< 11)
        .| (((inst .>> 21) .& 0x3ff) .<< 1) in
  sint 32 (v .<< 11) .>> 11.

(** ** Integer operations of the Rust standard library *)

Definition wrapping_add (w a b : Z) : Z := wrap w (a + b).
Definition wrapping_sub (w a b : Z) : Z := wrap w (a - b).
Definition wrapping_mul (w a b : Z) : Z := wrap w (a * b).
Definition shl (w a n : Z) : Z := wrap w (a .<< n).
Definition shr (a n : Z) : Z := a .>> n.

(** [x as iW as u64] *)
Definition sext (w a : Z) : Z := wrap 64 (sint w a).

(** [iW::checked_div] and [checked_rem]: [None] for a zero divisor and for
    [MIN / -1]; truncating division otherwise. *)
Definition checked_div (w a b : Z) : option Z :=
  if b =? 0 then None
  else if (a =? - 2 ^ (w - 1)) && (b =? -1) then None
  else Some (Z.quot a b).
Definition checked_rem (w a b : Z) : option Z :=
  if b =? 0 then None
  else if (a =? - 2 ^ (w - 1)) && (b =? -1) then None
  else Some (Z.rem a b).

Definition U64_MAX : Z := 2 ^ 64 - 1.

(** ** Arithmetic of the register and immediate forms

    [None] is an illegal encoding. *)

Definition op_imm_val (inst a : Z) : option Z :=
  let f3 := f_f3 inst in
  let imm := imm_i inst in
  if f3 =? 0 then Some (wrapping_add 64 a (wrap 64 imm))
  else if f3 =? 2 then Some (if sint 64 a <? imm then 1 else 0)
  else if f3 =? 3 then Some (if a <? wrap 64 imm then 1 else 0)
  else if f3 =? 4 then Some (a .^ wrap 64 imm)
  else if f3 =? 6 then Some (a .| wrap 64 imm)
  else if f3 =? 7 then Some (a .& wrap 64 imm)
  else if f3 =? 1 then
    if negb ((inst .>> 26) .& 0x3f =? 0) then None
    else Some (shl 64 a ((inst .>> 20) .& 63))
  else (* 5 *)
    if (inst .>> 26) .& 0x3f =? 0 then Some (shr a ((inst .>> 20) .& 63))
    else if (inst .>> 26) .& 0x3f =? 16 then Some (wrap 64 (sint 64 a .>> ((inst .>> 20) .& 63)))
    else None.

Definition op_imm32_val (inst a : Z) : option Z :=
  let f3 := f_f3 inst in
  let f7 := f_f7 inst in
  if f3 =? 0 then Some (sext 32 (wrapping_add 32 (wrap 32 a) (wrap 32 (imm_i inst))))
  else if f3 =? 1 then
    if negb (f7 =? 0) then None
    else Some (sext 32 (shl 32 (wrap 32 a) ((inst .>> 20) .& 31)))
  else if f3 =? 5 then
    if f7 =? 0 then Some (sext 32 (shr (wrap 32 a) ((inst .>> 20) .& 31)))
    else if f7 =? 32 then Some (wrap 64 (sint 32 a .>> ((inst .>> 20) .& 31)))
    else None
  else None.

Definition div_val (a b : Z) : Z :=
  match checked_div 64 (sint 64 a) (sint 64 b) with
  | Some q => wrap 64 q
  | None => if b =? 0 then U64_MAX else wrap 64 (- 2 ^ 63)
  end.
Definition divu_val (a b : Z) : Z := if b =? 0 then U64_MAX else a / b.
Definition rem_val (a b : Z) : Z :=
  match checked_rem 64 (sint 64 a) (sint 64 b) with
  | Some r => wrap 64 r
  | None => if b =? 0 then a else 0
  end.
Definition remu_val (a b : Z) : Z := if b =? 0 then a else a mod b.

Definition op_val (f7 f3 a b : Z) : option Z :=
  if f7 =? 0 then
    if f3 =? 0 then Some (wrapping_add 64 a b)
    else if f3 =? 1 then Some (shl 64 a (b .& 63))
    else if f3 =? 2 then Some (if sint 64 a <? sint 64 b then 1 else 0)
    else if f3 =? 3 then Some (if a <? b then 1 else 0)
    else if f3 =? 4 then Some (a .^ b)
    else if f3 =? 5 then Some (shr a (b .& 63))
    else if f3 =? 6 then Some (a .| b)
    else if f3 =? 7 then Some (a .& b)
    else None
  else if f7 =? 32 then
    if f3 =? 0 then Some (wrapping_sub 64 a b)
    else if f3 =? 5 then Some (wrap 64 (sint 64 a .>> (b .& 63)))
    else None
  else if f7 =? 1 then
    if f3 =? 0 then Some (wrapping_mul 64 a b)
    else if f3 =? 1 then Some (wrap 64 ((sint 64 a * sint 64 b) .>> 64))
    else if f3 =? 2 then Some (wrap 64 (sint 128 (sint 64 a * b) .>> 64))
    else if f3 =? 3 then Some (wrap 64 ((a * b) .>> 64))
    else if f3 =? 4 then Some (div_val a b)
    else if f3 =? 5 then Some (divu_val a b)
    else if f3 =? 6 then Some (rem_val a b)
    else if f3 =? 7 then Some (remu_val a b)
    else None
  else None.

(** The W forms.  The zero tests of DIVW..REMUW look at the whole 64-bit [b], while
    the divisions use its low word; the unsigned forms divide by [b as u32], which
    panics when the low word is zero and [b] is not. *)
Definition divw_val (a b : Z) : Z :=
  match checked_div 32 (sint 32 a) (sint 32 b) with
  | Some q => wrap 64 q
  | None => if b =? 0 then U64_MAX else wrap 64 (- 2 ^ 31)
  end.
Definition divuw_val (a b : Z) : outcome Trap Z :=
  if b =? 0 then Ok U64_MAX
  else if wrap 32 b =? 0 then Panic
  else Ok (sext 32 (wrap 32 a / wrap 32 b)).
Definition remw_val (a b : Z) : Z :=
  match checked_rem 32 (sint 32 a) (sint 32 b) with
  | Some r => wrap 64 r
  | None => if b =? 0 then sext 32 a else 0
  end.
Definition remuw_val (a b : Z) : outcome Trap Z :=
  if b =? 0 then Ok (sext 32 (wrap 32 a))
  else if wrap 32 b =? 0 then Panic
  else Ok (sext 32 (wrap 32 a mod wrap 32 b)).

Definition op32_val (f7 f3 a b : Z) : option (outcome Trap Z) :=
  if f7 =? 0 then
    if f3 =? 0 then Some (Ok (sext 32 (wrapping_add 32 (wrap 32 a) (wrap 32 b))))
    else if f3 =? 1 then Some (Ok (sext 32 (shl 32 (wrap 32 a) (b .& 31))))
    else if f3 =? 5 then Some (Ok (sext 32 (shr (wrap 32 a) (b .& 31))))
    else None
  else if f7 =? 32 then
    if f3 =? 0 then Some (Ok (sext 32 (wrapping_sub 32 (wrap 32 a) (wrap 32 b))))
    else if f3 =? 5 then Some (Ok (wrap 64 (sint 32 a .>> (b .& 31))))
    else None
  else if f7 =? 1 then
    if f3 =? 0 then Some (Ok (sext 32 (sint 32 a * sint 32 b)))
    else if f3 =? 4 then Some (Ok (divw_val a b))
    else if f3 =? 5 then Some (divuw_val a b)
    else if f3 =? 6 then Some (Ok (remw_val a b))
    else if f3 =? 7 then Some (remuw_val a b)
    else None
  else None.

(** ** The 32-bit instructions *)

Definition branch_taken (f3 a b : Z) : option bool :=
  if f3 =? 0 then Some (a =? b)
  else if f3 =? 1 then Some (negb (a =? b))
  else if f3 =? 4 then Some (sint 64 a <? sint 64 b)
  else if f3 =? 5 then Some (sint 64 b <=? sint 64 a)
  else if f3 =? 6 then Some (a <? b)
  else if f3 =? 7 then Some (b <=? a)
  else None.

(** Access width and sign extension of the loads. *)
Definition load_kind (f3 : Z) : option (Z * bool) :=
  if f3 =? 0 then Some (1, true)
  else if f3 =? 1 then Some (2, true)
  else if f3 =? 2 then Some (4, true)
  else if f3 =? 3 then Some (8, false)
  else if f3 =? 4 then Some (1, false)
  else if f3 =? 5 then Some (2, false)
  else if f3 =? 6 then Some (4, false)
  else None.

Definition extend (len : Z) (sign_ext : bool) (val : Z) : Z :=
  if sign_ext then
    if len =? 1 then sext 8 val else if len =? 2 then sext 16 val else sext 32 val
  else val.

Definition exec_load (pc inst a : Z) : Step bool :=
  let addr := wrapping_add 64 a (wrap 64 (imm_i inst)) in
  match load_kind (f_f3 inst) with
  | None => illegal pc inst
  | Some (len, sign_ext) =>
      val ← mem_read (fun e => trap_load e addr) addr len;
      set_next (f_rd inst) (extend len sign_ext val) (wrap 64 (pc + 4))
  end.

Definition store_len (f3 : Z) : option Z :=
  if f3 =? 0 then Some 1
  else if f3 =? 1 then Some 2
  else if f3 =? 2 then Some 4
  else if f3 =? 3 then Some 8
  else None.

Definition exec_store (tohost_addr : option Z) (pc inst a b : Z) : Step bool :=
  let addr := wrapping_add 64 a (wrap 64 (imm_s inst)) in
  match store_len (f_f3 inst) with
  | None => illegal pc inst
  | Some len =>
      _ ← (if bool_decide (Some addr = tohost_addr) && ((len =? 8) || (len =? 4)) then
             put_cpu (fun c => with_tohost c (Some (if len =? 8 then b else b .& 0xffffffff)))
           else mret tt);
      _ ← mem_write (fun e => trap_store e addr) addr (take (Z.to_nat len) (le_bytes 8 b));
      goto (wrap 64 (pc + 4))
  end.

(** QEMU/Linux system calls: write(64) and exit(93).  [cpu.pc += 4] cannot overflow
    where it is reached, the fetch having checked [pc < 2^32]. *)
Definition do_syscall : Step bool :=
  c ← get_cpu;
  if get c 17 =? 64 then
    let fd := get c 10 in
    let buf := get c 11 in
    let len := get c 12 in
    if negb (fd =? 1) || (Z.shiftl 1 20 <? len) then mfail Ecall
    else
      fun s =>
        match read_region s.2 buf len with
        | Ok bytes =>
            let c1 := set s.1 10 len in
            (Ok false, (with_pc c1 (wrap 64 (pc c1 + 4)), log_extend s.2 bytes))
        | Err _ => (Err Ecall, s)
        | Panic => (Panic, s)
        end
  else if get c 17 =? 93 then mret true
  else mfail Ecall.

Definition csr_read (c : Cpu) (csr_num : Z) : Z :=
  if csr_num =? 0x300 then mstatus c
  else if csr_num =? 0x305 then mtvec c
  else if csr_num =? 0x341 then mepc c
  else if csr_num =? 0x342 then mcause c
  else 0.

Definition csr_write (c : Cpu) (csr_num new : Z) : Cpu :=
  if csr_num =? 0x300 then with_mstatus c new
  else if csr_num =? 0x305 then with_mtvec c (new .& Z.lnot 0x3)
  else if csr_num =? 0x341 then with_mepc c new
  else if csr_num =? 0x342 then with_mcause c new
  else c.

(** The CSR source operand: rs1, or the five-bit immediate field with 16 subtracted
    when its top bit is set. *)
Definition csr_src (f3 inst a : Z) : Z :=
  if (1 <=? f3) && (f3 <=? 3) then a
  else
    let z := (inst .>> 15) .& 0x1f in
    if negb (z .& 0x10 =? 0) then z - 0x10 else z.

Definition csr_new (f3 old src : Z) : Z :=
  if (f3 =? 1) || (f3 =? 5) then src
  else if (f3 =? 2) || (f3 =? 6) then old .| src
  else old .& Z.lnot src.

Definition exec_system (syscalls : bool) (pc inst a : Z) : Step bool :=
  let f3 := f_f3 inst in
  let rd := f_rd inst in
  let csr_num := inst .>> 20 in
  if f3 =? 0 then
    if csr_num =? 0 then (if syscalls then do_syscall else mfail Ecall)
    else if csr_num =? 1 then mret true
    else if csr_num =? 0x302 then
      _ ← put_cpu (fun c => with_mstatus (with_pc c (mepc c)) (mstatus c .& Z.lnot 0x1800));
      mret false
    else illegal pc inst
  else if f3 =? 4 then illegal pc inst
  else
    c ← get_cpu;
    let src := csr_src f3 inst a in
    let old := csr_read c csr_num in
    let new := csr_new f3 old src in
    _ ← put_cpu (fun c =>
          let c1 := csr_write c csr_num new in
          let c2 := if negb (rd =? 0) then set c1 rd old else c1 in
          with_pc c2 (wrap 64 (pc + 4)));
    mret false.

(** The body of [step_mode] after the fetch of a 32-bit instruction. *)
Definition exec32 (syscalls : bool) (tohost_addr : option Z) (pc inst : Z) : Step bool :=
  c ← get_cpu;
  let opcode := f_opcode inst in
  let rd := f_rd inst in
  let f3 := f_f3 inst in
  let f7 := f_f7 inst in
  let a := get c (f_rs1 inst) in
  let b := get c (f_rs2 inst) in
  let next_pc := wrap 64 (pc + 4) in
  let alu (v : option Z) : Step bool :=
    match v with Some v => set_next rd v next_pc | None => illegal pc inst end in
  if opcode =? 0x37 (* LUI *) then set_next rd (imm_u inst) next_pc
  else if opcode =? 0x17 (* AUIPC *) then set_next rd (wrapping_add 64 pc (imm_u inst)) next_pc
  else if opcode =? 0x6f (* JAL *) then
    set_next rd next_pc (wrapping_add 64 pc (wrap 64 (imm_j inst)))
  else if opcode =? 0x67 (* JALR *) then
    if negb (f3 =? 0) then illegal pc inst
    else set_next rd next_pc (wrapping_add 64 a (wrap 64 (imm_i inst)) .& Z.lnot 1)
  else if opcode =? 0x63 (* branches *) then
    match branch_taken f3 a b with
    | None => illegal pc inst
    | Some taken => goto (if taken then wrapping_add 64 pc (wrap 64 (imm_b inst)) else next_pc)
    end
  else if opcode =? 0x03 then exec_load pc inst a
  else if opcode =? 0x23 then exec_store tohost_addr pc inst a b
  else if opcode =? 0x13 then alu (op_imm_val inst a)
  else if opcode =? 0x1b then alu (op_imm32_val inst a)
  else if opcode =? 0x33 then alu (op_val f7 f3 a b)
  else if opcode =? 0x3b then
    match op32_val f7 f3 a b with
    | None => illegal pc inst
    | Some (Ok v) => set_next rd v next_pc
    | Some (Err e) => mfail e
    | Some Panic => mpanic
    end
  else if opcode =? 0x0f (* FENCE, FENCE.I *) then
    if (f3 =? 0) || (f3 =? 1) then goto next_pc else illegal pc inst
  else if opcode =? 0x73 then exec_system syscalls pc inst a
  else illegal pc inst.

(** ** The compressed instructions *)

(** Compressed register fields map onto x8..x15. *)
Definition creg (i : Z) : Z := 8 + i.

Definition cj_imm (hw : Z) : Z :=
  let v := (((hw .>> 12) .& 0x1) .<< 11)
        .| (((hw .>> 8) .& 0x1) .<< 10)
        .| (((hw .>> 9) .& 0x3) .<< 8)
        .| (((hw .>> 6) .& 0x1) .<< 7)
        .| (((hw .>> 7) .& 0x1) .<< 6)
        .| (((hw .>> 2) .& 0x1) .<< 5)
        .| (((hw .>> 11) .& 0x1) .<< 4)
        .| (((hw .>> 3) .& 0x7) .<< 1) in
  sint 64 (v .<< 52) .>> 52.

Definition cb_imm (hw : Z) : Z :=
  let v := (((hw .>> 12) .& 0x1) .<< 8)
        .| (((hw .>> 5) .& 0x3) .<< 6)
        .| (((hw .>> 2) .& 0x1) .<< 5)
        .| (((hw .>> 10) .& 0x3) .<< 3)
        .| (((hw .>> 3) .& 0x3) .<< 1) in
  sint 64 (v .<< 55) .>> 55.

(** Immediate of c.lw/c.sw: uimm[5:3|2|6]. *)
Definition clw_imm (hw : Z) : Z :=
  (((hw .>> 10) .& 0x7) .<< 3) .| (((hw .>> 6) .& 0x1) .<< 2) .| (((hw .>> 5) .& 0x1) .<< 6).

(** Immediate of c.ld/c.sd: uimm[5:3|7:6]. *)
Definition cld_imm (hw : Z) : Z :=
  (((hw .>> 10) .& 0x7) .<< 3) .| (((hw .>> 5) .& 0x3) .<< 6).

(** The six-bit signed immediate as a [u64]. *)
Definition imm6 (hw : Z) : Z := wrap 64 (((hw .>> 12) .& 0x1) * -32 + ((hw .>> 2) .& 0x1f)).

Definition c_shamt (hw : Z) : Z := (((hw .>> 12) .& 0x1) .<< 5) .| ((hw .>> 2) .& 0x1f).

(** A compressed load into [rd] and a compressed store of [len] bytes of [v]. *)
Definition c_load (rd addr len : Z) (sx : bool) (next_pc : Z) : Step bool :=
  v ← mem_read (fun e => trap_load e addr) addr len;
  set_next rd (if sx then sext 32 v else v) next_pc.

Definition c_store (v addr len next_pc : Z) : Step bool :=
  _ ← mem_write (fun e => trap_store e addr) addr (take (Z.to_nat len) (le_bytes 8 v));
  goto next_pc.

(** Quadrant 0: c.addi4spn and the loads and stores on compressed registers. *)
Definition step_c_q0 (pc hw : Z) : Step bool :=
  c ← get_cpu;
  let next_pc := wrap 64 (pc + 2) in
  let f3 := (hw .>> 13) .& 7 in
  let rd_c := creg ((hw .>> 2) .& 7) in
  let rs1_c := creg ((hw .>> 7) .& 7) in
  let rs2_c := creg ((hw .>> 2) .& 7) in
  if f3 =? 0 then
    let imm := (((hw .>> 11) .& 0x3) .<< 4) .| (((hw .>> 7) .& 0xf) .<< 6)
            .| (((hw .>> 6) .& 0x1) .<< 2) .| (((hw .>> 5) .& 0x1) .<< 3) in
    if imm =? 0 then illegal pc hw
    else set_next rd_c (wrapping_add 64 (get c 2) imm) next_pc
  else if f3 =? 2 then c_load rd_c (wrapping_add 64 (get c rs1_c) (clw_imm hw)) 4 true next_pc
  else if f3 =? 3 then c_load rd_c (wrapping_add 64 (get c rs1_c) (cld_imm hw)) 8 false next_pc
  else if f3 =? 6 then c_store (get c rs2_c) (wrapping_add 64 (get c rs1_c) (clw_imm hw)) 4 next_pc
  else if f3 =? 7 then c_store (get c rs2_c) (wrapping_add 64 (get c rs1_c) (cld_imm hw)) 8 next_pc
  else illegal pc hw.

(** Arithmetic on compressed registers (quadrant 1, funct3 = 100). *)
Definition step_c_arith (pc hw : Z) : Step bool :=
  c ← get_cpu;
  let next_pc := wrap 64 (pc + 2) in
  let dest := creg ((hw .>> 7) .& 7) in
  let rs2_c := creg ((hw .>> 2) .& 7) in
  let sel := (hw .>> 10) .& 3 in
  let a := get c dest in
  if (sel =? 0) || (sel =? 1) then
    let shamt := c_shamt hw in
    if shamt =? 0 then illegal pc hw
    else set_next dest (if sel =? 0 then shr a shamt else wrap 64 (sint 64 a .>> shamt)) next_pc
  else if sel =? 2 then set_next dest (a .& imm6 hw) next_pc
  else
    let b := get c rs2_c in
    let f2 := (hw .>> 5) .& 3 in
    if (hw .>> 12) .& 0x1 =? 0 then
      set_next dest
        (if f2 =? 0 then wrapping_sub 64 a b
         else if f2 =? 1 then a .^ b
         else if f2 =? 2 then a .| b
         else a .& b) next_pc
    else if f2 =? 0 then
      set_next dest (sext 32 (wrapping_sub 32 (wrap 32 a) (wrap 32 b))) next_pc
    else if f2 =? 1 then
      set_next dest (sext 32 (wrapping_add 32 (wrap 32 a) (wrap 32 b))) next_pc
    else illegal pc hw.

Definition c_addi16sp_imm (hw : Z) : Z :=
  let imm := (((hw .>> 12) .& 0x1) .<< 9) .| (((hw .>> 6) .& 0x1) .<< 4)
          .| (((hw .>> 5) .& 0x1) .<< 6) .| (((hw .>> 3) .& 0x3) .<< 7)
          .| (((hw .>> 2) .& 0x1) .<< 5) in
  sint 64 (imm .<< 54) .>> 54.

Definition c_lui_imm (hw : Z) : Z :=
  let imm := (((hw .>> 12) .& 0x1) .<< 17) .| (((hw .>> 2) .& 0x1f) .<< 12) in
  sint 64 (imm .<< 46) .>> 46.

(** Quadrant 1. *)
Definition step_c_q1 (pc hw : Z) : Step bool :=
  c ← get_cpu;
  let next_pc := wrap 64 (pc + 2) in
  let f3 := (hw .>> 13) .& 7 in
  let rd := (hw .>> 7) .& 0x1f in
  let rs1_c := creg ((hw .>> 7) .& 7) in
  if f3 =? 1 then
    if rd =? 0 then goto next_pc
    else set_next rd (sext 32 (wrapping_add 32 (wrap 32 (get c rd)) (wrap 32 (imm6 hw)))) next_pc
  else if f3 =? 2 then set_next rd (imm6 hw) next_pc
  else if f3 =? 3 then
    if rd =? 2 then
      if c_addi16sp_imm hw =? 0 then illegal pc hw
      else set_next 2 (wrapping_add 64 (get c 2) (wrap 64 (c_addi16sp_imm hw))) next_pc
    else if rd =? 0 then goto next_pc
    else if c_lui_imm hw =? 0 then illegal pc hw
    else set_next rd (wrap 64 (c_lui_imm hw)) next_pc
  else if f3 =? 4 then step_c_arith pc hw
  else if f3 =? 5 then goto (wrapping_add 64 pc (wrap 64 (cj_imm hw)))
  else if (f3 =? 6) || (f3 =? 7) then
    let taken := if f3 =? 6 then get c rs1_c =? 0 else negb (get c rs1_c =? 0) in
    goto (if taken then wrapping_add 64 pc (wrap 64 (cb_imm hw)) else next_pc)
  else (* 0 *)
    if negb (rd =? 0) then set_next rd (wrapping_add 64 (get c rd) (imm6 hw)) next_pc
    else goto next_pc.

(** Quadrant 2. *)
Definition step_c_q2 (pc hw : Z) : Step bool :=
  c ← get_cpu;
  let next_pc := wrap 64 (pc + 2) in
  let f3 := (hw .>> 13) .& 7 in
  let rd := (hw .>> 7) .& 0x1f in
  let rs2 := (hw .>> 2) .& 0x1f in
  let sp := get c 2 in
  if f3 =? 0 then
    if negb (rd =? 0) then set_next rd (shl 64 (get c rd) (c_shamt hw)) next_pc
    else goto next_pc
  else if f3 =? 2 then
    if rd =? 0 then illegal pc hw
    else
      let imm := (((hw .>> 12) .& 0x1) .<< 5) .| (((hw .>> 4) .& 0x7) .<< 2)
              .| (((hw .>> 2) .& 0x3) .<< 6) in
      c_load rd (wrapping_add 64 sp imm) 4 true next_pc
  else if f3 =? 3 then
    if rd =? 0 then illegal pc hw
    else
      let imm := (((hw .>> 12) .& 0x1) .<< 5) .| (((hw .>> 5) .& 0x3) .<< 3)
              .| (((hw .>> 2) .& 0x7) .<< 6) in
      c_load rd (wrapping_add 64 sp imm) 8 false next_pc
  else if f3 =? 4 then
    if (hw .>> 12) .& 0x1 =? 0 then
      if rs2 =? 0 then
        if rd =? 0 then illegal pc hw else goto (get c rd .& Z.lnot 1)
      else if negb (rd =? 0) then set_next rd (get c rs2) next_pc
      else goto next_pc
    else if rs2 =? 0 then
      if rd =? 0 then mret true
      else set_next 1 next_pc (get c rd .& Z.lnot 1)
    else if negb (rd =? 0) then set_next rd (wrapping_add 64 (get c rd) (get c rs2)) next_pc
    else goto next_pc
  else if f3 =? 6 then
    let imm := (((hw .>> 9) .& 0xf) .<< 2) .| (((hw .>> 7) .& 0x3) .<< 6) in
    c_store (get c rs2) (wrapping_add 64 sp imm) 4 next_pc
  else if f3 =? 7 then
    let imm := (((hw .>> 10) .& 0x7) .<< 3) .| (((hw .>> 7) .& 0x7) .<< 6) in
    c_store (get c rs2) (wrapping_add 64 sp imm) 8 next_pc
  else illegal pc hw.

Definition step_c (pc hw : Z) : Step bool :=
  let op := hw .& 3 in
  if op =? 0 then step_c_q0 pc hw
  else if op =? 1 then step_c_q1 pc hw
  else step_c_q2 pc hw.

(** ** One step *)

Definition step_mode (syscalls : bool) (tohost_addr : option Z) : Step bool :=
  c ← get_cpu;
  let p := pc c in
  if ADDR_SPACE <=? p then mfail FetchOutOfRange
  else if negb (p mod 2 =? 0) then mfail FetchUnaligned
  else
    v ← mem_read (fun _ => FetchOutOfRange) p 2;
    let hw := wrap 16 v in
    if negb (hw .& 3 =? 3) then step_c p hw
    else
      hi ← mem_read (fun _ => FetchOutOfRange) (p + 2) 2;
      let inst := shl 32 (wrap 32 hi) 16 .| hw in
      exec32 syscalls tohost_addr p inst.

Definition step : Step bool := step_mode false None.
