(* ===== verification/InterpFacts.v ===== *)
(** * Invariants of the interpreter step

    Every step keeps the machine state well formed ([x0 = 0], every field a [u64],
    memory invariant), and its outcome and effect do not depend on how the memory is
    represented: page slots and lookaside are invisible to the guest. *)

From S2P Require Import Prelude Mem Cpu Interp.

(** ** A relational triple for [Step]

    [sound P k]: from equivalent well-formed machines, [k] has the same outcome, ends in
    equivalent well-formed machines, and a returned value satisfies [P]. *)

Definition equiv (s1 s2 : machine) : Prop :=
  s1.1 = s2.1 /\ cpu_wf s1.1 /\ mem_equiv s1.2 s2.2.

Definition sound {A} (P : A -> Prop) (k : Step A) : Prop :=
  forall s1 s2, equiv s1 s2 ->
    (k s1).1 = (k s2).1 /\ equiv (k s1).2 (k s2).2 /\
    (forall a, (k s1).1 = Ok a -> P a).

Lemma ok_weaken {A} (P Q : A -> Prop) k : sound P k -> (forall a, P a -> Q a) -> sound Q k.
Proof. intros Hk HPQ s1 s2 He. destruct (Hk s1 s2 He) as (?&?&?). eauto 6. Qed.

Lemma ok_bind {A B} (P : A -> Prop) (Q : B -> Prop) (k : Step A) (f : A -> Step B) :
  sound P k -> (forall a, P a -> sound Q (f a)) -> sound Q (k ≫= f).
Proof.
  intros Hk Hf s1 s2 He. destruct (Hk s1 s2 He) as (Hr & He' & HP).
  unfold mbind, M_bind. destruct (k s1) as [[a|e|] s1'], (k s2) as [r2 s2']; simpl in *; subst.
  - by apply Hf; [apply HP|].
  - by split_and!.
  - by split_and!.
Qed.

Lemma ok_ret {A} (P : A -> Prop) (a : A) : P a -> sound P (mret a).
Proof. intros HP s1 s2 He. split_and!; [done..|]. by intros ? [= <-]. Qed.

Lemma ok_fail {A} (P : A -> Prop) e : sound P (mfail e).
Proof. intros s1 s2 He. by split_and!. Qed.

Lemma ok_panic {A} (P : A -> Prop) : sound P mpanic.
Proof. intros s1 s2 He. by split_and!. Qed.

Lemma ok_get : sound cpu_wf get_cpu.
Proof.
  intros s1 s2 He. destruct He as (Hc & W & Hm) eqn:E. clear E. split_and!; simpl; try done.
  - by rewrite Hc.
  - by intros ? [= <-].
Qed.

Lemma ok_put (f : Cpu -> Cpu) : (forall c, cpu_wf c -> cpu_wf (f c)) -> sound (fun _ => True) (put_cpu f).
Proof.
  intros Hf [c1 m1] [c2 m2] (Hc & W & Hm). simpl in *. subst.
  split_and!; try done. split_and!; simpl; auto.
Qed.

Lemma le_val_u64 len l :
  Forall is_byte l -> Z.of_nat (length l) = len -> valid_len len -> is_u64 (le_val l).
Proof.
  intros Hl Hlen Hv. apply (is_u_weaken (8 * Z.of_nat (length l))).
  - unfold valid_len in Hv. lia.
  - by apply le_val_range.
Qed.

Lemma read_value_u64 m addr len :
  mem_wf m -> is_u64 addr -> 0 <= len -> forall v, (read m addr len).1 = Ok v -> is_u64 v.
Proof.
  intros W Ha Hl v Hv. destruct (read_dec m addr len Ha Hl) as [[Hvl Hb]|Hr].
  - destruct (read_ok m addr len) as (m' & Hr & _); [done..|]. rewrite Hr in Hv.
    injection Hv as <-. apply (le_val_u64 len); [|rewrite length_fmap, length_seqZ; lia|done].
    apply Forall_fmap, Forall_true. intros a. by apply abyte_range.
  - by rewrite Hr in Hv.
Qed.

Lemma ok_read f addr len : is_u64 addr -> 0 <= len -> sound is_u64 (mem_read f addr len).
Proof.
  intros Ha Hl [c1 m1] [c2 m2] (Hc & W & Hm). simpl in *. subst.
  destruct (read_equiv m1 m2 addr len Hm Ha Hl) as [Hr Hm'].
  pose proof (read_value_u64 m1 addr len (mem_equiv_wf_l _ _ Hm) Ha Hl) as Hv.
  unfold mem_read. simpl. destruct (read m1 addr len) as [r1 m1'], (read m2 addr len) as [r2 m2'].
  simpl in *. subst. split_and!; try done; simpl.
  intros a. destruct r2; simpl; intros [= <-]. by apply Hv.
Qed.

Lemma ok_write f addr bytes :
  is_u64 addr -> Forall is_byte bytes -> sound (fun _ => True) (mem_write f addr bytes).
Proof.
  intros Ha Hb [c1 m1] [c2 m2] (Hc & W & Hm). simpl in *. subst.
  destruct (write_equiv m1 m2 addr bytes Hm Ha Hb) as [Hr Hm'].
  unfold mem_write. simpl. destruct (write m1 addr bytes) as [r1 m1'], (write m2 addr bytes) as [r2 m2'].
  simpl in *. subst. by split_and!.
Qed.

(** ** Ranges of the operands *)

Lemma land_nonneg a b : 0 <= b -> 0 <= a .& b.
Proof. intros. apply Z.land_nonneg. by right. Qed.

Lemma bool_u64 (b : bool) : is_u64 (if b then 1 else 0).
Proof. by destruct b. Qed.

Lemma shr_u64 a n : is_u64 a -> 0 <= n -> is_u64 (shr a n).
Proof. intros. by apply shiftr_range. Qed.

Lemma quot_u64 a b : is_u64 a -> 0 <= b -> is_u64 (a / b).
Proof.
  intros [? ?] ?. destruct (decide (b = 0)) as [->|]; [by rewrite Z.div_0_r|].
  split; [apply Z.div_pos; lia|]. apply Z.div_lt_upper_bound; nia.
Qed.

Lemma mod_u64 a b : is_u64 a -> 0 < b -> is_u64 (a mod b).
Proof. intros [? ?] ?. pose proof (Z.mod_le a b). pose proof (Z.mod_pos_bound a b). split; lia. Qed.

Lemma div_val_u64 a b : is_u64 (div_val a b).
Proof. unfold div_val. cases; by apply wrap_range. Qed.
Lemma divu_val_u64 a b : is_u64 a -> is_u64 b -> is_u64 (divu_val a b).
Proof. intros ? []. unfold divu_val. cases. by apply quot_u64. Qed.
Lemma rem_val_u64 a b : is_u64 a -> is_u64 (rem_val a b).
Proof. intros. unfold rem_val. cases. by apply wrap_range. Qed.
Lemma remu_val_u64 a b : is_u64 a -> is_u64 b -> is_u64 (remu_val a b).
Proof. intros ? []. unfold remu_val. cases. bools. apply mod_u64; [done|lia]. Qed.
Lemma divw_val_u64 a b : is_u64 (divw_val a b).
Proof. unfold divw_val. cases; by apply wrap_range. Qed.
Lemma remw_val_u64 a b : is_u64 (remw_val a b).
Proof. unfold remw_val, sext. cases; by apply wrap_range. Qed.

Lemma sext_u64 w a : is_u64 (sext w a).
Proof. by apply wrap_range. Qed.
Lemma wrapping_add_u64 a b : is_u64 (wrapping_add 64 a b).
Proof. by apply wrap_range. Qed.
Lemma wrapping_sub_u64 a b : is_u64 (wrapping_sub 64 a b).
Proof. by apply wrap_range. Qed.
Lemma wrapping_mul_u64 a b : is_u64 (wrapping_mul 64 a b).
Proof. by apply wrap_range. Qed.
Lemma shl_u64 a n : is_u64 (shl 64 a n).
Proof. by apply wrap_range. Qed.
Lemma imm_u_u64 inst : is_u64 (imm_u inst).
Proof. by apply wrap_range. Qed.
Lemma imm6_u64 hw : is_u64 (imm6 hw).
Proof. by apply wrap_range. Qed.

Lemma c_shamt_nonneg hw : 0 <= c_shamt hw.
Proof.
  apply Z.lor_nonneg. split; [apply Z.shiftl_nonneg|]; by apply land_nonneg.
Qed.

Lemma f_rd_nonneg inst : 0 <= f_rd inst.
Proof. by apply land_nonneg. Qed.

Lemma creg_nonneg i : 0 <= i -> 0 <= creg i.
Proof. unfold creg. lia. Qed.

Lemma u64_0 : is_u64 0.
Proof. done. Qed.
Lemma u64_1 : is_u64 1.
Proof. done. Qed.

#[export] Hint Resolve u64_0 u64_1 land_nonneg bool_u64 shr_u64 div_val_u64 divu_val_u64 rem_val_u64
  remu_val_u64 divw_val_u64 remw_val_u64 sext_u64 wrapping_add_u64 wrapping_sub_u64 wrapping_mul_u64 shl_u64
  imm_u_u64 imm6_u64 c_shamt_nonneg f_rd_nonneg creg_nonneg : ranges.

Lemma op_imm_val_u64 inst a v : is_u64 a -> op_imm_val inst a = Some v -> is_u64 v.
Proof. intros Ha. unfold op_imm_val. cases; intros [= <-]; auto with ranges. Qed.
Lemma op_imm32_val_u64 inst a v : op_imm32_val inst a = Some v -> is_u64 v.
Proof. unfold op_imm32_val. cases; intros [= <-]; auto with ranges. Qed.
Lemma op_val_u64 f7 f3 a b v : is_u64 a -> is_u64 b -> op_val f7 f3 a b = Some v -> is_u64 v.
Proof. intros Ha Hb. unfold op_val. cases; intros [= <-]; auto with ranges. Qed.
Lemma op32_val_u64 f7 f3 a b v : op32_val f7 f3 a b = Some (Ok v) -> is_u64 v.
Proof.
  unfold op32_val, divuw_val, remuw_val. cases; intros [= <-]; auto with ranges.
Qed.

(** ** The triple for every instruction *)

Abbreviation okb := (sound (fun _ : bool => True)).

Lemma ok_set_next rd v next : 0 <= rd -> is_u64 v -> is_u64 next -> okb (set_next rd v next).
Proof.
  intros. eapply ok_bind; [apply ok_put; eauto with ranges|]. intros. by apply ok_ret.
Qed.

Lemma ok_goto next : is_u64 next -> okb (goto next).
Proof.
  intros. eapply ok_bind; [apply ok_put; eauto with ranges|]. intros. by apply ok_ret.
Qed.

Lemma ok_illegal pc inst : okb (illegal pc inst).
Proof. apply ok_fail. Qed.

Create HintDb steps.
#[export] Hint Resolve ok_set_next ok_goto ok_illegal ok_fail ok_panic ok_ret : steps.

(** Split on the conditions of a step and close the leaves. *)
Ltac ok_leaf := solve [eauto 8 with steps ranges | by apply ok_ret].
Ltac ok_cases := repeat (case_match; try ok_leaf); try ok_leaf.
(** Split on the conditions at the head of a step only. *)
Ltac ok_ifs := repeat match goal with |- sound _ (if ?b then _ else _) => destruct b end.
(** Read the registers first. *)
Ltac ok_regs := eapply ok_bind; [exact ok_get|]; intros c Hc; cbv beta zeta.

Lemma ok_extend len sx v : is_u64 v -> is_u64 (extend len sx v).
Proof. intros. unfold extend. cases; auto with ranges. Qed.

Lemma ok_exec_load pc inst a : okb (exec_load pc inst a).
Proof.
  unfold exec_load. destruct (load_kind _) as [[len sx]|] eqn:Hk; [|ok_leaf].
  assert (0 <= len) by (unfold load_kind in Hk; repeat (case_match; simplify_eq; try lia)).
  eapply ok_bind; [apply ok_read; auto with ranges|]. intros v Hv.
  apply ok_set_next; auto with ranges. by apply ok_extend.
Qed.

Lemma ok_exec_store th pc inst a b : okb (exec_store th pc inst a b).
Proof.
  unfold exec_store. destruct (store_len _) as [len|]; [|ok_leaf].
  eapply ok_bind with (P := fun _ => True).
  - case_match; [|by apply ok_ret]. apply ok_put. auto with ranges.
  - intros _ _. eapply ok_bind.
    + apply ok_write; auto with ranges. apply Forall_take, le_bytes_range.
    + intros _ _. apply ok_goto. auto with ranges.
Qed.

Lemma log_extend_wf m b : mem_wf m -> mem_wf (log_extend m b).
Proof. intros []. by constructor. Qed.

Lemma ok_do_syscall : okb do_syscall.
Proof.
  unfold do_syscall. apply (ok_bind cpu_wf); [exact ok_get|]. intros c0 Hc0. cbv beta zeta.
  destruct (get c0 17 =? 64); [|ok_cases].
  case_match; [ok_leaf|].
  intros [c m1] [c2 m2] (Hc & W & Hm). simpl in *. subst c2.
  rewrite <- (read_region_equiv m1 m2); [|done|by apply get_range|by apply get_range].
  destruct (read_region m1 _ _) as [bs|e|]; simpl; try by split_and!.
  split; [done|]. split; [|done]. split_and!; simpl; [done| |by apply log_extend_equiv].
  auto with ranges.
Qed.

Lemma ok_csr_write c n v : cpu_wf c -> is_u64 v -> cpu_wf (csr_write c n v).
Proof. intros. unfold csr_write. cases; auto with ranges. Qed.

Lemma csr_read_u64 c n : cpu_wf c -> is_u64 (csr_read c n).
Proof. intros. unfold csr_read. cases; auto with ranges. Qed.

Lemma csr_src_u64 f3 inst a : is_u64 a -> is_u64 (csr_src f3 inst a).
Proof.
  intros Ha. unfold csr_src. case_match; [done|].
  assert (is_u 5 ((inst .>> 15) .& 0x1f)) as Hz by (apply land_range_r; [lia|done]).
  case_match; bools.
  - set (z := (inst .>> 15) .& 0x1f) in *.
    assert (0x10 <= z).
    { destruct (decide (z < 16)) as [Hlt|]; [|lia]. exfalso.
      assert (is_u 4 z) as H4 by (destruct Hz; split; [done|]; change (2 ^ 4) with 16; lia).
      apply H0. apply Z.bits_inj'. intros i Hi. rewrite Z.land_spec, Z.bits_0.
      destruct (decide (i < 4)).
      - assert (i = 0 \/ i = 1 \/ i = 2 \/ i = 3) as [->|[->|[->| ->]]] by lia; by rewrite andb_false_r.
      - by rewrite (proj1 (is_u_testbit 4 z ltac:(lia)) H4 i) by lia. }
    destruct Hz. split; lia.
  - by apply (is_u_weaken 5); [lia|].
Qed.

Lemma csr_new_u64 f3 old src : is_u64 old -> is_u64 src -> is_u64 (csr_new f3 old src).
Proof. intros. unfold csr_new. cases; auto with ranges. Qed.

Lemma ok_exec_system sys pc inst a : is_u64 a -> okb (exec_system sys pc inst a).
Proof.
  intros Ha. unfold exec_system.
  destruct (f_f3 inst =? 0); [|destruct (f_f3 inst =? 4); [ok_leaf|]].
  - repeat (case_match; [try ok_leaf|]); try ok_leaf; [apply ok_do_syscall|].
    eapply ok_bind; [apply ok_put; auto with ranges|]. intros. by apply ok_ret.
  - ok_regs. eapply ok_bind; [apply ok_put|intros; by apply ok_ret].
    intros c1 Hc1. cbv beta zeta. apply with_pc_wf; [|auto with ranges].
    assert (cpu_wf (csr_write c1 (inst .>> 20)
      (csr_new (f_f3 inst) (csr_read c (inst .>> 20)) (csr_src (f_f3 inst) inst a)))).
    { apply ok_csr_write; [done|]. apply csr_new_u64; [by apply csr_read_u64|by apply csr_src_u64]. }
    case_match; [|done]. apply set_wf; [done|auto with ranges|by apply csr_read_u64].
Qed.

Lemma ok_exec32 sys th pc inst : is_u64 pc -> okb (exec32 sys th pc inst).
Proof.
  intros Hpc. unfold exec32. ok_regs.
  pose proof (get_range c (f_rs1 inst) Hc) as Ha. pose proof (get_range c (f_rs2 inst) Hc) as Hb.
  ok_ifs; try ok_leaf.
  - destruct (branch_taken _ _ _) as [[]|]; ok_leaf.
  - apply ok_exec_load.
  - apply ok_exec_store.
  - destruct (op_imm_val _ _) eqn:E; [apply op_imm_val_u64 in E|]; ok_leaf.
  - destruct (op_imm32_val _ _) eqn:E; [apply op_imm32_val_u64 in E|]; ok_leaf.
  - destruct (op_val _ _ _ _) eqn:E; [apply op_val_u64 in E|]; ok_leaf.
  - destruct (op32_val _ _ _ _) as [[]|] eqn:E; [apply op32_val_u64 in E|..]; ok_leaf.
  - by apply ok_exec_system.
Qed.

Lemma ok_c_load rd addr len sx next :
  0 <= rd -> is_u64 addr -> 0 <= len -> is_u64 next -> okb (c_load rd addr len sx next).
Proof.
  intros. eapply ok_bind; [by apply ok_read|]. intros v Hv. apply ok_set_next; [done| |done].
  case_match; auto with ranges.
Qed.

Lemma ok_c_store v addr len next : is_u64 addr -> is_u64 next -> okb (c_store v addr len next).
Proof.
  intros. eapply ok_bind; [|intros; by apply ok_goto].
  apply ok_write; [done|]. apply Forall_take, le_bytes_range.
Qed.

#[export] Hint Resolve ok_c_load ok_c_store : steps.

Lemma ok_step_c_q0 pc hw : okb (step_c_q0 pc hw).
Proof. unfold step_c_q0. ok_regs. ok_ifs; ok_leaf. Qed.

Lemma ok_step_c_arith pc hw : okb (step_c_arith pc hw).
Proof.
  unfold step_c_arith. ok_regs. ok_ifs; try ok_leaf.
  - apply ok_set_next; auto with ranges. case_match; auto with ranges.
  - apply ok_set_next; auto with ranges. cases; auto with ranges.
Qed.

Lemma ok_step_c_q1 pc hw : okb (step_c_q1 pc hw).
Proof.
  unfold step_c_q1. ok_regs. ok_ifs; try ok_leaf; [apply ok_step_c_arith|].
  apply ok_goto. cases; auto with ranges.
Qed.

Lemma ok_step_c_q2 pc hw : okb (step_c_q2 pc hw).
Proof. unfold step_c_q2. ok_regs. ok_ifs; ok_leaf. Qed.

Lemma ok_step_c pc hw : okb (step_c pc hw).
Proof.
  unfold step_c. ok_ifs; [apply ok_step_c_q0|apply ok_step_c_q1|apply ok_step_c_q2].
Qed.

Lemma ok_step_mode sys th : okb (step_mode sys th).
Proof.
  unfold step_mode. ok_regs.
  destruct (ADDR_SPACE <=? pc c) eqn:Hpc; [ok_leaf|].
  destruct (negb (pc c mod 2 =? 0)); [ok_leaf|].
  bools. destruct (wf_pc c Hc). unfold ADDR_SPACE in Hpc.
  eapply ok_bind; [apply ok_read; [by apply wf_pc|done]|]. intros v Hv. cbv beta zeta.
  case_match; [apply ok_step_c|].
  eapply ok_bind; [apply ok_read; [split; lia|done]|]. intros hi Hhi. cbv beta zeta.
  apply ok_exec32. by apply wf_pc.
Qed.

(** ** Consequences *)

Lemma equiv_refl c m : cpu_wf c -> mem_wf m -> equiv (c, m) (c, m).
Proof. intros. split_and!; [done..|]. by apply mem_equiv_refl. Qed.

Lemma step_mode_wf sys th c m :
  cpu_wf c -> mem_wf m ->
  cpu_wf (step_mode sys th (c, m)).2.1 /\ mem_wf (step_mode sys th (c, m)).2.2.
Proof.
  intros Hc Hm. destruct (ok_step_mode sys th _ _ (equiv_refl c m Hc Hm)) as (_ & He & _).
  destruct He as (_ & ? & ?). split; [done|]. by eapply mem_equiv_wf_l.
Qed.

(** ** Job steps leave the log and the tohost latch alone *)

Definition quiet {A} (k : Step A) : Prop :=
  forall s, tohost (k s).2.1 = tohost s.1 /\ syscall_log (k s).2.2 = syscall_log s.2.

Lemma quiet_bind {A B} (k : Step A) (f : A -> Step B) :
  quiet k -> (forall a, quiet (f a)) -> quiet (k ≫= f).
Proof.
  intros Hk Hf s. destruct (Hk s) as [Ht Hl]. unfold mbind, M_bind.
  destruct (k s) as [[a|e|] s']; try done. simpl in *. destruct (Hf a s'). split; congruence.
Qed.

Lemma quiet_read f addr len : quiet (mem_read f addr len).
Proof.
  intros [c m]. unfold mem_read. simpl. split; [by destruct (read m addr len)|].
  pose proof (read_log m addr len). by destruct (read m addr len).
Qed.

Lemma quiet_write f addr bytes : quiet (mem_write f addr bytes).
Proof.
  intros [c m]. unfold mem_write. simpl. split; [by destruct (write m addr bytes)|].
  pose proof (write_log m addr bytes). by destruct (write m addr bytes).
Qed.

Lemma quiet_put f : (forall c, tohost (f c) = tohost c) -> quiet (put_cpu f).
Proof. intros Hf s. split; [apply Hf|done]. Qed.

Lemma tohost_set c r v : tohost (set c r v) = tohost c.
Proof. unfold set. by case_match. Qed.

Lemma tohost_csr_write c n v : tohost (csr_write c n v) = tohost c.
Proof. unfold csr_write. by repeat case_match. Qed.

Lemma quiet_set_next rd v next : quiet (set_next rd v next).
Proof. apply quiet_bind; [|done]. apply quiet_put. intros c. simpl. apply tohost_set. Qed.

Lemma quiet_goto next : quiet (goto next).
Proof. by apply quiet_bind. Qed.

Lemma quiet_ret {A} (a : A) : quiet (mret a).
Proof. done. Qed.
Lemma quiet_fail {A} e : quiet (mfail e : Step A).
Proof. done. Qed.
Lemma quiet_panic {A} : quiet (mpanic : Step A).
Proof. done. Qed.
Lemma quiet_get : quiet get_cpu.
Proof. done. Qed.

Ltac quiet_cases :=
  repeat first
    [ apply quiet_ret | apply quiet_fail | apply quiet_panic | apply quiet_get
    | apply quiet_read | apply quiet_write | apply quiet_set_next | apply quiet_goto
    |  apply quiet_bind; [|intros ?] | case_match ].

Lemma quiet_exec_system pc inst a : quiet (exec_system false pc inst a).
Proof.
  unfold exec_system. quiet_cases; apply quiet_put; intros c;
    cbn [tohost with_pc with_mstatus]; rewrite ?tohost_set, ?tohost_csr_write; reflexivity.
Qed.

Lemma quiet_exec32 pc inst : quiet (exec32 false None pc inst).
Proof.
  unfold exec32. apply quiet_bind; [done|]. intros c. cbv zeta.
  repeat match goal with |- quiet (if ?b then _ else _) => destruct b end;
    try apply quiet_exec_system; unfold exec_load, exec_store; quiet_cases.
Qed.

Lemma quiet_step_c pc hw : quiet (step_c pc hw).
Proof.
  unfold step_c, step_c_q0, step_c_q1, step_c_arith, step_c_q2, c_load, c_store. quiet_cases.
Qed.

Lemma quiet_step : quiet step.
Proof.
  unfold step, step_mode. apply quiet_bind; [done|]. intros c. cbv zeta. do 2 (case_match; [done|]).
  apply quiet_bind; [apply quiet_read|]. intros v. case_match; [apply quiet_step_c|].
  apply quiet_bind; [apply quiet_read|]. intros hi. apply quiet_exec32.
Qed.

(** C27. A step keeps the machine state well formed on every path, traps and halts
    included: 32 registers with [x0 = 0], every register, pc and CSR within 64 bits,
    and the memory representation invariant. *)
Theorem step_preserves_invariant sys th c m :
  cpu_wf c -> mem_wf m ->
  let '(_, (c', m')) := step_mode sys th (c, m) in cpu_wf c' /\ mem_wf m'.
Proof.
  intros Hc Hm. pose proof (step_mode_wf sys th c m Hc Hm).
  by destruct (step_mode sys th (c, m)) as [r [c' m']].
Qed.

(** The determinism contract: from machines with equal registers and equivalent
    memories (same pages, whatever the slots and the lookaside), a step has the same
    outcome, the same registers, and equivalent memories. *)
Theorem step_deterministic sys th c m1 m2 :
  cpu_wf c -> mem_equiv m1 m2 ->
  let '(r1, (c1, m1')) := step_mode sys th (c, m1) in
  let '(r2, (c2, m2')) := step_mode sys th (c, m2) in
  r1 = r2 /\ c1 = c2 /\ mem_equiv m1' m2'.
Proof.
  intros Hc Hm. destruct (ok_step_mode sys th (c, m1) (c, m2)) as (Hr & (Hc' & _ & Hm') & _);
    [by split_and!|].
  by destruct (step_mode sys th (c, m1)) as [r1 [c1 m1']],
    (step_mode sys th (c, m2)) as [r2 [c2 m2']].
Qed.

(** The step at a memory whose first word is [addi x1, x0, 5]. *)
Definition addi_mem : Mem := (write new 0x1000 [0x93; 0x00; 0x50; 0x00]).2.

Lemma addi_mem_wf : mem_wf addi_mem.
Proof. apply write_wf; [apply new_wf|done|done|by repeat constructor]. Qed.

Lemma step_preserves_invariant_witness :
  let '(r, (c', m')) := step_mode false None (cpu_new 0x1000 STACK_TOP, addi_mem) in
  cpu_wf c' /\ mem_wf m'.
Proof.
  apply (step_preserves_invariant false None (cpu_new 0x1000 STACK_TOP) addi_mem);
    [by apply cpu_new_wf|apply addi_mem_wf].
Defined.

(** A second representation of the same pages, with the lookaside filled by a read. *)
Lemma step_deterministic_witness :
  let m2 := (read addi_mem 0x1000 8).2 in
  let '(r1, (c1, m1')) := step_mode false None (cpu_new 0x1000 STACK_TOP, addi_mem) in
  let '(r2, (c2, m2')) := step_mode false None (cpu_new 0x1000 STACK_TOP, m2) in
  r1 = r2 /\ c1 = c2 /\ mem_equiv m1' m2'.
Proof.
  apply (step_deterministic false None (cpu_new 0x1000 STACK_TOP) addi_mem);
    [by apply cpu_new_wf|].
  destruct (read_ok addi_mem 0x1000 8) as (m' & Hr & He);
    [apply addi_mem_wf|done|by do 3 right|done|]. by rewrite Hr.
Defined.
