(* ===== verification/Snapshot.v ===== *)
(** * Machine snapshots (crates/rvcore/src/snapshot.rs)

    Serialisation of the architectural state and its parser, which takes untrusted
    bytes.  A captured state is restored exactly; the parser never panics. *)

From S2P Require Import Prelude Mem Cpu.

(** [b"RVS1"] *)
Definition MAGIC : list Z := [0x52; 0x56; 0x53; 0x31].

Definition capture (c : Cpu) (m : Mem) : list Z :=
  MAGIC ++ le_bytes 4 (wrap 32 (Z.of_nat (allocated_pages m))) ++
  concat (le_bytes 8 <$> x c) ++
  le_bytes 8 (pc c) ++ le_bytes 8 (mtvec c) ++ le_bytes 8 (mepc c) ++
  le_bytes 8 (mcause c) ++ le_bytes 8 (mstatus c) ++
  concat ((fun '(idx, page) => le_bytes 4 idx ++ page) <$> page_iter m).

(** The size of everything before the pages. *)
Definition HEADER_LEN : Z := 8 + 32 * 8 + 8 + 4 * 8.

(** The page loop of [restore]; [n] pages remain at offset [off]. *)
Fixpoint restore_pages (bytes : list Z) (n : nat) (off : Z) (m : Mem) : outcome string (Mem * Z) :=
  match n with
  | O => Ok (m, off)
  | S n' =>
      if Z.of_nat (length bytes) <? off + 4 + PAGE_SIZE then
        Err "snapshot: truncated page data"%string
      else
        idx ← le_at bytes off 4;
        page ← slice bytes (off + 4) (off + 4 + PAGE_SIZE);
        restore_pages bytes n' (off + (4 + PAGE_SIZE)) (insert_page m idx page)
  end.

Definition restore (bytes : list Z) : outcome string (Cpu * Mem) :=
  if Z.of_nat (length bytes) <? HEADER_LEN then Err "snapshot: too short"%string
  else
    magic ← slice bytes 0 4;
    if negb (bool_decide (magic = MAGIC)) then Err "snapshot: bad magic"%string
    else
      page_count ← le_at bytes 4 4;
      regs ← mapM (fun i => le_at bytes (8 + i * 8) 8) (seqZ 0 32);
      let pc_off := 8 + 32 * 8 in
      pc0 ← le_at bytes pc_off 8;
      csr ← mapM (fun i => le_at bytes (pc_off + 8 + i * 8) 8) (seqZ 0 4);
      let csr_i i := default 0 (csr !! i) in
      let cpu := {| x := regs; pc := pc0; mtvec := csr_i 0%nat; mepc := csr_i 1%nat;
                    mcause := csr_i 2%nat; mstatus := csr_i 3%nat; tohost := None |} in
      '(mem, off) ← restore_pages bytes (Z.to_nat page_count) (pc_off + 8 + 32) new;
      if negb (off =? Z.of_nat (length bytes)) then Err "snapshot: trailing bytes"%string
      else Ok (cpu, mem).

(** ** Round trip *)

Lemma mapM_le_at bytes (l pre post : list Z) base k :
  bytes = pre ++ concat (le_bytes 8 <$> l) ++ post -> Forall is_u64 l ->
  base + k * 8 = Z.of_nat (length pre) ->
  mapM (fun i => le_at (E := string) bytes (base + i * 8) 8) (seqZ k (Z.of_nat (length l))) = Ok l.
Proof.
  intros Hbytes Hl. revert pre k Hbytes. induction Hl as [|a l Ha _ IH]; intros pre k Hb Hk.
  - done.
  - rewrite fmap_cons, concat_cons, <- app_assoc in Hb.
    assert (le_at (E := string) bytes (base + k * 8) 8 = Ok a) as Ha'
      by (rewrite Hb; by apply (le_at_app pre 8 a)).
    specialize (IH (pre ++ le_bytes 8 a) (k + 1)). rewrite <- app_assoc in IH.
    rewrite length_app, length_le_bytes in IH. specialize (IH Hb ltac:(lia)).
    cbn [length]. rewrite seqZ_S_cons. unfold mapM in *. rewrite Ha'. unfold mbind at 1, outcome_bind at 1.
    by rewrite IH.
Qed.

Definition load_pages (recs : list (Z * list Z)) (m : Mem) : Mem :=
  foldl (fun m r => insert_page m r.1 r.2) m recs.

Lemma restore_pages_app bytes recs pre m :
  bytes = pre ++ concat (page_rec <$> recs) -> Forall rec_ok recs ->
  restore_pages bytes (length recs) (Z.of_nat (length pre)) m =
  Ok (load_pages recs m, Z.of_nat (length bytes)).
Proof.
  intros Hb Hr. revert pre m Hb. induction Hr as [|[k pg] recs [Hk [Hl _]] _ IH]; intros pre m Hb.
  - simpl in *. by rewrite Hb, app_nil_r.
  - rewrite fmap_cons, concat_cons in Hb. unfold page_rec at 1 in Hb. cbn [fst snd] in *.
    rewrite <- app_assoc in Hb.
    assert (Z.of_nat (length pg) = PAGE_SIZE) as Hpg by (rewrite Hl; unfold PAGE_SIZE; lia).
    cbn [length restore_pages].
    rewrite (proj2 (Z.ltb_ge _ _)) by (rewrite Hb, !length_app, length_le_bytes; lia).
    rewrite Hb, (le_at_app pre 4 k), <- Hb by done. unfold mbind at 1, outcome_bind at 1.
    rewrite Hb, (app_assoc pre), (slice_app (pre ++ le_bytes 4 k) pg), <- (app_assoc pre), <- Hb
      by (rewrite ?length_app, ?length_le_bytes; lia).
    unfold mbind, outcome_bind.
    specialize (IH ((pre ++ le_bytes 4 k) ++ pg) (insert_page m k pg)).
    rewrite <- !app_assoc in IH. rewrite !length_app, length_le_bytes in IH.
    replace (Z.of_nat (length pre) + (4 + PAGE_SIZE))
      with (Z.of_nat (length pre + (4 + length pg))) by lia.
    by rewrite IH.
Qed.

Lemma load_pages_spec recs m :
  mem_wf m -> Forall (fun r => in_space r.1 /\ page_ok r.2) recs -> NoDup recs.*1 ->
  mem_wf (load_pages recs m) /\ syscall_log (load_pages recs m) = syscall_log m /\
  forall k, abs (load_pages recs m) !! k =
    match list_to_map (M := gmap Z (list Z)) recs !! k with Some p => Some p | None => abs m !! k end.
Proof.
  intros W Hr. revert m W. induction Hr as [|[k pg] recs [Hk Hp] _ IH]; intros m W Hnd; [done|].
  cbn [fst snd fmap list_fmap] in *. apply NoDup_cons in Hnd as [Hni Hnd].
  destruct (IH (insert_page m k pg)) as (W' & Hlog & Habs); [by apply insert_page_wf|done|].
  cbn [load_pages foldl fst snd]. split_and!; [done|..].
  - unfold load_pages in Hlog. rewrite Hlog. unfold insert_page. by destruct (page_dir m !! k).
  - intros q. etrans; [apply Habs|]. rewrite insert_page_abs by (by apply wf_slots_ok). cbn [list_to_map foldr fst snd].
    change (foldr _ ∅ recs) with (list_to_map (M := gmap Z (list Z)) recs).
    destruct (decide (k = q)) as [<-|Hq].
    + rewrite (not_elem_of_list_to_map_1 recs k Hni), !lookup_insert_eq. done.
    + by rewrite !lookup_insert_ne.
Qed.

Lemma pages_in_space m :
  mem_wf m -> Forall (fun r => in_space r.1 /\ page_ok r.2) (apages (abs m)).
Proof.
  intros W. apply Forall_forall. intros [k pg] Hk%elem_of_apages. split; simpl; [|by eapply abs_page_ok].
  rewrite abs_lookup in Hk. destruct (page_dir m !! k) as [s|] eqn:Hs; [|done]. by eapply wf_space.
Qed.

Lemma load_pages_apages m :
  mem_wf m -> mem_wf (load_pages (apages (abs m)) new) /\
  abs (load_pages (apages (abs m)) new) = abs m /\ syscall_log (load_pages (apages (abs m)) new) = [].
Proof.
  intros W. destruct (load_pages_spec (apages (abs m)) new) as (W' & Hlog & Habs).
  - apply new_wf.
  - by apply pages_in_space.
  - rewrite apages_fst. apply NoDup_sorted_keys.
  - split_and!; [done| |done]. apply map_eq. intros k.
    rewrite Habs, list_to_map_apages, new_abs, lookup_empty. by destruct (abs m !! k).
Qed.

(** The captured bytes as a header followed by the page records. *)
Definition header (c : Cpu) (count : Z) : list Z :=
  MAGIC ++ le_bytes 4 count ++ concat (le_bytes 8 <$> x c) ++
  le_bytes 8 (pc c) ++ concat (le_bytes 8 <$> [mtvec c; mepc c; mcause c; mstatus c]).

Lemma capture_header c m :
  capture c m =
  header c (wrap 32 (Z.of_nat (allocated_pages m))) ++ concat (page_rec <$> apages (abs m)).
Proof.
  unfold capture, header. rewrite page_iter_abs. rewrite <- !app_assoc. cbn [fmap list_fmap concat].
  rewrite app_nil_r, <- !app_assoc. do 9 f_equal. apply list_fmap_ext. by intros ? [??] _.
Qed.

Lemma length_concat_le (l : list Z) : length (concat (le_bytes 8 <$> l)) = (8 * length l)%nat.
Proof.
  induction l as [|a l IH]; [done|].
  rewrite fmap_cons, concat_cons, length_app, length_le_bytes, IH. cbn [length]. lia.
Qed.

Lemma length_header c n : cpu_wf c -> Z.of_nat (length (header c n)) = HEADER_LEN.
Proof.
  intros [Hl _ _ _ _ _ _ _]. unfold header. rewrite !length_app, !length_concat_le, !length_le_bytes, Hl.
  done.
Qed.

Lemma pages_u32 m : mem_wf m -> is_u32 (Z.of_nat (allocated_pages m)).
Proof.
  intros W. unfold allocated_pages. rewrite <- (wf_count m W).
  pose proof (slots_bound m W). unfold is_u. lia.
Qed.

(** Parsing a header gives the registers back and leaves the pages to [restore_pages]. *)
Lemma restore_header c n k :
  cpu_wf c -> is_u32 n ->
  restore (header c n ++ k) =
    ('(mem, off) ← restore_pages (header c n ++ k) (Z.to_nat n) HEADER_LEN new;
     if negb (off =? Z.of_nat (length (header c n ++ k)))
     then Err "snapshot: trailing bytes"%string else Ok (with_tohost c None, mem)).
Proof.
  intros W Hn. pose proof (length_header c n W) as Hlen. unfold restore.
  rewrite (proj2 (Z.ltb_ge _ _)) by (rewrite length_app; lia).
  set (bytes := header c n ++ k) in *.
  assert (Hb : bytes = MAGIC ++ le_bytes 4 n ++ concat (le_bytes 8 <$> x c) ++
    le_bytes 8 (pc c) ++ concat (le_bytes 8 <$> [mtvec c; mepc c; mcause c; mstatus c]) ++ k)
    by (subst bytes; unfold header; by rewrite <- !app_assoc).
  clearbody bytes. destruct W as [Hl _ Hr Hpc H1 H2 H3 H4].
  assert (slice (E := string) bytes 0 4 = Ok MAGIC) as -> by (rewrite Hb; by apply (slice_app [] MAGIC)).
  unfold mbind at 1, outcome_bind at 1.
  rewrite bool_decide_true by done. simpl negb. cbv iota.
  assert (le_at (E := string) bytes 4 4 = Ok n) as -> by (rewrite Hb; by apply (le_at_app MAGIC 4 n)).
  unfold mbind at 1, outcome_bind at 1.
  rewrite app_assoc in Hb.
  pose proof (mapM_le_at bytes _ _ _ 8 0 Hb Hr eq_refl) as Hregs.
  rewrite Hl in Hregs. change (Z.of_nat 32) with 32 in Hregs. rewrite Hregs.
  unfold mbind at 1, outcome_bind at 1.
  rewrite app_assoc in Hb.
  assert (length ((MAGIC ++ le_bytes 4 n) ++ concat (le_bytes 8 <$> x c)) = 264%nat) as H264
    by (rewrite !length_app, length_concat_le, length_le_bytes, Hl; done).
  assert (le_at (E := string) bytes (8 + 32 * 8) 8 = Ok (pc c)) as ->
    by (rewrite Hb; apply le_at_app; [by rewrite H264|done..]).
  unfold mbind at 1, outcome_bind at 1. rewrite app_assoc in Hb.
  pose proof (mapM_le_at bytes _ _ _ (8 + 32 * 8 + 8) 0 Hb) as Hcsr.
  change (Z.of_nat (length [mtvec c; mepc c; mcause c; mstatus c])) with 4 in Hcsr.
  rewrite Hcsr; [|by rewrite !Forall_cons, Forall_nil|rewrite length_app, H264, length_le_bytes; done].
  unfold mbind at 1, outcome_bind at 1. done.
Qed.

Lemma restore_capture c m :
  cpu_wf c -> mem_wf m ->
  exists m', restore (capture c m) = Ok (with_tohost c None, m') /\ mem_wf m' /\
             abs m' = abs m /\ syscall_log m' = [].
Proof.
  intros W Wm. rewrite capture_header, (wrap_small 32 _ (pages_u32 m Wm)).
  rewrite restore_header by (try apply pages_u32; done).
  pose proof (restore_pages_app _ _ (header c (Z.of_nat (allocated_pages m))) new eq_refl
    (apages_rec_ok m Wm)) as Hp.
  rewrite length_header, <- allocated_pages_abs in Hp by done. rewrite Nat2Z.id, Hp.
  exists (load_pages (apages (abs m)) new). destruct (load_pages_apages m Wm) as (?&?&?).
  unfold mbind, outcome_bind. rewrite Z.eqb_refl. simpl. by split_and!.
Qed.

(** ** The parser is total *)

Lemma mapM_total {A B} (f : A -> outcome string B) (P : B -> Prop) l :
  (forall a, a ∈ l -> exists b, f a = Ok b /\ P b) ->
  exists bs, mapM f l = Ok bs /\ length bs = length l /\ Forall P bs.
Proof.
  induction l as [|a l IH]; intros Hf.
  - exists []. by split_and!; [..|constructor].
  - destruct (Hf a) as (b & Hb & HP); [by left|].
    destruct IH as (bs & Hbs & Hl & HF); [intros; apply Hf; by right|].
    exists (b :: bs). unfold mapM in *. rewrite Hb. unfold mbind at 1, outcome_bind at 1.
    rewrite Hbs. simpl. split_and!; [done|by rewrite Hl|by constructor].
Qed.

Lemma restore_pages_total bytes n off m :
  0 <= off -> Forall is_byte bytes ->
  (exists recs off', restore_pages bytes n off m = Ok (load_pages recs m, off') /\ Forall rec_ok recs) \/
  exists e, restore_pages bytes n off m = Err e.
Proof.
  intros Hoff Hb. revert off m Hoff. induction n as [|n IH]; intros off m Hoff.
  { left. exists [], off. split; [done|constructor]. }
  cbn [restore_pages]. case_match; [right; eauto|]. bools.
  assert (PAGE_SIZE = 4096) by done.
  destruct (le_at_ok (E := string) bytes off 4) as (idx & -> & Hidx); [lia..|].
  unfold slice. destruct (slice_get_Some bytes (off + 4) (off + 4 + PAGE_SIZE)) as (pg & -> & Hpl & Hpb); [lia..|].
  unfold mbind, outcome_bind.
  destruct (IH (off + (4 + PAGE_SIZE)) (insert_page m idx pg)) as [(recs & off' & -> & Hr)|He]; [lia| |by right].
  left. exists ((idx, pg) :: recs), off'. split; [done|]. constructor; [|done].
  split; [by apply Hidx|]. split; [simpl; lia|by apply Hpb].
Qed.

(** What a parser result may be: an error, or a state with 32 registers and 64-bit
    fields whose memory holds the page records; never a panic. *)
Definition restored_ok (r : outcome string (Cpu * Mem)) : Prop :=
  match r with
  | Err _ => True
  | Panic => False
  | Ok (c, m) =>
      cpu_ranges c /\ tohost c = None /\
      exists recs, m = load_pages recs new /\ Forall rec_ok recs
  end.

Lemma restore_total bytes : Forall is_byte bytes -> restored_ok (restore bytes).
Proof.
  intros Hb. unfold restore. case_match; [done|]. bools. unfold HEADER_LEN in *.
  unfold slice. destruct (slice_get_Some bytes 0 4) as (mg & -> & _); [lia..|].
  unfold mbind at 1, outcome_bind at 1. case_match; [done|].
  destruct (le_at_ok (E := string) bytes 4 4) as (n & -> & _); [lia..|].
  unfold mbind at 1, outcome_bind at 1.
  destruct (mapM_total (fun i => le_at bytes (8 + i * 8) 8) is_u64 (seqZ 0 32)) as (regs & -> & Hrl & Hr).
  { intros i Hi%elem_of_seqZ. destruct (le_at_ok (E := string) bytes (8 + i * 8) 8) as (v & ? & ?); [lia..|].
    eauto. }
  unfold mbind at 1, outcome_bind at 1.
  destruct (le_at_ok (E := string) bytes (8 + 32 * 8) 8) as (p & -> & Hp); [lia..|].
  unfold mbind at 1, outcome_bind at 1.
  destruct (mapM_total (fun i => le_at bytes (8 + 32 * 8 + 8 + i * 8) 8) is_u64 (seqZ 0 4)) as (csr & -> & Hcl & Hcs).
  { intros i Hi%elem_of_seqZ. destruct (le_at_ok (E := string) bytes (8 + 32 * 8 + 8 + i * 8) 8) as (v & ? & ?); [lia..|].
    eauto. }
  unfold mbind at 1, outcome_bind at 1.
  destruct (restore_pages_total bytes (Z.to_nat n) (8 + 32 * 8 + 8 + 32) new) as
    [(recs & off & -> & Hrecs)|(e & ->)]; [lia|done| |done].
  unfold mbind, outcome_bind. case_match; [done|].
  destruct csr as [|c0 [|c1 [|c2 [|c3 [|]]]]]; try done.
  apply Forall_cons in Hcs as [? Hcs]. apply Forall_cons in Hcs as [? Hcs].
  apply Forall_cons in Hcs as [? Hcs]. apply Forall_cons in Hcs as [? _].
  unfold restored_ok, cpu_ranges. cbn [x pc mtvec mepc mcause mstatus tohost lookup list_lookup default].
  split_and!; try done; [by apply Hp|by exists recs].
Qed.

(** ** Untrusted snapshots that match a known hash *)

Lemma load_pages_slots_ok recs m : slots_ok m -> slots_ok (load_pages recs m).
Proof.
  revert m. induction recs as [|r recs IH]; intros m Hm; [done|]. by apply IH, insert_page_slots_ok.
Qed.

Lemma load_pages_rec_ok recs m :
  slots_ok m -> Forall rec_ok recs -> Forall rec_ok (apages (abs m)) ->
  Forall rec_ok (apages (abs (load_pages recs m))) /\
  (forall k, k ∈ recs.*1 -> is_Some (abs (load_pages recs m) !! k)) /\
  (forall k, is_Some (abs m !! k) -> is_Some (abs (load_pages recs m) !! k)).
Proof.
  intros Hs Hr. revert m Hs. induction Hr as [|r recs Hr1 _ IH]; intros m Hs Hm.
  { split_and!; [done| |done]. intros k Hk. by apply not_elem_of_nil in Hk. }
  destruct (IH (insert_page m r.1 r.2)) as (H1 & H2 & H3).
  { by apply insert_page_slots_ok. }
  { rewrite insert_page_abs by done. apply Forall_forall. intros [k pg] Hk%elem_of_apages.
    apply lookup_insert_Some in Hk as [[<- <-]|[_ Hk]]; [by destruct r|].
    rewrite Forall_forall in Hm. by apply Hm, elem_of_apages. }
  cbn [load_pages foldl]. split_and!; [done| |].
  - intros k. rewrite fmap_cons, elem_of_cons. intros [->|Hk]; [|by apply H2].
    apply H3. rewrite insert_page_abs, lookup_insert_eq by done. done.
  - intros k Hk. apply H3. rewrite insert_page_abs by done.
    destruct (decide (r.1 = k)) as [->|]; [by rewrite lookup_insert_eq|by rewrite lookup_insert_ne].
Qed.

Lemma load_pages_wf recs m :
  mem_wf m -> Forall (fun r => in_space r.1 /\ page_ok r.2) recs ->
  mem_wf (load_pages recs m) /\ syscall_log (load_pages recs m) = syscall_log m.
Proof.
  intros W Hr. revert m W. induction Hr as [|r recs [Hk Hp] _ IH]; intros m W; [done|].
  destruct (IH (insert_page m r.1 r.2)) as [W' Hl]; [by apply insert_page_wf|].
  cbn [load_pages foldl] in *. split; [done|]. unfold load_pages in Hl. rewrite Hl.
  unfold insert_page. by destruct (page_dir m !! r.1).
Qed.

(** A restored memory with the pages of a well-formed one is itself well formed. *)
Lemma restored_mem_wf recs m :
  Forall rec_ok recs -> mem_wf m -> root_preimage (load_pages recs new) = root_preimage m ->
  mem_wf (load_pages recs new) /\ abs (load_pages recs new) = abs m /\
  syscall_log (load_pages recs new) = [].
Proof.
  intros Hr W Heq. destruct (load_pages_rec_ok recs new) as (Hok & Hkeys & _).
  { apply wf_slots_ok, new_wf. }
  { done. }
  { by rewrite new_abs. }
  rewrite !root_preimage_abs in Heq.
  apply concat_page_rec_inj in Heq; [|done|by apply apages_rec_ok].
  assert (abs (load_pages recs new) = abs m) as Ha
    by (by rewrite <- (list_to_map_apages (abs (load_pages recs new))), <- (list_to_map_apages (abs m)), Heq).
  destruct (load_pages_wf recs new) as [W' Hl]; [apply new_wf| |done].
  apply Forall_forall. intros r Hin. rewrite Forall_forall in Hr. split; [|by apply Hr].
  destruct (Hkeys r.1) as [pg Hpg]; [by apply list_elem_of_fmap_2|]. rewrite Ha, abs_lookup in Hpg.
  destruct (page_dir m !! r.1) eqn:Hd; [|done]. by eapply wf_space.
Qed.

(** The preimage check of the judge: a snapshot whose state hash is that of a known state
    restores that state, or exhibits a BLAKE3 collision. *)
Lemma restored_binds `{Blake3} bytes c m p c' m' p' :
  Forall is_byte bytes -> restore bytes = Ok (c, m) ->
  length p = 32%nat -> length p' = 32%nat -> cpu_wf c' -> mem_wf m' ->
  tohost c' = None -> syscall_log m' = [] ->
  state_hash p c m = state_hash p' c' m' ->
  (p = p' /\ c = c' /\ mem_equiv m m') \/
  collision blake3 (state_preimage p c m) (state_preimage p' c' m') \/
  collision blake3 (root_preimage m) (root_preimage m').
Proof.
  intros Hb Hr Hp Hp' Wc Wm Ht Hlog Heq. pose proof (restore_total bytes Hb) as Hok. rewrite Hr in Hok.
  destruct Hok as (Hc & Htc & recs & -> & Hrecs).
  destruct (decide (state_preimage p c (load_pages recs new) = state_preimage p' c' m')) as [Hpre|];
    [|right; left; done].
  apply state_preimage_inj in Hpre as (-> & Hcc & Hroot); [|done|done|done|by apply cpu_wf_ranges].
  destruct (decide (root_preimage (load_pages recs new) = root_preimage m')) as [Hrp|]; [|right; right; done].
  left. split; [done|]. destruct (restored_mem_wf recs m' Hrecs Wm Hrp) as (W & Ha & Hl). split.
  - destruct c, c'; unfold with_tohost in Hcc; simpl in *. by simplify_eq.
  - by split_and!; [..|congruence].
Qed.

(** C32. Round trip of the dispute snapshots: restoring a captured state succeeds and
    gives back the registers, pc and CSRs exactly, and the same memory pages; only the
    [tohost] latch and the log, which are not architectural, start empty. *)
Theorem snapshot_roundtrip c m :
  cpu_wf c -> mem_wf m ->
  exists m', restore (capture c m) = Ok (with_tohost c None, m') /\ mem_wf m' /\
             abs m' = abs m /\ syscall_log m' = [].
Proof. apply restore_capture. Qed.

(** [restore] takes untrusted bytes: on every byte string it returns a result or an
    error, never a panic, and an accepted state has 32 registers and 64-bit fields, and a
    memory made of page records with 32-bit indices and 4096 bytes each. *)
Theorem restore_never_panics bytes :
  Forall is_byte bytes ->
  restore bytes <> Panic /\
  forall c m, restore bytes = Ok (c, m) ->
    cpu_ranges c /\ tohost c = None /\ exists recs, m = load_pages recs new /\ Forall rec_ok recs.
Proof.
  intros Hb. pose proof (restore_total bytes Hb) as Hr. split.
  - intros Hp. by rewrite Hp in Hr.
  - intros c m Heq. by rewrite Heq in Hr.
Qed.

Lemma snapshot_roundtrip_witness :
  exists m', restore (capture (cpu_new 0x1000 STACK_TOP) (two_stores 0x1000 0x8000)) =
               Ok (cpu_new 0x1000 STACK_TOP, m') /\ mem_wf m' /\
             abs m' = abs (two_stores 0x1000 0x8000) /\ syscall_log m' = [].
Proof.
  apply (snapshot_roundtrip (cpu_new 0x1000 STACK_TOP) (two_stores 0x1000 0x8000));
    [by apply cpu_new_wf|by apply two_stores_wf].
Defined.

Lemma restore_never_panics_witness : restore (MAGIC ++ replicate 400 0xff) <> Panic.
Proof.
  apply (restore_never_panics (MAGIC ++ replicate 400 0xff)).
  apply Forall_app. split; [by repeat constructor|by apply Forall_replicate].
Defined.
