(* ===== verification/Run.v ===== *)
(** * Running jobs (crates/rvcore/src/interp.rs, lines 725-1001)

    The run loop with its chunk-hash chain, the single-chunk executor of the dispute
    judge, and their properties: termination within the instruction budget, and the
    agreement between the judged chunk and the chain of the full run. *)

From S2P Require Import Prelude Mem Cpu Interp InterpFacts Snapshot.

Inductive ChunkEnd : Type :=
  | Boundary
  | ChunkHalted
  | ChunkTrapped (t : Trap).

Inductive ExitStatus : Type :=
  | Halted
  | Tohost (v : Z)
  | InstructionLimit
  | Trapped (t : Trap).

#[export] Instance ExitStatus_eq_dec : EqDecision ExitStatus.
Proof. solve_decision. Defined.

Record RunOutcome : Type := mkOutcome {
  status : ExitStatus;
  chunk_hashes : list (list Z);
  instructions : Z;
  output : option (list Z);
  out_log : list Z;
}.

Record Config : Type := mkConfig {
  chunk_size : Z;
  max_instructions : Z;
  syscalls : bool;
  snapshot_dir : option string;
  tohost_addr : option Z;
}.

(** [Config::default()] *)
Definition default_config : Config :=
  {| chunk_size := 2 ^ 20; max_instructions := 4000000000; syscalls := false;
     snapshot_dir := None; tohost_addr := None |}.

(** ** State of the run loop

    [files] lists the snapshot files written, by chain index, latest last. *)
Record RunState : Type := mkRun {
  r_cpu : Cpu;
  r_mem : Mem;
  r_prev : list Z;
  r_chain : list (list Z);
  r_n : Z;
  r_in_chunk : Z;
  r_files : list (nat * list Z);
}.

(** One iteration ends in another iteration, in an exit, or in a panic. *)
Inductive iter : Type :=
  | Continue (s : RunState)
  | Stop (s : RunState) (st : ExitStatus)
  | Panicked.

(** [write_snapshot]: the file system call is an entry of [r_files]. *)
Definition write_snapshot (cfg : Config) (index : nat) (snap : option (list Z))
    (files : list (nat * list Z)) : list (nat * list Z) :=
  match snapshot_dir cfg, snap with
  | Some _, Some bytes => files ++ [(index, bytes)]
  | _, _ => files
  end.

Section Run.
Context `{Blake3}.

(** ** One chunk from a snapshot *)

(** The loop of [execute_chunk_from]; [None] when the fuel runs out. *)
Fixpoint chunk_loop (fuel : nat) (prev : list Z) (size : Z) (s : machine) (n in_chunk : Z) :
    option (outcome string (list Z * ChunkEnd * Z)) :=
  match fuel with
  | O => None
  | S fuel' =>
      let '(r, s') := step s in
      match r with
      | Ok true => Some (Ok (state_hash prev s'.1 s'.2, ChunkHalted, n + 1))
      | Ok false =>
          if in_chunk + 1 =? size then Some (Ok (state_hash prev s'.1 s'.2, Boundary, n + 1))
          else chunk_loop fuel' prev size s' (n + 1) (in_chunk + 1)
      | Err t => Some (Ok (state_hash prev s'.1 s'.2, ChunkTrapped t, n))
      | Panic => Some Panic
      end
  end.

(** A positive [chunk_size] bounds the iterations: that much fuel is enough. *)
Definition execute_chunk_from (fuel : nat) (snapshot prev : list Z) (size : Z) :
    option (outcome string (list Z * ChunkEnd * Z)) :=
  match restore snapshot with
  | Ok s => chunk_loop fuel prev size s 0 0
  | Err e => Some (Err e)
  | Panic => Some Panic
  end.

(** ** The full run *)

Definition push_hash (s : RunState) : RunState :=
  let h := state_hash (r_prev s) (r_cpu s) (r_mem s) in
  {| r_cpu := r_cpu s; r_mem := r_mem s; r_prev := h; r_chain := r_chain s ++ [h];
     r_n := r_n s; r_in_chunk := r_in_chunk s; r_files := r_files s |}.

Definition with_machine (s : RunState) (c : Cpu) (m : Mem) (n in_chunk : Z)
    (files : list (nat * list Z)) : RunState :=
  {| r_cpu := c; r_mem := m; r_prev := r_prev s; r_chain := r_chain s;
     r_n := n; r_in_chunk := in_chunk; r_files := files |}.

Definition reset_chunk (s : RunState) : RunState :=
  with_machine s (r_cpu s) (r_mem s) (r_n s) 0 (r_files s).

Definition trap_cause (t : Trap) : Z :=
  match t with
  | IllegalInstruction _ _ => 2
  | LoadOutOfRange _ => 5
  | StoreOutOfRange _ => 7
  | Ecall => 8
  | _ => 0
  end.

(** Entry into the handler the guest installed in [mtvec]. *)
Definition route_trap (c : Cpu) (t : Trap) : Cpu :=
  let c1 := with_mcause c (trap_cause t) in
  let c2 := with_mepc c1 (pc c1) in
  with_pc c2 (mtvec c2 .& Z.lnot 0x3).

Definition run_iter (cfg : Config) (s : RunState) : iter :=
  if max_instructions cfg <=? r_n s then Stop (push_hash s) InstructionLimit
  else
    let '(r, (c, m)) := step_mode (syscalls cfg) (tohost_addr cfg) (r_cpu s, r_mem s) in
    let at_boundary :=
      negb (bool_decide (r = Ok false)) || (r_in_chunk s + 1 =? chunk_size cfg) in
    let snap := if bool_decide (is_Some (snapshot_dir cfg)) && at_boundary
                then Some (capture c m) else None in
    let files := write_snapshot cfg (length (r_chain s)) snap (r_files s) in
    if bool_decide (r = Panic) then Panicked
    else if bool_decide (is_Some (tohost_addr cfg)) && bool_decide (is_Some (tohost c)) then
      Stop (push_hash (with_machine s c m (r_n s) (r_in_chunk s) (r_files s)))
           (Tohost (default 0 (tohost c)))
    else
      match r with
      | Ok true =>
          Stop (push_hash (with_machine s c m (r_n s + 1) (r_in_chunk s) files)) Halted
      | Ok false =>
          if r_in_chunk s + 1 =? chunk_size cfg then
            Continue (reset_chunk (push_hash (with_machine s c m (r_n s + 1) (r_in_chunk s + 1) files)))
          else Continue (with_machine s c m (r_n s + 1) (r_in_chunk s + 1) (r_files s))
      | Err t =>
          if negb (mtvec c =? 0) then
            Continue (with_machine s (route_trap c t) m (r_n s + 1) (r_in_chunk s + 1) (r_files s))
          else Stop (push_hash (with_machine s c m (r_n s) (r_in_chunk s) files)) (Trapped t)
      | Panic => Panicked
      end.

Fixpoint run_loop (fuel : nat) (cfg : Config) (s : RunState) :
    option (outcome string (RunState * ExitStatus)) :=
  match fuel with
  | O => None
  | S fuel' =>
      match run_iter cfg s with
      | Continue s' => run_loop fuel' cfg s'
      | Stop s' st => Some (Ok (s', st))
      | Panicked => Some Panic
      end
  end.

(** The tail of [run]: the output region and the final status. *)
Definition finish (s : RunState) (st : ExitStatus) : RunOutcome :=
  let mk st' chain out :=
    {| status := st'; chunk_hashes := chain; instructions := r_n s; output := out;
       out_log := syscall_log (r_mem s) |} in
  if bool_decide (st = Halted) then
    let len := default 0 (ok (read (r_mem s) OUTPUT_LEN_ADDR 8).1) in
    if OUTPUT_MAX <? len then
      mk (Trapped OutputTooLarge) (take (length (r_chain s) - 1) (r_chain s)) None
    else mk st (r_chain s) (ok (read_region (read (r_mem s) OUTPUT_LEN_ADDR 8).2 OUTPUT_DATA_ADDR len))
  else mk st (r_chain s) None.

(** Input installation: both writes are unwrapped. *)
Definition install (m : Mem) (input : list Z) : option Mem :=
  match write m INPUT_LEN_ADDR (le_bytes 8 (Z.of_nat (length input))) with
  | (Ok _, m1) =>
      match write m1 INPUT_DATA_ADDR input with
      | (Ok _, m2) => Some m2
      | _ => None
      end
  | _ => None
  end.

Definition init_run (m : Mem) (entry : Z) : RunState :=
  {| r_cpu := cpu_new entry STACK_TOP; r_mem := m; r_prev := GENESIS; r_chain := [];
     r_n := 0; r_in_chunk := 0; r_files := [] |}.

Definition run_fuel (cfg : Config) : nat := S (Z.to_nat (max_instructions cfg)).

Definition run (m : Mem) (entry : Z) (input : list Z) (cfg : Config) :
    option (outcome string RunOutcome) :=
  match install m input with
  | None => Some Panic
  | Some m' =>
      match run_loop (run_fuel cfg) cfg (init_run m' entry) with
      | Some (Ok (s, st)) => Some (Ok (finish s st))
      | Some (Err e) => Some (Err e)
      | Some Panic => Some Panic
      | None => None
      end
  end.

(** ** Termination *)

Lemma run_iter_n cfg s s' :
  run_iter cfg s = Continue s' -> r_n s < max_instructions cfg /\ r_n s' = r_n s + 1.
Proof.
  unfold run_iter. destruct (Z.leb_spec (max_instructions cfg) (r_n s)) as [|Hn]; [done|].
  destruct (step_mode _ _ _) as [r [c m]]. cases; intros [= <-]; done.
Qed.

Lemma run_iter_stop_n cfg s s' st :
  r_n s <= max_instructions cfg -> run_iter cfg s = Stop s' st -> r_n s' <= max_instructions cfg.
Proof.
  intros Hle. unfold run_iter. destruct (Z.leb_spec (max_instructions cfg) (r_n s)) as [|Hn].
  - intros [= <- <-]. done.
  - destruct (step_mode _ _ _) as [r [c m]]. cases; intros [= <- <-]; simpl; lia.
Qed.

Lemma run_loop_total fuel cfg s :
  r_n s <= max_instructions cfg -> max_instructions cfg - r_n s < Z.of_nat fuel ->
  exists o, run_loop fuel cfg s = Some o /\
    forall s' st, o = Ok (s', st) -> r_n s' <= max_instructions cfg.
Proof.
  revert s. induction fuel as [|fuel IH]; intros s Hle Hf; [lia|].
  cbn [run_loop]. destruct (run_iter cfg s) as [s1|s1 st1|] eqn:Hi.
  - apply run_iter_n in Hi as [??]. apply IH; lia.
  - eexists. split; [done|]. intros s' st [= <- <-]. by eapply run_iter_stop_n.
  - eexists. split; [done|]. done.
Qed.

(** ** Representation independence *)

Definition rs_equiv (s1 s2 : RunState) : Prop :=
  r_cpu s1 = r_cpu s2 /\ cpu_wf (r_cpu s1) /\ mem_equiv (r_mem s1) (r_mem s2) /\
  r_prev s1 = r_prev s2 /\ r_chain s1 = r_chain s2 /\ r_n s1 = r_n s2 /\
  r_in_chunk s1 = r_in_chunk s2 /\ r_files s1 = r_files s2.

Definition iter_equiv (i1 i2 : iter) : Prop :=
  match i1, i2 with
  | Continue s1, Continue s2 => rs_equiv s1 s2
  | Stop s1 st1, Stop s2 st2 => rs_equiv s1 s2 /\ st1 = st2
  | Panicked, Panicked => True
  | _, _ => False
  end.

Lemma push_hash_equiv s1 s2 : rs_equiv s1 s2 -> rs_equiv (push_hash s1) (push_hash s2).
Proof.
  intros (Hc&W&Hm&Hp&Hch&Hn&Hk&Hf).
  assert (state_hash (r_prev s1) (r_cpu s1) (r_mem s1) = state_hash (r_prev s2) (r_cpu s2) (r_mem s2))
    as Hh by (rewrite Hc, Hp; by apply state_hash_proper).
  unfold rs_equiv, push_hash. simpl. rewrite Hh, Hch. by split_and!.
Qed.

Lemma with_machine_equiv s1 s2 c m1 m2 n k f :
  rs_equiv s1 s2 -> cpu_wf c -> mem_equiv m1 m2 ->
  rs_equiv (with_machine s1 c m1 n k f) (with_machine s2 c m2 n k f).
Proof. intros (?&?&?&?&?&?&?&?) ??. by unfold rs_equiv; simpl; split_and!. Qed.

Lemma capture_equiv c m1 m2 : mem_equiv m1 m2 -> capture c m1 = capture c m2.
Proof. intros He. unfold capture. by rewrite He. Qed.

Lemma route_trap_wf c t : cpu_wf c -> cpu_wf (route_trap c t).
Proof.
  intros W. unfold route_trap.
  assert (is_u64 (trap_cause t)) by (by destruct t).
  assert (cpu_wf (with_mcause c (trap_cause t))) by auto with ranges.
  apply with_pc_wf; auto with ranges.
Qed.

Lemma run_iter_equiv cfg s1 s2 :
  rs_equiv s1 s2 -> iter_equiv (run_iter cfg s1) (run_iter cfg s2).
Proof.
  intros He. pose proof He as (Hc&W&Hm&Hp&Hch&Hn&Hk&Hf). unfold run_iter. rewrite <- Hn.
  destruct (max_instructions cfg <=? r_n s1); [split; [by apply push_hash_equiv|done]|].
  destruct (ok_step_mode (syscalls cfg) (tohost_addr cfg) (r_cpu s1, r_mem s1) (r_cpu s2, r_mem s2))
    as (Hr & (Hc' & W' & Hm') & _); [by split_and!|].
  destruct (step_mode _ _ (r_cpu s1, r_mem s1)) as [r1 [c1 m1]],
    (step_mode _ _ (r_cpu s2, r_mem s2)) as [r2 [c2 m2]]. cbn [fst snd] in *. subst r2 c2.
  rewrite <- Hk, <- Hf, <- Hch, (capture_equiv c1 m1 m2 Hm').
  destruct (bool_decide (r1 = Panic)); [done|].
  destruct (_ && bool_decide (is_Some (tohost c1))).
  { split; [|done]. apply push_hash_equiv. by apply with_machine_equiv. }
  destruct r1 as [[]|t|]; [..|done].
  - split; [|done]. apply push_hash_equiv. by apply with_machine_equiv.
  - case_match; [|by apply with_machine_equiv].
    unfold reset_chunk. set (t1 := push_hash _). set (t2 := push_hash _).
    assert (rs_equiv t1 t2) as Ht by (apply push_hash_equiv; by apply with_machine_equiv).
    pose proof Ht as (->&?&?&_&_&->&_&->). by apply with_machine_equiv.
  - case_match; [apply with_machine_equiv; [done|by apply route_trap_wf|done]|].
    split; [|done]. apply push_hash_equiv. by apply with_machine_equiv.
Qed.

Lemma run_loop_equiv fuel cfg s1 s2 :
  rs_equiv s1 s2 ->
  match run_loop fuel cfg s1, run_loop fuel cfg s2 with
  | Some (Ok (s1', st1)), Some (Ok (s2', st2)) => rs_equiv s1' s2' /\ st1 = st2
  | o1, o2 => o1 = o2
  end.
Proof.
  revert s1 s2. induction fuel as [|fuel IH]; intros s1 s2 He; [done|].
  cbn [run_loop]. pose proof (run_iter_equiv cfg s1 s2 He) as Hi.
  destruct (run_iter cfg s1), (run_iter cfg s2); try done. by apply IH.
Qed.

Lemma finish_equiv s1 s2 st : rs_equiv s1 s2 -> finish s1 st = finish s2 st.
Proof.
  intros (Hc&W&Hm&Hp&Hch&Hn&Hk&Hf). unfold finish.
  assert (syscall_log (r_mem s1) = syscall_log (r_mem s2)) as Hlog by (by apply syscall_log_proper).
  case_match; rewrite Hn, Hch, Hlog; [|done].
  destruct (read_equiv (r_mem s1) (r_mem s2) OUTPUT_LEN_ADDR 8 Hm) as [Hr Hm']; [done|lia|].
  rewrite Hr. set (len := default 0 _).
  assert (0 <= len).
  { subst len. destruct ((read (r_mem s2) OUTPUT_LEN_ADDR 8).1) as [v|e|] eqn:E; simpl; try lia.
    by destruct (read_value_u64 _ OUTPUT_LEN_ADDR 8 (mem_equiv_wf_r _ _ Hm) ltac:(done) ltac:(lia) v E). }
  case_match; [done|]. by rewrite (read_region_equiv _ _ _ _ Hm') by done.
Qed.

Lemma install_equiv m1 m2 input :
  mem_equiv m1 m2 -> Forall is_byte input ->
  match install m1 input, install m2 input with
  | Some m1', Some m2' => mem_equiv m1' m2'
  | None, None => True
  | _, _ => False
  end.
Proof.
  intros Hm Hi. unfold install.
  destruct (write_equiv m1 m2 INPUT_LEN_ADDR (le_bytes 8 (Z.of_nat (length input))) Hm) as [Hr Hm1];
    [done|apply le_bytes_range|].
  destruct (write m1 INPUT_LEN_ADDR _) as [[]?], (write m2 INPUT_LEN_ADDR _) as [[]?]; simplify_eq/=; try done.
  destruct (write_equiv _ _ INPUT_DATA_ADDR input Hm1) as [Hr2 Hm2]; [done|done|].
  by destruct (write m INPUT_DATA_ADDR _) as [[]?], (write m0 INPUT_DATA_ADDR _) as [[]?]; simplify_eq/=.
Qed.

Lemma run_equiv m1 m2 entry input cfg :
  mem_equiv m1 m2 -> is_u64 entry -> Forall is_byte input ->
  run m1 entry input cfg = run m2 entry input cfg.
Proof.
  intros Hm He Hi. unfold run. pose proof (install_equiv m1 m2 input Hm Hi) as Hinst.
  destruct (install m1 input) as [m1'|], (install m2 input) as [m2'|]; try done.
  assert (rs_equiv (init_run m1' entry) (init_run m2' entry)) as Hs.
  { unfold rs_equiv. simpl. split_and!; try done. by apply cpu_new_wf. }
  pose proof (run_loop_equiv (run_fuel cfg) cfg _ _ Hs) as Hl.
  destruct (run_loop _ cfg (init_run m1' entry)) as [[[s1 st1]|e1|]|],
    (run_loop _ cfg (init_run m2' entry)) as [[[s2 st2]|e2|]|]; simplify_eq; try done.
  destruct Hl as [Hl ->]. by rewrite (finish_equiv s1 s2).
Qed.
(** ** The judged chunk and the run *)

(** [k] iterations that all continue. *)
Fixpoint iters (k : nat) (cfg : Config) (s : RunState) : option RunState :=
  match k with
  | O => Some s
  | S k' => match run_iter cfg s with Continue s' => iters k' cfg s' | _ => None end
  end.

(** Jobs run without system calls and without a tohost device. *)
Definition job_config (cfg : Config) : Prop := syscalls cfg = false /\ tohost_addr cfg = None.

(** What the run does from [s], given the judge's answer [(h, e, k)] for one chunk. *)
Definition run_follows (cfg : Config) (s : RunState) (h : list Z) (e : ChunkEnd) (k : Z) : Prop :=
  match e with
  | Boundary =>
      exists s', iters (Z.to_nat k) cfg s = Some s' /\ r_chain s' = r_chain s ++ [h] /\
        r_prev s' = h /\ r_in_chunk s' = 0 /\ r_n s' = r_n s + k
  | ChunkHalted =>
      exists s1 s', iters (Z.to_nat (k - 1)) cfg s = Some s1 /\
        run_iter cfg s1 = Stop s' Halted /\ r_chain s' = r_chain s ++ [h]
  | ChunkTrapped t =>
      exists s1 c m, iters (Z.to_nat k) cfg s = Some s1 /\ r_chain s1 = r_chain s /\
        step (r_cpu s1, r_mem s1) = (Err t, (c, m)) /\
        (mtvec c = 0 -> exists s', run_iter cfg s1 = Stop s' (Trapped t) /\
                                   r_chain s' = r_chain s ++ [h]) /\
        (mtvec c <> 0 -> exists s', run_iter cfg s1 = Continue s' /\ r_chain s' = r_chain s /\
                                    r_cpu s' = route_trap c t)
  end.

Lemma chunk_loop_n fuel prev size s n k h e n' :
  chunk_loop fuel prev size s n k = Some (Ok (h, e, n')) ->
  n <= n' /\ (e = Boundary \/ e = ChunkHalted -> n < n').
Proof.
  revert s n k. induction fuel as [|fuel IH]; intros s n k; [done|]. cbn [chunk_loop].
  destruct (step s) as [[[]|t|] s']; [intros [= <- <- <-]; lia| | |done].
  2: { intros [= <- <- <-]. split; [lia|]. by intros [[=]|[=]]. }
  case_match; [intros [= <- <- <-]; lia|]. intros Hl. apply IH in Hl. lia.
Qed.

(** The unfolding of one iteration of a job after its step. *)
Lemma run_iter_job cfg s r c m :
  job_config cfg -> r_n s < max_instructions cfg ->
  step (r_cpu s, r_mem s) = (r, (c, m)) ->
  exists files, run_iter cfg s =
    match r with
    | Ok true => Stop (push_hash (with_machine s c m (r_n s + 1) (r_in_chunk s) files)) Halted
    | Ok false =>
        if r_in_chunk s + 1 =? chunk_size cfg then
          Continue (reset_chunk (push_hash (with_machine s c m (r_n s + 1) (r_in_chunk s + 1) files)))
        else Continue (with_machine s c m (r_n s + 1) (r_in_chunk s + 1) (r_files s))
    | Err t =>
        if negb (mtvec c =? 0) then
          Continue (with_machine s (route_trap c t) m (r_n s + 1) (r_in_chunk s + 1) (r_files s))
        else Stop (push_hash (with_machine s c m (r_n s) (r_in_chunk s) files)) (Trapped t)
    | Panic => Panicked
    end.
Proof.
  intros [Hs Ht] Hn Hstep. unfold run_iter. rewrite (proj2 (Z.leb_gt _ _)) by done.
  unfold step in Hstep. rewrite Hs, Ht, Hstep. cbn [andb].
  eexists. rewrite (bool_decide_false (is_Some (None : option Z))) by (by intros [? [=]]).
  by destruct r as [[]|t|].
Qed.

Lemma run_follows_S cfg s s' h e k :
  run_iter cfg s = Continue s' -> r_chain s' = r_chain s -> r_n s' = r_n s + 1 ->
  0 <= k -> (e = Boundary \/ e = ChunkHalted -> 0 < k) ->
  run_follows cfg s' h e k -> run_follows cfg s h e (k + 1).
Proof.
  intros Hi Hch Hn Hk He. unfold run_follows. rewrite Hch, Hn.
  replace (Z.to_nat (k + 1)) with (S (Z.to_nat k)) by lia. cbn [iters]. rewrite Hi.
  destruct e as [| |t]; [| |done].
  - intros (x & ? & ? & ? & ? & ?). exists x. split_and!; [done..|lia].
  - assert (0 < k) by auto. replace (Z.to_nat (k + 1 - 1)) with (S (Z.to_nat (k - 1))) by lia.
    cbn [iters]. by rewrite Hi.
Qed.

(** The budget of the run suffices for what the judge executed: [k] instructions, and one more
    to take a trap. *)
Definition in_budget (cfg : Config) (s : RunState) (e : ChunkEnd) (k : Z) : Prop :=
  match e with
  | ChunkTrapped _ => r_n s + k < max_instructions cfg
  | _ => r_n s + k <= max_instructions cfg
  end.

(** The run from [s] stops at its budget inside the current chunk, with no link in between. *)
Definition limit_inside (cfg : Config) (s : RunState) : Prop :=
  max_instructions cfg - r_n s < chunk_size cfg - r_in_chunk s /\
  exists s1, iters (Z.to_nat (max_instructions cfg - r_n s)) cfg s = Some s1 /\ r_chain s1 = r_chain s /\
    run_iter cfg s1 = Stop (push_hash s1) InstructionLimit.

Lemma limit_inside_here cfg s :
  r_n s = max_instructions cfg -> r_in_chunk s < chunk_size cfg -> limit_inside cfg s.
Proof.
  intros Hn Hk. split; [lia|]. exists s. rewrite Hn, Z.sub_diag. split_and!; [done..|].
  unfold run_iter. by rewrite (proj2 (Z.leb_le _ _)) by lia.
Qed.

Lemma limit_inside_S cfg s s' :
  run_iter cfg s = Continue s' -> r_chain s' = r_chain s -> r_n s' = r_n s + 1 -> r_in_chunk s' = r_in_chunk s + 1 ->
  r_n s' <= max_instructions cfg -> limit_inside cfg s' -> limit_inside cfg s.
Proof.
  intros Hi Hc Hn Hk Hm (Hlt & s1 & Hs1 & Hc1 & Hstop). split; [lia|]. exists s1. split_and!; [|congruence|done].
  replace (Z.to_nat (max_instructions cfg - r_n s)) with (S (Z.to_nat (max_instructions cfg - r_n s'))) by lia.
  cbn [iters]. by rewrite Hi.
Qed.

(** The judge's chunk against the run: the run follows it, or its budget ends in the chunk. *)
Lemma chunk_follows fuel cfg s n h e n' :
  job_config cfg -> r_n s <= max_instructions cfg -> r_in_chunk s < chunk_size cfg ->
  chunk_loop fuel (r_prev s) (chunk_size cfg) (r_cpu s, r_mem s) n (r_in_chunk s) = Some (Ok (h, e, n')) ->
  (in_budget cfg s e (n' - n) /\ run_follows cfg s h e (n' - n)) \/
  (~ in_budget cfg s e (n' - n) /\ limit_inside cfg s).
Proof.
  intros Hj. revert s n. induction fuel as [|fuel IH]; intros s n Hmax Hk Hl; [done|].
  pose proof (chunk_loop_n _ _ _ _ _ _ _ _ _ Hl) as [Hnn Hnb]. cbn [chunk_loop] in Hl.
  destruct (decide (r_n s = max_instructions cfg)) as [Hm|Hm].
  { right. split; [|by apply limit_inside_here]. unfold in_budget.
    destruct e; [assert (n < n') by auto; lia|assert (n < n') by auto; lia|lia]. }
  destruct (step (r_cpu s, r_mem s)) as [r [c m]] eqn:Hstep.
  destruct (run_iter_job cfg s r c m Hj) as [files Hi]; [lia|done|].
  destruct r as [[]|t|]; [| | |done].
  - left. injection Hl as <- <- <-. split; [simpl; lia|]. eexists s, _. by replace (n + 1 - n - 1) with 0 by lia.
  - destruct (Z.eqb_spec (r_in_chunk s + 1) (chunk_size cfg)) as [Heq|Hne].
    + left. injection Hl as <- <- <-. split; [simpl; lia|]. replace (n + 1 - n) with 1 by lia. simpl. rewrite Hi. eauto 10.
    + set (s' := with_machine _ _ _ _ _ _) in Hi.
      pose proof (chunk_loop_n _ _ _ _ _ _ _ _ _ Hl) as [Hn1 Hn2].
      assert (forall k, in_budget cfg s' e k <-> in_budget cfg s e (k + 1)) as Hb by (intros k; destruct e; simpl; lia).
      replace (n' - n) with (n' - (n + 1) + 1) by lia. rewrite <- Hb.
      apply (IH s') in Hl as [[Hin Hf]|[Hout Hlim]]; [left|right|simpl; lia..]; (split; [done|]).
      * eapply run_follows_S; [done..|lia| |done]. intros. enough (n + 1 < n') by lia. auto.
      * eapply limit_inside_S; [exact Hi|done..|simpl; lia|done].
  - left. injection Hl as <- <- <-. split; [simpl; lia|]. eexists s, c, m. replace (n - n) with 0 by lia.
    split_and!; [done..| |]; intros Hv; rewrite Hi.
    + rewrite Hv. simpl. eauto.
    + rewrite (proj2 (Z.eqb_neq _ _) Hv). simpl. eauto.
Qed.

(** The run from [s] panics inside the current chunk. *)
Definition panics_inside (cfg : Config) (s : RunState) : Prop :=
  exists j s1, Z.of_nat j < chunk_size cfg - r_in_chunk s /\ iters j cfg s = Some s1 /\ r_chain s1 = r_chain s /\
    run_iter cfg s1 = Panicked.

(** A judge that panics inside a chunk means that the run panics as well, if its budget lasts. *)
Lemma chunk_panics fuel cfg s n :
  job_config cfg -> r_n s <= max_instructions cfg -> r_in_chunk s < chunk_size cfg ->
  chunk_loop fuel (r_prev s) (chunk_size cfg) (r_cpu s, r_mem s) n (r_in_chunk s) = Some Panic ->
  panics_inside cfg s \/ limit_inside cfg s.
Proof.
  intros Hj. revert s n. induction fuel as [|fuel IH]; intros s n Hmax Hk Hl; [done|].
  destruct (decide (r_n s = max_instructions cfg)) as [Hm|Hm]; [right; by apply limit_inside_here|].
  cbn [chunk_loop] in Hl. destruct (step (r_cpu s, r_mem s)) as [r [c m]] eqn:Hstep.
  destruct (run_iter_job cfg s r c m Hj) as [files Hi]; [lia|done|].
  destruct r as [[]|t|]; [done| |done|left; exists 0%nat, s; split_and!; [lia|done..]].
  destruct (Z.eqb_spec (r_in_chunk s + 1) (chunk_size cfg)); [done|].
  set (s' := with_machine _ _ _ _ _ _) in Hi.
  destruct (IH s' _ ltac:(simpl; lia) ltac:(simpl; lia) Hl) as [(j & s1 & Hjs & H1 & H2 & H3)|Hlim].
  - left. exists (S j), s1. cbn [iters]. rewrite Hi. split_and!; [simpl in Hjs; lia|done..].
  - right. eapply limit_inside_S; [exact Hi|done..|simpl; lia|done].
Qed.

(** The judge's chunk depends on the restored machine only up to representation. *)
Lemma chunk_loop_equiv fuel prev size s1 s2 n k :
  equiv s1 s2 -> chunk_loop fuel prev size s1 n k = chunk_loop fuel prev size s2 n k.
Proof.
  revert s1 s2 n k. induction fuel as [|fuel IH]; intros s1 s2 n k He; [done|]. cbn [chunk_loop].
  destruct (ok_step_mode false None s1 s2 He) as (Hr & He' & _).
  unfold step. destruct (step_mode false None s1) as [r1 s1'], (step_mode false None s2) as [r2 s2'].
  cbn [fst snd] in *. subst r2. pose proof He' as (Hc & W & Hm).
  assert (state_hash prev s1'.1 s1'.2 = state_hash prev s2'.1 s2'.2) as ->
    by (rewrite Hc; by apply state_hash_proper).
  destruct r1 as [[]|t|]; try done. case_match; [done|]. by apply IH.
Qed.

Lemma chunk_loop_total fuel prev size s n k :
  k < size -> size - k <= Z.of_nat fuel -> is_Some (chunk_loop fuel prev size s n k).
Proof.
  revert s n k. induction fuel as [|fuel IH]; intros s n k Hk Hf; [lia|]. cbn [chunk_loop].
  destruct (step s) as [[[]|t|] s']; try by eexists.
  case_match; bools; [by eexists|]. apply IH; lia.
Qed.

Lemma chunk_loop_not_err fuel prev size s n k r :
  chunk_loop fuel prev size s n k = Some r -> match r with Err _ => False | _ => True end.
Proof.
  revert s n k. induction fuel as [|fuel IH]; intros s n k; [done|]. cbn [chunk_loop].
  destruct (step s) as [[[]|t|] s']; try (by intros; simplify_eq). destruct (_ =? _); [by intros; simplify_eq|apply IH].
Qed.

Lemma chunk_loop_le fuel prev size s n k h e n' :
  k < size -> chunk_loop fuel prev size s n k = Some (Ok (h, e, n')) -> n' - n <= size - k.
Proof.
  revert s n k. induction fuel as [|fuel IH]; intros s n k Hk; [done|]. cbn [chunk_loop].
  destruct (step s) as [[[]|t|] s']; [intros [= <- <- <-]; lia| |intros [= <- <- <-]; lia|done].
  case_match; bools; [intros [= <- <- <-]; lia|]. intros Hl%IH; lia.
Qed.

(** ** Invariant of a job's run *)

Definition run_wf (s : RunState) : Prop :=
  cpu_wf (r_cpu s) /\ mem_wf (r_mem s) /\ tohost (r_cpu s) = None /\ syscall_log (r_mem s) = [].

Lemma run_iter_wf cfg s s' :
  job_config cfg -> run_wf s -> run_iter cfg s = Continue s' -> run_wf s'.
Proof.
  intros Hj (Wc & Wm & Ht & Hl) Hi. pose proof (run_iter_n _ _ _ Hi) as [Hn _].
  pose proof (step_mode_wf false None _ _ Wc Wm) as [Wc' Wm'].
  pose proof (quiet_step (r_cpu s, r_mem s)) as [Ht' Hl']. unfold step in Ht', Hl'.
  destruct (step_mode false None (r_cpu s, r_mem s)) as [r [c m]] eqn:Hstep. cbn [fst snd] in *.
  destruct (run_iter_job cfg s r c m Hj Hn Hstep) as [files Hi']. rewrite Hi' in Hi.
  unfold run_wf. rewrite Ht in Ht'. rewrite Hl in Hl'.
  destruct r as [[]|t|]; repeat case_match; simplify_eq; simpl; split_and!; try done.
  by apply route_trap_wf.
Qed.

Lemma iters_wf k cfg s s' :
  job_config cfg -> run_wf s -> iters k cfg s = Some s' -> run_wf s'.
Proof.
  intros Hj. revert s. induction k as [|k IH]; intros s W; cbn [iters]; [by intros [= <-]|].
  destruct (run_iter cfg s) as [s1| |] eqn:Hi; try done. apply IH. by eapply run_iter_wf.
Qed.

Lemma init_run_wf m entry : mem_wf m -> syscall_log m = [] -> is_u64 entry -> run_wf (init_run m entry).
Proof. intros. split_and!; try done. by apply cpu_new_wf. Qed.

(** Restoring a job's snapshot gives an equivalent machine. *)
Lemma restore_capture_equiv s :
  run_wf s -> exists s', restore (capture (r_cpu s) (r_mem s)) = Ok s' /\ equiv s' (r_cpu s, r_mem s).
Proof.
  intros (Wc & Wm & Ht & Hl). destruct (restore_capture _ _ Wc Wm) as (m' & -> & Wm' & Ha & Hl').
  replace (with_tohost (r_cpu s) None) with (r_cpu s) by (destruct (r_cpu s); simpl in *; by subst).
  eexists. split; [done|]. split_and!; simpl; [done..|]. split_and!; simpl; congruence.
Qed.

Lemma iters_n i cfg s s' : iters i cfg s = Some s' -> r_n s <= max_instructions cfg ->
  r_n s <= r_n s' <= max_instructions cfg.
Proof.
  revert s. induction i as [|i IH]; intros s; cbn [iters]; [intros [= <-]; lia|].
  destruct (run_iter cfg s) as [s1| |] eqn:Hi; try done. apply run_iter_n in Hi. intros Hs Hn.
  specialize (IH s1 Hs). lia.
Qed.

(** C28. Every run ends: within the fuel of its instruction budget the loop reaches an
    exit, and never reports more instructions than the budget. *)
Theorem run_terminates m entry input cfg :
  0 <= max_instructions cfg ->
  exists o, run m entry input cfg = Some o /\
    forall out, o = Ok out -> instructions out <= max_instructions cfg.
Proof.
  intros Hmax. unfold run. destruct (install m input) as [m'|]; [|by eexists].
  destruct (run_loop_total (run_fuel cfg) cfg (init_run m' entry)) as (o & -> & Ho);
    [simpl; lia|unfold run_fuel; simpl; lia|].
  destruct o as [[s st]|e|]; eexists; (split; [done|]); [|done..].
  intros out [= <-]. specialize (Ho s st eq_refl). unfold finish. by repeat case_match.
Qed.

(** C26. Runs are deterministic in the image, entry, input and configuration: two memories
    with the same pages give the same status, hash chain, instruction count and output. *)
Theorem run_deterministic m1 m2 entry input cfg :
  mem_equiv m1 m2 -> is_u64 entry -> Forall is_byte input ->
  run m1 entry input cfg = run m2 entry input cfg.
Proof. apply run_equiv. Qed.

(** C24. The dispute judge and the worker agree on a chunk.  Take any state [s] that a job's
    run reaches at a chunk boundary, and let the judge restore its snapshot and execute one
    chunk against the previous chain hash: it never gets an error and never runs out of fuel.
    When it answers [(h, e, k)] and the budget of the run suffices for that chunk, the run
    continued from [s] appends [h] to its chain after exactly [k] instructions, or stops with
    [h] as the last link, or traps in the same place; a trap that the guest handles ends the
    judge's chunk but not the run's, whose chain it leaves alone.  When the budget does not
    suffice, the run stops at its limit inside this chunk.  When the judge panics, the run
    panics inside this chunk, or stops at its limit before. *)
Theorem judged_chunk_agrees m entry cfg i s :
  job_config cfg -> 0 <= max_instructions cfg -> mem_wf m -> syscall_log m = [] -> is_u64 entry ->
  iters i cfg (init_run m entry) = Some s -> r_in_chunk s = 0 -> 0 < chunk_size cfg ->
  exists r, execute_chunk_from (Z.to_nat (chunk_size cfg))
              (capture (r_cpu s) (r_mem s)) (r_prev s) (chunk_size cfg) = Some r /\
    match r with
    | Ok (h, e, k) => k <= chunk_size cfg /\
        ((in_budget cfg s e k /\ run_follows cfg s h e k) \/ (~ in_budget cfg s e k /\ limit_inside cfg s))
    | Err _ => False
    | Panic => panics_inside cfg s \/ limit_inside cfg s
    end.
Proof.
  intros Hj Hmax Wm Hlog He Hi Hk Hsz.
  pose proof (iters_wf _ _ _ _ Hj (init_run_wf _ _ Wm Hlog He) Hi) as W.
  destruct (iters_n _ _ _ _ Hi Hmax) as [_ Hn].
  destruct (restore_capture_equiv s W) as (s' & Hr & Heq). unfold execute_chunk_from. rewrite Hr.
  rewrite (chunk_loop_equiv _ _ _ _ _ _ _ Heq).
  destruct (chunk_loop_total (Z.to_nat (chunk_size cfg)) (r_prev s) (chunk_size cfg)
    (r_cpu s, r_mem s) 0 0) as [r Hl]; [lia..|].
  rewrite Hl. eexists. split; [done|].
  pose proof (chunk_loop_not_err _ _ _ _ _ _ _ Hl) as Hne. pose proof Hl as Hl0. rewrite <- Hk in Hl at 2.
  destruct r as [[[h e] k]|e|]; [|done|eapply chunk_panics; [done..|lia|exact Hl]].
  assert (k - 0 <= chunk_size cfg - 0) by (by eapply chunk_loop_le; [|exact Hl0]; lia).
  split; [lia|]. replace k with (k - 0) by lia. eapply chunk_follows; [done..|lia|exact Hl].
Qed.
End Run.

(** ** Concrete instances *)

(** [addi x1, x0, 5; addi x1, x0, 5; ebreak] *)
Definition demo_mem : Mem :=
  (write new 0x1000 [0x93; 0x00; 0x50; 0x00; 0x93; 0x00; 0x50; 0x00; 0x73; 0x00; 0x10; 0x00]).2.

Definition demo_cfg : Config :=
  {| chunk_size := 2; max_instructions := 100; syscalls := false; snapshot_dir := None;
     tohost_addr := None |}.

Lemma demo_mem_wf : mem_wf demo_mem.
Proof. apply write_wf; [apply new_wf|done|done|by repeat constructor]. Qed.

Lemma run_terminates_witness :
  exists o, @run toy_blake3 demo_mem 0x1000 [7] demo_cfg = Some o /\
    forall out, o = Ok out -> instructions out <= 100.
Proof. by apply (@run_terminates toy_blake3 demo_mem 0x1000 [7] demo_cfg). Defined.

Lemma run_deterministic_witness :
  @run toy_blake3 demo_mem 0x1000 [7] demo_cfg =
  @run toy_blake3 (read demo_mem 0x1000 8).2 0x1000 [7] demo_cfg.
Proof.
  apply (@run_deterministic toy_blake3); [|done|by repeat constructor].
  destruct (read_ok demo_mem 0x1000 8) as (m' & Hr & He);
    [apply demo_mem_wf|done|by do 3 right|done|]. by rewrite Hr.
Defined.

(** The judge's answer for the second chunk of [demo_mem]: the program halts in it. *)
Lemma judged_chunk_agrees_witness :
  match iters (H := toy_blake3) 2 demo_cfg (init_run demo_mem 0x1000) with
  | None => False
  | Some s =>
      r_chain s <> [] /\
      match execute_chunk_from (H := toy_blake3) 2 (capture (r_cpu s) (r_mem s)) (r_prev s) 2 with
      | Some (Ok (h, e, k)) =>
          e = ChunkHalted /\ k <= 2 /\ run_follows (H := toy_blake3) demo_cfg s h e k
      | _ => False
      end
  end.
Proof.
  destruct (iters 2 demo_cfg (init_run demo_mem 0x1000)) as [s|] eqn:Hi; [|by vm_compute in Hi].
  assert (r_in_chunk s = 0 /\ r_n s = 2 /\ r_chain s <> [] /\
    (fun '(_, e, _) => e) <$> (execute_chunk_from (H := toy_blake3) 2 (capture (r_cpu s) (r_mem s)) (r_prev s) 2 ≫= ok)
      = Some ChunkHalted) as (Hk & Hn & Hc & He).
  { vm_compute in Hi. injection Hi as <-. split_and!; by vm_compute. }
  split; [done|].
  pose proof (@judged_chunk_agrees toy_blake3 demo_mem 0x1000 demo_cfg 2 s (conj eq_refl eq_refl)
    ltac:(vm_compute; discriminate) demo_mem_wf eq_refl ltac:(split; [discriminate|reflexivity]) Hi Hk eq_refl) as (r & Hr & Hf).
  change (Z.to_nat (chunk_size demo_cfg)) with 2%nat in Hr. change (chunk_size demo_cfg) with 2 in Hr.
  rewrite Hr in *. clear Hi Hr. destruct r as [[[h e] k]|?|]; simpl in He.
  - injection He as ->. split; [reflexivity|]. destruct Hf as [Hle [[_ Hf]|[Hout _]]]; [split; [exact Hle|exact Hf]|].
    exfalso. apply Hout. simpl in *. lia.
  - discriminate He.
  - discriminate He.
Defined.
