(* ===== verification/Chain.v ===== *)
(** * The structure of a run's hash chain (crates/rvcore/src/interp.rs, [run])

    The chain of a finished run, read back: every link but the last was pushed at a chunk
    boundary, hashes the state there onto the previous link, and the run continued from that
    state.  Hence a judge that executes one chunk from a state matching a link obtains the
    next link. *)

From S2P Require Import Prelude Mem Cpu Interp InterpFacts Snapshot Run.

Section Chain.
Context `{Blake3}.

(** ** Iterating *)

Lemma iters_app i j cfg s : iters (i + j) cfg s = iters i cfg s ≫= iters j cfg.
Proof.
  revert s. induction i as [|i IH]; intros s; [done|]. simpl.
  destruct (run_iter cfg s); [apply IH|done..].
Qed.

Lemma iters_snoc i cfg s s' :
  iters (S i) cfg s = Some s' <-> exists s1, iters i cfg s = Some s1 /\ run_iter cfg s1 = Continue s'.
Proof.
  replace (S i) with (i + 1)%nat by lia. rewrite iters_app. split.
  - intros (s1 & H1 & H2)%bind_Some. exists s1. split; [done|]. simpl in H2.
    destruct (run_iter cfg s1); congruence.
  - intros (s1 & H1 & H2). rewrite H1. simpl. by rewrite H2.
Qed.

(** A state at which the run stops is the last one reached. *)
Lemma stop_last i j cfg s sf s1 s' st :
  iters i cfg s = Some sf -> run_iter cfg sf = Stop s' st -> iters j cfg s = Some s1 -> (j <= i)%nat.
Proof.
  intros Hi Hstop Hj. destruct (decide (j <= i)%nat) as [|Hgt]; [done|exfalso].
  replace j with (i + S (j - i - 1))%nat in Hj by lia. rewrite iters_app, Hi in Hj. simpl in Hj.
  by rewrite Hstop in Hj.
Qed.

Lemma stop_unique i j cfg s sf s1 s' st s1' st1 :
  iters i cfg s = Some sf -> run_iter cfg sf = Stop s' st ->
  iters j cfg s = Some s1 -> run_iter cfg s1 = Stop s1' st1 -> s' = s1' /\ st = st1.
Proof.
  intros Hi Hs Hj Hs1. pose proof (stop_last _ _ _ _ _ _ _ _ Hi Hs Hj).
  pose proof (stop_last _ _ _ _ _ _ _ _ Hj Hs1 Hi). assert (i = j) as -> by lia.
  rewrite Hi in Hj. injection Hj as ->. rewrite Hs in Hs1. by injection Hs1 as -> ->.
Qed.

Lemma run_loop_stop fuel cfg s s' st :
  run_loop fuel cfg s = Some (Ok (s', st)) ->
  exists i sf, iters i cfg s = Some sf /\ run_iter cfg sf = Stop s' st.
Proof.
  revert s. induction fuel as [|fuel IH]; intros s; [done|]. cbn [run_loop].
  destruct (run_iter cfg s) as [s1|s1 st1|] eqn:Hi; [| |done].
  - intros (i & sf & ? & ?)%IH. exists (S i), sf. simpl. by rewrite Hi.
  - intros [= <- <-]. by exists 0%nat, s.
Qed.

(** ** Links *)

(** One iteration leaves the chain alone or pushes the hash of the new state. *)
Lemma run_iter_chain cfg s s' :
  run_iter cfg s = Continue s' ->
  (r_chain s' = r_chain s /\ r_prev s' = r_prev s) \/
  (r_chain s' = r_chain s ++ [r_prev s'] /\ r_in_chunk s' = 0 /\
   r_prev s' = state_hash (r_prev s) (r_cpu s') (r_mem s')).
Proof.
  unfold run_iter. case_match; [done|]. destruct (step_mode _ _ _) as [r [c m]].
  repeat case_match; intros [= <-]; simpl; auto.
Qed.

Lemma run_iter_stop_chain cfg s s' st :
  run_iter cfg s = Stop s' st -> r_chain s' = r_chain s ++ [r_prev s'].
Proof.
  unfold run_iter. case_match; [by intros [= <- <-]|]. destruct (step_mode _ _ _) as [r [c m]].
  repeat case_match; intros [= <- <-]; done.
Qed.

Definition last_hash (chain : list (list Z)) : list Z := default GENESIS (last chain).

(** The run from [s0] reaches [s] right after pushing link [j] of [chain]. *)
Definition link_at (cfg : Config) (s0 : RunState) (chain : list (list Z)) (j : nat) (s : RunState) : Prop :=
  (exists i, iters i cfg s0 = Some s) /\ r_chain s = take (S j) chain /\ r_in_chunk s = 0 /\
  r_prev s = last_hash (take (S j) chain) /\
  chain !! j = Some (state_hash (last_hash (take j chain)) (r_cpu s) (r_mem s)).

Lemma last_hash_snoc l h : last_hash (l ++ [h]) = h.
Proof. unfold last_hash. by rewrite last_snoc. Qed.

Lemma chain_links cfg s0 i s :
  r_chain s0 = [] -> r_prev s0 = GENESIS -> iters i cfg s0 = Some s ->
  r_prev s = last_hash (r_chain s) /\
  forall j, (j < length (r_chain s))%nat -> exists sj, link_at cfg s0 (r_chain s) j sj.
Proof.
  intros Hc Hp. revert s. induction i as [|i IH]; intros s Hi.
  { injection Hi as <-. rewrite Hc, Hp. split; [done|]. simpl. lia. }
  pose proof Hi as Hreach. apply iters_snoc in Hi as (s1 & H1 & H2). destruct (IH s1 H1) as [Hprev Hl].
  destruct (run_iter_chain _ _ _ H2) as [[Hc' Hp']|(Hc' & Hk & Hh)].
  { rewrite Hc', Hp'. split; [done|]. done. }
  rewrite Hc'. split; [by rewrite last_hash_snoc|]. intros j Hj. rewrite length_app in Hj. simpl in Hj.
  destruct (decide (j < length (r_chain s1))%nat) as [Hlt|].
  - destruct (Hl j Hlt) as (sj & Hr & Hcj & Hkj & Hpj & Hhj). exists sj. unfold link_at.
    rewrite !take_app_le, lookup_app_l by lia. done.
  - assert (j = length (r_chain s1)) as -> by lia. exists s. split_and!.
    + by exists (S i).
    + rewrite take_ge; [done|]. rewrite length_app. simpl. lia.
    + done.
    + rewrite take_ge by (rewrite length_app; simpl; lia). by rewrite last_hash_snoc.
    + rewrite lookup_app_r, Nat.sub_diag by lia. simpl. f_equal.
      by rewrite take_app_length, <- Hprev.
Qed.

Lemma iters_chain_prefix i cfg s s' : iters i cfg s = Some s' -> r_chain s `prefix_of` r_chain s'.
Proof.
  revert s'. induction i as [|i IH]; intros s' Hi; [by injection Hi as <-|].
  apply iters_snoc in Hi as (s1 & H1 & H2). etrans; [by apply IH|].
  destruct (run_iter_chain _ _ _ H2) as [[-> _]|(-> & _)]; [done|]. by eexists.
Qed.

(** ** The chain of a finished run *)

(** A run that never routes a trap to a guest handler. *)
Definition unrouted (cfg : Config) (s0 : RunState) : Prop :=
  forall i s t c m, iters i cfg s0 = Some s -> step (r_cpu s, r_mem s) = (Err t, (c, m)) -> mtvec c = 0.

(** No trap is routed in chunk [k] of the run, while its chain has [k] links. *)
Definition unrouted_in (cfg : Config) (s0 : RunState) (k : nat) : Prop :=
  forall i s t c m, iters i cfg s0 = Some s -> length (r_chain s) = k ->
    step (r_cpu s, r_mem s) = (Err t, (c, m)) -> mtvec c = 0.

Lemma unrouted_everywhere cfg s0 k : unrouted cfg s0 -> unrouted_in cfg s0 k.
Proof. intros Hu i s t c m Hi _. by eapply Hu. Qed.

(** A check of [unrouted] for a run of at most [n] further iterations: no step traps. *)
Fixpoint trapless (n : nat) (cfg : Config) (s : RunState) : bool :=
  match (step (r_cpu s, r_mem s)).1 with
  | Err _ => false
  | _ =>
      match run_iter cfg s, n with
      | Continue s', S n' => trapless n' cfg s'
      | Continue _, O => false
      | _, _ => true
      end
  end.

Lemma trapless_unrouted n cfg s : trapless n cfg s = true -> unrouted cfg s.
Proof.
  revert s. induction n as [|n IH]; intros s Ht i s1 t c m Hi Hstep.
  - destruct i as [|i]; [injection Hi as <-; cbn [trapless] in Ht; by rewrite Hstep in Ht|].
    cbn [trapless iters] in *. repeat case_match; done.
  - destruct i as [|i]; [injection Hi as <-; cbn [trapless] in Ht; by rewrite Hstep in Ht|].
    cbn [trapless iters] in *. destruct (step (r_cpu s, r_mem s)).1; [|done|];
      (destruct (run_iter cfg s) as [s'| |]; [|done..]); by eapply IH.
Qed.

(** How the outcome of [run] arises from the last iteration. *)
Lemma run_outcome m entry input cfg out :
  run m entry input cfg = Some (Ok out) ->
  exists m' i sf s' st, install m input = Some m' /\
    iters i cfg (init_run m' entry) = Some sf /\ run_iter cfg sf = Stop s' st /\ out = finish s' st.
Proof.
  unfold run. destruct (install m input) as [m'|]; [|done].
  destruct (run_loop _ _ _) as [[[s' st]|e|]|] eqn:Hl; try done. intros [= <-].
  apply run_loop_stop in Hl as (i & sf & ? & ?). by exists m', i, sf, s', st.
Qed.

Lemma finish_chain s st : chunk_hashes (finish s st) `prefix_of` r_chain s.
Proof. unfold finish. repeat case_match; simpl; try done. apply prefix_take. Qed.

Lemma finish_limit s : status (finish s InstructionLimit) = InstructionLimit.
Proof. reflexivity. Qed.

(** ** The values of an outcome *)

Definition digest (h : list Z) : Prop := length h = 32%nat /\ Forall is_byte h.

Lemma blake3_digest x : digest (blake3 x).
Proof. split; [apply blake3_len|apply blake3_byte]. Qed.

Lemma iters_digests i cfg s s' : Forall digest (r_chain s) -> iters i cfg s = Some s' -> Forall digest (r_chain s').
Proof.
  intros Hs. revert s'. induction i as [|i IH]; intros s' Hi; [by injection Hi as <-|].
  apply iters_snoc in Hi as (s1 & H1s & H2s). specialize (IH s1 H1s).
  destruct (run_iter_chain _ _ _ H2s) as [[-> _]|(-> & _ & ->)]; [done|]. apply Forall_app. split; [done|].
  apply Forall_singleton, blake3_digest.
Qed.

Lemma stop_digest cfg s s' st : run_iter cfg s = Stop s' st -> digest (r_prev s').
Proof.
  unfold run_iter. case_match; [intros [= <- _]; apply blake3_digest|]. destruct (step_mode _ _ _) as [r [c m]].
  repeat case_match; intros [= <- _]; apply blake3_digest.
Qed.

(** Every link is a digest, and a run that is not trapped has one. *)
Lemma run_digests m e inp cfg out :
  run m e inp cfg = Some (Ok out) ->
  Forall digest (chunk_hashes out) /\ ((forall t, status out <> Trapped t) -> chunk_hashes out <> []).
Proof.
  intros (m' & i & sf & s & st & _ & Hi & Hstop & ->)%run_outcome.
  pose proof (iters_digests i cfg (init_run m' e) sf (Forall_nil_2 _) Hi) as Hd.
  pose proof (run_iter_stop_chain _ _ _ _ Hstop) as Hc. pose proof (stop_digest _ _ _ _ Hstop) as Hp.
  assert (Forall digest (r_chain s)) as Hall by (rewrite Hc; apply Forall_app; split; [done|by apply Forall_singleton]).
  split.
  - destruct (finish_chain s st) as [k Hk]. rewrite Hk in Hall. by apply Forall_app in Hall as [Hall _].
  - unfold finish. repeat case_match; simpl; intros Ht; try (by edestruct Ht); rewrite Hc; by destruct (r_chain sf).
Qed.

Lemma install_wf m inp m' :
  mem_wf m -> Forall is_byte inp -> install m inp = Some m' ->
  mem_wf m' /\ syscall_log m' = syscall_log m.
Proof.
  intros W Hi. unfold install.
  pose proof (write_log m INPUT_LEN_ADDR (le_bytes 8 (Z.of_nat (length inp)))) as L1.
  destruct (write m INPUT_LEN_ADDR _) as [[]m1] eqn:E1; try done. simpl in L1.
  assert (mem_wf m1) as W1.
  { pose proof (write_wf m INPUT_LEN_ADDR (le_bytes 8 (Z.of_nat (length inp)))) as Hw.
    rewrite E1 in Hw. apply Hw; [done|done|done|apply le_bytes_range]. }
  pose proof (write_log m1 INPUT_DATA_ADDR inp) as L2.
  destruct (write m1 INPUT_DATA_ADDR inp) as [[]m2] eqn:E2; try done. simpl in L2. intros [= <-].
  split; [|congruence].
  destruct (decide (INPUT_DATA_ADDR + Z.of_nat (length inp) <= ADDR_SPACE)) as [Hb|Hb].
  - pose proof (write_wf m1 INPUT_DATA_ADDR inp W1 ltac:(done) Hb Hi) as Hw. by rewrite E2 in Hw.
  - rewrite write_err in E2 by (done || lia). done.
Qed.

Lemma run_iter_stop_wf cfg s s' st : run_wf s -> run_iter cfg s = Stop s' st -> mem_wf (r_mem s').
Proof.
  intros (Wc & Wm & _). unfold run_iter. case_match; [by intros [= <- _]|].
  pose proof (step_mode_wf (syscalls cfg) (tohost_addr cfg) _ _ Wc Wm) as [_ Wm'].
  destruct (step_mode _ _ _) as [r [c m]]. simpl in Wm'. repeat case_match; by intros [= <- _].
Qed.

Lemma finish_output s st : mem_wf (r_mem s) -> Forall is_byte (default [] (output (finish s st))).
Proof.
  intros W. unfold finish. case_match; [|constructor]. case_match eqn:Hl; [constructor|]. simpl. bools.
  destruct (read_equiv (r_mem s) (r_mem s) OUTPUT_LEN_ADDR 8 (mem_equiv_refl _ W)) as [_ [W' _]]; [done..|].
  rewrite read_region_spec; [|done|done|].
  - case_match; [|constructor]. apply Forall_fmap, Forall_forall. intros a _. by apply abyte_range.
  - destruct ((read (r_mem s) OUTPUT_LEN_ADDR 8).1) as [v|e|] eqn:E; simpl; [|lia..].
    by destruct (read_value_u64 _ OUTPUT_LEN_ADDR 8 W ltac:(done) ltac:(lia) v E).
Qed.

(** The outcome of a job's run has its widths: a 64-bit count and a byte string. *)
Lemma run_typed m e inp cfg out :
  job_config cfg -> is_u64 (max_instructions cfg) -> mem_wf m -> syscall_log m = [] -> is_u64 e -> Forall is_byte inp ->
  run m e inp cfg = Some (Ok out) -> is_u64 (instructions out) /\ Forall is_byte (default [] (output out)).
Proof.
  intros Hj Hm W Hl He Hi (m' & i & sf & s & st & Hin & Hit & Hstop & ->)%run_outcome.
  destruct (install_wf _ _ _ W Hi Hin) as [W' Hl']. rewrite Hl in Hl'.
  pose proof (iters_wf _ _ _ _ Hj (init_run_wf m' e W' Hl' He) Hit) as Wf.
  split; [|apply finish_output; by eapply run_iter_stop_wf].
  assert (instructions (finish s st) = r_n s) as -> by (unfold finish; repeat case_match; done).
  destruct Hm. destruct (iters_n _ _ _ _ Hit) as [Hn1 Hn2]; [done|]. simpl in Hn1.
  pose proof (run_iter_stop_n _ _ _ _ Hn2 Hstop) as Hn3. split; [|lia].
  clear -Hn1 Hstop. unfold run_iter in Hstop. case_match; [injection Hstop as <- _; done|].
  destruct (step_mode _ _ _) as [r [c m]]. repeat case_match; simplify_eq; simpl; lia.
Qed.

(** The state behind each link that is not the last of the chain. *)
Lemma run_link m entry input cfg out j :
  run m entry input cfg = Some (Ok out) -> (S j < length (chunk_hashes out))%nat ->
  exists m' s, install m input = Some m' /\ link_at cfg (init_run m' entry) (chunk_hashes out) j s.
Proof.
  intros Hrun Hj. destruct (run_outcome _ _ _ _ _ Hrun) as (m' & i & sf & s' & st & Hm & Hi & Hs & ->).
  destruct (finish_chain s' st) as [tl Htl]. rewrite (run_iter_stop_chain _ _ _ _ Hs) in Htl.
  pose proof (f_equal length Htl) as Hlen. rewrite !length_app in Hlen. simpl in Hlen.
  destruct (chain_links cfg (init_run m' entry) i sf) as [_ Hl]; [done..|].
  destruct (Hl j) as (sj & Hr & Hc & Hk & Hp & Hh); [lia|].
  exists m', sj. split; [done|].
  assert (forall n, (n < length (chunk_hashes (finish s' st)))%nat ->
    take n (r_chain sf) = take n (chunk_hashes (finish s' st))) as Ht.
  { intros n Hn. pose proof (f_equal (take n) Htl) as He.
    rewrite !take_app_le in He by lia. done. }
  unfold link_at. rewrite <- !Ht by lia. split_and!; try done.
  rewrite <- Hh. pose proof (f_equal (lookup j) Htl) as He.
  by rewrite !lookup_app_l in He by lia.
Qed.

(** ** The next link *)

Lemma prefix_lookup_lt {A} (l k l' : list A) i x :
  l `prefix_of` l' -> k `prefix_of` l' -> (i < length k)%nat -> l !! i = Some x -> k !! i = Some x.
Proof.
  intros [a ->] [b Hb] Hi Hl. rewrite <- (lookup_app_l k b) by done. rewrite <- Hb.
  apply lookup_app_l_Some. done.
Qed.

(** Where the budget ends: the run stops inside a chunk with one more link, its last. *)
Lemma limit_is_last m entry input cfg out m' s i :
  run m entry input cfg = Some (Ok out) -> install m input = Some m' -> iters i cfg (init_run m' entry) = Some s ->
  limit_inside cfg s -> status out = InstructionLimit /\ length (chunk_hashes out) = S (length (r_chain s)).
Proof.
  intros Hrun Hm Hreach (_ & s1 & H1 & Hc1 & H3).
  destruct (run_outcome _ _ _ _ _ Hrun) as (m'' & i' & sf & s' & st & Hm' & Hi & Hs & ->).
  rewrite Hm in Hm'. injection Hm' as <-.
  destruct (stop_unique i' (i + Z.to_nat (max_instructions cfg - r_n s)) cfg (init_run m' entry) sf s1 s' st (push_hash s1) InstructionLimit Hi Hs) as [-> ->];
    [by rewrite iters_app, Hreach|exact H3|].
  split; [done|]. simpl. rewrite length_app, Hc1. simpl. lia.
Qed.

(** The judge's answer from the state behind link [j] is link [j + 1] of the finished run, when
    no trap is routed in that chunk and the link is not the one pushed at the budget. *)
Lemma judged_next fuel m entry input cfg out j m' s h e n :
  job_config cfg -> 0 <= max_instructions cfg -> 0 < chunk_size cfg ->
  run m entry input cfg = Some (Ok out) ->
  (status out = InstructionLimit -> (S (S j) < length (chunk_hashes out))%nat) ->
  install m input = Some m' -> unrouted_in cfg (init_run m' entry) (S j) ->
  link_at cfg (init_run m' entry) (chunk_hashes out) j s -> (S j < length (chunk_hashes out))%nat ->
  chunk_loop fuel (r_prev s) (chunk_size cfg) (r_cpu s, r_mem s) 0 0 = Some (Ok (h, e, n)) ->
  chunk_hashes out !! S j = Some h.
Proof.
  intros Hj Hmax Hsz Hrun Hst Hm Hun ([i0 Hreach] & Hc & Hk & Hp & Hh) Hlt Hl.
  assert (length (r_chain s) = S j) as Hlen by (rewrite Hc, length_take; lia).
  destruct (iters_n _ _ _ _ Hreach Hmax) as [_ Hn].
  pose proof (fun i => limit_is_last m entry input cfg out m' s i Hrun Hm) as Hlast.
  destruct (run_outcome _ _ _ _ _ Hrun) as (m'' & i & sf & s' & st & Hm' & Hi & Hs & ->).
  rewrite Hm in Hm'. injection Hm' as <-.
  assert (forall s1 s1' st1 k, iters k cfg s = Some s1 -> run_iter cfg s1 = Stop s1' st1 -> s' = s1' /\ st = st1) as Huniq.
  { intros s1 s1' st1 k H1 H2. eapply (stop_unique i (i0 + k)); [done|done| |done]. by rewrite iters_app, Hreach. }
  assert (forall chain, chain = r_chain s ++ [h] -> chain `prefix_of` r_chain s' -> chunk_hashes (finish s' st) !! S j = Some h) as Hend.
  { intros chain -> Hpre. eapply prefix_lookup_lt; [done|apply finish_chain|done|].
    rewrite Hc, lookup_app_r, length_take, Nat.min_l, Nat.sub_diag by (rewrite ?length_take; lia). done. }
  rewrite <- Hk in Hl at 2. destruct (chunk_follows _ _ _ _ _ _ _ Hj Hn ltac:(lia) Hl) as [[_ Hf]|[_ Hlim]].
  - rewrite Z.sub_0_r in Hf. destruct e as [| |t].
    + destruct Hf as (s1 & H1 & Hc1 & _). eapply Hend; [exact Hc1|].
      assert (Z.to_nat n + i0 <= i)%nat as Hle.
      { rewrite Nat.add_comm. eapply stop_last; [exact Hi|exact Hs|]. by rewrite iters_app, Hreach. }
      assert (iters (i - (i0 + Z.to_nat n)) cfg s1 = Some sf) as Hrest.
      { replace i with ((i0 + Z.to_nat n) + (i - (i0 + Z.to_nat n)))%nat in Hi by lia.
        rewrite !iters_app, Hreach in Hi. simpl in Hi. by rewrite H1 in Hi. }
      etrans; [by eapply iters_chain_prefix|]. rewrite (run_iter_stop_chain _ _ _ _ Hs). by eexists.
    + destruct Hf as (s1 & s1' & H1 & H2 & Hc1). destruct (Huniq _ _ _ _ H1 H2) as [-> ->].
      by eapply Hend; [exact Hc1|].
    + destruct Hf as (s1 & c & mm & H1 & Hch & Hstep & Hz & _).
      destruct Hz as (s1' & H2 & Hc1).
      { eapply (Hun (i0 + Z.to_nat n)%nat); [by rewrite iters_app, Hreach|by rewrite Hch|done]. }
      destruct (Huniq _ _ _ _ H1 H2) as [-> ->]. by eapply Hend; [exact Hc1|].
  - destruct (Hlast i0 Hreach Hlim) as [Hst' Hl']. specialize (Hst Hst'). lia.
Qed.

(** No panic at a reached state of a run that finished. *)
Lemma finished_no_panic fuel m entry input cfg out j m' s :
  job_config cfg -> 0 <= max_instructions cfg -> 0 < chunk_size cfg ->
  run m entry input cfg = Some (Ok out) ->
  (status out = InstructionLimit -> (S (S j) < length (chunk_hashes out))%nat) ->
  install m input = Some m' -> link_at cfg (init_run m' entry) (chunk_hashes out) j s ->
  (S j < length (chunk_hashes out))%nat ->
  chunk_loop fuel (r_prev s) (chunk_size cfg) (r_cpu s, r_mem s) 0 0 <> Some Panic.
Proof.
  intros Hj Hmax Hsz Hrun Hst Hm ([i0 Hreach] & Hc & Hk & _) Hlt Hp.
  assert (length (r_chain s) = S j) as Hlen by (rewrite Hc, length_take; lia).
  destruct (iters_n _ _ _ _ Hreach Hmax) as [_ Hn].
  rewrite <- Hk in Hp at 2. destruct (chunk_panics _ _ _ _ Hj Hn ltac:(lia) Hp) as [(k & s1 & _ & H1 & _ & H2)|Hlim].
  - destruct (run_outcome _ _ _ _ _ Hrun) as (m'' & i & sf & s' & st & Hm' & Hi & Hs & ->).
    rewrite Hm in Hm'. injection Hm' as <-.
    assert (iters (i0 + k) cfg (init_run m' entry) = Some s1) as Hr by (by rewrite iters_app, Hreach).
    pose proof (stop_last _ _ _ _ _ _ _ _ Hi Hs Hr) as Hle.
    replace i with ((i0 + k) + (i - (i0 + k)))%nat in Hi by lia. rewrite iters_app, Hr in Hi. simpl in Hi.
    destruct (i - (i0 + k))%nat; simpl in Hi; [injection Hi as ->; congruence|by rewrite H2 in Hi].
  - destruct (limit_is_last m entry input cfg out m' s i0 Hrun Hm Hreach Hlim) as [Hst' Hl']. specialize (Hst Hst'). lia.
Qed.
End Chain.
