(* ===== verification/Elf.v ===== *)
(** * The ELF loader (crates/rvcore/src/elf.rs)

    The parser of job images and the placement of the image into memory.  The parser
    takes untrusted bytes: it never panics, every segment it accepts fits the pinned
    address space, and the loader then cannot fail. *)

From stdpp Require Import pretty.
From S2P Require Import Prelude Mem.

Record ElfImage : Type := mkElf {
  entry : Z;
  segments : list (Z * list Z);
  elf_tohost_addr : option Z;
}.

Definition PT_LOAD : Z := 1.
Definition EM_RISCV : Z := 243.
Definition ET_EXEC : Z := 2.

(** [b"\x7fELF"] and [b".tohost"] *)
Definition ELF_MAGIC : list Z := [0x7f; 0x45; 0x4c; 0x46].
Definition TOHOST_NAME : list Z := [0x2e; 0x74; 0x6f; 0x68; 0x6f; 0x73; 0x74].

(** [.iter().position(|&b| b == 0)] *)
Fixpoint position0 (l : list Z) : option Z :=
  match l with
  | [] => None
  | b :: t => if b =? 0 then Some 0 else (fun p => p + 1) <$> position0 t
  end.

(** [uN::from_le_bytes(data.get(a..b)?.try_into().ok()?)] *)
Definition get_le (data : list Z) (a b : Z) : option Z := le_val <$> slice_get data a b.

(** The section loop of [find_tohost_section], over the remaining indices. *)
Fixpoint tohost_loop (data : list Z) (shoff shentsize shstr_offset : Z) (idxs : list Z) : option Z :=
  match idxs with
  | [] => None
  | i :: rest =>
      off ← checked_mul64 i shentsize;
      base ← checked_add64 shoff off;
      base_end ← checked_add64 base 64;
      if Z.of_nat (length data) <? base_end then None
      else
        sec_name ← get_le data base (base + 4);
        sec_type ← get_le data (base + 4) (base + 8);
        sec_addr ← get_le data (base + 16) (base + 24);
        if negb (sec_type =? 1) then tohost_loop data shoff shentsize shstr_offset rest
        else
          name_start ← checked_add64 shstr_offset sec_name;
          tail ← slice_get data name_start (Z.of_nat (length data));
          let name_end := default name_start ((fun p => name_start + p) <$> position0 tail) in
          name ← slice_get data name_start name_end;
          if bool_decide (name = TOHOST_NAME) then Some sec_addr
          else tohost_loop data shoff shentsize shstr_offset rest
  end.

Definition find_tohost_section (data : list Z) (shoff shentsize shnum shstrndx : Z) : option Z :=
  if (shoff =? 0) || (shnum =? 0) || (shentsize =? 0) then None
  else
    off ← checked_mul64 shstrndx shentsize;
    shstr_hdr ← checked_add64 shoff off;
    a ← checked_add64 shstr_hdr 24;
    b ← checked_add64 shstr_hdr 32;
    shstr_offset ← get_le data a b;
    tohost_loop data shoff shentsize shstr_offset (seqZ 0 shnum).

(** The program-header loop of [parse]. *)
Fixpoint phdr_loop (bytes : list Z) (phoff : Z) (idxs : list Z) (segs : list (Z * list Z)) :
    outcome string (list (Z * list Z)) :=
  match idxs with
  | [] => Ok segs
  | i :: rest =>
      let len := Z.of_nat (length bytes) in
      off56 ← ok_or (checked_mul64 i 56) "elf: program header table overflows"%string;
      base ← ok_or (checked_add64 phoff off56) "elf: program header table overflows"%string;
      base_end ← ok_or (checked_add64 base 56) "elf: program header table overflows"%string;
      if len <? base_end then Err "elf: truncated program headers"%string
      else
        p_type ← le_at bytes base 4;
        if negb (p_type =? PT_LOAD) then phdr_loop bytes phoff rest segs
        else
          offset ← le_at bytes (base + 8) 8;
          vaddr ← le_at bytes (base + 16) 8;
          filesz ← le_at bytes (base + 32) 8;
          memsz ← le_at bytes (base + 40) 8;
          if memsz <? filesz then Err "elf: filesz > memsz"%string
          else
            mem_end ← ok_or (checked_add64 vaddr memsz) "elf: segment range overflows"%string;
            if ADDR_SPACE <? mem_end then
              Err "elf: segment exceeds the pinned address space"%string
            else
              file_end ← ok_or (checked_add64 offset filesz) "elf: segment beyond file end"%string;
              if len <? file_end then Err "elf: segment beyond file end"%string
              else
                data ← slice bytes offset file_end;
                phdr_loop bytes phoff rest (segs ++ [(vaddr, data)])
  end.

Definition parse (bytes : list Z) : outcome string ElfImage :=
  if Z.of_nat (length bytes) <? 64 then Err "elf: too short"%string
  else
    magic ← slice bytes 0 4;
    if negb (bool_decide (magic = ELF_MAGIC)) then Err "elf: bad magic"%string
    else
      class ← le_at bytes 4 1;
      if negb (class =? 2) then Err "elf: not ELF64"%string
      else
        enc ← le_at bytes 5 1;
        if negb (enc =? 1) then Err "elf: not little-endian"%string
        else
          machine ← le_at bytes 0x12 2;
          if negb (machine =? EM_RISCV) then
            Err ("elf: machine " +:+ pretty machine +:+ " is not RISC-V")%string
          else
            e_type ← le_at bytes 0x10 2;
            if negb (e_type =? ET_EXEC) then Err "elf: not a static executable"%string
            else
              e_entry ← le_at bytes 0x18 8;
              e_shoff ← le_at bytes 0x28 8;
              e_shentsize ← le_at bytes 0x3a 2;
              e_shnum ← le_at bytes 0x3c 2;
              e_shstrndx ← le_at bytes 0x3e 2;
              let tohost := find_tohost_section bytes e_shoff e_shentsize e_shnum e_shstrndx in
              phoff ← le_at bytes 0x20 8;
              phentsize ← le_at bytes 0x36 2;
              phnum ← le_at bytes 0x38 2;
              if negb (phentsize =? 56) then
                Err ("elf: phentsize " +:+ pretty phentsize +:+ " != 56")%string
              else
                segs ← phdr_loop bytes phoff (seqZ 0 phnum) [];
                if bool_decide (segs = []) then Err "elf: no PT_LOAD segments"%string
                else Ok {| entry := e_entry; segments := segs; elf_tohost_addr := tohost |}.

(** [{:x}]: lowercase hexadecimal digits, at most 16 for a 64-bit value. *)
Definition hex_digit (d : Z) : string :=
  default "?"%string (["0"; "1"; "2"; "3"; "4"; "5"; "6"; "7"; "8"; "9"; "a"; "b"; "c"; "d"; "e"; "f"]%string !! Z.to_nat d).

Fixpoint hex_digits (fuel : nat) (z : Z) (acc : string) : string :=
  match fuel with
  | O => acc
  | S fuel' =>
      let acc' := (hex_digit (z mod 16) +:+ acc)%string in
      if z / 16 =? 0 then acc' else hex_digits fuel' (z / 16) acc'
  end.

(** Place the image into memory. *)
Fixpoint load_segments (m : Mem) (segs : list (Z * list Z)) : outcome string unit * Mem :=
  match segs with
  | [] => (Ok tt, m)
  | (vaddr, data) :: rest =>
      match load_image m vaddr data with
      | (Ok _, m') => load_segments m' rest
      | (Err OutOfRange, m') =>
          (Err ("elf: load at 0x" +:+ hex_digits 16 vaddr "" +:+ ": OutOfRange")%string, m')
      | (Panic, m') => (Panic, m')
      end
  end.

Definition load (m : Mem) (elf : ElfImage) : outcome string unit * Mem :=
  load_segments m (segments elf).

(** ** Accepted segments *)

(** A segment lies in the address space and its data are bytes of the file. *)
Definition seg_ok (bytes : list Z) (s : Z * list Z) : Prop :=
  is_u64 s.1 /\ s.1 + Z.of_nat (length s.2) <= ADDR_SPACE /\ Forall is_byte s.2 /\
  exists o, slice_get bytes o (o + Z.of_nat (length s.2)) = Some s.2.

Lemma checked_add64_Some a b c : checked_add64 a b = Some c -> c = a + b /\ a + b < 2 ^ 64.
Proof. unfold checked_add64. case_match; bools; intros [= <-]. done. Qed.

Lemma checked_mul64_Some a b c : checked_mul64 a b = Some c -> c = a * b /\ a * b < 2 ^ 64.
Proof. unfold checked_mul64. case_match; bools; intros [= <-]. done. Qed.

(** Running a computation that cannot panic. *)
Lemma bind_le_at {A} (Q : outcome string A -> Prop) bytes o n (k : Z -> outcome string A) :
  0 <= o -> 0 <= n -> o + n <= Z.of_nat (length bytes) -> Forall is_byte bytes ->
  (forall v, is_u (8 * n) v -> Q (k v)) -> Q (v ← le_at bytes o n; k v).
Proof.
  intros ??? Hb HQ. destruct (le_at_ok (E := string) bytes o n) as (v & -> & Hv); [lia..|].
  apply HQ, Hv, Hb.
Qed.

Lemma bind_ok_or {A B E} (Q : outcome E B -> Prop) (o : option A) (e : E) (k : A -> outcome E B) :
  (forall a, o = Some a -> Q (k a)) -> Q (Err e) -> Q (v ← ok_or o e; k v).
Proof. intros Hs Hn. destruct o; [by apply Hs|done]. Qed.

(** What a parser result may be: an error, or segments as described. *)
Definition segs_post (bytes : list Z) (r : outcome string (list (Z * list Z))) : Prop :=
  match r with
  | Ok segs => Forall (seg_ok bytes) segs
  | Err _ => True
  | Panic => False
  end.

Lemma phdr_loop_post bytes phoff idxs segs :
  Forall is_byte bytes -> is_u64 phoff -> Forall (fun i => 0 <= i) idxs ->
  Forall (seg_ok bytes) segs -> segs_post bytes (phdr_loop bytes phoff idxs segs).
Proof.
  intros Hb [Hp _] His. revert segs. induction His as [|i idxs Hi _ IH]; intros segs Hs; [done|].
  cbn [phdr_loop].
  apply bind_ok_or; [|done]. intros o56 [-> _]%checked_mul64_Some.
  apply bind_ok_or; [|done]. intros base [-> _]%checked_add64_Some.
  apply bind_ok_or; [|done]. intros base_end [-> _]%checked_add64_Some.
  case_match; bools; [done|].
  apply bind_le_at; [lia..|done|]. intros p_type _. case_match; [by apply IH|].
  apply bind_le_at; [lia..|done|]. intros offset [Ho _].
  apply bind_le_at; [lia..|done|]. intros vaddr Hv.
  apply bind_le_at; [lia..|done|]. intros filesz [Hf _].
  apply bind_le_at; [lia..|done|]. intros memsz _.
  case_match; bools; [done|].
  apply bind_ok_or; [|done]. intros mem_end [-> _]%checked_add64_Some.
  case_match; bools; [done|].
  apply bind_ok_or; [|done]. intros file_end [-> _]%checked_add64_Some.
  case_match; bools; [done|].
  destruct (slice_get_Some bytes offset (offset + filesz)) as (d & Hd & Hl & Hdb); [lia..|].
  unfold slice. rewrite Hd. apply IH, Forall_app. split; [done|]. apply Forall_singleton.
  assert (Z.of_nat (length d) = filesz) as Hlen by lia.
  split; [done|]. simpl. rewrite Hlen. split_and!; [lia|by apply Hdb|]. by exists offset.
Qed.

Lemma get_le_range data a b v :
  Forall is_byte data -> b = a + 8 -> get_le data a b = Some v -> is_u64 v.
Proof.
  intros Hd ->. unfold get_le. intros (s & Hs & ->)%fmap_Some_1.
  pose proof (slice_get_inv _ _ _ _ Hs) as (? & ? & Hl).
  destruct (slice_get_Some data a (a + 8)) as (s' & Hs' & Hl' & Hb); [lia..|].
  rewrite Hs' in Hs. injection Hs as ->. replace 64 with (8 * Z.of_nat (length s)) by lia.
  by apply le_val_range, Hb.
Qed.

Lemma tohost_loop_range data shoff shentsize stro idxs v :
  Forall is_byte data -> tohost_loop data shoff shentsize stro idxs = Some v -> is_u64 v.
Proof.
  intros Hd. induction idxs as [|i idxs IH]; [done|]. cbn [tohost_loop].
  destruct (checked_mul64 i shentsize) as [off|]; [|done]. simpl.
  destruct (checked_add64 shoff off) as [base|]; [|done]. simpl.
  destruct (checked_add64 base 64) as [base_end|]; [|done]. simpl. case_match; [done|].
  destruct (get_le data base _) as [nm|]; [|done]. simpl.
  destruct (get_le data (base + 4) _) as [ty|]; [|done]. simpl.
  destruct (get_le data (base + 16) _) as [ad|] eqn:Had; [|done]. simpl.
  case_match; [done|]. destruct (checked_add64 stro nm) as [ns|]; [|done]. simpl.
  destruct (slice_get data ns (Z.of_nat (length data))) as [tl|]; [|done]. simpl.
  destruct (slice_get data ns _) as [nme|]; [|done]. simpl.
  case_match; [|done]. intros [= <-]. eapply get_le_range; [done| |exact Had]. lia.
Qed.

Lemma find_tohost_range data shoff shentsize shnum shstrndx v :
  Forall is_byte data -> find_tohost_section data shoff shentsize shnum shstrndx = Some v -> is_u64 v.
Proof.
  intros Hd. unfold find_tohost_section. case_match; [done|].
  repeat (let x := fresh in intros (x & _ & Hx)%bind_Some; revert Hx).
  by apply tohost_loop_range.
Qed.

(** What [parse] promises of an accepted image. *)
Definition image_ok (bytes : list Z) (r : outcome string ElfImage) : Prop :=
  match r with
  | Ok img => is_u64 (entry img) /\ segments img <> [] /\ Forall (seg_ok bytes) (segments img) /\
              forall a, elf_tohost_addr img = Some a -> is_u64 a
  | Err _ => True
  | Panic => False
  end.

Lemma parse_post bytes : Forall is_byte bytes -> image_ok bytes (parse bytes).
Proof.
  intros Hb. unfold parse. case_match; bools; [done|].
  unfold slice. destruct (slice_get_Some bytes 0 4) as (mg & -> & _); [lia..|].
  unfold mbind at 1, outcome_bind at 1. case_match; [done|].
  repeat (apply bind_le_at; [lia..|done|]; intros ? ?; try (case_match; [done|])).
  match goal with |- context [phdr_loop bytes ?p ?l []] => pose proof (phdr_loop_post bytes p l []) as Hp end.
  destruct (phdr_loop bytes _ _ []) as [segs|e|]; simpl in *.
  - case_match; bools; [done|]. split_and!; [done|done| |].
    + apply Hp; [done|done| |done]. apply Forall_forall. intros i ?%elem_of_seqZ. lia.
    + intros a Ha. by eapply find_tohost_range.
  - done.
  - apply Hp; [done|done| |done]. apply Forall_forall. intros i ?%elem_of_seqZ. lia.
Qed.

(** ** Loading *)

(** The pages after placing the segments in order. *)
Definition aload (p : gmap Z (list Z)) (segs : list (Z * list Z)) : gmap Z (list Z) :=
  foldl (fun p s => awrite p s.1 s.2) p segs.

Lemma load_segments_ok m segs bytes :
  mem_wf m -> Forall (seg_ok bytes) segs ->
  exists m', load_segments m segs = (Ok tt, m') /\ mem_wf m' /\ abs m' = aload (abs m) segs /\
             syscall_log m' = syscall_log m.
Proof.
  intros W Hs. revert m W. induction Hs as [|[v d] segs (Hv & Hl & Hd & _) _ IH]; intros m W.
  - by exists m.
  - cbn [load_segments]. unfold load_image. simpl in *.
    destruct (write_ok m v d) as (m1 & -> & W1 & Ha & Hlog); [done..|].
    destruct (IH m1 W1) as (m' & -> & W' & Ha' & Hlog'). exists m'. rewrite Ha', Ha, Hlog'. done.
Qed.

(** ** An image writer, for the round trip *)

(** A program header for a segment whose data start at file offset [off]. *)
Definition phdr (off : Z) (seg : Z * list Z) : list Z :=
  let n := Z.of_nat (length seg.2) in
  le_bytes 4 PT_LOAD ++ le_bytes 4 5 ++ le_bytes 8 off ++ le_bytes 8 seg.1 ++ le_bytes 8 seg.1 ++
  le_bytes 8 n ++ le_bytes 8 n ++ le_bytes 8 0x1000.

Fixpoint phdrs (off : Z) (segs : list (Z * list Z)) : list Z :=
  match segs with
  | [] => []
  | seg :: rest => phdr off seg ++ phdrs (off + Z.of_nat (length seg.2)) rest
  end.

Definition elf_header (e : Z) (n : Z) : list Z :=
  ELF_MAGIC ++ [2; 1; 1; 0; 0; 0; 0; 0; 0; 0; 0; 0] ++ le_bytes 2 ET_EXEC ++ le_bytes 2 EM_RISCV ++
  le_bytes 4 1 ++ le_bytes 8 e ++ le_bytes 8 64 ++ le_bytes 8 0 ++ le_bytes 4 0 ++ le_bytes 2 64 ++
  le_bytes 2 56 ++ le_bytes 2 n ++ le_bytes 2 0 ++ le_bytes 2 0 ++ le_bytes 2 0.

(** A static executable with the given entry point and PT_LOAD segments. *)
Definition make_elf (e : Z) (segs : list (Z * list Z)) : list Z :=
  let n := Z.of_nat (length segs) in
  elf_header e n ++ phdrs (64 + 56 * n) segs ++ concat segs.*2.

Lemma slice_get_prefix l k a b :
  0 <= a <= b -> b <= Z.of_nat (length l) -> slice_get (l ++ k) a b = slice_get l a b.
Proof.
  intros. unfold slice_get. rewrite length_app. rewrite !(proj2 (Z.leb_le _ _)) by lia. simpl.
  f_equal. rewrite drop_app_le by lia. apply take_app_le. rewrite length_drop. lia.
Qed.

Lemma le_at_prefix {E} l k o n v :
  0 <= o -> 0 <= n -> o + n <= Z.of_nat (length l) -> le_at (E := E) l o n = Ok v ->
  le_at (E := E) (l ++ k) o n = Ok v.
Proof. intros ???. unfold le_at, slice. by rewrite slice_get_prefix by lia. Qed.

Lemma length_phdr off seg : length (phdr off seg) = 56%nat.
Proof. reflexivity. Qed.

Lemma length_phdrs off segs : length (phdrs off segs) = (56 * length segs)%nat.
Proof.
  revert off. induction segs as [|s segs IH]; intros off; [done|]. cbn [phdrs].
  rewrite length_app, length_phdr, IH. simpl. lia.
Qed.

(** Reading a field of a record that starts at offset [length pre]. *)
Lemma le_at_field {E} pre rec post o base n v :
  base = Z.of_nat (length pre) -> 0 <= o -> 0 <= n -> o + n <= Z.of_nat (length rec) ->
  le_at (E := E) rec o n = Ok v -> le_at (E := E) (pre ++ rec ++ post) (base + o) n = Ok v.
Proof.
  intros -> ? ? ? Hv. unfold le_at, slice in *. rewrite app_assoc.
  rewrite slice_get_prefix by (rewrite ?length_app; lia).
  replace (slice_get (pre ++ rec) (Z.of_nat (length pre) + o) (Z.of_nat (length pre) + o + n))
    with (slice_get rec o (o + n)); [done|].
  unfold slice_get. rewrite length_app, !(proj2 (Z.leb_le _ _)) by lia. simpl. f_equal.
  rewrite drop_app_ge by lia. f_equal; [f_equal; lia|]. f_equal. lia.
Qed.

Lemma phdr_fields {E} off seg :
  le_at (E := E) (phdr off seg) 0 4 = Ok (le_val (le_bytes 4 PT_LOAD)) /\
  le_at (E := E) (phdr off seg) 8 8 = Ok (le_val (le_bytes 8 off)) /\
  le_at (E := E) (phdr off seg) 16 8 = Ok (le_val (le_bytes 8 seg.1)) /\
  le_at (E := E) (phdr off seg) 32 8 = Ok (le_val (le_bytes 8 (Z.of_nat (length seg.2)))) /\
  le_at (E := E) (phdr off seg) 40 8 = Ok (le_val (le_bytes 8 (Z.of_nat (length seg.2)))).
Proof. split_and!; reflexivity. Qed.

Lemma checked_add64_ok a b : a + b < 2 ^ 64 -> checked_add64 a b = Some (a + b).
Proof. intros. unfold checked_add64. by rewrite (proj2 (Z.ltb_lt _ _)). Qed.

Lemma checked_mul64_ok a b : a * b < 2 ^ 64 -> checked_mul64 a b = Some (a * b).
Proof. intros. unfold checked_mul64. by rewrite (proj2 (Z.ltb_lt _ _)). Qed.

(** One round of the loop on a written program header. *)
Lemma phdr_loop_one bytes pre off seg post i idxs acc :
  bytes = pre ++ phdr off seg ++ post -> Z.of_nat (length bytes) < 2 ^ 63 ->
  0 <= i -> Z.of_nat (length pre) = 64 + i * 56 -> 0 <= off ->
  is_u64 seg.1 -> seg.1 + Z.of_nat (length seg.2) <= ADDR_SPACE ->
  slice_get bytes off (off + Z.of_nat (length seg.2)) = Some seg.2 ->
  phdr_loop bytes 64 (i :: idxs) acc = phdr_loop bytes 64 idxs (acc ++ [seg]).
Proof.
  intros Hb Hlen Hi Hpre Hoff Hv Hsp Hsl. cbn [phdr_loop].
  assert (Z.of_nat (length bytes) = Z.of_nat (length pre) + 56 + Z.of_nat (length post)) as Hl
    by (rewrite Hb, !length_app, length_phdr; lia).
  pose proof (slice_get_inv _ _ _ _ Hsl) as (_ & Hend & _).
  destruct (@phdr_fields string off seg) as (H0 & H8 & H16 & H32 & H40).
  rewrite le_val_le_bytes in H0, H8, H16, H32, H40 by (done || (split; unfold ADDR_SPACE in *; lia)).
  rewrite checked_mul64_ok by lia. simpl. rewrite checked_add64_ok by lia. simpl.
  rewrite checked_add64_ok by lia. simpl. rewrite (proj2 (Z.ltb_ge _ _)) by lia.
  assert (forall o n v, 0 <= o -> 0 <= n -> o + n <= 56 -> le_at (E := string) (phdr off seg) o n = Ok v ->
    le_at (E := string) bytes (64 + i * 56 + o) n = Ok v) as Hf.
  { intros. rewrite Hb. apply le_at_field; [lia..| |done]. rewrite length_phdr. lia. }
  pose proof (Hf 0 4 _ ltac:(lia) ltac:(lia) ltac:(lia) H0) as F0. rewrite Z.add_0_r in F0.
  rewrite F0. simpl. rewrite (Hf 8 8 _ ltac:(lia) ltac:(lia) ltac:(lia) H8). simpl.
  rewrite (Hf 16 8 _ ltac:(lia) ltac:(lia) ltac:(lia) H16). simpl.
  rewrite (Hf 32 8 _ ltac:(lia) ltac:(lia) ltac:(lia) H32). simpl.
  rewrite (Hf 40 8 _ ltac:(lia) ltac:(lia) ltac:(lia) H40). simpl.
  rewrite Z.ltb_irrefl, (checked_add64_ok seg.1) by (unfold ADDR_SPACE in *; lia). simpl.
  rewrite (proj2 (Z.ltb_ge ADDR_SPACE _)) by lia. rewrite (checked_add64_ok off) by lia. simpl.
  rewrite (proj2 (Z.ltb_ge _ _)) by lia. unfold slice. rewrite Hsl. simpl. by destruct seg.
Qed.

Lemma phdr_loop_written bytes pre off segs dpre i acc :
  bytes = pre ++ phdrs off segs ++ dpre ++ concat segs.*2 -> Z.of_nat (length bytes) < 2 ^ 63 ->
  0 <= i -> Z.of_nat (length pre) = 64 + i * 56 ->
  off = Z.of_nat (length pre + length (phdrs off segs) + length dpre) ->
  Forall (fun s => is_u64 s.1 /\ s.1 + Z.of_nat (length s.2) <= ADDR_SPACE) segs ->
  phdr_loop bytes 64 (seqZ i (Z.of_nat (length segs))) acc = Ok (acc ++ segs).
Proof.
  intros Hb Hlen Hi Hpre Hoff Hs. revert pre off dpre i acc Hb Hi Hpre Hoff.
  induction Hs as [|seg segs [Hv Hsp] _ IH]; intros pre off dpre i acc Hb Hi Hpre Hoff.
  - by rewrite app_nil_r.
  - cbn [length]. rewrite seqZ_S_cons. cbn [phdrs] in Hb, Hoff. rewrite length_app, length_phdr in Hoff.
    rewrite fmap_cons, concat_cons in Hb.
    rewrite (phdr_loop_one bytes pre off seg
      (phdrs (off + Z.of_nat (length seg.2)) segs ++ dpre ++ seg.2 ++ concat segs.*2));
      [|by rewrite Hb, <- !app_assoc|done|done|done|lia|done|done|].
    + rewrite (IH (pre ++ phdr off seg) (off + Z.of_nat (length seg.2)) (dpre ++ seg.2)).
      * by rewrite <- app_assoc.
      * rewrite Hb. by rewrite <- !app_assoc.
      * lia.
      * rewrite length_app, length_phdr. lia.
      * rewrite !length_app, length_phdr. lia.
    + replace bytes with ((pre ++ phdr off seg ++ phdrs (off + Z.of_nat (length seg.2)) segs ++ dpre) ++
        seg.2 ++ concat segs.*2) by (rewrite Hb, <- !app_assoc; done).
      set (l := pre ++ _). replace off with (Z.of_nat (length l)); [apply slice_get_app|].
      subst l. rewrite !length_app, length_phdr. lia.
Qed.

Lemma header_fields {E} e n :
  le_at (E := E) (elf_header e n) 4 1 = Ok 2 /\ le_at (E := E) (elf_header e n) 5 1 = Ok 1 /\
  le_at (E := E) (elf_header e n) 0x12 2 = Ok EM_RISCV /\
  le_at (E := E) (elf_header e n) 0x10 2 = Ok ET_EXEC /\
  le_at (E := E) (elf_header e n) 0x18 8 = Ok (le_val (le_bytes 8 e)) /\
  le_at (E := E) (elf_header e n) 0x20 8 = Ok 64 /\
  le_at (E := E) (elf_header e n) 0x28 8 = Ok 0 /\
  le_at (E := E) (elf_header e n) 0x36 2 = Ok 56 /\
  le_at (E := E) (elf_header e n) 0x38 2 = Ok (le_val (le_bytes 2 n)) /\
  le_at (E := E) (elf_header e n) 0x3a 2 = Ok 0 /\ le_at (E := E) (elf_header e n) 0x3c 2 = Ok 0 /\
  le_at (E := E) (elf_header e n) 0x3e 2 = Ok 0.
Proof. split_and!; reflexivity. Qed.

(** C39. The ELF parser is total on untrusted bytes: it never panics, and an accepted image
    has a 64-bit entry, at least one segment, and only segments whose data are file bytes
    and lie inside the 4 GiB address space. *)
Theorem parse_safe bytes :
  Forall is_byte bytes ->
  parse bytes <> Panic /\
  forall img, parse bytes = Ok img ->
    is_u64 (entry img) /\ segments img <> [] /\ Forall (seg_ok bytes) (segments img) /\
    forall a, elf_tohost_addr img = Some a -> is_u64 a.
Proof.
  intros Hb. pose proof (parse_post bytes Hb) as Hp. split.
  - intros He. by rewrite He in Hp.
  - intros img He. by rewrite He in Hp.
Qed.

(** Loading cannot fail after parsing: an accepted image is placed into any well-formed
    memory, which stays well formed and holds the segments written in order. *)
Theorem load_parsed bytes img m :
  Forall is_byte bytes -> parse bytes = Ok img -> mem_wf m ->
  exists m', load m img = (Ok tt, m') /\ mem_wf m' /\ abs m' = aload (abs m) (segments img) /\
             syscall_log m' = syscall_log m.
Proof.
  intros Hb Hp W. pose proof (parse_post bytes Hb) as Hi. rewrite Hp in Hi.
  destruct Hi as (_ & _ & Hs & _). by apply load_segments_ok with bytes.
Qed.

(** Round trip: parsing a well-formed static RISC-V executable gives back its entry
    point and its segments, in order. *)
Theorem parse_make_elf e segs :
  is_u64 e -> segs <> [] -> Z.of_nat (length segs) < 2 ^ 16 ->
  Forall (fun s => is_u64 s.1 /\ s.1 + Z.of_nat (length s.2) <= ADDR_SPACE) segs ->
  Z.of_nat (length (make_elf e segs)) < 2 ^ 63 ->
  parse (make_elf e segs) = Ok {| entry := e; segments := segs; elf_tohost_addr := None |}.
Proof.
  intros He Hne Hn Hs Hlen. unfold parse. set (n := Z.of_nat (length segs)) in *.
  destruct (@header_fields string e n) as (F4&F5&F12&F10&F18&F20&F28&F36&F38&F3a&F3c&F3e).
  rewrite le_val_le_bytes in F18, F38 by (done || (split; lia)).
  assert (Z.of_nat (length (make_elf e segs)) >= 64) as Hge by (unfold make_elf; rewrite length_app; simpl; lia).
  rewrite (proj2 (Z.ltb_ge _ _)) by lia.
  assert (forall o k v, 0 <= o -> 0 <= k -> o + k <= 64 -> le_at (E := string) (elf_header e n) o k = Ok v ->
    le_at (E := string) (make_elf e segs) o k = Ok v) as Hf.
  { intros. by apply le_at_prefix. }
  assert (slice (E := string) (make_elf e segs) 0 4 = Ok ELF_MAGIC) as ->
    by (unfold slice, make_elf; rewrite slice_get_prefix by (simpl; lia); reflexivity).
  unfold mbind at 1, outcome_bind at 1. rewrite bool_decide_true by done. cbn [negb].
  rewrite (Hf 4 1 _ ltac:(lia) ltac:(lia) ltac:(lia) F4), (Hf 5 1 _ ltac:(lia) ltac:(lia) ltac:(lia) F5),
    (Hf 0x12 2 _ ltac:(lia) ltac:(lia) ltac:(lia) F12), (Hf 0x10 2 _ ltac:(lia) ltac:(lia) ltac:(lia) F10),
    (Hf 0x18 8 _ ltac:(lia) ltac:(lia) ltac:(lia) F18), (Hf 0x28 8 _ ltac:(lia) ltac:(lia) ltac:(lia) F28),
    (Hf 0x3a 2 _ ltac:(lia) ltac:(lia) ltac:(lia) F3a), (Hf 0x3c 2 _ ltac:(lia) ltac:(lia) ltac:(lia) F3c),
    (Hf 0x3e 2 _ ltac:(lia) ltac:(lia) ltac:(lia) F3e), (Hf 0x20 8 _ ltac:(lia) ltac:(lia) ltac:(lia) F20),
    (Hf 0x36 2 _ ltac:(lia) ltac:(lia) ltac:(lia) F36), (Hf 0x38 2 _ ltac:(lia) ltac:(lia) ltac:(lia) F38).
  unfold mbind, outcome_bind. cbn [negb Z.eqb Pos.eqb EM_RISCV ET_EXEC].
  rewrite (phdr_loop_written (make_elf e segs) (elf_header e n) (64 + 56 * n) segs []).
  - by rewrite bool_decide_false by done.
  - done.
  - done.
  - lia.
  - reflexivity.
  - rewrite length_phdrs. simpl. lia.
  - done.
Qed.

(** ** Concrete instances *)

Definition demo_elf : list Z :=
  make_elf 0x80000000 [(0x80000000, [0x93; 0x00; 0x50; 0x00]); (0x80001000, [0x2a])].

Lemma demo_elf_bytes : Forall is_byte demo_elf.
Proof. apply (bool_decide_unpack _). vm_compute. exact I. Qed.

Lemma parse_safe_witness :
  parse (take 100 demo_elf) <> Panic /\ parse (<[103%nat := 0xff]> demo_elf) <> Panic.
Proof.
  split; apply parse_safe.
  - apply Forall_take, demo_elf_bytes.
  - apply Forall_insert; [apply demo_elf_bytes|done].
Defined.

Lemma load_parsed_witness :
  exists img m', parse demo_elf = Ok img /\ load new img = (Ok tt, m') /\ mem_wf m' /\
    abyte (abs m') 0x80001000 = 0x2a.
Proof.
  destruct (parse demo_elf) as [img|?|] eqn:Hp; [|by vm_compute in Hp..].
  destruct (load_parsed demo_elf img new demo_elf_bytes Hp new_wf) as (m' & Hl & W & Ha & _).
  exists img, m'. split_and!; [done..|]. rewrite Ha. clear Hl Ha. vm_compute in Hp.
  injection Hp as <-. vm_compute. reflexivity.
Defined.

Lemma parse_make_elf_witness :
  parse demo_elf = Ok {| entry := 0x80000000;
    segments := [(0x80000000, [0x93; 0x00; 0x50; 0x00]); (0x80001000, [0x2a])];
    elf_tohost_addr := None |}.
Proof.
  apply parse_make_elf; [done|done|done| |done]. by repeat constructor.
Defined.
