(* ===== verification/JobFmt.v ===== *)
(** * The job and result formats (crates/jobfmt/src/lib.rs)

    The job manifest and directory, the worker result, the journal and its digest, the
    messages that are signed, and the fixed-length hexadecimal decoder.  JSON (the
    [serde_json] crate) and the disk are parameters. *)

From S2P Require Import Prelude Text Cpu.

Record JobManifest : Type := mkManifest {
  schema : Z;
  m_id : string;
  m_name : string;
  isa : string;
  format : option string;
  toolchain : string;
  m_chunk_size : Z;
  m_max_instructions : Z;
  verification_class : string;
  elf : string;
  input : string;
}.

Record Job : Type := mkJob {
  manifest : JobManifest;
  dir : string;
  job_elf : list Z;
  job_input : list Z;
}.

Definition SCHEMA : Z := 1.

(** ** Path components *)

(** [std::path::Component] on Unix. *)
Inductive Component : Type :=
  | RootDir
  | CurDir
  | ParentDir
  | Normal (s : list Z).

#[export] Instance Component_eq_dec : EqDecision Component.
Proof. solve_decision. Defined.

Definition SLASH : Z := 47.
Definition DOT : Z := 46.
Definition BACKSLASH : Z := 92.

(** The pieces between separators. *)
Fixpoint split_slash (l cur : list Z) : list (list Z) :=
  match l with
  | [] => [cur]
  | c :: t => if c =? SLASH then cur :: split_slash t [] else split_slash t (cur ++ [c])
  end.

(** One piece; [.] is kept only as the first component of a relative path. *)
Definition piece_component (first : bool) (p : list Z) : list Component :=
  if bool_decide (p = []) then []
  else if bool_decide (p = [DOT]) then (if first then [CurDir] else [])
  else if bool_decide (p = [DOT; DOT]) then [ParentDir]
  else [Normal p].

Definition has_root (l : list Z) : bool := bool_decide (head l = Some SLASH).

(** [Path::new(name).components()] *)
Definition components (name : list Z) : list Component :=
  match split_slash name [] with
  | [] => []
  | p :: ps =>
      (if has_root name then [RootDir] else piece_component true p) ++
      concat (piece_component false <$> ps)
  end.

(** The message shows the name with [{:?}]; [dbg] is that formatting. *)
Definition confined_name (dbg : string -> string) (name : string) : outcome string unit :=
  let bad := Err ("manifest path " +:+ dbg name +:+ " is not a plain file name")%string in
  if bool_decide (BACKSLASH ∈ as_bytes name) then bad
  else
    let cs := components (as_bytes name) in
    let ok := negb (has_root (as_bytes name)) && bool_decide (length cs = 1%nat) &&
              match cs with Normal _ :: _ => true | _ => false end in
    if ok then Ok tt else bad.

(** A plain file name: what the manifest fields are meant to be. *)
Definition plain_name (name : string) : Prop :=
  let l := as_bytes name in
  l <> [] /\ l <> [DOT] /\ l <> [DOT; DOT] /\ (SLASH ∉ l) /\ (BACKSLASH ∉ l).

#[export] Instance plain_name_dec name : Decision (plain_name name).
Proof. unfold plain_name. apply _. Defined.

(** ** Job directories *)

(** JSON encoding and decoding of a type. *)
Class Json (A : Type) : Type := {
  to_vec : A -> list Z;
  to_vec_pretty : A -> list Z;
  from_slice : list Z -> outcome string A;
}.

(** What the code relies on: decoding an encoding gives the value back. *)
Class JsonLaws (A : Type) `{Json A} : Prop := {
  from_to_vec : forall a : A, from_slice (to_vec a) = Ok a;
  from_to_vec_pretty : forall a : A, from_slice (to_vec_pretty a) = Ok a;
}.

(** The operating system: the text of its errors, [{:?}] of a string, what a write of [data]
    to a file leaves in it (or the error of the write), and the file that a failed write
    leaves behind: cut short somewhere, or none when the file could not be opened and what was
    there stays. *)
Class Os : Type := {
  os_missing : string;
  os_debug : string -> string;
  os_write : string -> list Z -> outcome string (list Z);
  os_failed : string -> list Z -> option (list Z);
}.

(** The files after a failed write. *)
Definition failed_write `{Os} {K D} `{Insert K (list Z) D} (path : K) (name : string) (data : list Z) (d : D) : D :=
  match os_failed name data with Some part => <[path := part]> d | None => d end.

(** The files of one directory.  A name with a separator in it names no regular file of the
    directory: after [confined_name] it can only be a plain name followed by separators and
    dots, which the kernel refuses for a file. *)
Abbreviation Dir := (gmap string (list Z)).

Definition fs_read `{Os} (d : Dir) (name : string) : outcome string (list Z) :=
  if decide (plain_name name) then ok_or (d !! name) os_missing else Err os_missing.

Definition fs_write `{Os} (name : string) (data : list Z) : M Dir string unit := fun d =>
  if decide (plain_name name) then
    match os_write name data with
    | Ok stored => (Ok tt, <[name := stored]> d)
    | Err e => (Err e, failed_write name name data d)
    | Panic => (Panic, d)
    end
  else (Err os_missing, d).

(** A result that does not touch the directory. *)
Definition lift {S E A} (r : outcome E A) : M S E A := fun s => (r, s).

Lemma lift_ok {S E A} (r : outcome E A) (s : S) a s' : lift r s = (Ok a, s') -> r = Ok a /\ s' = s.
Proof. unfold lift. by intros [= -> <-]. Qed.

Section JobDir.
Context `{Os} `{Json JobManifest}.

(** [load_dir]; [path] is the directory's name, [d] its files. *)
Definition load_dir (path : string) (d : Dir) : outcome string Job :=
  raw ← map_err (fun e => "reading " +:+ path +:+ "/job.json: " +:+ e)%string (fs_read d "job.json");
  m ← map_err (fun e => "parsing job.json: " +:+ e)%string (from_slice raw);
  if negb (schema m =? SCHEMA) then
    Err ("job schema " +:+ pretty (schema m) +:+ " != " +:+ pretty SCHEMA)%string
  else if negb (bool_decide (isa m = ISA)) then
    Err ("job targets ISA '" +:+ isa m +:+ "' but this emulator pins '" +:+ ISA +:+ "'")%string
  else
    _ ← confined_name os_debug (elf m);
    _ ← confined_name os_debug (input m);
    e ← map_err (fun e => "reading elf: " +:+ e)%string (fs_read d (elf m));
    i ← map_err (fun e => "reading input: " +:+ e)%string (fs_read d (input m));
    mret {| manifest := m; dir := path; job_elf := e; job_input := i |}.

(** [save_dir] threads the directory: files written before a failure stay. *)
Definition save_dir (m : JobManifest) (e i : list Z) : M Dir string unit :=
  _ ← lift (confined_name os_debug (elf m));
  _ ← lift (confined_name os_debug (input m));
  _ ← fs_write "job.json" (to_vec_pretty m);
  _ ← fs_write (elf m) e;
  _ ← fs_write (input m) i;
  mret tt.
End JobDir.

(** ** Worker results *)

Record WorkerResult : Type := mkResult {
  worker_id : string;
  job_id : string;
  r_status : string;
  r_instructions : Z;
  result_hash : string;
  r_chunk_hashes : list string;
  output_hex : option string;
  trap : option string;
  pubkey_hex : option string;
  sig_hex : option string;
}.

(** The journal: the instruction count in 8 bytes, then the output. *)
Definition journal (instructions : Z) (output : list Z) : list Z :=
  le_bytes 8 instructions ++ output.

Definition journal_output (j : list Z) : list Z :=
  default [] (slice_get j 8 (Z.of_nat (length j))).

Definition journal_digest `{Sha256} (instructions : Z) (output : list Z) : list Z :=
  sha256 (journal instructions output).

Definition is_sp1_v2 (m : JobManifest) : bool := bool_decide (format m = Some "sp1-v2"%string).

Definition V2_JOURNAL_COUNT : Z := 0.

(** ** Signed messages *)

(** The closure [put]: the length as [u32], then the bytes. *)
Definition put (b : list Z) : list Z := le_bytes 4 (wrap 32 (Z.of_nat (length b))) ++ b.

Definition put_str (s : string) : list Z := put (as_bytes s).

(** An absent field is a zero length. *)
Definition put_opt (o : option string) : list Z :=
  match o with Some s => put_str s | None => le_bytes 4 0 end.

Definition signing_message (r : WorkerResult) : list Z :=
  put_str (worker_id r) ++ put_str (job_id r) ++ put_str (r_status r) ++
  le_bytes 8 (r_instructions r) ++ put_str (result_hash r) ++
  concat (put_str <$> r_chunk_hashes r) ++ put_opt (output_hex r) ++ put_opt (trap r).

Definition receipt_claim_message (jid : string) (receipt_hash : list Z) : list Z :=
  put_str jid ++ receipt_hash.

Definition submission_message (jid : string) (descriptor_id : list Z) : list Z :=
  put_str jid ++ descriptor_id.

(** ** Fixed-length hexadecimal *)

Inductive HexError : Type :=
  | BadLength (got want : Z)
  | InvalidByte (b : Z).

Definition hex_err_digit (c : Z) : outcome HexError Z :=
  if (48 <=? c) && (c <=? 57) then Ok (c - 48)
  else if (97 <=? c) && (c <=? 102) then Ok (c - 97 + 10)
  else if (65 <=? c) && (c <=? 70) then Ok (c - 65 + 10)
  else Err (InvalidByte c).

(** [b.as_chunks::<2>().0.iter().map(..).collect()] *)
Fixpoint hex_pairs (b : list Z) : outcome HexError (list Z) :=
  match b with
  | c1 :: c2 :: t =>
      hi ← hex_err_digit c1;
      lo ← hex_err_digit c2;
      rest ← hex_pairs t;
      mret (((hi .<< 4) .| lo) :: rest)
  | _ => Ok []
  end.

Definition from_hex (s : string) (expect : Z) : outcome HexError (list Z) :=
  if negb (str_len s =? expect * 2) then Err (BadLength (str_len s) (expect * 2))
  else hex_pairs (as_bytes s).

(** ** Signed messages are injective *)

(** Lengths that fit the [u32] prefix. *)
Definition short (s : string) : Prop := str_len s < 2 ^ 32.

Lemma put_app_inj a b k1 k2 :
  Z.of_nat (length a) < 2 ^ 32 -> Z.of_nat (length b) < 2 ^ 32 ->
  put a ++ k1 = put b ++ k2 -> a = b /\ k1 = k2.
Proof.
  intros Ha Hb. unfold put. rewrite !wrap_small, <- !app_assoc by (split; lia). intros Heq.
  apply le_bytes_app_inj in Heq as [Hl Heq]; [|split; lia..].
  apply app_inj_len in Heq; [done|lia].
Qed.

Lemma put_str_app_inj a b k1 k2 :
  short a -> short b -> put_str a ++ k1 = put_str b ++ k2 -> a = b /\ k1 = k2.
Proof.
  intros Ha Hb Heq. apply put_app_inj in Heq as [Heq ->]; [|done..]. by apply as_bytes_inj in Heq.
Qed.

Lemma put_opt_str o : put_opt o = put_str (default "" o)%string.
Proof. by destruct o. Qed.

Lemma put_strs_inj l1 l2 :
  Forall short l1 -> Forall short l2 ->
  concat (put_str <$> l1) = concat (put_str <$> l2) -> l1 = l2.
Proof.
  intros H1. revert l2. induction H1 as [|a l1 Ha _ IH]; intros [|b l2] H2 Heq; try done.
  apply Forall_cons in H2 as [Hb H2]. rewrite !fmap_cons, !concat_cons in Heq.
  apply put_str_app_inj in Heq as [-> Heq]; [|done..]. f_equal. by apply IH.
Qed.

(** The fields a worker signs, within the lengths the prefixes can express. *)
Definition signable (r : WorkerResult) : Prop :=
  short (worker_id r) /\ short (job_id r) /\ short (r_status r) /\ is_u64 (r_instructions r) /\
  short (result_hash r) /\ Forall short (r_chunk_hashes r) /\
  short (default "" (output_hex r))%string /\ short (default "" (trap r))%string.

(** Equal in every signed field; an absent output or trap counts as an empty one. *)
Definition same_signed (r1 r2 : WorkerResult) : Prop :=
  worker_id r1 = worker_id r2 /\ job_id r1 = job_id r2 /\ r_status r1 = r_status r2 /\
  r_instructions r1 = r_instructions r2 /\ result_hash r1 = result_hash r2 /\
  r_chunk_hashes r1 = r_chunk_hashes r2 /\
  default ""%string (output_hex r1) = default ""%string (output_hex r2) /\
  default ""%string (trap r1) = default ""%string (trap r2).

Lemma signing_tail r :
  concat (put_str <$> r_chunk_hashes r) ++ put_opt (output_hex r) ++ put_opt (trap r) =
  concat (put_str <$> (r_chunk_hashes r ++ [default ""%string (output_hex r); default ""%string (trap r)])).
Proof. rewrite fmap_app, concat_app, !put_opt_str. simpl. by rewrite app_nil_r. Qed.

Lemma signing_message_inj r1 r2 :
  signable r1 -> signable r2 -> signing_message r1 = signing_message r2 -> same_signed r1 r2.
Proof.
  intros (W1&J1&S1&I1&R1&C1&O1&T1) (W2&J2&S2&I2&R2&C2&O2&T2) Heq.
  unfold signing_message in Heq. rewrite !signing_tail in Heq.
  apply put_str_app_inj in Heq as [Hw Heq]; [|done..].
  apply put_str_app_inj in Heq as [Hj Heq]; [|done..].
  apply put_str_app_inj in Heq as [Hs Heq]; [|done..].
  apply le_bytes_app_inj in Heq as [Hi Heq]; [|done..].
  apply put_str_app_inj in Heq as [Hr Heq]; [|done..].
  apply put_strs_inj in Heq; [|rewrite Forall_app; by repeat constructor..].
  apply app_inj_2 in Heq as [Hc Heq]; [|done]. injection Heq as Ho Ht.
  by split_and!.
Qed.

Lemma id_message_inj jid1 jid2 h1 h2 :
  short jid1 -> short jid2 -> put_str jid1 ++ h1 = put_str jid2 ++ h2 -> jid1 = jid2 /\ h1 = h2.
Proof. apply put_str_app_inj. Qed.

(** ** Names *)

Lemma split_slash_join l cur :
  exists p ps, split_slash l cur = p :: ps /\ cur ++ l = p ++ concat ((fun q => SLASH :: q) <$> ps).
Proof.
  revert cur. induction l as [|c l IH]; intros cur; cbn [split_slash].
  - by exists cur, [].
  - case_match; bools; subst.
    + destruct (IH []) as (p & ps & -> & Hj). exists cur, (p :: ps). split; [done|].
      rewrite fmap_cons, concat_cons. simpl in *. by rewrite Hj.
    + destruct (IH (cur ++ [c])) as (p & ps & Hs & Hj). exists p, ps. split; [done|].
      by rewrite <- Hj, <- app_assoc.
Qed.

Lemma split_slash_no_slash l cur :
  SLASH ∉ cur -> Forall (fun p => SLASH ∉ p) (split_slash l cur).
Proof.
  revert cur. induction l as [|c l IH]; intros cur Hc; cbn [split_slash].
  - by repeat constructor.
  - case_match; bools.
    + constructor; [done|]. apply IH. apply not_elem_of_nil.
    + apply IH. rewrite elem_of_app, list_elem_of_singleton. by intros [?|?].
Qed.

Lemma split_slash_plain l cur : SLASH ∉ l -> split_slash l cur = [cur ++ l].
Proof.
  revert cur. induction l as [|c l IH]; intros cur Hl; cbn [split_slash]; [by rewrite app_nil_r|].
  apply not_elem_of_cons in Hl as [Hc Hl].
  rewrite (proj2 (Z.eqb_neq _ _)) by congruence. rewrite IH by done. by rewrite <- app_assoc.
Qed.

Lemma piece_nil p : piece_component false p = [] -> p = [] \/ p = [DOT].
Proof. unfold piece_component. repeat case_match; bools; intros; auto; done. Qed.

Lemma piece_normal p q : piece_component true p = [Normal q] ->
  p = q /\ q <> [] /\ q <> [DOT] /\ q <> [DOT; DOT].
Proof. unfold piece_component. repeat case_match; bools; intros; by simplify_eq. Qed.

(** What an accepted name denotes: one plain component, followed at most by separators
    and dots. *)
Definition confined (name : string) (p : list Z) : Prop :=
  components (as_bytes name) = [Normal p] /\
  p <> [] /\ p <> [DOT] /\ p <> [DOT; DOT] /\ (SLASH ∉ p) /\ (BACKSLASH ∉ p) /\
  exists suffix, as_bytes name = p ++ suffix /\ Forall (fun c => c = SLASH \/ c = DOT) suffix.

Lemma confined_name_sound dbg name : confined_name dbg name = Ok tt -> exists p, confined name p.
Proof.
  unfold confined_name. case_match eqn:Hbs; [done|]. bools.
  set (cs := components (as_bytes name)). case_match eqn:Hok; [|done]. intros _.
  apply andb_true_iff in Hok as [Hok Hn]. apply andb_true_iff in Hok as [Hroot Hlen].
  apply negb_true_iff in Hroot. apply bool_decide_eq_true in Hlen.
  destruct cs as [|[| | |p] [|]] eqn:Hcs; try done. exists p. subst cs.
  pose proof Hcs as Hcs'. unfold components in Hcs'.
  destruct (split_slash_join (as_bytes name) []) as (q & ps & Hs & Hj).
  pose proof (split_slash_no_slash (as_bytes name) [] (not_elem_of_nil _)) as Hns.
  rewrite Hs in Hcs', Hns. apply Forall_cons in Hns as [Hq _].
  rewrite Hroot in Hcs'. simpl in Hj.
  assert (piece_component true q <> []) as Hne.
  { unfold piece_component. repeat case_match; bools; try done. subst q.
    destruct ps; [by rewrite Hj in Hcs|]. unfold has_root in Hroot. rewrite Hj in Hroot. by bools. }
  destruct (piece_component true q) as [|c [|]] eqn:Hp; try done.
  - injection Hcs' as -> Hrest. apply piece_normal in Hp as (-> & ? & ? & ?).
    assert (Forall (fun r => r = [] \/ r = [DOT]) ps) as Hps.
    { apply Forall_forall. intros r Hr. apply piece_nil.
      apply concat_nil_Forall in Hrest. rewrite Forall_fmap, Forall_forall in Hrest. by apply Hrest. }
    split_and!; try done.
    + intros Hin. apply Hbs. rewrite Hj, elem_of_app. by left.
    + eexists. split; [done|]. clear -Hps. induction Hps as [|r ps [-> | ->] _ IH]; [constructor|..];
        rewrite fmap_cons, concat_cons; repeat (constructor; [by auto|]); done.
Qed.

Lemma confined_name_complete dbg name : plain_name name -> confined_name dbg name = Ok tt.
Proof.
  intros (H0 & H1 & H2 & H3 & H4). unfold confined_name. rewrite bool_decide_false by done.
  assert (components (as_bytes name) = [Normal (as_bytes name)]) as ->.
  { unfold components. rewrite split_slash_plain by done. simpl. unfold has_root.
    rewrite bool_decide_false.
    - unfold piece_component. by rewrite !bool_decide_false.
    - destruct (as_bytes name) as [|c l]; [done|]. intros [= ->]. apply H3. by left. }
  unfold has_root. rewrite bool_decide_false; [done|].
  destruct (as_bytes name) as [|c l]; [done|]. intros [= ->]. apply H3. by left.
Qed.

(** ** Directories *)

Section SaveLoad.
Context `{Os} `{Json JobManifest}.

Lemma fs_read_plain d name : plain_name name -> fs_read d name = ok_or (d !! name) os_missing.
Proof. intros. unfold fs_read. by rewrite decide_True. Qed.

Lemma fs_write_plain name data d :
  plain_name name -> os_write name data = Ok data ->
  fs_write name data d = (Ok tt, <[name := data]> d).
Proof. intros Hp Hw. unfold fs_write. by rewrite decide_True, Hw. Qed.

(** The three files of a job directory are distinct plain names. *)
Definition names_ok (m : JobManifest) : Prop :=
  plain_name (elf m) /\ plain_name (input m) /\ elf m <> input m /\
  elf m <> "job.json"%string /\ input m <> "job.json"%string.

Lemma plain_job_json : plain_name "job.json".
Proof. apply (bool_decide_unpack _). vm_compute. exact I. Qed.

Lemma save_dir_ok m e i d :
  names_ok m ->
  (forall name data, os_write name data = Ok data) ->
  save_dir m e i d =
    (Ok tt, <[input m := i]> (<[elf m := e]> (<["job.json"%string := to_vec_pretty m]> d))).
Proof.
  intros (He & Hi & _) Hw. unfold save_dir, mbind, M_bind, lift.
  rewrite !confined_name_complete by done.
  by rewrite !fs_write_plain by (done || apply plain_job_json).
Qed.

Lemma load_dir_bytes path d m mb e i :
  names_ok m -> schema m = SCHEMA -> isa m = ISA -> from_slice mb = Ok m ->
  d !! "job.json"%string = Some mb -> d !! elf m = Some e -> d !! input m = Some i ->
  load_dir path d = Ok {| manifest := m; dir := path; job_elf := e; job_input := i |}.
Proof.
  intros (He & Hi & _) Hs Hisa Hj Hdj Hde Hdi. unfold load_dir.
  rewrite !fs_read_plain, Hdj by apply plain_job_json.
  unfold mbind, outcome_bind, map_err, ok_or. rewrite Hj, Hs, Z.eqb_refl. simpl.
  rewrite bool_decide_true by done. simpl.
  rewrite !confined_name_complete by done. simpl.
  by rewrite !fs_read_plain, Hde, Hdi by done.
Qed.
End SaveLoad.

(** ** Hexadecimal *)

Lemma hex_err_digit_hex d : 0 <= d < 16 -> hex_err_digit (hex_nibble d) = Ok d.
Proof.
  intros Hd. pose proof (nibble_val_hex d Hd) as Hn. unfold nibble_val, hex_err_digit in *.
  repeat case_match; congruence.
Qed.

Lemma nibbles_join b : is_byte b -> ((b / 16) .<< 4) .| (b mod 16) = b.
Proof.
  intros Hb. apply Z.bits_inj'. intros i Hi. rewrite Z.lor_spec. change 16 with (2 ^ 4).
  rewrite <- Z.shiftr_div_pow2 by lia. destruct (decide (i < 4)).
  - rewrite Z.shiftl_spec_low, Z.mod_pow2_bits_low by lia. done.
  - rewrite Z.shiftl_spec, Z.shiftr_spec, Z.mod_pow2_bits_high, orb_false_r by lia. f_equal. lia.
Qed.

Lemma hex_pairs_hex l : Forall is_byte l -> hex_pairs (hex_bytes l) = Ok l.
Proof.
  induction 1 as [|b l Hb _ IH]; [done|]. unfold hex_bytes in *. rewrite fmap_cons, concat_cons.
  destruct (byte_nibbles b Hb) as (?&?&_). simpl. rewrite !hex_err_digit_hex by done. simpl.
  rewrite IH. simpl. by rewrite nibbles_join.
Qed.

Lemma hex_err_digit_range c d : hex_err_digit c = Ok d -> 0 <= d < 16.
Proof. unfold hex_err_digit. repeat case_match; bools; intros [= <-]; lia. Qed.

Lemma hex_pairs_ok b : forall l, hex_pairs b = Ok l ->
  Forall is_byte l /\ Nat.div2 (length b) = length l.
Proof.
  induction b as [b IH] using (induction_ltof1 _ (@length Z)). unfold ltof in IH.
  destruct b as [|c1 [|c2 t]]; intros l; simpl; [by intros [= <-]..|].
  destruct (hex_err_digit c1) as [hi|?|] eqn:H1; try done. simpl.
  destruct (hex_err_digit c2) as [lo|?|] eqn:H2; try done. simpl.
  destruct (hex_pairs t) as [rest|?|] eqn:Ht; try done. simpl. intros [= <-].
  apply IH in Ht as [Hb Hl]; [|simpl; lia]. apply hex_err_digit_range in H1, H2. split.
  - constructor; [|done]. apply lor_range; [lia| |split; lia].
    rewrite Z.shiftl_mul_pow2 by lia. split; lia.
  - simpl. by rewrite Hl.
Qed.

Lemma hex_pairs_no_panic b : hex_pairs b <> Panic.
Proof.
  induction b as [b IH] using (induction_ltof1 _ (@length Z)). unfold ltof in IH.
  destruct b as [|c1 [|c2 t]]; simpl; try done. unfold hex_err_digit.
  specialize (IH t ltac:(simpl; lia)). by repeat case_match; simpl; destruct (hex_pairs t).
Qed.

Lemma from_hex_no_panic s n : from_hex s n <> Panic.
Proof. unfold from_hex. case_match; [done|apply hex_pairs_no_panic]. Qed.

Lemma from_hex_len s n l : from_hex s n = Ok l -> Z.of_nat (length l) = n.
Proof.
  unfold from_hex. case_match; [done|]. bools. intros [Hb Hl]%hex_pairs_ok.
  unfold str_len in *. rewrite Nat.div2_div in Hl.
  assert (length (as_bytes s) = Z.to_nat n * 2)%nat as Hn by lia.
  rewrite Hn, Nat.div_mul in Hl by lia. lia.
Qed.

Lemma from_hex_bytes s n l : from_hex s n = Ok l -> Forall is_byte l.
Proof. unfold from_hex. case_match; [done|]. by intros [? _]%hex_pairs_ok. Qed.

Lemma from_hex_hex l n : Forall is_byte l -> n = Z.of_nat (length l) -> from_hex (hex l) n = Ok l.
Proof.
  intros Hl ->. unfold from_hex. rewrite str_len_hex, (proj2 (Z.eqb_eq _ _)) by (done || lia). simpl.
  rewrite as_bytes_hex by done. by apply hex_pairs_hex.
Qed.

(** A signed result cannot be re-read as another: two results (fields within the
    [u32] length prefixes) with the same signing message have the same worker, job, status,
    instruction count, result hash, whole hash chain, output and trap text, where an absent
    output or trap counts as an empty one. *)
Theorem signing_message_binds r1 r2 :
  signable r1 -> signable r2 -> signing_message r1 = signing_message r2 -> same_signed r1 r2.
Proof. apply signing_message_inj. Qed.

(** [confined_name] keeps manifest files inside the job directory: it accepts every
    plain name, and an accepted name is one normal path component, with no separator or
    backslash in it and neither [.] nor [..], followed at most by separators and dots. *)
Theorem confined_name_spec dbg name :
  (plain_name name -> confined_name dbg name = Ok tt) /\
  (confined_name dbg name = Ok tt -> exists p, confined name p) /\
  confined_name dbg name <> Panic.
Proof.
  split_and!; [apply confined_name_complete|apply confined_name_sound|].
  unfold confined_name. by repeat case_match.
Qed.

(** Round trip of job directories on a working disk: saving a manifest with the pinned
    schema and ISA and three distinct plain file names succeeds, and loading the directory
    gives the manifest, the program and the input back. *)
Theorem save_load_roundtrip `{Os} `{JsonLaws JobManifest} path m e i d :
  names_ok m -> schema m = SCHEMA -> isa m = ISA ->
  (forall name data, os_write name data = Ok data) ->
  exists d', save_dir m e i d = (Ok tt, d') /\
    load_dir path d' = Ok {| manifest := m; dir := path; job_elf := e; job_input := i |}.
Proof.
  intros Hn Hs Hi Hw. eexists. split; [by apply save_dir_ok|].
  pose proof Hn as (_ & _ & Hei & Hej & Hij).
  apply (load_dir_bytes path _ m (to_vec_pretty m)); try done; [apply from_to_vec_pretty|..].
  - by do 2 (rewrite lookup_insert_ne by done); rewrite lookup_insert_eq.
  - by rewrite lookup_insert_ne, lookup_insert_eq by done.
  - by rewrite lookup_insert_eq.
Qed.

Lemma journal_digest_inj `{Sha256} n1 o1 n2 o2 :
  is_u64 n1 -> is_u64 n2 -> journal_digest n1 o1 = journal_digest n2 o2 ->
  (n1 = n2 /\ o1 = o2) \/ collision sha256 (journal n1 o1) (journal n2 o2).
Proof.
  intros H1 H2 Heq. destruct (decide (journal n1 o1 = journal n2 o2)) as [Hj|]; [left|by right].
  by apply le_bytes_app_inj in Hj.
Qed.

(** The journal binds the count and the output: the output is recovered from the
    journal, and two runs with the same digest have the same count and output, or their
    journals are an explicit SHA-256 collision. *)
Theorem journal_digest_binds `{Sha256} n1 o1 n2 o2 :
  is_u64 n1 -> is_u64 n2 ->
  journal_output (journal n1 o1) = o1 /\
  (journal_digest n1 o1 = journal_digest n2 o2 ->
     (n1 = n2 /\ o1 = o2) \/ collision sha256 (journal n1 o1) (journal n2 o2)).
Proof.
  intros H1 H2. split.
  - unfold journal_output, journal, slice_get. rewrite length_app, length_le_bytes.
    rewrite !(proj2 (Z.leb_le _ _)) by lia. simpl. rewrite drop_0. apply firstn_all2. lia.
  - by apply journal_digest_inj.
Qed.

(** ** Concrete instances *)

(** A codec for countable types: the binary digits of the code, five to a printable
    character.  A character holds its digits under a leading 1, the first digit highest,
    and 64 more. *)
Fixpoint pos_chars (n : nat) (q p : positive) : list Z :=
  match p, n with
  | xH, _ => [Zpos q + 64]
  | xO p, O => Zpos q + 64 :: pos_chars 4 (xO xH) p
  | xI p, O => Zpos q + 64 :: pos_chars 4 (xI xH) p
  | xO p, S n => pos_chars n (xO q) p
  | xI p, S n => pos_chars n (xI q) p
  end.

Definition pos_digits (p : positive) : list Z := pos_chars 5 xH p.

(** The digits of a character put back in front of a code. *)
Fixpoint onto (q p : positive) : positive :=
  match q with
  | xH => p
  | xO q => onto q (xO p)
  | xI q => onto q (xI p)
  end.

Definition char_onto (z : Z) (p : positive) : option positive :=
  match z - 64 with Zpos q => Some (onto q p) | _ => None end.

Fixpoint digits_pos (l : list Z) : option positive :=
  match l with
  | [] => None
  | [z] => char_onto z xH
  | z :: t => digits_pos t ≫= char_onto z
  end.

Lemma char_onto_char q p : char_onto (Zpos q + 64) p = Some (onto q p).
Proof. unfold char_onto. by rewrite Z.add_simpl_r. Qed.

Lemma digits_pos_cons q n q' p :
  digits_pos (Zpos q + 64 :: pos_chars n q' p) = digits_pos (pos_chars n q' p) ≫= char_onto (Zpos q + 64).
Proof. revert n q'. by induction p as [p IH|p IH|]; intros [|n] q'; try apply IH. Qed.

Lemma digits_pos_chars n q p : digits_pos (pos_chars n q p) = Some (onto q p).
Proof.
  revert n q. induction p as [p IH|p IH|]; intros [|n] q; cbn [pos_chars]; try apply IH;
    [rewrite digits_pos_cons, IH; apply char_onto_char..| |]; apply char_onto_char.
Qed.

Lemma digits_pos_digits p : digits_pos (pos_digits p) = Some p.
Proof. apply digits_pos_chars. Qed.

Definition toy_json A `{Countable A} : Json A := {|
  to_vec a := pos_digits (encode a);
  to_vec_pretty a := pos_digits (encode a);
  from_slice l := ok_or (digits_pos l ≫= decode) "bad json"%string;
|}.

Lemma toy_json_laws A `{Countable A} : @JsonLaws A (toy_json A).
Proof.
  constructor; intros a; simpl; by rewrite digits_pos_digits; simpl; rewrite decode_encode.
Qed.

Definition toy_os : Os := {|
  os_missing := "No such file"; os_debug := id; os_write := fun _ data => Ok data; os_failed := fun _ _ => None |}.

#[export] Instance JobManifest_eq_dec : EqDecision JobManifest.
Proof. solve_decision. Defined.

#[export] Instance JobManifest_countable : Countable JobManifest.
Proof.
  refine (inj_countable'
    (fun m => (schema m, m_id m, m_name m, isa m, format m, toolchain m, m_chunk_size m,
               m_max_instructions m, verification_class m, elf m, input m))
    (fun '(a, b, c, d, e, f, g, h, i, j, k) => mkManifest a b c d e f g h i j k) _).
  by intros [].
Defined.

Definition demo_manifest : JobManifest := {|
  schema := 1; m_id := "demo"; m_name := "demo"; isa := "rv64imc"; format := None;
  toolchain := "t"; m_chunk_size := 2; m_max_instructions := 100; verification_class := "a";
  elf := "program.elf"; input := "input.bin" |}.

Definition demo_result : WorkerResult := {|
  worker_id := "w"; job_id := "j"; r_status := "halted"; r_instructions := 7;
  result_hash := "aa"; r_chunk_hashes := ["aa"; "bb"]%string; output_hex := Some "cc"%string;
  trap := None; pubkey_hex := Some "pk"%string; sig_hex := None |}.

(** The same signed fields under another key: the key is not part of the message. *)
Definition demo_result' : WorkerResult := {|
  worker_id := "w"; job_id := "j"; r_status := "halted"; r_instructions := 7;
  result_hash := "aa"; r_chunk_hashes := ["aa"; "bb"]%string; output_hex := Some "cc"%string;
  trap := Some ""%string; pubkey_hex := None; sig_hex := Some "sig"%string |}.

Lemma signing_message_binds_witness : same_signed demo_result demo_result'.
Proof.
  apply signing_message_binds; [..|reflexivity]; unfold signable, short; split_and!;
    repeat constructor; vm_compute; reflexivity || discriminate.
Defined.

Lemma confined_name_spec_witness :
  confined_name id "program.elf" = Ok tt /\ exists p, confined "a/." p.
Proof.
  split; apply (confined_name_spec id); [|reflexivity].
  apply (bool_decide_unpack _). vm_compute. exact I.
Defined.

Lemma save_load_roundtrip_witness :
  exists d', @save_dir toy_os (toy_json _) demo_manifest [1; 2] [3] ∅ = (Ok tt, d') /\
    @load_dir toy_os (toy_json _) "jobs" d' =
      Ok {| manifest := demo_manifest; dir := "jobs"; job_elf := [1; 2]; job_input := [3] |}.
Proof.
  apply (@save_load_roundtrip toy_os (toy_json _) (toy_json_laws _)); [|done..].
  unfold names_ok. split_and!; try done; apply (bool_decide_unpack _); vm_compute; exact I.
Defined.

Lemma journal_digest_binds_witness :
  journal_output (journal 6 [1; 2]) = [1; 2] /\
  ((6 = 6 /\ [1; 2] = [1; 2]) \/ collision (@sha256 toy_sha256) (journal 6 [1; 2]) (journal 6 [1; 2])).
Proof.
  destruct (@journal_digest_binds toy_sha256 6 [1; 2] 6 [1; 2]) as [Ho Hd]; [done|done|].
  split; [exact Ho|apply Hd; reflexivity].
Defined.
