(* ===== verification/ContentStore.v ===== *)
(** * The content-addressed store (crates/contentstore/src/lib.rs)

    Blobs are addressed by their BLAKE3 hash and verified on every read; a job descriptor
    lists the three hashes that reconstruct a job directory anywhere. *)

From S2P Require Import Prelude Text Cpu JobFmt.

(** [ContentId]: the 32 bytes of a hash. *)
Abbreviation ContentId := (list Z).

(** [ContentId::from_hex]: slices the string at byte offsets, so a 64-byte string with a
    multi-byte character across an even offset panics. *)
Definition cid_from_hex (s : string) : outcome string ContentId :=
  if negb (str_len s =? 64) then Err ("content id: bad length " +:+ pretty (str_len s))%string
  else
    mapM (fun i => b ← str_slice s (i * 2) (i * 2 + 2);
                   map_err (fun e => "content id: bad hex: " +:+ e)%string (from_str_radix16 b))
      (seqZ 0 32).

Definition to_hex (id : ContentId) : string := hex id.

Record JobDescriptor : Type := mkDesc {
  d_job_id : string;
  d_manifest : string;
  d_elf : string;
  d_input : string;
}.

(** The files under [root/blobs], by prefix directory and file name. *)
Abbreviation Store := (gmap (string * string) (list Z)).

Definition store_err {A} (r : outcome string A) : outcome string A :=
  map_err (fun e => "store: " +:+ e)%string r.

Section Store.
Context `{Blake3} `{Os}.

Definition from_data (data : list Z) : ContentId := blake3 data.

Definition blob_path (id : ContentId) : string * string :=
  (from_bytes (take 2 (as_bytes (to_hex id))), to_hex id).

(** A blob is written only when its path does not exist yet, then read back; a write that
    fails can leave a partial file under the name of the whole blob. *)
Definition put_blob (data : list Z) : M Store string ContentId := fun st =>
  let id := from_data data in
  let path := blob_path id in
  match st !! path with
  | Some _ => (Ok id, st)
  | None =>
      match store_err (os_write path.2 data) with
      | Err e => (Err e, failed_write path path.2 data st)
      | Panic => (Panic, st)
      | Ok stored =>
          let st' := <[path := stored]> st in
          if bool_decide (from_data stored = id) then (Ok id, st')
          else (Err "store: written blob failed self-verification"%string, st')
      end
  end.

Definition get_blob (st : Store) (id : ContentId) : outcome string (list Z) :=
  data ← store_err (ok_or (st !! blob_path id) os_missing);
  if negb (bool_decide (from_data data = id)) then
    Err ("store: blob " +:+ to_hex id +:+ " failed integrity check (corrupted or tampered)")%string
  else mret data.

Definition has (st : Store) (id : ContentId) : outcome string bool :=
  Ok (bool_decide (is_Some (st !! blob_path id))).

(** [verify_all] over the files in the order the directory listing gives them; [show] is
    the displayed path of a file. *)
Fixpoint verify_files (show : string * string -> string) (files : list ((string * string) * list Z))
    (count : Z) : outcome string Z :=
  match files with
  | [] => Ok count
  | (path, data) :: rest =>
      if negb (bool_decide (path.2 = to_hex (from_data data))) then
        Err ("store: blob at " +:+ show path +:+ " does not match its content hash")%string
      else verify_files show rest (count + 1)
  end.

(** ** Publishing and materialising jobs *)

Context `{Json JobManifest}.

Definition tagged {A} (tag : string) (r : outcome string A) : outcome string A :=
  map_err (fun e => tag +:+ ": " +:+ e)%string r.

Definition tagged_m {S A} (tag : string) (k : M S string A) : M S string A := fun s =>
  let '(r, s') := k s in (tagged tag r, s').

(** [publish]: [rd] reads a path relative to the job directory. *)
Definition publish (rd : string -> outcome string (list Z)) : M Store string JobDescriptor :=
  manifest_bytes ← lift (tagged "publish" (rd "job.json"%string));
  m ← lift (tagged "publish" (from_slice (A := JobManifest) manifest_bytes));
  e ← lift (tagged "publish" (rd (elf m)));
  i ← lift (tagged "publish" (rd (input m)));
  mid ← put_blob manifest_bytes;
  eid ← put_blob e;
  iid ← put_blob i;
  mret {| d_job_id := m_id m; d_manifest := to_hex mid; d_elf := to_hex eid; d_input := to_hex iid |}.

(** [materialize] writes into the output directory, whose state it threads. *)
Definition materialize (desc : JobDescriptor) (st : Store) : M Dir string unit :=
  mid ← lift (cid_from_hex (d_manifest desc));
  manifest_bytes ← lift (get_blob st mid);
  m ← lift (tagged "materialize" (from_slice (A := JobManifest) manifest_bytes));
  _ ← lift (confined_name os_debug (elf m));
  _ ← lift (confined_name os_debug (input m));
  eid ← lift (cid_from_hex (d_elf desc));
  e ← lift (get_blob st eid);
  iid ← lift (cid_from_hex (d_input desc));
  i ← lift (get_blob st iid);
  _ ← tagged_m "materialize" (fs_write "job.json" manifest_bytes);
  _ ← tagged_m "materialize" (fs_write (elf m) e);
  _ ← tagged_m "materialize" (fs_write (input m) i);
  mret tt.

Definition descriptor_id `{Json JobDescriptor} (desc : JobDescriptor) : outcome string ContentId :=
  Ok (from_data (to_vec desc)).
End Store.

(** ** Hexadecimal identifiers *)

(** The bytes of a lowercase hexadecimal string are ASCII, so every offset is a character
    boundary. *)
Lemma hex_bytes_ascii l : Forall is_byte l -> Forall (fun c => 48 <= c < 103) (hex_bytes l).
Proof.
  unfold hex_bytes. induction 1 as [|b l Hb _ IH]; [constructor|]. rewrite fmap_cons, concat_cons.
  destruct (byte_nibbles b Hb) as (?&?&_). apply Forall_app. split; [|done].
  repeat constructor; unfold hex_nibble; case_match; bools; lia.
Qed.

Lemma ascii_boundary s i :
  Forall (fun c => 48 <= c < 103) (as_bytes s) -> 0 <= i <= str_len s -> is_char_boundary s i = true.
Proof.
  intros Ha Hi. unfold is_char_boundary. destruct (Z.eqb_spec i (str_len s)); [by rewrite orb_true_r|].
  destruct (lookup_lt_is_Some_2 (as_bytes s) (Z.to_nat i)) as [b Hb]; [unfold str_len in *; lia|].
  rewrite Hb. rewrite (proj2 (Z.ltb_lt _ _)) by lia.
  rewrite Forall_lookup in Ha. pose proof (Ha _ _ Hb).
  assert (b .& 0xc0 <> 0x80) as Hc.
  { intros Heq. assert (Z.testbit (b .& 0xc0) 7 = true) as Ht by (by rewrite Heq).
    rewrite Z.land_spec in Ht. apply andb_true_iff in Ht as [Ht _].
    rewrite (proj1 (is_u_testbit 7 b ltac:(lia)) ltac:(split; lia) 7) in Ht by lia. done. }
  rewrite (proj2 (Z.eqb_neq _ _) Hc). by rewrite orb_true_r.
Qed.

Lemma str_slice_hex {E} l k r i :
  Forall is_byte l -> hex_bytes l = k ++ r -> length k = (2 * i)%nat -> (2 <= length r)%nat ->
  str_slice (E := E) (hex l) (Z.of_nat i * 2) (Z.of_nat i * 2 + 2) = Ok (from_bytes (take 2 r)).
Proof.
  intros Hl Hk Hi Hr. unfold str_slice.
  pose proof (as_bytes_hex l Hl) as Ha.
  assert (Forall (fun c => 48 <= c < 103) (as_bytes (hex l))) as Hasc
    by (rewrite Ha; by apply hex_bytes_ascii).
  assert (str_len (hex l) = Z.of_nat (length k + length r)) as Hlen
    by (unfold str_len; by rewrite Ha, Hk, length_app).
  rewrite Ha, Hk. unfold slice_get. rewrite length_app, !(proj2 (Z.leb_le _ _)) by lia. simpl.
  rewrite !ascii_boundary by (done || lia). simpl. do 2 f_equal.
  rewrite drop_app_ge by lia. replace (Z.to_nat (Z.of_nat i * 2) - length k)%nat with 0%nat by lia.
  by replace (Z.to_nat (Z.of_nat i * 2 + 2 - Z.of_nat i * 2)) with 2%nat by lia.
Qed.

Lemma radix16_byte b : is_byte b -> from_str_radix16 (from_bytes [hex_nibble (b / 16); hex_nibble (b mod 16)]) = Ok b.
Proof.
  intros Hb. destruct (byte_nibbles b Hb) as (Hh & Hl & Heq). unfold from_str_radix16.
  rewrite as_from_bytes by (repeat constructor; unfold hex_nibble, is_u; case_match; bools; lia).
  assert (hex_nibble (b / 16) <> 43) as Hn by (unfold hex_nibble; case_match; bools; lia).
  assert (radix16 [hex_nibble (b / 16); hex_nibble (b mod 16)] 0 = Ok b) as Hr.
  { cbn [radix16]. rewrite !nibble_val_hex by done. destruct Hb as [Hb1 Hb2]. change (2 ^ 8) with 256 in Hb2.
    rewrite !(proj2 (Z.ltb_ge _ _)) by lia. f_equal. lia. }
  rewrite bool_decide_false by done. simpl andb. cbv iota. by rewrite (proj2 (Z.eqb_neq _ _) Hn).
Qed.

Lemma cid_from_hex_hex id :
  length id = 32%nat -> Forall is_byte id -> cid_from_hex (hex id) = Ok id.
Proof.
  intros Hlen Hb. unfold cid_from_hex. rewrite str_len_hex, Hlen by done. simpl negb. cbv iota.
  assert (forall j t k, Forall is_byte t -> hex_bytes id = k ++ hex_bytes t -> length k = (2 * j)%nat ->
    mapM (fun i => b ← str_slice (hex id) (i * 2) (i * 2 + 2);
                   map_err (fun e => "content id: bad hex: " +:+ e)%string (from_str_radix16 b))
      (seqZ (Z.of_nat j) (Z.of_nat (length t))) = Ok t) as Hgen.
  { intros j t k Ht. revert j k. induction Ht as [|b t Hbb Ht IH]; intros j k Hk Hj; [done|].
    cbn [length]. rewrite seqZ_S_cons. unfold hex_bytes at 2 in Hk. rewrite fmap_cons, concat_cons in Hk.
    fold (hex_bytes t) in Hk. apply mapM_cons_ok.
    - rewrite (str_slice_hex id k _ j Hb Hk Hj) by (rewrite length_app; simpl; lia).
      change (take 2 _) with [hex_nibble (b / 16); hex_nibble (b mod 16)].
      unfold mbind, outcome_bind. by rewrite radix16_byte.
    - replace (Z.of_nat j + 1) with (Z.of_nat (S j)) by lia.
      apply (IH (S j) (k ++ [hex_nibble (b / 16); hex_nibble (b mod 16)])).
      + by rewrite <- app_assoc.
      + rewrite length_app. simpl. lia. }
  specialize (Hgen 0%nat id [] Hb eq_refl eq_refl). by rewrite Hlen in Hgen.
Qed.

(** ** Store invariant *)

Section Facts.
Context `{Blake3} `{Os} `{Json JobManifest}.

(** Every file is named by the hash of its content, in the directory of its prefix. *)
Definition store_ok (st : Store) : Prop :=
  forall path data, st !! path = Some data -> path = blob_path (from_data data).

Lemma blob_path_inj a b :
  Forall is_byte a -> Forall is_byte b -> blob_path a = blob_path b -> a = b.
Proof. intros Ha Hb [= _ Heq]. by apply hex_inj. Qed.

Lemma put_blob_ok data st id st' :
  put_blob data st = (Ok id, st') ->
  id = from_data data /\ (store_ok st -> store_ok st') /\
  (forall p d, st !! p = Some d -> st' !! p = Some d) /\
  exists d, st' !! blob_path id = Some d /\ (st !! blob_path id = None -> from_data d = id).
Proof.
  unfold put_blob. destruct (st !! blob_path (from_data data)) as [d|] eqn:Hp.
  - intros [= <- <-]. split_and!; try done. exists d. by rewrite Hp.
  - destruct (store_err _) as [stored|?|]; try done. case_match eqn:Hv; [|done]. bools.
    intros [= <- <-]. split_and!; try done.
    + intros Hok p d. destruct (decide (p = blob_path (from_data data))) as [->|Hne].
      * rewrite lookup_insert_eq. intros [= <-]. by rewrite Hv.
      * rewrite lookup_insert_ne by done. apply Hok.
    + intros p d Hd. rewrite lookup_insert_ne; [done|]. congruence.
    + exists stored. by rewrite lookup_insert_eq.
Qed.

(** Whatever becomes of a put, it touches nothing but the path of its data, and that only when
    there is no file yet. *)
Lemma put_blob_frame data st p :
  (put_blob data st).2 !! p <> st !! p -> p = blob_path (from_data data) /\ st !! p = None.
Proof.
  unfold put_blob. destruct (st !! blob_path (from_data data)) as [d|] eqn:Hp; [done|].
  destruct (decide (p = blob_path (from_data data))) as [->|Hne]; [done|].
  destruct (store_err _) as [stored|?|]; [case_match| |done]; simpl; unfold failed_write; repeat case_match;
    by rewrite ?lookup_insert_ne by done.
Qed.

(** A disk on which a write stores the data or nothing. *)
Definition whole_writes : Prop := forall name data,
  match os_write name data with Ok stored => stored = data | _ => os_failed name data = None end.

(** On such a disk even a failing put keeps the store consistent. *)
Lemma put_blob_whole data st : whole_writes -> store_ok st -> store_ok (put_blob data st).2.
Proof.
  intros Hw Hok. unfold put_blob. destruct (st !! blob_path (from_data data)) as [d|]; [done|].
  specialize (Hw (blob_path (from_data data)).2 data). unfold store_err.
  destruct (os_write _ data) as [stored|?|]; simpl; [subst; rewrite bool_decide_true by done| |done].
  - simpl. intros p d. destruct (decide (p = blob_path (from_data data))) as [->|Hne].
    + rewrite lookup_insert_eq. by intros [= <-].
    + rewrite lookup_insert_ne by done. apply Hok.
  - unfold failed_write. simpl in Hw. by rewrite Hw.
Qed.

Lemma get_blob_hash st id d : get_blob st id = Ok d -> from_data d = id.
Proof.
  unfold get_blob. destruct (st !! blob_path id) as [d'|]; [|done]. simpl.
  case_match eqn:Hv; [done|]. bools. by intros [= <-].
Qed.

Lemma get_blob_stored st id d :
  store_ok st -> st !! blob_path id = Some d -> Forall is_byte id -> get_blob st id = Ok d.
Proof.
  intros Hok Hd Hid. unfold get_blob. rewrite Hd. simpl.
  apply Hok, blob_path_inj in Hd; [|done|apply blake3_byte]. by rewrite bool_decide_true.
Qed.

Lemma verify_files_spec show files n :
  (Forall (fun f => f.1.2 = to_hex (from_data f.2)) files ->
     verify_files show files n = Ok (n + Z.of_nat (length files))) /\
  (forall k, verify_files show files n = Ok k ->
     Forall (fun f => f.1.2 = to_hex (from_data f.2)) files /\ k = n + Z.of_nat (length files)) /\
  verify_files show files n <> Panic.
Proof.
  revert n. induction files as [|[path d] files IH]; intros n; cbn [verify_files].
  - simpl. split_and!; [intros _; f_equal; lia|intros k [= <-]; split; [done|lia]|done].
  - destruct (IH (n + 1)) as (IH1 & IH2 & IH3). simpl length. split_and!.
    + intros [Hf Hr]%Forall_cons. simpl in Hf. rewrite bool_decide_true by done. simpl.
      rewrite IH1 by done. f_equal. lia.
    + intros k. case_match eqn:Hv; [done|]. bools. intros [Hr ->]%IH2.
      split; [by constructor|lia].
    + by case_match.
Qed.

(** ** Publishing, then materialising *)

(** Blobs at hand have distinct hashes. *)
Definition inj_on (S : list (list Z)) : Prop :=
  forall x y, x ∈ S -> y ∈ S -> blake3 x = blake3 y -> x = y.

(** On a working disk a put succeeds, and the blob is then served, exactly. *)
Lemma put_get data st S :
  store_ok st -> (forall name d, os_write name d = Ok d) -> inj_on S ->
  data ∈ S -> (forall p d, st !! p = Some d -> d ∈ S) ->
  exists st', put_blob data st = (Ok (from_data data), st') /\ store_ok st' /\
    (forall p d, st' !! p = Some d -> d ∈ S) /\
    (forall p d, st !! p = Some d -> st' !! p = Some d) /\
    st' !! blob_path (from_data data) = Some data.
Proof.
  intros Hok Hw Hinj Hin Hst. unfold put_blob, store_err. rewrite Hw. simpl.
  destruct (st !! blob_path (from_data data)) as [d|] eqn:Hd.
  - exists st. split_and!; try done. rewrite Hd. f_equal.
    pose proof (Hok _ _ Hd) as Hp. apply blob_path_inj in Hp; [|apply blake3_byte..].
    symmetry. apply Hinj; [done|by eapply Hst|done].
  - rewrite bool_decide_true by done. eexists. split; [done|]. split_and!.
    + intros p d. destruct (decide (p = blob_path (from_data data))) as [->|Hne].
      * rewrite lookup_insert_eq. by intros [= <-].
      * rewrite lookup_insert_ne by done. apply Hok.
    + intros p d. destruct (decide (p = blob_path (from_data data))) as [->|Hne].
      * rewrite lookup_insert_eq. by intros [= <-].
      * rewrite lookup_insert_ne by done. apply Hst.
    + intros p d Hpd. rewrite lookup_insert_ne; [done|]. congruence.
    + by rewrite lookup_insert_eq.
Qed.

Lemma from_data_cid d : cid_from_hex (to_hex (from_data d)) = Ok (from_data d).
Proof. apply cid_from_hex_hex; [apply blake3_len|apply blake3_byte]. Qed.

Lemma put_three x y z st S :
  store_ok st -> (forall name d, os_write name d = Ok d) -> inj_on S ->
  x ∈ S -> y ∈ S -> z ∈ S -> (forall p d, st !! p = Some d -> d ∈ S) ->
  exists st1 st2 st3, put_blob x st = (Ok (from_data x), st1) /\ put_blob y st1 = (Ok (from_data y), st2) /\
    put_blob z st2 = (Ok (from_data z), st3) /\ store_ok st3 /\ st3 !! blob_path (from_data x) = Some x /\
    st3 !! blob_path (from_data y) = Some y /\ st3 !! blob_path (from_data z) = Some z.
Proof.
  intros Hok Hw Hinj Hx Hy Hz Hst.
  destruct (put_get x st S) as (st1 & P1 & Ok1 & In1 & _ & L1); [done..|].
  destruct (put_get y st1 S) as (st2 & P2 & Ok2 & In2 & K2 & L2); [done..|].
  destruct (put_get z st2 S) as (st3 & P3 & Ok3 & In3 & K3 & L3); [done..|].
  exists st1, st2, st3. split_and!; auto.
Qed.

(** The descriptor of the job with these files. *)
Definition descriptor_of (m : JobManifest) (mb e i : list Z) : JobDescriptor :=
  {| d_job_id := m_id m; d_manifest := to_hex (from_data mb);
     d_elf := to_hex (from_data e); d_input := to_hex (from_data i) |}.

Lemma publish_ok (rd : string -> outcome string (list Z)) st m mb e i S :
  (forall name d, os_write name d = Ok d) -> store_ok st ->
  inj_on S -> mb ∈ S -> e ∈ S -> i ∈ S -> (forall p d, st !! p = Some d -> d ∈ S) ->
  rd "job.json"%string = Ok mb -> from_slice mb = Ok m -> rd (elf m) = Ok e -> rd (input m) = Ok i ->
  exists st', publish rd st = (Ok (descriptor_of m mb e i), st') /\ store_ok st' /\
    st' !! blob_path (from_data mb) = Some mb /\ st' !! blob_path (from_data e) = Some e /\
    st' !! blob_path (from_data i) = Some i.
Proof.
  intros Hw Hok Hinj Hmb He Hi Hst Hrj Hm Hre Hri.
  destruct (put_three mb e i st S) as (st1 & st2 & st3 & P1 & P2 & P3 & L); [done..|]. exists st3. split; [|done].
  unfold publish, mbind, M_bind, lift, tagged. rewrite Hrj. simpl. rewrite Hm. simpl.
  rewrite Hre. simpl. rewrite Hri. simpl. by rewrite P1, P2, P3.
Qed.

Lemma materialize_ok desc st d m mb e i :
  (forall name x, os_write name x = Ok x) -> store_ok st -> names_ok m ->
  from_slice mb = Ok m ->
  d_manifest desc = to_hex (from_data mb) -> d_elf desc = to_hex (from_data e) ->
  d_input desc = to_hex (from_data i) ->
  st !! blob_path (from_data mb) = Some mb -> st !! blob_path (from_data e) = Some e ->
  st !! blob_path (from_data i) = Some i ->
  materialize desc st d = (Ok tt, <[input m := i]> (<[elf m := e]> (<["job.json"%string := mb]> d))).
Proof.
  intros Hw Hok Hn Hm Dm De Di Hmb He Hi. pose proof Hn as (Hne & Hni & _).
  unfold materialize, mbind, M_bind, lift. rewrite Dm, De, Di, !from_data_cid.
  rewrite (get_blob_stored st (from_data mb) mb), Hm by (done || apply blake3_byte). simpl.
  rewrite !confined_name_complete by done.
  rewrite (get_blob_stored st (from_data e) e), (get_blob_stored st (from_data i) i) by (done || apply blake3_byte).
  unfold tagged_m. by rewrite !fs_write_plain by (done || apply plain_job_json).
Qed.
End Facts.

(** C36. Integrity of the store, whatever the disk does: a blob served for the hash of
    [data] is [data] itself, or the two are an explicit BLAKE3 collision; a put, also a failing
    one, changes nothing but the path of its own data, and only when there was no file; a
    successful put returns the hash of its data, keeps a consistent store consistent, and a
    blob it wrote itself hashes to its name. *)
Theorem store_integrity `{Blake3} `{Os} data st :
  (forall d, get_blob st (from_data data) = Ok d -> d = data \/ collision blake3 d data) /\
  (forall p, (put_blob data st).2 !! p <> st !! p -> p = blob_path (from_data data) /\ st !! p = None) /\
  (forall id st', put_blob data st = (Ok id, st') ->
     id = from_data data /\ (store_ok st -> store_ok st') /\
     (forall p d, st !! p = Some d -> st' !! p = Some d) /\
     exists d, st' !! blob_path id = Some d /\ (st !! blob_path id = None -> from_data d = id)).
Proof.
  split_and!.
  - intros d Hd. apply get_blob_hash in Hd. destruct (decide (d = data)); [by left|right; done].
  - apply put_blob_frame.
  - apply put_blob_ok.
Qed.

(** Distribution round trip: on a working disk and a consistent store, publishing a job
    directory succeeds, materialising the descriptor into any directory succeeds, and the
    result loads as the same job: same manifest, program and input. *)
Theorem publish_materialize_roundtrip `{Blake3} `{Os} `{Json JobManifest}
    (rd : string -> outcome string (list Z)) st out path m mb e i S :
  (forall name d, os_write name d = Ok d) -> store_ok st ->
  inj_on S -> mb ∈ S -> e ∈ S -> i ∈ S -> (forall p d, st !! p = Some d -> d ∈ S) ->
  rd "job.json"%string = Ok mb -> from_slice mb = Ok m -> rd (elf m) = Ok e -> rd (input m) = Ok i ->
  names_ok m -> schema m = SCHEMA -> isa m = ISA ->
  exists desc st' out', publish rd st = (Ok desc, st') /\ d_job_id desc = m_id m /\
    materialize desc st' out = (Ok tt, out') /\
    load_dir path out' = Ok {| manifest := m; dir := path; job_elf := e; job_input := i |}.
Proof.
  intros Hw Hok Hinj Hmb He Hi Hst Hrj Hm Hre Hri Hn Hs Hisa.
  destruct (publish_ok rd st m mb e i S) as (st' & Hp & Hok' & Lm & Le & Li); [done..|].
  exists (descriptor_of m mb e i), st'. eexists. split_and!; [done|done|by eapply materialize_ok; eauto|].
  - pose proof Hn as (_ & _ & ? & ? & ?). apply (load_dir_bytes path _ m mb e i); try done.
    + by do 2 (rewrite lookup_insert_ne by done); rewrite lookup_insert_eq.
    + by rewrite lookup_insert_ne, lookup_insert_eq by done.
    + by rewrite lookup_insert_eq.
Qed.

(** An identifier string from the wire can panic [ContentId::from_hex]: 64 bytes with a
    two-byte character across an even offset. *)
Lemma cid_from_hex_panics :
  exists s, str_len s = 64 /\ cid_from_hex s = Panic.
Proof.
  exists (from_bytes ([0x61; 0xc3; 0xa9] ++ replicate 61 0x61)). split; vm_compute; reflexivity.
Qed.

(** ... and strings with plus signs are accepted as identifiers. *)
Lemma cid_from_hex_plus :
  cid_from_hex (from_bytes (concat (replicate 32 [0x2b; 0x66]))) = Ok (replicate 32 15).
Proof. vm_compute. reflexivity. Qed.

(** A put whose write fails after a part of the data poisons the id: the file exists, so that
    every later put of the blob reports success and every read fails, also on a disk that
    works again. *)
Lemma failed_put_poisons `{Blake3} (os : Os) data part st e :
  os_write (blob_path (from_data data)).2 data = Err e -> os_failed (blob_path (from_data data)).2 data = Some part ->
  st !! blob_path (from_data data) = None -> from_data part <> from_data data ->
  let st' := (put_blob data st).2 in
  forall os' : Os, put_blob (H0 := os') data st' = (Ok (from_data data), st') /\
    (forall d, get_blob (H0 := os') st' (from_data data) <> Ok d) /\ has st' (from_data data) = Ok true.
Proof.
  intros Hw Hp Hn Hne st' os'.
  assert (st' !! blob_path (from_data data) = Some part) as Hl.
  { unfold st', put_blob, store_err. rewrite Hn, Hw. simpl. unfold failed_write. simpl in Hp. rewrite Hp. apply lookup_insert_eq. }
  split_and!.
  - unfold put_blob. by rewrite Hl.
  - intros d. unfold get_blob. rewrite Hl. simpl. by rewrite bool_decide_false.
  - unfold has. rewrite bool_decide_true; [done|]. by rewrite Hl.
Qed.

(** ** Concrete instances *)

Definition demo_mb : list Z := @to_vec_pretty _ (toy_json JobManifest) demo_manifest.

(** The job directory of [demo_manifest]. *)
Definition demo_rd (name : string) : outcome string (list Z) :=
  if bool_decide (name = "job.json"%string) then Ok demo_mb
  else if bool_decide (name = "program.elf"%string) then Ok [1; 2]
  else if bool_decide (name = "input.bin"%string) then Ok [3]
  else Err "No such file"%string.

Lemma publish_materialize_roundtrip_witness :
  exists desc st' out', @publish toy_blake3 toy_os (toy_json _) demo_rd ∅ = (Ok desc, st') /\
    d_job_id desc = "demo"%string /\
    @materialize toy_blake3 toy_os (toy_json _) desc st' ∅ = (Ok tt, out') /\
    @load_dir toy_os (toy_json _) "jobs" out' =
      Ok {| manifest := demo_manifest; dir := "jobs"; job_elf := [1; 2]; job_input := [3] |}.
Proof.
  apply (@publish_materialize_roundtrip toy_blake3 toy_os (toy_json _) demo_rd ∅ ∅ "jobs" demo_manifest
    demo_mb [1; 2] [3] [demo_mb; [1; 2]; [3]]); try reflexivity.
  - intros p d. by rewrite lookup_empty.
  - intros x y Hx Hy Heq. set_unfold.
    destruct Hx as [->|[->|[->|[]]]], Hy as [->|[->|[->|[]]]]; try reflexivity;
      vm_compute in Heq; discriminate Heq.
  - by left.
  - by right; left.
  - by right; right; left.
  - intros p d. by rewrite lookup_empty.
  - unfold names_ok. split_and!; try done; apply (bool_decide_unpack _); vm_compute; exact I.
Defined.

(** A disk that corrupts every write: the put is refused, and nothing is served. *)
Definition bad_os : Os := {|
  os_missing := "No such file"; os_debug := id; os_write := fun _ _ => Ok [0]; os_failed := fun _ _ => None |}.

Lemma store_integrity_witness :
  let st := (@put_blob toy_blake3 toy_os [5; 6] ∅).2 in
  (exists d, @get_blob toy_blake3 toy_os st (@from_data toy_blake3 [5; 6]) = Ok d /\
     (d = [5; 6] \/ collision (@blake3 toy_blake3) d [5; 6])) /\
  match @put_blob toy_blake3 bad_os [5; 6] ∅ with
  | (Err _, st') => ~ is_Some (ok (@get_blob toy_blake3 bad_os st' (@from_data toy_blake3 [5; 6])))
  | _ => False
  end.
Proof.
  split.
  - exists [5; 6]. split; [reflexivity|].
    apply (@store_integrity toy_blake3 toy_os [5; 6] (@put_blob toy_blake3 toy_os [5; 6] ∅).2).
    reflexivity.
  - vm_compute. by intros [? [=]].
Defined.
