(* ===== verification/Wire.v ===== *)
(** * The wire protocol (crates/wire/src/lib.rs)

    Length-prefixed JSON frames over a byte stream, the message types, and the admission
    proof of work.  A stream under read is the sequence of what successive [read] calls
    find: bytes, a would-block, or an error. *)

From S2P Require Import Prelude Text JobFmt ContentStore.

Definition MAX_FRAME : Z := 64 * 2 ^ 20.

Inductive WireError : Type :=
  | Io (e : string)
  | Malformed (s : string)
  | ConnectionClosed.

(** ** Messages *)

Inductive ClientToServer : Type :=
  | Hello (h_pubkey_hex h_worker_id : string) (listen_port : option Z) (role : string)
  | NonceSignature (ns_sig_hex : option string) (pow_counter : Z)
  | BlobRequest (id_hex : string)
  | JobResult (result : WorkerResult)
  | JobSubmission (submitter : string) (descriptor : JobDescriptor) (js_pubkey_hex js_sig_hex : string)
      (require_zk : bool)
  | BlobUpload (id_hex bytes_hex : string)
  | ReceiptClaim (rc_worker_id rc_job_id rc_pubkey_hex rc_sig_hex receipt_hex : string).

Inductive ServerToClient : Type :=
  | Nonce (n_hex : string) (pow_bits : Z)
  | AuthOk (a_worker_id : string)
  | AuthFailed (reason : string)
  | JobAssignment (descriptor : JobDescriptor) (peer_hints : list string)
  | Blob (b_hex : option string)
  | BetweenJobs
  | ShutDown (reason : string)
  | JobOutcome (o_job_id hash : string) (agreed : list string) (o_output_hex : option string)
      (zk : bool) (rejected_reason : option string)
  | BlobAck (id_hex : string) (accepted : bool) (ack_reason : option string)
  | SubmissionAck (s_job_id : string) (accepted : bool) (ack_reason : option string) (proving : bool).

Inductive PeerToPeer : Type :=
  | PeerBlobRequest (id_hex : string)
  | PeerBlob (p_hex : option string).

(** ** Sending *)

(** A sink: whether it takes a chunk after what it already holds. *)
Class Sink : Type := {
  sink_write : list Z -> list Z -> outcome string unit;
  sink_flush : list Z -> outcome string unit;
}.

(** [stream.write_all(chunk).map_err(WireError::Io)?]; the state is the bytes sent. *)
Definition write_all `{Sink} (chunk : list Z) : M (list Z) WireError unit := fun sent =>
  match sink_write sent chunk with
  | Ok _ => (Ok tt, sent ++ chunk)
  | Err e => (Err (Io e), sent)
  | Panic => (Panic, sent)
  end.

Definition flush `{Sink} : M (list Z) WireError unit := fun sent =>
  (map_err Io (sink_flush sent), sent).

Definition send `{Sink} `{Json A} (msg : A) : M (list Z) WireError unit :=
  let json := to_vec msg in
  if MAX_FRAME <? Z.of_nat (length json) then
    Prelude.mfail (Malformed ("frame too large: " +:+ pretty (Z.of_nat (length json)) +:+ " bytes"))
  else
    _ ← write_all (le_bytes 4 (wrap 32 (Z.of_nat (length json))));
    _ ← write_all json;
    flush.

(** ** Receiving *)

(** What a [read] finds.  [Block idle stalled] is WouldBlock or TimedOut, with the state of
    the two clocks of the polled reader at that time: whether the idle period is over, and
    whether the 30-second deadline of the frame body has passed. *)
Inductive event : Type :=
  | Data (l : list Z)
  | Block (idle stalled : bool)
  | Fail (e : string).

Abbreviation stream := (list event).

(** What is left of a chunk after a read that did not take all of it. *)
Definition rest_of (l : list Z) (es : stream) : stream :=
  match l with [] => es | _ => Data l :: es end.

Inductive fill_result : Type :=
  | Filled (buf : list Z) (es : stream)
  | Idle (es : stream)
  | Broken (e : WireError) (es : stream).

(** The prefix loop of [receive_polled]: [need] bytes missing, [buf] read so far.  A read of
    zero bytes (end of stream) closes the connection. *)
Fixpoint fill_prefix (es : stream) (need : nat) (buf : list Z) : fill_result :=
  match need with
  | O => Filled buf es
  | S _ =>
      match es with
      | [] => Broken ConnectionClosed []
      | Data l :: es' =>
          match l with
          | [] => Broken ConnectionClosed es'
          | _ =>
              if (length l <? need)%nat then fill_prefix es' (need - length l) (buf ++ l)
              else Filled (buf ++ take need l) (rest_of (drop need l) es')
          end
      | Block idle _ :: es' =>
          if bool_decide (buf = []) && idle then Idle es' else fill_prefix es' need buf
      | Fail e :: es' => Broken (Io e) es'
      end
  end.

(** The loop of [read_frame_body]. *)
Fixpoint fill_body (es : stream) (need : nat) (buf : list Z) : fill_result :=
  match need with
  | O => Filled buf es
  | S _ =>
      match es with
      | [] => Broken ConnectionClosed []
      | Data l :: es' =>
          match l with
          | [] => Broken ConnectionClosed es'
          | _ =>
              if (length l <? need)%nat then fill_body es' (need - length l) (buf ++ l)
              else Filled (buf ++ take need l) (rest_of (drop need l) es')
          end
      | Block _ stalled :: es' =>
          if stalled then Broken (Io "frame body stalled") es' else fill_body es' need buf
      | Fail e :: es' => Broken (Io e) es'
      end
  end.

(** [read_exact]: end of stream and every error end it. *)
Inductive exact_result : Type :=
  | Exact (buf : list Z) (es : stream)
  | UnexpectedEof (es : stream)
  | OtherError (e : string) (es : stream).

Fixpoint read_exact (es : stream) (need : nat) (buf : list Z) : exact_result :=
  match need with
  | O => Exact buf es
  | S _ =>
      match es with
      | [] => UnexpectedEof []
      | Data l :: es' =>
          match l with
          | [] => UnexpectedEof es'
          | _ =>
              if (length l <? need)%nat then read_exact es' (need - length l) (buf ++ l)
              else Exact (buf ++ take need l) (rest_of (drop need l) es')
          end
      | Block _ _ :: es' => OtherError "Resource temporarily unavailable" es'
      | Fail e :: es' => OtherError e es'
      end
  end.

Definition too_long (len : Z) : WireError :=
  Malformed ("peer announced a " +:+ pretty len +:+ "-byte frame; limit is " +:+ pretty MAX_FRAME).

Section Receive.
Context {A : Type} `{Json A}.

Definition decode_frame (buf : list Z) : outcome WireError A := map_err Malformed (from_slice buf).

Definition read_frame_body (len : Z) : M stream WireError A := fun es =>
  if MAX_FRAME <? len then (Err (too_long len), es)
  else
    match fill_body es (Z.to_nat len) [] with
    | Filled buf es' => (decode_frame buf, es')
    | Broken e es' => (Err e, es')
    | Idle es' => (Panic, es')
    end.

Definition receive_polled : M stream WireError (option A) := fun es =>
  match fill_prefix es 4 [] with
  | Idle es' => (Ok None, es')
  | Broken e es' => (Err e, es')
  | Filled prefix es' => (m ← read_frame_body (le_val prefix); mret (Some m)) es'
  end.

Definition receive : M stream WireError A := fun es =>
  match read_exact es 4 [] with
  | UnexpectedEof es' => (Err ConnectionClosed, es')
  | OtherError e es' => (Err (Io e), es')
  | Exact len_buf es' =>
      let len := le_val len_buf in
      if MAX_FRAME <? len then (Err (too_long len), es')
      else
        match read_exact es' (Z.to_nat len) [] with
        | Exact buf es'' => (decode_frame buf, es'')
        | UnexpectedEof es'' => (Err (Io "failed to fill whole buffer"), es'')
        | OtherError e es'' => (Err (Io e), es'')
        end
  end.
End Receive.

(** ** Admission proof of work *)

Fixpoint leading_zero_bits (bytes : list Z) : Z :=
  match bytes with
  | [] => 0
  | b :: t => if b =? 0 then 8 + leading_zero_bits t else 7 - Z.log2 b
  end.

Definition verify_pow `{Blake3} (nonce : list Z) (counter bits : Z) : bool :=
  Z.min bits 256 <=? leading_zero_bits (blake3 (nonce ++ le_bytes 8 counter)).

(** The first of the [2^n] counters from [counter] on that passes: the lower half, then the
    upper half. *)
Fixpoint mine_range `{Blake3} (n : nat) (nonce : list Z) (bits counter : Z) : option Z :=
  match n with
  | O => if verify_pow nonce counter bits then Some counter else None
  | S n' =>
      match mine_range n' nonce bits counter with
      | Some c => Some c
      | None => mine_range n' nonce bits (counter + 2 ^ Z.of_nat n')
      end
  end.

(** The loop of [mine_pow] tries the [u64] counters from 0 on.  [None] when none of them
    passes: the loop then returns no counter, it goes round for ever, or panics where overflow
    is checked. *)
Definition mine_pow `{Blake3} (nonce : list Z) (bits : Z) : option Z := mine_range 64 nonce bits 0.

(** ** Streams *)

(** The bytes a stream still delivers. *)
Fixpoint stream_bytes (es : stream) : list Z :=
  match es with
  | [] => []
  | Data l :: t => l ++ stream_bytes t
  | _ :: t => stream_bytes t
  end.

(** A live stream: no failure, no read of zero bytes, and no frame body that stalls for its 30
    seconds.  Reads may come up empty, and idle periods may run out, at any point. *)
Definition live (es : stream) : Prop :=
  Forall (fun e => match e with Data l => l <> [] | Block _ stalled => stalled = false | Fail _ => False end) es.

(** A blocking stream: only bytes. *)
Definition blocking (es : stream) : Prop :=
  Forall (fun e => match e with Data l => l <> [] | _ => False end) es.

Lemma rest_of_bytes l es : stream_bytes (rest_of l es) = l ++ stream_bytes es.
Proof. by destruct l. Qed.

Lemma rest_of_live l es : live es -> live (rest_of l es).
Proof. intros Hl. destruct l; [done|]. by constructor. Qed.

Lemma rest_of_blocking l es : blocking es -> blocking (rest_of l es).
Proof. intros Hl. destruct l; [done|]. by constructor. Qed.

(** A chunk at the head of the wanted bytes: it is used up, or it holds all of them. *)
Lemma chunk_split (l t a r : list Z) :
  l ++ t = a ++ r ->
  (exists a', a = l ++ a' /\ t = a' ++ r /\ (length l < length a)%nat) \/
  ((length a <= length l)%nat /\ take (length a) l = a /\ drop (length a) l ++ t = r).
Proof.
  intros Heq. destruct (decide (length l < length a)%nat) as [Hlt|Hge].
  - left. exists (drop (length l) a).
    assert (l = take (length l) a) as Hl.
    { pose proof (f_equal (take (length l)) Heq) as Ht.
      by rewrite take_app_length, take_app_le in Ht by lia. }
    split_and!; [|apply (app_inv_head l)|done].
    + rewrite Hl at 1. by rewrite take_drop.
    + rewrite Heq, app_assoc. f_equal. rewrite Hl at 1. by rewrite take_drop.
  - right. split; [lia|]. assert (a = take (length a) l) as Ha.
    { pose proof (f_equal (take (length a)) Heq) as Ht.
      by rewrite take_app_length, take_app_le in Ht by lia. }
    split; [done|]. apply (app_inv_head a). rewrite <- Heq. rewrite Ha at 1.
    by rewrite app_assoc, take_drop.
Qed.

(** What is left after reading the wanted bytes [a] off a live stream. *)
Definition leaves (es es' : stream) (r : list Z) : Prop :=
  stream_bytes es' = r /\ live es' /\ (length es' <= length es)%nat.

Lemma leaves_rest l d es r :
  l <> [] -> live es -> d ++ stream_bytes es = r -> leaves (Data l :: es) (rest_of d es) r.
Proof.
  intros Hl Hlive Hr. split_and!; [by rewrite rest_of_bytes|by apply rest_of_live|]. destruct d; simpl; lia.
Qed.

Lemma leaves_cons ev es es' r : leaves es es' r -> leaves (ev :: es) es' r.
Proof. intros (? & ? & ?). split_and!; [done..|simpl; lia]. Qed.

(** The prefix loop gets its bytes, or reports idle before the first of them. *)
Lemma fill_prefix_live es a r buf :
  live es -> stream_bytes es = a ++ r ->
  (exists es', fill_prefix es (length a) buf = Filled (buf ++ a) es' /\ leaves es es' r) \/
  (buf = [] /\ exists es', fill_prefix es (length a) buf = Idle es' /\ leaves es es' (a ++ r) /\ (length es' < length es)%nat).
Proof.
  intros Hl. revert a buf. induction Hl as [|ev es He Hl IH]; intros a buf Hb.
  - simpl in Hb. symmetry in Hb. apply app_nil in Hb as [-> ->]. left. exists []. rewrite app_nil_r.
    unfold leaves; split_and!; [done|done|constructor|done].
  - destruct a as [|z a].
    { left. exists (ev :: es). rewrite app_nil_r. unfold leaves. split_and!; [by destruct es|done|by constructor|done]. }
    cbn [length fill_prefix]. change (S (length a)) with (length (z :: a)).
    destruct ev as [l|i st|e]; [|subst st|done].
    + destruct l as [|b l]; [done|]. cbn [stream_bytes] in Hb. left.
      destruct (chunk_split _ _ _ _ Hb) as [(a' & -> & Ht & Hlt)|(Hle & Hta & Hdr)].
      * rewrite (proj2 (Nat.ltb_lt _ _) Hlt).
        replace (length ((b :: l) ++ a') - length (b :: l))%nat with (length a') by (rewrite length_app; lia).
        rewrite app_assoc. destruct (IH a' (buf ++ b :: l) Ht) as [(es' & -> & Hes)|[Hn _]]; [|by destruct buf].
        exists es'. split; [done|by apply leaves_cons].
      * rewrite (proj2 (Nat.ltb_ge _ _) Hle), Hta. eexists. split; [done|by apply leaves_rest].
    + case_bool_decide as Hbuf; cbn [andb].
      * subst buf. destruct i; [right; split; [done|]; exists es; unfold leaves; split_and!; [done..|simpl; lia|simpl; lia]|].
        destruct (IH _ [] Hb) as [(es' & -> & Hes)|[_ (es' & -> & Hes & ?)]]; [left|right; split; [done|]];
          exists es'; split_and!; first [done|by apply leaves_cons|simpl; lia].
      * destruct (IH _ buf Hb) as [(es' & -> & Hes)|[? _]]; [left|done]. exists es'. split; [done|by apply leaves_cons].
Qed.

Lemma fill_body_live es a r buf :
  live es -> stream_bytes es = a ++ r ->
  exists es', fill_body es (length a) buf = Filled (buf ++ a) es' /\ leaves es es' r.
Proof.
  intros Hl. revert a buf. induction Hl as [|ev es He Hl IH]; intros a buf Hb.
  - simpl in Hb. symmetry in Hb. apply app_nil in Hb as [-> ->]. exists []. rewrite app_nil_r.
    unfold leaves; split_and!; [done|done|constructor|done].
  - destruct a as [|z a]; [exists (ev :: es); rewrite app_nil_r; unfold leaves; split_and!; [by destruct es|done|by constructor|done]|].
    cbn [length fill_body]. change (S (length a)) with (length (z :: a)).
    destruct ev as [l|i st|e]; [|subst st; destruct (IH _ buf Hb) as (es' & -> & Hes); exists es'; split; [done|by apply leaves_cons]|done].
    destruct l as [|b l]; [done|]. cbn [stream_bytes] in Hb.
    destruct (chunk_split _ _ _ _ Hb) as [(a' & -> & Ht & Hlt)|(Hle & Hta & Hdr)].
    + rewrite (proj2 (Nat.ltb_lt _ _) Hlt).
      replace (length ((b :: l) ++ a') - length (b :: l))%nat with (length a') by (rewrite length_app; lia).
      rewrite app_assoc. destruct (IH a' (buf ++ b :: l) Ht) as (es' & -> & Hes). exists es'. split; [done|by apply leaves_cons].
    + rewrite (proj2 (Nat.ltb_ge _ _) Hle), Hta. eexists. split; [done|by apply leaves_rest].
Qed.

Lemma read_exact_blocking es a r buf :
  blocking es -> stream_bytes es = a ++ r ->
  exists es', read_exact es (length a) buf = Exact (buf ++ a) es' /\ stream_bytes es' = r /\ blocking es'.
Proof.
  intros Hl. revert a buf. induction Hl as [|ev es He Hl IH]; intros a buf Hb.
  - simpl in Hb. symmetry in Hb. apply app_nil in Hb as [-> ->]. exists []. rewrite app_nil_r.
    split_and!; [done|done|constructor].
  - destruct a as [|z a]; [exists (ev :: es); rewrite app_nil_r; split_and!; [by destruct es|done|by constructor]|].
    cbn [length read_exact]. change (S (length a)) with (length (z :: a)).
    destruct ev as [l|i st|e]; [|done..].
    destruct l as [|b l]; [done|]. cbn [stream_bytes] in Hb.
    destruct (chunk_split _ _ _ _ Hb) as [(a' & -> & Ht & Hlt)|(Hle & Hta & Hdr)].
    + rewrite (proj2 (Nat.ltb_lt _ _) Hlt).
      replace (length ((b :: l) ++ a') - length (b :: l))%nat with (length a') by (rewrite length_app; lia).
      rewrite app_assoc. by apply IH.
    + rewrite (proj2 (Nat.ltb_ge _ _) Hle), Hta. eexists. split; [done|]. rewrite rest_of_bytes.
      split; [done|]. by apply rest_of_blocking.
Qed.

(** ** Framing *)

(** A sink that takes everything. *)
Definition open_sink `{Sink} : Prop :=
  (forall sent chunk, sink_write sent chunk = Ok tt) /\ (forall sent, sink_flush sent = Ok tt).

Section Frames.
Context `{Sink} {A : Type} `{JsonLaws A}.

Definition frame (msg : A) : list Z :=
  le_bytes 4 (Z.of_nat (length (to_vec msg))) ++ to_vec msg.

(** Messages whose encoding fits a frame. *)
Definition fits (msg : A) : Prop := Z.of_nat (length (to_vec msg)) <= MAX_FRAME.

Lemma send_ok msg sent : open_sink -> fits msg -> send msg sent = (Ok tt, sent ++ frame msg).
Proof.
  intros [Hw Hf] Hfit. unfold fits in Hfit. unfold send.
  rewrite (proj2 (Z.ltb_ge _ _)) by done.
  rewrite wrap_small by (unfold MAX_FRAME in Hfit; split; lia).
  unfold mbind, M_bind, write_all, flush. rewrite !Hw, Hf. simpl. unfold frame. by rewrite app_assoc.
Qed.

Lemma frame_len msg : fits msg -> le_val (le_bytes 4 (Z.of_nat (length (to_vec msg)))) = Z.of_nat (length (to_vec msg)).
Proof. intros Hf. apply le_val_le_bytes. unfold fits, MAX_FRAME in Hf. split; lia. Qed.

(** One poll of a stream with a message in it: the message, or idle with nothing lost. *)
Lemma receive_polled_frame msg es r :
  fits msg -> live es -> stream_bytes es = frame msg ++ r ->
  exists es', (receive_polled es = (Ok (Some msg), es') /\ leaves es es' r) \/
    (receive_polled es = (Ok None, es') /\ leaves es es' (frame msg ++ r) /\ (length es' < length es)%nat).
Proof.
  intros Hf Hl Hb. unfold frame in Hb |- *. rewrite <- app_assoc in Hb |- *. unfold receive_polled.
  pose proof (fill_prefix_live es _ _ [] Hl Hb) as Hp. rewrite length_le_bytes in Hp.
  destruct Hp as [(es1 & -> & Hb1 & Hl1 & Hn1)|[_ (es1 & -> & Hes & ?)]]; [|exists es1; by right].
  rewrite app_nil_l. unfold mbind, M_bind, read_frame_body.
  rewrite frame_len, (proj2 (Z.ltb_ge _ _)), Nat2Z.id by done.
  destruct (fill_body_live es1 _ _ [] Hl1 Hb1) as (es2 & -> & Hb2 & Hl2 & Hn2).
  unfold decode_frame. simpl. rewrite from_to_vec. simpl. exists es2. left. unfold leaves. split_and!; [done..|lia].
Qed.

Lemma receive_frame msg es r :
  fits msg -> blocking es -> stream_bytes es = frame msg ++ r ->
  exists es', receive es = (Ok msg, es') /\ stream_bytes es' = r /\ blocking es'.
Proof.
  intros Hf Hl Hb. unfold frame in Hb. rewrite <- app_assoc in Hb. unfold receive.
  destruct (read_exact_blocking es _ _ [] Hl Hb) as (es1 & Hp & Hb1 & Hl1).
  rewrite length_le_bytes in Hp. rewrite Hp, app_nil_l. cbv zeta.
  rewrite frame_len, (proj2 (Z.ltb_ge _ _)), Nat2Z.id by done.
  destruct (read_exact_blocking es1 _ _ [] Hl1 Hb1) as (es2 & -> & Hb2 & Hl2).
  unfold decode_frame. simpl. rewrite from_to_vec. by exists es2.
Qed.

(** A session: messages sent one after the other, and received one after the other. *)
Fixpoint send_all (msgs : list A) : M (list Z) WireError unit :=
  match msgs with
  | [] => mret tt
  | m :: t => _ ← send m; send_all t
  end.

Fixpoint poll_n (n : nat) : M stream WireError (list (option A)) :=
  match n with
  | O => mret []
  | S n' => m ← receive_polled; ms ← poll_n n'; mret (m :: ms)
  end.

Fixpoint receive_n (n : nat) : M stream WireError (list A) :=
  match n with
  | O => mret []
  | S n' => m ← receive; ms ← receive_n n'; mret (m :: ms)
  end.

Lemma send_all_ok msgs sent :
  open_sink -> Forall fits msgs -> send_all msgs sent = (Ok tt, sent ++ concat (frame <$> msgs)).
Proof.
  intros Ho Hf. revert sent. induction Hf as [|m msgs Hm _ IH]; intros sent; simpl; [by rewrite app_nil_r|].
  unfold mbind, M_bind. rewrite send_ok by done. by rewrite IH, <- app_assoc.
Qed.

(** Polling on, past the idle reports, gives every message of a live stream. *)
Lemma poll_n_frames msgs es r :
  Forall fits msgs -> live es -> stream_bytes es = concat (frame <$> msgs) ++ r ->
  exists n outs es', poll_n n es = (Ok outs, es') /\ omap id outs = msgs /\ stream_bytes es' = r /\
    (n <= length msgs + length es)%nat.
Proof.
  intros Hf. revert es. induction Hf as [|m msgs Hm _ IH]; [intros es _ Hb; exists 0%nat, [], es; split_and!; [done..|lia]|].
  intros es. induction es as [es IHes] using (induction_ltof1 _ (@length event)). unfold ltof in IHes. intros Hl Hb.
  rewrite fmap_cons, concat_cons, <- app_assoc in Hb.
  destruct (receive_polled_frame m es _ Hm Hl Hb) as (es1 & [(Hr1 & Hb1 & Hl1 & Hn1)|(Hr1 & (Hb1 & Hl1 & _) & Hn1)]).
  - destruct (IH es1 Hl1 Hb1) as (n & outs & es2 & Hr2 & Ho & Hb2 & Hn). exists (S n), (Some m :: outs), es2.
    cbn [poll_n]. unfold mbind, M_bind. rewrite Hr1, Hr2. csimpl. rewrite Ho. split_and!; [done..|lia].
  - destruct (IHes es1 Hn1 Hl1) as (n & outs & es2 & Hr2 & Ho & Hb2 & Hn).
    { by rewrite fmap_cons, concat_cons, <- app_assoc. }
    exists (S n), (None :: outs), es2. cbn [poll_n]. unfold mbind, M_bind. rewrite Hr1, Hr2. csimpl.
    split_and!; [done..|]. simpl in *. lia.
Qed.

Lemma receive_n_frames msgs es r :
  Forall fits msgs -> blocking es -> stream_bytes es = concat (frame <$> msgs) ++ r ->
  exists es', receive_n (length msgs) es = (Ok msgs, es') /\ stream_bytes es' = r /\ blocking es'.
Proof.
  intros Hf. revert es. induction Hf as [|m msgs Hm _ IH]; intros es Hl Hb; [by exists es|].
  rewrite fmap_cons, concat_cons, <- app_assoc in Hb.
  destruct (receive_frame m es _ Hm Hl Hb) as (es1 & Hr1 & Hb1 & Hl1).
  destruct (IH es1 Hl1 Hb1) as (es2 & Hr2 & Hb2 & Hl2). exists es2.
  cbn [length receive_n]. unfold mbind, M_bind. by rewrite Hr1, Hr2.
Qed.
End Frames.

(** ** Hostile peers *)

Lemma fill_prefix_idle es need buf es' :
  fill_prefix es need buf = Idle es' -> buf = [] /\ stream_bytes es' = stream_bytes es.
Proof.
  revert need buf. induction es as [|ev es IH]; intros [|need] buf; try done. cbn [fill_prefix].
  destruct ev as [l|i st|e]; [| |done].
  - destruct l as [|b l]; [done|]. case_match; [|done]. intros [Hbuf _]%IH. by destruct buf.
  - case_match eqn:Hc; [|apply IH]. bools. by intros [= <-].
Qed.

(** A live stream on which no idle period runs out either. *)
Definition prompt (es : stream) : Prop :=
  Forall (fun e => match e with Data l => l <> [] | Block idle stalled => idle = false /\ stalled = false | Fail _ => False end) es.

Lemma prompt_live es : prompt es -> live es.
Proof. intros Hp. eapply Forall_impl; [exact Hp|]. by intros [l|i st|e]; [|intros [_ ->]|]. Qed.

Lemma fill_prefix_prompt es need buf es' : prompt es -> fill_prefix es need buf <> Idle es'.
Proof.
  intros Hp. revert need buf. induction Hp as [|ev es Hev _ IH]; intros [|need] buf; try done. cbn [fill_prefix].
  destruct ev as [l|i st|e]; [| |done].
  - destruct l as [|b l]; [done|]. case_match; [apply IH|done].
  - destruct Hev as [-> _]. rewrite andb_false_r. apply IH.
Qed.

Lemma fill_body_not_idle es need buf es' : fill_body es need buf <> Idle es'.
Proof.
  revert need buf. induction es as [|ev es IH]; intros [|need] buf; try done. cbn [fill_body].
  destruct ev as [l|i st|e]; [| |done].
  - destruct l as [|b l]; [done|]. case_match; [apply IH|done].
  - case_match; [done|apply IH].
Qed.

(** ** The proof of work *)

(** The digest read as a big-endian number. *)
Fixpoint be_val (l : list Z) : Z :=
  match l with
  | [] => 0
  | b :: t => b * 2 ^ (8 * Z.of_nat (length t)) + be_val t
  end.

Lemma be_val_range l : Forall is_byte l -> 0 <= be_val l < 2 ^ (8 * Z.of_nat (length l)).
Proof.
  induction 1 as [|b l [Hb1 Hb2] _ IH]; [done|]. cbn [be_val length].
  change (2 ^ 8) with 256 in Hb2.
  replace (8 * Z.of_nat (S (length l))) with (8 + 8 * Z.of_nat (length l)) by lia.
  rewrite Z.pow_add_r by lia. change (2 ^ 8) with 256. nia.
Qed.

Lemma leading_zero_bits_spec l k :
  Forall is_byte l -> 0 <= k <= 8 * Z.of_nat (length l) ->
  k <= leading_zero_bits l <-> be_val l < 2 ^ (8 * Z.of_nat (length l) - k).
Proof.
  intros Hl. revert k. induction Hl as [|b l Hb Hl IH]; intros k Hk.
  - simpl in *. assert (k = 0) as -> by lia. simpl. lia.
  - cbn [leading_zero_bits be_val length] in *. pose proof (be_val_range l Hl) as Hr.
    set (n := 8 * Z.of_nat (length l)) in *.
    replace (8 * Z.of_nat (S (length l))) with (n + 8) in * by lia.
    destruct (Z.eqb_spec b 0) as [->|Hne].
    + rewrite Z.mul_0_l, Z.add_0_l. destruct (decide (k <= 8)) as [Hle|Hgt].
      * assert (2 ^ n <= 2 ^ (n + 8 - k)) by (apply Z.pow_le_mono_r; lia).
        assert (0 <= leading_zero_bits l) by (apply (IH 0); [lia|rewrite Z.sub_0_r; lia]). lia.
      * replace (n + 8 - k) with (n - (k - 8)) by lia. rewrite <- IH by lia. lia.
    + destruct Hb as [Hb1 Hb2]. pose proof (Z.log2_spec b ltac:(lia)) as [L1 L2].
      assert (0 <= Z.log2 b < 8) as Hlog by (split; [apply Z.log2_nonneg|apply Z.log2_lt_pow2; lia]).
      rewrite <- Z.add_1_r in L2.
      split; intros Hc.
      * assert (2 ^ (n + (Z.log2 b + 1)) <= 2 ^ (n + 8 - k)) by (apply Z.pow_le_mono_r; lia).
        rewrite Z.pow_add_r in H by lia. nia.
      * destruct (decide (k <= 7 - Z.log2 b)); [done|exfalso].
        assert (2 ^ (n + 8 - k) <= 2 ^ (n + Z.log2 b)) by (apply Z.pow_le_mono_r; lia).
        rewrite (Z.pow_add_r 2 n) in H by lia. nia.
Qed.

(** The search returns the least counter that passes, and fails when none does. *)
Lemma mine_range_spec `{Blake3} n nonce bits k :
  match mine_range n nonce bits k with
  | Some c => k <= c < k + 2 ^ Z.of_nat n /\ verify_pow nonce c bits = true /\
      forall j, k <= j < c -> verify_pow nonce j bits = false
  | None => forall j, k <= j < k + 2 ^ Z.of_nat n -> verify_pow nonce j bits = false
  end.
Proof.
  revert k. induction n as [|n IH]; intros k; cbn [mine_range].
  - change (2 ^ Z.of_nat 0) with 1. destruct (verify_pow nonce k bits) eqn:Hv; [split_and!; [lia..|done|lia]|].
    intros j Hj. by replace j with k by lia.
  - replace (2 ^ Z.of_nat (S n)) with (2 ^ Z.of_nat n + 2 ^ Z.of_nat n) by (rewrite Nat2Z.inj_succ, Z.pow_succ_r; lia).
    pose proof (IH k) as H1. destruct (mine_range n nonce bits k) as [c|]; [destruct H1 as (? & ? & ?); split_and!; [lia..|done|done]|].
    pose proof (IH (k + 2 ^ Z.of_nat n)) as H2. destruct (mine_range n nonce bits _) as [c|].
    + destruct H2 as (? & ? & Hl). split_and!; [lia..|done|]. intros j Hj.
      destruct (decide (j < k + 2 ^ Z.of_nat n)); [apply H1; lia|apply Hl; lia].
    + intros j Hj. destruct (decide (j < k + 2 ^ Z.of_nat n)); [apply H1; lia|apply H2; lia].
Qed.

Lemma mine_pow_spec `{Blake3} nonce bits :
  match mine_pow nonce bits with
  | Some c => is_u64 c /\ verify_pow nonce c bits = true /\ forall j, 0 <= j < c -> verify_pow nonce j bits = false
  | None => forall c, is_u64 c -> verify_pow nonce c bits = false
  end.
Proof. exact (mine_range_spec 64 nonce bits 0). Qed.

(** Mining ends when some counter passes. *)
Lemma mine_pow_ends `{Blake3} nonce bits c :
  is_u64 c -> verify_pow nonce c bits = true ->
  exists c', mine_pow nonce bits = Some c' /\ is_u64 c' /\ verify_pow nonce c' bits = true.
Proof.
  intros Hc Hv. pose proof (mine_pow_spec nonce bits) as Hm. destruct (mine_pow nonce bits) as [c'|].
  - exists c'. by destruct Hm as (? & ? & _).
  - by rewrite Hm in Hv.
Qed.

(** C37. Framing round trip: after a session of messages that fit a frame, sent to an
    accepting sink, any live stream that delivers those bytes, in whatever fragments, with
    whatever would-blocks in between and with idle periods that run out wherever they do, gives
    exactly those messages back in order to a reader that goes on polling after each idle
    report, within one poll for each message and each read of the stream; and any blocking
    stream gives them to the plain reader; in both cases with nothing left over. *)
Theorem frames_roundtrip `{Sink} {A : Type} `{JsonLaws A} (msgs : list A) :
  open_sink -> Forall fits msgs ->
  exists bytes, send_all msgs [] = (Ok tt, bytes) /\
    (forall es, live es -> stream_bytes es = bytes ->
       exists n outs es', poll_n n es = (Ok outs, es') /\ omap id outs = msgs /\ stream_bytes es' = [] /\
         (n <= length msgs + length es)%nat) /\
    (forall es, blocking es -> stream_bytes es = bytes ->
       exists es', receive_n (length msgs) es = (Ok msgs, es') /\ stream_bytes es' = []).
Proof.
  intros Ho Hf. exists (concat (frame <$> msgs)). split; [|split].
  - by apply (send_all_ok msgs []).
  - intros es Hl Hb. apply poll_n_frames; [done..|by rewrite app_nil_r].
  - intros es Hl Hb. destruct (receive_n_frames msgs es []) as (es' & ? & ? & _); [done..|by rewrite app_nil_r|].
    by exists es'.
Qed.

(** C38. The polled reader against any peer: it never panics when the JSON decoder does not;
    reporting idle loses no byte; and a frame announced above the limit is refused after
    its four length bytes, whatever follows. *)
Theorem receive_polled_robust {A : Type} `{Json A} es :
  (forall l, from_slice (A := A) l <> Panic) ->
  (receive_polled (A := A) es).1 <> Panic /\
  (forall es', receive_polled (A := A) es = (Ok None, es') -> stream_bytes es' = stream_bytes es) /\
  (forall len r, prompt es -> MAX_FRAME < len -> is_u32 len -> stream_bytes es = le_bytes 4 len ++ r ->
     exists es', receive_polled (A := A) es = (Err (too_long len), es') /\ stream_bytes es' = r).
Proof.
  intros Hd. unfold receive_polled, mbind, M_bind, read_frame_body, decode_frame. split_and!.
  - destruct (fill_prefix es 4 []) as [p es1|es1|e es1]; [|done..]. destruct (MAX_FRAME <? _); [done|].
    destruct (fill_body es1 _ []) eqn:Hfb; [|by apply fill_body_not_idle in Hfb|done].
    specialize (Hd buf). by destruct (from_slice buf).
  - intros es'. destruct (fill_prefix es 4 []) as [p es1|es1|e es1] eqn:Hp; [|by intros [= <-]; apply fill_prefix_idle in Hp as [_ ?]|done].
    repeat case_match; simpl; intros; by simplify_eq.
  - intros len r Hl Hmax Hu Hb.
    destruct (fill_prefix_live es _ _ [] (prompt_live _ Hl) Hb) as [(es1 & Hp & Hb1 & _)|[_ (es1 & Hp & _)]];
      [|by apply fill_prefix_prompt in Hp].
    rewrite length_le_bytes in Hp. rewrite Hp, app_nil_l. rewrite le_val_le_bytes by done.
    rewrite (proj2 (Z.ltb_lt _ _)) by done. by exists es1.
Qed.

(** The admission proof of work: a counter passes exactly when the digest of nonce and
    counter, read as a big-endian number, is below [2^(256 - bits)]; mining returns the least
    64-bit counter that passes, and returns none only when there is none. *)
Theorem pow_spec `{Blake3} nonce bits :
  0 <= bits ->
  (forall c, verify_pow nonce c bits = true <->
     be_val (blake3 (nonce ++ le_bytes 8 c)) < 2 ^ (256 - Z.min bits 256)) /\
  match mine_pow nonce bits with
  | Some c => is_u64 c /\ verify_pow nonce c bits = true /\ forall j, 0 <= j < c -> verify_pow nonce j bits = false
  | None => forall c, is_u64 c -> verify_pow nonce c bits = false
  end.
Proof.
  intros Hb. split; [|apply mine_pow_spec]. intros c. unfold verify_pow. rewrite Z.leb_le.
  pose proof (leading_zero_bits_spec (blake3 (nonce ++ le_bytes 8 c)) (Z.min bits 256)) as Hs.
  rewrite blake3_len in Hs. apply Hs; [apply blake3_byte|lia].
Qed.

(** ** Concrete instances *)

#[export] Instance PeerToPeer_eq_dec : EqDecision PeerToPeer.
Proof. solve_decision. Defined.

#[export] Instance PeerToPeer_countable : Countable PeerToPeer.
Proof.
  refine (inj_countable'
    (fun m => match m with PeerBlobRequest i => inl i | PeerBlob h => inr h end)
    (fun x => match x with inl i => PeerBlobRequest i | inr h => PeerBlob h end) _).
  by intros [].
Defined.

Definition toy_sink : Sink := {| sink_write := fun _ _ => Ok tt; sink_flush := fun _ => Ok tt |}.

Definition demo_session : list PeerToPeer := [PeerBlobRequest "ab"; PeerBlob None].

(** The session's bytes cut after one byte; an idle period runs out before the first byte, and
    another inside the length prefix. *)
Definition demo_stream : stream :=
  let bytes := (@send_all toy_sink _ (toy_json PeerToPeer) demo_session []).2 in
  [Block true false; Data (take 1 bytes); Block true false; Data (drop 1 bytes)].

Lemma frames_roundtrip_witness :
  @receive_polled PeerToPeer (toy_json _) demo_stream = (Ok None, tail demo_stream) /\
  exists n outs es', @poll_n PeerToPeer (toy_json _) n demo_stream = (Ok outs, es') /\
    omap id outs = [PeerBlobRequest "ab"; PeerBlob None] /\ stream_bytes es' = [] /\ (n <= 6)%nat.
Proof.
  split; [vm_compute; reflexivity|].
  destruct (@frames_roundtrip toy_sink PeerToPeer (toy_json _) (toy_json_laws _) demo_session)
    as (bytes & Hs & Hp & _).
  - by split.
  - repeat constructor; vm_compute; discriminate.
  - apply Hp.
    + unfold live, demo_stream. repeat constructor; vm_compute; discriminate.
    + vm_compute in Hs. injection Hs as <-. reflexivity.
Defined.

Lemma receive_polled_robust_witness :
  exists es', @receive_polled PeerToPeer (toy_json _) [Data [0xff; 0xff]; Data [0xff; 0xff; 7]] =
                (Err (too_long (2 ^ 32 - 1)), es') /\ stream_bytes es' = [7].
Proof.
  apply (@receive_polled_robust PeerToPeer (toy_json _) [Data [0xff; 0xff]; Data [0xff; 0xff; 7]]).
  - intros l. simpl. by destruct (digits_pos l ≫= decode).
  - by repeat constructor.
  - reflexivity.
  - done.
  - reflexivity.
Defined.

Lemma pow_spec_witness :
  exists c, @mine_pow toy_blake3 [1] 2 = Some c /\
    @verify_pow toy_blake3 [1] c 2 = true /\ forall j, 0 <= j < c -> @verify_pow toy_blake3 [1] j 2 = false.
Proof.
  destruct (@pow_spec toy_blake3 [1] 2 ltac:(lia)) as [_ Hm].
  destruct (@mine_pow toy_blake3 [1] 2) as [c|] eqn:E; [|vm_compute in E; discriminate E].
  exists c. split; [reflexivity|]. exact (proj2 Hm).
Defined.
