(* ===== verification/Quorum.v ===== *)
(** * The quorum decision (crates/coordinator/src/lib.rs)

    The decision over a pool of worker results, the bond deltas it implies, and the
    verification of a result's signature.  [ed25519_dalek] is a parameter. *)

From S2P Require Import Prelude Text JobFmt.

Inductive Decision : Type :=
  | Accept (hash : string) (a_output_hex : option string) (agreed : list string) (zk : bool)
  | Escalate
  | Reject (reason : string).

#[export] Instance Decision_eq_dec : EqDecision Decision.
Proof. solve_decision. Defined.

(** Push a result on the group of its hash, or open a new group at the end. *)
Fixpoint add_to_group (groups : list (string * list WorkerResult)) (r : WorkerResult) :
    list (string * list WorkerResult) :=
  match groups with
  | [] => [(result_hash r, [r])]
  | (h, g) :: rest =>
      if bool_decide (h = result_hash r) then (h, g ++ [r]) :: rest
      else (h, g) :: add_to_group rest r
  end.

Definition group_by (results : list WorkerResult) : list (string * list WorkerResult) :=
  foldl add_to_group [] results.

(** [pool_results.iter().filter(|r| seen.insert(r.worker_id.clone()))]: the first result of
    each worker. *)
Fixpoint dedup (seen : gset string) (rs : list WorkerResult) : list WorkerResult :=
  match rs with
  | [] => []
  | r :: t =>
      if bool_decide (worker_id r ∈ seen) then dedup seen t
      else r :: dedup ({[worker_id r]} ∪ seen) t
  end.

(** [groups.sort_by_key(|(_, g)| Reverse(g.len()))]: stable, longest group first. *)
Fixpoint insert_desc (x : string * list WorkerResult) (l : list (string * list WorkerResult)) :
    list (string * list WorkerResult) :=
  match l with
  | [] => [x]
  | y :: t => if (length y.2 <=? length x.2)%nat then x :: l else y :: insert_desc x t
  end.

Definition sort_desc (l : list (string * list WorkerResult)) : list (string * list WorkerResult) :=
  foldr insert_desc [] l.

Definition halted_result (r : WorkerResult) : bool := bool_decide (r_status r = "halted"%string).

(** The name [decide] is taken by the decision procedures of the library. *)
Module Pool.
Definition decide (pool_results : list WorkerResult) (expected_pool : nat) : outcome string Decision :=
  let deduped := dedup ∅ pool_results in
  let received := length deduped in
  let pool := Nat.max expected_pool received in
  let threshold := (pool / 2 + 1)%nat in
  let halted := filter (fun r => halted_result r = true) deduped in
  let trapped := (received - length halted)%nat in
  let rest :=
    if (threshold <=? trapped)%nat then
      Reject "majority of workers trapped: job is broken"
    else if (5 <=? pool)%nat then
      Reject "no majority after escalation; bonds returned"
    else Escalate in
  if (threshold <=? length halted)%nat then
    match sort_desc (group_by halted) with
    | (hash, first :: others) :: _ =>
        let group := first :: others in
        if (threshold <=? length group)%nat then
          if forallb (fun r => bool_decide (r_chunk_hashes r = r_chunk_hashes first)) group then
            Ok (Accept hash (output_hex first) (worker_id <$> group) false)
          else Ok (Reject "winning group disagrees on chunk chain (dispute required)")
        else Ok rest
    | _ => Panic
    end
  else Ok rest.
End Pool.

Definition slashing (d : Decision) (pool_results : list WorkerResult) : list (string * Z) :=
  match d with
  | Accept _ _ agreed _ =>
      (fun r => (worker_id r, if bool_decide (worker_id r ∈ agreed) then 10 else -100)) <$> pool_results
  | _ => (fun r => (worker_id r, 0)) <$> pool_results
  end.

(** ** Signatures *)

(** Ed25519: parsing a public key and verifying a signature. *)
Class Ed25519 : Type := {
  vkey : Type;
  vkey_from_bytes : list Z -> outcome string vkey;
  ed_verify : vkey -> list Z -> list Z -> outcome string unit;
}.

(** [HexError]'s [Display] *)
Definition show_hex_error (e : HexError) : string :=
  match e with
  | BadLength got want => "bad length " +:+ pretty got +:+ "/" +:+ pretty want
  | InvalidByte b => "invalid hex byte 0x" +:+ hex [b]
  end.

Definition verify_signature `{Ed25519} (r : WorkerResult) : outcome string unit :=
  match pubkey_hex r, sig_hex r with
  | Some pk_hex, Some sg_hex =>
      let bad (what : string) (e : HexError) := (what +:+ ": " +:+ show_hex_error e)%string in
      pk_bytes ← map_err (bad "pubkey"%string) (from_hex pk_hex 32);
      sig_bytes ← map_err (bad "signature"%string) (from_hex sg_hex 64);
      let msg := signing_message r in
      vk ← map_err (fun e => "pubkey: " +:+ e)%string (vkey_from_bytes pk_bytes);
      map_err (fun e => "signature: " +:+ e)%string (ed_verify vk msg sig_bytes)
  | _, _ => Err "result is unsigned"%string
  end.

(** ** Groups *)

(** The results with a given hash, in order. *)
Definition with_hash (h : string) (rs : list WorkerResult) : list WorkerResult :=
  filter (fun r => result_hash r = h) rs.

(** Groups by distinct hashes, each holding exactly the results with that hash. *)
Definition groups_ok (groups : list (string * list WorkerResult)) (rs : list WorkerResult) : Prop :=
  NoDup groups.*1 /\
  (forall h g, (h, g) ∈ groups -> g = with_hash h rs /\ g <> []) /\
  (forall r, r ∈ rs -> result_hash r ∈ groups.*1).

Lemma add_to_group_fst groups r :
  (result_hash r ∈ groups.*1 -> (add_to_group groups r).*1 = groups.*1) /\
  (result_hash r ∉ groups.*1 -> (add_to_group groups r).*1 = groups.*1 ++ [result_hash r]).
Proof.
  induction groups as [|[h g] groups [IH1 IH2]]; csimpl.
  - split; [|done]. intros Hin. by apply not_elem_of_nil in Hin.
  - case_bool_decide as Heq; csimpl.
    + split; [done|]. intros Hni. destruct Hni. rewrite Heq. by left.
    + split.
      * intros [?|Hin]%elem_of_cons; [congruence|]. by rewrite IH1.
      * intros [_ Hin]%not_elem_of_cons. by rewrite IH2.
Qed.

Lemma add_to_group_elem groups r h g :
  NoDup groups.*1 -> (h, g) ∈ add_to_group groups r ->
  (h <> result_hash r /\ (h, g) ∈ groups) \/
  (h = result_hash r /\ exists g', g = g' ++ [r] /\ ((h, g') ∈ groups \/ (g' = [] /\ h ∉ groups.*1))).
Proof.
  induction groups as [|[h' g'] groups IH]; csimpl; intros Hnd.
  - rewrite list_elem_of_singleton. intros [= -> ->]. right. split; [done|]. exists []. split; [done|].
    right. split; [done|]. apply not_elem_of_nil.
  - apply NoDup_cons in Hnd as [Hni Hnd]. case_bool_decide as Heq.
    + rewrite elem_of_cons. intros [[= -> ->]|Hin].
      * right. split; [done|]. exists g'. split; [done|]. left. by left.
      * left. split; [|by right]. intros ->. apply Hni. rewrite Heq. by apply (list_elem_of_fmap_2 fst _ (result_hash r, g)).
    + rewrite elem_of_cons. intros [[= -> ->]|Hin]; [left; split; [done|by left]|].
      destruct (IH Hnd Hin) as [[? ?]|(-> & g'' & -> & [Hg|[-> Hg]])].
      * left. split; [done|by right].
      * right. split; [done|]. exists g''. split; [done|]. left. by right.
      * right. split; [done|]. exists []. split; [done|]. right. split; [done|].
        apply not_elem_of_cons. split; [congruence|done].
Qed.

Lemma add_to_group_ok groups rs r :
  groups_ok groups rs -> groups_ok (add_to_group groups r) (rs ++ [r]).
Proof.
  intros (Hnd & Hg & Hcov). destruct (add_to_group_fst groups r) as [F1 F2]. split_and!.
  - destruct (decide (result_hash r ∈ groups.*1)); [by rewrite F1|]. rewrite F2 by done.
    apply NoDup_app. split_and!; [done| |apply NoDup_singleton].
    intros h Hh ->%list_elem_of_singleton. done.
  - intros h g Hin. unfold with_hash. rewrite filter_app.
    destruct (add_to_group_elem _ _ _ _ Hnd Hin) as [[Hne Hin']|(-> & g' & -> & Hg')].
    + destruct (Hg _ _ Hin') as [-> ?]. rewrite filter_cons_False, filter_nil, app_nil_r by congruence. done.
    + rewrite filter_cons_True, filter_nil by done. split; [|by destruct g'].
      f_equal. destruct Hg' as [Hin'|[-> Hni]]; [by apply Hg|].
      symmetry. apply filter_none. intros r' Hr' Heq.
      apply Hni. rewrite <- Heq. by apply Hcov.
  - intros r' [Hr'| ->%list_elem_of_singleton]%elem_of_app.
    + destruct (decide (result_hash r ∈ groups.*1)); [rewrite F1 by done; by apply Hcov|].
      rewrite F2 by done. apply elem_of_app. left. by apply Hcov.
    + destruct (decide (result_hash r ∈ groups.*1)); [by rewrite F1|].
      rewrite F2 by done. apply elem_of_app. right. by left.
Qed.

Lemma group_by_ok rs : groups_ok (group_by rs) rs.
Proof.
  unfold group_by. induction rs as [|r rs IH] using rev_ind.
  - split_and!; [constructor|..]; intros; by destruct (not_elem_of_nil (A := string * list WorkerResult) (h, g)) || by apply not_elem_of_nil in H.
  - rewrite foldl_snoc. by apply add_to_group_ok.
Qed.

Lemma insert_desc_perm x l : insert_desc x l ≡ₚ x :: l.
Proof.
  induction l as [|y l IH]; simpl; [done|]. case_match; [done|]. rewrite IH. apply Permutation_swap.
Qed.

Lemma sort_desc_perm l : sort_desc l ≡ₚ l.
Proof. induction l as [|x l IH]; simpl; [done|]. by rewrite insert_desc_perm, IH. Qed.

(** The head of the sorted list is a longest group. *)
Lemma insert_desc_head x l y t :
  (forall z, z ∈ l -> (length z.2 <= length (default x (head l)).2)%nat) ->
  insert_desc x l = y :: t -> forall z, z ∈ x :: l -> (length z.2 <= length y.2)%nat.
Proof.
  destruct l as [|w l]; simpl; intros Hl.
  - intros [= <- <-] z ->%list_elem_of_singleton. done.
  - case_match eqn:E; intros [= <- <-] z [->|Hz]%elem_of_cons.
    + done.
    + apply Nat.leb_le in E. specialize (Hl z Hz). lia.
    + apply Nat.leb_gt in E. lia.
    + by apply Hl.
Qed.

Lemma sort_desc_head l y t :
  sort_desc l = y :: t -> forall z, z ∈ l -> (length z.2 <= length y.2)%nat.
Proof.
  revert y t. induction l as [|x l IH]; simpl; intros y t Hs z Hz; [done|].
  eapply insert_desc_head in Hs; [done| |].
  - intros w Hw. destruct (sort_desc l) as [|v t'] eqn:Hv; simpl.
    + by apply not_elem_of_nil in Hw.
    + eapply IH; [done|]. rewrite <- (sort_desc_perm l), Hv. done.
  - apply elem_of_cons in Hz as [->|Hz]; [by left|]. right. by rewrite sort_desc_perm.
Qed.

(** ** Votes *)

Lemma dedup_spec seen rs :
  NoDup (worker_id <$> dedup seen rs) /\
  (forall r, r ∈ dedup seen rs -> r ∈ rs /\ worker_id r ∉ seen) /\
  (forall r, r ∈ rs -> worker_id r ∉ seen -> worker_id r ∈ worker_id <$> dedup seen rs).
Proof.
  revert seen. induction rs as [|r rs IH]; intros seen; cbn [dedup].
  - split_and!; [constructor|..]; intros r Hr; by apply not_elem_of_nil in Hr.
  - case_bool_decide as Hs.
    + destruct (IH seen) as (H1 & H2 & H3). split_and!; [done|..].
      * intros r' Hr'. destruct (H2 r' Hr'). split; [by right|done].
      * intros r' [->|Hr']%elem_of_cons Hn; [done|by apply H3].
    + destruct (IH ({[worker_id r]} ∪ seen)) as (H1 & H2 & H3). split_and!.
      * csimpl. apply NoDup_cons. split; [|done].
        intros (r' & Heq & Hr')%list_elem_of_fmap. destruct (H2 r' Hr') as [_ Hn].
        apply not_elem_of_union in Hn as [Hn _]. apply Hn. by apply elem_of_singleton.
      * intros r' [->|Hr']%elem_of_cons; [split; [by left|done]|].
        destruct (H2 r' Hr') as [? Hn]. apply not_elem_of_union in Hn as [_ Hn].
        split; [by right|done].
      * intros r' [->|Hr']%elem_of_cons Hn; csimpl; [by left|].
        destruct (decide (worker_id r' = worker_id r)) as [->|Hne]; [by left|].
        right. apply H3; [done|]. apply not_elem_of_union. split; [by rewrite elem_of_singleton|done].
Qed.

(** The votes counted: one per worker, halted, with hash [h]. *)
Definition votes (h : string) (rs : list WorkerResult) : list WorkerResult :=
  with_hash h (filter (fun r => halted_result r = true) (dedup ∅ rs)).

Definition pool_size (rs : list WorkerResult) (expected : nat) : nat :=
  Nat.max expected (length (dedup ∅ rs)).

Lemma votes_disjoint h1 h2 rs :
  h1 <> h2 -> (length (votes h1 rs) + length (votes h2 rs) <= length (dedup ∅ rs))%nat.
Proof.
  intros Hne. unfold votes, with_hash. etrans; [|apply length_filter with (P := fun r => halted_result r = true)].
  generalize (filter (fun r => halted_result r = true) (dedup ∅ rs)). intros l.
  induction l as [|r l IH]; [done|]. rewrite !filter_cons. repeat case_decide; simpl; try lia. congruence.
Qed.

Lemma votes_perm_ids h rs : NoDup (worker_id <$> votes h rs).
Proof.
  destruct (dedup_spec ∅ rs) as (Hnd & _ & _). unfold votes, with_hash.
  eapply sublist_NoDup; [exact Hnd|]. apply fmap_sublist. etrans; apply sublist_filter.
Qed.

(** ** The decision *)

(** A strict majority of the dispatched pool for [h]. *)
Definition majority (h : string) (rs : list WorkerResult) (expected : nat) : Prop :=
  (pool_size rs expected < 2 * length (votes h rs))%nat.

(** What is decided when no hash has a majority. *)
Definition no_majority (rs : list WorkerResult) (expected : nat) : Decision :=
  let pool := pool_size rs expected in
  let trapped := (length (dedup ∅ rs) - length (filter (fun r => halted_result r = true) (dedup ∅ rs)))%nat in
  if (pool / 2 + 1 <=? trapped)%nat then Reject "majority of workers trapped: job is broken"
  else if (5 <=? pool)%nat then Reject "no majority after escalation; bonds returned"
  else Escalate.

Lemma threshold_majority p n : (p / 2 + 1 <= n <-> p < 2 * n)%nat.
Proof. pose proof (Nat.div_mod p 2). pose proof (Nat.mod_upper_bound p 2). lia. Qed.

Lemma majority_unique h1 h2 rs n : majority h1 rs n -> majority h2 rs n -> h1 = h2.
Proof.
  intros H1 H2. destruct (decide (h1 = h2)) as [|Hne]; [done|exfalso].
  pose proof (votes_disjoint h1 h2 rs Hne). unfold majority, pool_size in *. lia.
Qed.

(** The head of the sorted groups: the votes for its hash, a longest group. *)
Lemma sorted_head rs :
  match sort_desc (group_by (filter (fun r => halted_result r = true) (dedup ∅ rs))) with
  | [] => forall h, votes h rs = []
  | (h, g) :: _ => g = votes h rs /\ g <> [] /\ forall h', (length (votes h' rs) <= length g)%nat
  end.
Proof.
  set (hs := filter _ (dedup ∅ rs)). destruct (group_by_ok hs) as (Hnd & Hg & Hcov).
  assert (forall h, votes h rs <> [] -> exists g, (h, g) ∈ group_by hs) as Hex.
  { intros h Hne. destruct (votes h rs) as [|r l] eqn:Hv; [done|].
    assert (r ∈ votes h rs) as Hr by (rewrite Hv; by left).
    apply list_elem_of_filter in Hr as [Hrh Hr]. specialize (Hcov r Hr). rewrite Hrh in Hcov.
    apply list_elem_of_fmap in Hcov as ([h' g] & -> & Hin). by exists g. }
  destruct (sort_desc (group_by hs)) as [|[h g] t] eqn:Hs.
  - intros h. destruct (votes h rs) eqn:Hv; [done|]. destruct (Hex h) as [g Hin]; [by rewrite Hv|].
    rewrite <- (sort_desc_perm (group_by hs)), Hs in Hin. by apply not_elem_of_nil in Hin.
  - assert ((h, g) ∈ group_by hs) as Hin by (rewrite <- (sort_desc_perm (group_by hs)), Hs; by left).
    destruct (Hg _ _ Hin) as [Hgv Hne]. split_and!; [done|done|]. intros h'.
    destruct (votes h' rs) as [|r l] eqn:Hv; [simpl; lia|]. rewrite <- Hv.
    destruct (Hex h') as [g' Hin']; [by rewrite Hv|]. destruct (Hg _ _ Hin') as [Hgv' _].
    pose proof (sort_desc_head _ _ _ Hs _ Hin') as Hle. simpl in Hle. by rewrite Hgv' in Hle.
Qed.

Lemma votes_le_halted h rs :
  (length (votes h rs) <= length (filter (fun r => halted_result r = true) (dedup ∅ rs)))%nat.
Proof. apply length_filter. Qed.

Lemma decide_majority h first others rs n :
  votes h rs = first :: others -> majority h rs n ->
  Pool.decide rs n =
    Ok (if forallb (fun r => bool_decide (r_chunk_hashes r = r_chunk_hashes first)) (votes h rs)
        then Accept h (output_hex first) (worker_id <$> votes h rs) false
        else Reject "winning group disagrees on chunk chain (dispute required)").
Proof.
  intros Hv Hm. pose proof (sorted_head rs) as Hs. pose proof (votes_le_halted h rs) as Hle.
  unfold Pool.decide. fold (pool_size rs n). unfold majority in Hm.
  set (hs := filter _ _) in *.
  rewrite (proj2 (Nat.leb_le _ _)) by (apply threshold_majority; lia).
  destruct (sort_desc (group_by hs)) as [|[h' g] t]; [by rewrite Hs in Hv|].
  destruct Hs as (-> & Hne & Hmax). specialize (Hmax h).
  assert (h' = h) as -> by (apply (majority_unique h' h rs n); unfold majority; lia).
  rewrite Hv in *. rewrite (proj2 (Nat.leb_le _ _)) by (apply threshold_majority; lia).
  by case_match.
Qed.

Lemma sorted_nil_halted hs : sort_desc (group_by hs) = [] -> hs = [].
Proof.
  intros Hs. destruct (group_by_ok hs) as (_ & _ & Hcov). destruct hs as [|r hs]; [done|].
  specialize (Hcov r ltac:(by left)). apply list_elem_of_fmap in Hcov as (g & _ & Hin).
  rewrite <- (sort_desc_perm (group_by (r :: hs))), Hs in Hin. by apply not_elem_of_nil in Hin.
Qed.

Lemma decide_no_majority rs n :
  (forall h, ~ majority h rs n) -> Pool.decide rs n = Ok (no_majority rs n).
Proof.
  intros Hm. pose proof (sorted_head rs) as Hs. unfold Pool.decide, no_majority. fold (pool_size rs n).
  set (hs := filter _ _) in *. destruct (_ <=? length hs)%nat eqn:Hh; [|done].
  destruct (sort_desc (group_by hs)) as [|[h' g] t] eqn:E.
  - apply Nat.leb_le in Hh. rewrite (sorted_nil_halted hs E) in Hh. simpl in Hh. lia.
  - destruct Hs as (-> & Hne & _). destruct (votes h' rs) as [|first others] eqn:Hv; [done|].
    destruct (_ <=? length (first :: others))%nat eqn:Hl; [|done]. exfalso.
    apply Nat.leb_le, threshold_majority in Hl. apply (Hm h'). unfold majority. by rewrite Hv.
Qed.

Lemma majority_dec rs n : {h | majority h rs n} + {forall h, ~ majority h rs n}.
Proof.
  pose proof (sorted_head rs) as Hs.
  destruct (sort_desc _) as [|[h g] t].
  - right. intros h. unfold majority. rewrite Hs. simpl. lia.
  - destruct Hs as (-> & _ & Hmax). destruct (decide (pool_size rs n < 2 * length (votes h rs))%nat) as [Hl|Hl].
    + left. by exists h.
    + right. intros h'. unfold majority. specialize (Hmax h'). lia.
Qed.

Lemma decide_accept_inv rs n h out ids zk :
  Pool.decide rs n = Ok (Accept h out ids zk) ->
  zk = false /\ NoDup ids /\ (n < 2 * length ids)%nat /\
  (exists chain, forall id, id ∈ ids -> exists r, r ∈ rs /\ worker_id r = id /\
     r_status r = "halted"%string /\ result_hash r = h /\ r_chunk_hashes r = chain) /\
  (forall h', majority h' rs n -> h' = h).
Proof.
  intros Hd. destruct (majority_dec rs n) as [[h0 Hm]|Hm];
    [|rewrite decide_no_majority in Hd by done; unfold no_majority in Hd; by repeat case_match].
  destruct (votes h0 rs) as [|first others] eqn:Hv; [unfold majority in Hm; rewrite Hv in Hm; simpl in Hm; lia|].
  rewrite (decide_majority h0 first others) in Hd by done. case_match eqn:Hall; [|done].
  injection Hd as <- <- <- <-. split_and!; [done|apply votes_perm_ids| | |].
  - unfold majority, pool_size in Hm. rewrite length_fmap. lia.
  - exists (r_chunk_hashes first). intros id (r & -> & Hr)%list_elem_of_fmap. exists r.
    pose proof Hr as Hr'. unfold votes, with_hash in Hr'.
    apply list_elem_of_filter in Hr' as [Hh Hr']. apply list_elem_of_filter in Hr' as [Hs Hr'].
    destruct (dedup_spec ∅ rs) as (_ & Hsub & _). destruct (Hsub r Hr') as [Hin _].
    split_and!; try done.
    + unfold halted_result in Hs. by bools.
    + rewrite forallb_forall in Hall. specialize (Hall r). rewrite <- list_elem_of_In in Hall.
      specialize (Hall Hr). by bools.
  - intros h' Hm'. by eapply majority_unique.
Qed.

(** A pool with one result per worker is what it is deduplicated to. *)
Lemma dedup_id seen rs :
  NoDup (worker_id <$> rs) -> (forall r, r ∈ rs -> worker_id r ∉ seen) -> dedup seen rs = rs.
Proof.
  revert seen. induction rs as [|r rs IH]; intros seen; cbn [dedup]; [done|]. csimpl.
  intros [Hr Hnd]%NoDup_cons Hs. rewrite bool_decide_false by (apply Hs; by left). f_equal. apply IH; [done|].
  intros r' Hr' [Heq%elem_of_singleton|Hin]%elem_of_union; [|by apply (Hs r'); [by right|]].
  apply Hr. rewrite <- Heq. apply list_elem_of_fmap. by exists r'.
Qed.

(** With one result per worker, an acceptance names every voter of its hash. *)
Lemma decide_accept_votes rs n h out ids zk :
  NoDup (worker_id <$> rs) -> Pool.decide rs n = Ok (Accept h out ids zk) ->
  forall r, r ∈ rs -> r_status r = "halted"%string -> result_hash r = h -> worker_id r ∈ ids.
Proof.
  intros Hnd Hd r Hr Hst Hh. destruct (majority_dec rs n) as [[h0 Hm]|Hm];
    [|rewrite decide_no_majority in Hd by done; unfold no_majority in Hd; by repeat case_match].
  destruct (votes h0 rs) as [|first others] eqn:Hv; [unfold majority in Hm; rewrite Hv in Hm; simpl in Hm; lia|].
  rewrite (decide_majority h0 first others) in Hd by done. case_match; [|done]. injection Hd as <- <- <- <-.
  apply list_elem_of_fmap. exists r. split; [done|]. unfold votes, with_hash.
  rewrite dedup_id by (done || set_solver). apply list_elem_of_filter. split; [done|]. apply list_elem_of_filter.
  split; [|done]. unfold halted_result. by apply bool_decide_eq_true.
Qed.

(** A set of voters larger than half of the pool, all halted with one hash and no other chain
    under that hash, carries the decision. *)
Lemma decide_carried h c good rs n :
  NoDup (worker_id <$> rs) -> NoDup (worker_id <$> good) -> (length rs <= n < 2 * length good)%nat ->
  (forall r, r ∈ good -> r ∈ rs /\ r_status r = "halted"%string /\ result_hash r = h) ->
  (forall r, r ∈ rs -> r_status r = "halted"%string -> result_hash r = h -> r_chunk_hashes r = c) ->
  exists oh agreed, Pool.decide rs n = Ok (Accept h oh agreed false) /\ forall r, r ∈ good -> worker_id r ∈ agreed.
Proof.
  intros Hnd Hgd [Hrs Hgood] Hin Hch.
  assert (forall r, r ∈ votes h rs <-> result_hash r = h /\ r_status r = "halted"%string /\ r ∈ rs) as Hv.
  { intros r. unfold votes, with_hash. rewrite dedup_id by (done || set_solver).
    rewrite !list_elem_of_filter. unfold halted_result. by rewrite bool_decide_eq_true. }
  assert (length good <= length (votes h rs))%nat as Hlen.
  { apply submseteq_length. apply NoDup_submseteq; [by eapply NoDup_fmap_1|]. intros r Hr. apply Hv. by destruct (Hin r Hr) as (? & ? & ?). }
  destruct (votes h rs) as [|first others] eqn:Hvs; [simpl in Hlen; lia|]. rewrite <- Hvs in *.
  exists (output_hex first), (worker_id <$> votes h rs). split.
  - rewrite (decide_majority h first others); [|done|].
    + rewrite (proj2 (forallb_forall _ _)); [done|]. intros r Hr%list_elem_of_In. apply bool_decide_eq_true.
      assert (first ∈ votes h rs) as Hf by (rewrite Hvs; by left).
      apply Hv in Hr as (? & ? & ?), Hf as (? & ? & ?). by rewrite !Hch.
    + unfold majority, pool_size. rewrite dedup_id by (done || set_solver). lia.
  - intros r Hr. apply list_elem_of_fmap. exists r. split; [done|]. apply Hv. by destruct (Hin r Hr) as (? & ? & ?).
Qed.

(** C25. The decision, on every branch: a hash with a strict majority of the dispatched pool
    among the halted results (one vote per worker) is accepted with the first vote's output
    and exactly its voters when all their chains agree, and rejected as a dispute otherwise;
    with no such hash the pool is rejected when a majority trapped or it was already
    escalated, and escalated otherwise.  It never panics. *)
Theorem decide_spec rs n :
  (forall h first others, votes h rs = first :: others -> majority h rs n ->
     Pool.decide rs n =
       Ok (if forallb (fun r => bool_decide (r_chunk_hashes r = r_chunk_hashes first)) (votes h rs)
           then Accept h (output_hex first) (worker_id <$> votes h rs) false
           else Reject "winning group disagrees on chunk chain (dispute required)")) /\
  ((forall h, ~ majority h rs n) -> Pool.decide rs n = Ok (no_majority rs n)) /\
  Pool.decide rs n <> Panic.
Proof.
  split_and!; [intros; by eapply decide_majority|apply decide_no_majority|].
  destruct (majority_dec rs n) as [[h Hm]|Hm].
  - destruct (votes h rs) as [|first others] eqn:Hv; [unfold majority in Hm; rewrite Hv in Hm; simpl in Hm; lia|].
    rewrite (decide_majority h first others) by done. by case_match.
  - by rewrite decide_no_majority.
Qed.

(** Acceptance is safe: an accepted hash is backed by distinct workers that are a strict
    majority of the dispatched pool, however few answered; each of them has a halted result
    with that hash and the same chain; and no other hash can reach the threshold, so a
    majority of honest workers fixes the accepted hash. *)
Theorem accept_sound rs n h out ids zk :
  Pool.decide rs n = Ok (Accept h out ids zk) ->
  zk = false /\ NoDup ids /\ (n < 2 * length ids)%nat /\
  (exists chain, forall id, id ∈ ids -> exists r, r ∈ rs /\ worker_id r = id /\
     r_status r = "halted"%string /\ result_hash r = h /\ r_chunk_hashes r = chain) /\
  (forall h', majority h' rs n -> h' = h).
Proof. apply decide_accept_inv. Qed.

(** A verified result is signed: the key and the signature are well-formed hexadecimal
    of 32 and 64 bytes and the signature verifies over the encoding of every result field;
    an unsigned result is refused; and the check does not panic on untrusted strings. *)
Theorem verify_signature_spec `{Ed25519} r :
  (verify_signature r = Ok tt ->
     exists pk sg pkb sgb vk, pubkey_hex r = Some pk /\ sig_hex r = Some sg /\
       from_hex pk 32 = Ok pkb /\ length pkb = 32%nat /\ from_hex sg 64 = Ok sgb /\ length sgb = 64%nat /\
       vkey_from_bytes pkb = Ok vk /\ ed_verify vk (signing_message r) sgb = Ok tt) /\
  (pubkey_hex r = None \/ sig_hex r = None -> verify_signature r = Err "result is unsigned"%string) /\
  ((forall b, vkey_from_bytes b <> Panic) -> (forall vk m s, ed_verify vk m s <> Panic) ->
     verify_signature r <> Panic).
Proof.
  unfold verify_signature. split_and!.
  - destruct (pubkey_hex r) as [pk|]; [|done]. destruct (sig_hex r) as [sg|]; [|done].
    destruct (from_hex pk 32) as [pkb|?|] eqn:Hpk; try done. simpl.
    destruct (from_hex sg 64) as [sgb|?|] eqn:Hsg; try done. simpl.
    destruct (vkey_from_bytes pkb) as [vk|?|] eqn:Hvk; try done. simpl.
    destruct (ed_verify vk (signing_message r) sgb) as [[]|?|] eqn:Hev; try done. intros _.
    exists pk, sg, pkb, sgb, vk. pose proof (from_hex_len _ _ _ Hpk). pose proof (from_hex_len _ _ _ Hsg).
    split_and!; try done; lia.
  - intros [-> | ->]; [done|]. by destruct (pubkey_hex r).
  - intros Hvp Hep. destruct (pubkey_hex r) as [pk|], (sig_hex r) as [sg|]; try done.
    pose proof (from_hex_no_panic pk 32). destruct (from_hex pk 32) as [pkb|?|]; try done. simpl.
    pose proof (from_hex_no_panic sg 64). destruct (from_hex sg 64) as [sgb|?|]; try done. simpl.
    specialize (Hvp pkb). destruct (vkey_from_bytes pkb) as [vk|?|]; try done. simpl.
    specialize (Hep vk (signing_message r) sgb). by destruct (ed_verify vk (signing_message r) sgb).
Qed.

(** ** Concrete instances *)

Definition vote_of (id h : string) : WorkerResult := {|
  worker_id := id; job_id := "j"; r_status := "halted"; r_instructions := 7;
  result_hash := h; r_chunk_hashes := [h]; output_hex := Some "00"%string; trap := None;
  pubkey_hex := None; sig_hex := None |}.

(** Three workers dispatched, one dissents and votes twice. *)
Definition demo_pool : list WorkerResult :=
  [vote_of "w1" "aa"; vote_of "w2" "bb"; vote_of "w2" "bb"; vote_of "w3" "aa"].

Lemma decide_spec_witness :
  Pool.decide demo_pool 3 = Ok (Accept "aa" (Some "00"%string) ["w1"; "w3"]%string false).
Proof.
  apply (proj1 (decide_spec demo_pool 3) "aa"%string (vote_of "w1" "aa") [vote_of "w3" "aa"]).
  - reflexivity.
  - apply Nat.ltb_lt. reflexivity.
Defined.

Lemma accept_sound_witness :
  NoDup ["w1"; "w3"]%string /\ (forall h', majority h' demo_pool 3 -> h' = "aa"%string).
Proof.
  pose proof (accept_sound demo_pool 3 "aa" (Some "00"%string) ["w1"; "w3"]%string false eq_refl)
    as (_ & Hnd & _ & _ & Hu).
  split; [exact Hnd|exact Hu].
Defined.

(** A signature scheme that accepts the signature made of 64 bytes 7. *)
Definition toy_ed25519 : Ed25519 := {|
  vkey := list Z;
  vkey_from_bytes := Ok;
  ed_verify := fun _ _ s => if bool_decide (s = replicate 64 7) then Ok tt else Err "bad"%string |}.

Definition signed_vote : WorkerResult := {|
  worker_id := "w1"; job_id := "j"; r_status := "halted"; r_instructions := 7;
  result_hash := "aa"; r_chunk_hashes := ["aa"%string]; output_hex := None; trap := None;
  pubkey_hex := Some (hex (replicate 32 1)); sig_hex := Some (hex (replicate 64 7)) |}.

Lemma verify_signature_spec_witness :
  exists pk sg pkb sgb vk, pubkey_hex signed_vote = Some pk /\ sig_hex signed_vote = Some sg /\
    from_hex pk 32 = Ok pkb /\ length pkb = 32%nat /\ from_hex sg 64 = Ok sgb /\ length sgb = 64%nat /\
    @vkey_from_bytes toy_ed25519 pkb = Ok vk /\
    @ed_verify toy_ed25519 vk (signing_message signed_vote) sgb = Ok tt.
Proof.
  apply (@verify_signature_spec toy_ed25519 signed_vote). vm_compute. reflexivity.
Defined.
