(* ===== verification/Ledger.v ===== *)
(** * The bond ledger (crates/coordinator/src/ledger.rs)

    Per-worker balances with a history of the decisions that moved them.  The balances are
    always the sums of the recorded deltas; the additions are [i64] and panic on overflow. *)

From S2P Require Import Prelude Text JobFmt Quorum.

Record LedgerEntry : Type := mkEntry {
  e_job_id : string;
  e_decision : string;
  e_deltas : list (string * Z);
}.

Record Ledger : Type := mkLedger {
  balances : gmap string Z;
  history : list LedgerEntry;
}.

(** [Ledger::default()] *)
Definition empty_ledger : Ledger := {| balances := ∅; history := [] |}.

(** What reading the ledger file gives. *)
Inductive file_read : Type :=
  | FileBytes (bytes : list Z)
  | NotFound
  | OtherIo (e : string).

Definition ledger_load `{Json Ledger} (f : file_read) : outcome string Ledger :=
  match f with
  | FileBytes bytes => map_err (fun e => "ledger: " +:+ e)%string (from_slice bytes)
  | NotFound => Ok empty_ledger
  | OtherIo e => Err ("ledger: " +:+ e)%string
  end.

(** [save] returns what the file then holds. *)
Definition ledger_save `{Os} `{Json Ledger} (path : string) (l : Ledger) : outcome string (list Z) :=
  map_err (fun e => "ledger: " +:+ e)%string (os_write path (to_vec_pretty l)).

Definition i64 (z : Z) : Prop := - 2 ^ 63 <= z < 2 ^ 63.

#[export] Instance i64_dec z : base.Decision (i64 z).
Proof. unfold i64. apply _. Defined.

(** [*self.balances.entry(id.clone()).or_insert(0) += delta] over the deltas. *)
Fixpoint apply_deltas (b : gmap string Z) (deltas : list (string * Z)) : outcome string (gmap string Z) :=
  match deltas with
  | [] => Ok b
  | (id, delta) :: t =>
      let v := default 0 (b !! id) + delta in
      if bool_decide (i64 v) then apply_deltas (<[id := v]> b) t else Panic
  end.

Definition ledger_apply (jid decision : string) (deltas : list (string * Z)) (l : Ledger) : outcome string Ledger :=
  b ← apply_deltas (balances l) deltas;
  mret {| balances := b;
          history := history l ++ [{| e_job_id := jid; e_decision := decision; e_deltas := deltas |}] |}.

(** ** Sums *)

(** The total of a worker's deltas. *)
Fixpoint delta_sum (id : string) (deltas : list (string * Z)) : Z :=
  match deltas with
  | [] => 0
  | (i, d) :: t => (if bool_decide (i = id) then d else 0) + delta_sum id t
  end.

Definition history_sum (id : string) (h : list LedgerEntry) : Z :=
  foldr (fun e acc => delta_sum id (e_deltas e) + acc) 0 h.

(** The ledger's invariant: every balance is the sum of its recorded deltas, and a worker is
    listed exactly when some decision names it. *)
Definition ledger_ok (l : Ledger) : Prop :=
  forall id, default 0 (balances l !! id) = history_sum id (history l) /\
             (is_Some (balances l !! id) <-> exists e, e ∈ history l /\ id ∈ (e_deltas e).*1).

Lemma apply_deltas_spec deltas b b' :
  apply_deltas b deltas = Ok b' ->
  forall id, default 0 (b' !! id) = default 0 (b !! id) + delta_sum id deltas /\
             (is_Some (b' !! id) <-> is_Some (b !! id) \/ id ∈ deltas.*1).
Proof.
  revert b. induction deltas as [|[i d] deltas IH]; intros b; cbn [apply_deltas].
  - intros [= ->] id. split; [simpl; lia|]. csimpl. split; [by left|]. intros [?|Hin]; [done|].
    by apply not_elem_of_nil in Hin.
  - case_bool_decide; [|done]. intros Hb id. destruct (IH _ Hb id) as [H1 H2]. csimpl.
    rewrite elem_of_cons. destruct (decide (i = id)) as [->|Hne].
    + rewrite lookup_insert_eq in H1, H2. rewrite bool_decide_true by done. simpl in H1.
      split; [lia|]. split; [by auto|]. intros _. apply H2. left. by eexists.
    + rewrite lookup_insert_ne in H1, H2 by done. rewrite bool_decide_false by done.
      split; [lia|]. rewrite H2. split; [tauto|]. intros [?|[?|?]]; [tauto|congruence|tauto].
Qed.

Lemma history_sum_snoc id h e : history_sum id (h ++ [e]) = history_sum id h + delta_sum id (e_deltas e).
Proof.
  unfold history_sum. induction h as [|a h IH]; simpl; [lia|]. rewrite IH. lia.
Qed.

Lemma apply_deltas_total deltas b bound :
  0 <= bound -> (forall id, - bound <= default 0 (b !! id) <= bound) ->
  (forall id d, (id, d) ∈ deltas -> -100 <= d <= 10) ->
  bound + 100 * Z.of_nat (length deltas) < 2 ^ 63 ->
  exists b', apply_deltas b deltas = Ok b'.
Proof.
  revert b bound. induction deltas as [|[i d] deltas IH]; intros b bound H0 Hb Hd Hlen; [by eexists|].
  cbn [apply_deltas length] in *. pose proof (Hd i d ltac:(by left)). pose proof (Hb i).
  rewrite bool_decide_true by (unfold i64; lia).
  apply (IH _ (bound + 100)); [lia| |intros; eapply Hd; by right|lia].
  intros id. destruct (decide (i = id)) as [->|]; [rewrite lookup_insert_eq; simpl; lia|].
  rewrite lookup_insert_ne by done. specialize (Hb id). lia.
Qed.

(** ** Decisions and bonds *)

Lemma slashing_fst d rs : (slashing d rs).*1 = worker_id <$> rs.
Proof. unfold slashing. destruct d; rewrite <- list_fmap_compose; apply list_fmap_ext; done. Qed.

Lemma slashing_bounds d rs id x : (id, x) ∈ slashing d rs -> -100 <= x <= 10.
Proof.
  unfold slashing. destruct d; intros (r & [= _ ->] & _)%list_elem_of_fmap; repeat case_match; lia.
Qed.

(** What a decision means for the bond of worker [id]. *)
Definition bond_move (d : Decision) (rs : list WorkerResult) (id : string) : Z :=
  match d with
  | Accept _ _ agreed _ =>
      if bool_decide (id ∈ worker_id <$> rs) then if bool_decide (id ∈ agreed) then 10 else -100 else 0
  | _ => 0
  end.

Lemma delta_sum_absent id deltas : (id ∉ deltas.*1) -> delta_sum id deltas = 0.
Proof.
  induction deltas as [|[i x] deltas IH]; [done|]. csimpl. rewrite not_elem_of_cons. intros [Hne Hin].
  rewrite bool_decide_false by done. by rewrite IH.
Qed.

Lemma delta_sum_slashing d rs id :
  NoDup (worker_id <$> rs) -> delta_sum id (slashing d rs) = bond_move d rs id.
Proof.
  intros Hnd. destruct (decide (id ∈ worker_id <$> rs)) as [Hin|Hin].
  - induction rs as [|r rs IH]; [by apply not_elem_of_nil in Hin|]. csimpl in Hnd.
    apply NoDup_cons in Hnd as [Hr Hnd]. rewrite fmap_cons, elem_of_cons in Hin.
    assert (slashing d (r :: rs) = (worker_id r, bond_move d (r :: rs) (worker_id r)) :: slashing d rs) as ->.
    { unfold slashing, bond_move. destruct d; try done. csimpl. by rewrite (bool_decide_true (_ ∈ _ :: _)) by (by left). }
    cbn [delta_sum]. destruct (decide (worker_id r = id)) as [<-|Hne].
    + rewrite bool_decide_true by done. rewrite delta_sum_absent; [lia|]. by rewrite slashing_fst.
    + rewrite bool_decide_false by done. destruct Hin as [|Hin]; [congruence|]. rewrite IH by done.
      unfold bond_move. destruct d; try done. csimpl.
      rewrite (bool_decide_true (_ ∈ _ :: _)) by (by right).
      by rewrite (bool_decide_true (id ∈ worker_id <$> rs)).
  - rewrite delta_sum_absent by (by rewrite slashing_fst). unfold bond_move. destruct d; try done.
    by rewrite bool_decide_false.
Qed.

(** The ledger accounts for every decision: applying deltas appends one history entry,
    moves each balance by exactly the sum of that worker's deltas, and keeps the invariant
    that balances are the sums of the history, which the empty ledger satisfies. *)
Theorem ledger_apply_spec jid dec deltas l l' :
  ledger_apply jid dec deltas l = Ok l' ->
  history l' = history l ++ [{| e_job_id := jid; e_decision := dec; e_deltas := deltas |}] /\
  (forall id, default 0 (balances l' !! id) = default 0 (balances l !! id) + delta_sum id deltas) /\
  (ledger_ok l -> ledger_ok l') /\ ledger_ok empty_ledger.
Proof.
  unfold ledger_apply. destruct (apply_deltas (balances l) deltas) as [b|?|] eqn:Hb; try done. simpl.
  intros [= <-]. pose proof (apply_deltas_spec _ _ _ Hb) as Hs. simpl. split_and!.
  - done.
  - intros id. apply Hs.
  - intros Hok id. simpl. destruct (Hs id) as [H1 H2], (Hok id) as [H3 H4].
    rewrite history_sum_snoc, H1, H3. split; [done|]. rewrite H2, H4. split.
    + intros [(e & He & Hin)|Hin].
      * exists e. split; [|done]. apply elem_of_app. by left.
      * eexists. split; [apply elem_of_app; right; by left|done].
    + intros (e & [He| ->%list_elem_of_singleton]%elem_of_app & Hin); [left; eauto|by right].
  - intros id. split; [done|]. split; [intros [? [=]]|].
    intros (e & He & _). by apply not_elem_of_nil in He.
Qed.

Section Settling.
Context (jid dec : string) (rs : list WorkerResult) (l : Ledger) (bound : Z).
Hypothesis one_result_each : NoDup (worker_id <$> rs).
Hypothesis bound_nonneg : 0 <= bound.
Hypothesis bounded : forall id, - bound <= default 0 (balances l !! id) <= bound.
Hypothesis room : bound + 100 * Z.of_nat (length rs) < 2 ^ 63.

(** Settling moves every bond as the decision says. *)
Lemma settle_moves d :
  exists l', ledger_apply jid dec (slashing d rs) l = Ok l' /\
    forall id, default 0 (balances l' !! id) = default 0 (balances l !! id) + bond_move d rs id.
Proof.
  destruct (apply_deltas_total (slashing d rs) (balances l) bound) as [b Hd]; [done|done| | |].
  - intros id x. apply slashing_bounds.
  - pose proof (f_equal length (slashing_fst d rs)) as Hl. rewrite !length_fmap in Hl. by rewrite Hl.
  - unfold ledger_apply. rewrite Hd. eexists. split; [done|]. intros id. rewrite <- delta_sum_slashing by done.
    by apply (apply_deltas_spec _ _ _ Hd).
Qed.

(** A rejection or an escalation moves nothing, although the comment of [Decision::Reject]
    says that bonds are burned. *)
Lemma reject_keeps_bonds d :
  (forall h oh agreed zk, d <> Accept h oh agreed zk) ->
  exists l', ledger_apply jid dec (slashing d rs) l = Ok l' /\
    forall id, default 0 (balances l' !! id) = default 0 (balances l !! id).
Proof.
  intros Hn. destruct (settle_moves d) as (l' & Hl & Hb). exists l'. split; [done|]. intros id. rewrite Hb.
  destruct d; [by edestruct Hn|simpl; lia..].
Qed.

(** C40. An acceptance settles exactly, and settling it cannot overflow: with one result per
    worker, balances bounded by [bound] and a pool small enough for the bound to fit, applying
    the deltas of an acceptance succeeds; exactly the workers that answered move, by 10 when
    they are among those that agreed and by -100 when they are not; one entry is appended to the
    history, and balances stay the sums of the history. *)
Theorem settle_spec h oh agreed zk :
  exists l', ledger_apply jid dec (slashing (Accept h oh agreed zk) rs) l = Ok l' /\
    (forall id, default 0 (balances l' !! id) = default 0 (balances l !! id) +
       if bool_decide (id ∈ worker_id <$> rs) then if bool_decide (id ∈ agreed) then 10 else -100 else 0) /\
    history l' = history l ++ [{| e_job_id := jid; e_decision := dec; e_deltas := slashing (Accept h oh agreed zk) rs |}] /\
    (ledger_ok l -> ledger_ok l').
Proof.
  destruct (settle_moves (Accept h oh agreed zk)) as (l' & Hl & Hb). exists l'.
  destruct (ledger_apply_spec _ _ _ _ _ Hl) as (Hh & _ & Hok & _). done.
Qed.
End Settling.

(** ** Concrete instances *)

Definition demo_ledger : Ledger := {| balances := {["w1"%string := 10]}; history := [] |}.

Lemma ledger_apply_spec_witness :
  match ledger_apply "j" "accept" [("w1"%string, 10); ("w2"%string, -100)] empty_ledger with
  | Ok l' => ledger_ok l' /\ default 0 (balances l' !! "w2"%string) = -100
  | _ => False
  end.
Proof.
  destruct (ledger_apply "j" "accept" [("w1"%string, 10); ("w2"%string, -100)] empty_ledger) as [l'|?|] eqn:Ha;
    [|by vm_compute in Ha..].
  destruct (ledger_apply_spec _ _ _ _ _ Ha) as (_ & Hb & Hok & He).
  split; [exact (Hok He)|]. rewrite Hb. reflexivity.
Defined.

(** Two agree and one dissents. *)
Definition demo_votes : list WorkerResult := [vote_of "w1" "aa"; vote_of "w2" "bb"; vote_of "w3" "aa"].

Lemma settle_spec_witness :
  exists l', ledger_apply "j" "accept" (slashing (Accept "aa" None ["w1"; "w3"]%string false) demo_votes) demo_ledger = Ok l' /\
    default 0 (balances l' !! "w1"%string) = 20 /\ default 0 (balances l' !! "w2"%string) = -100.
Proof.
  destruct (settle_spec "j" "accept" demo_votes demo_ledger 10) with (h := "aa"%string) (oh := @None string)
    (agreed := ["w1"; "w3"]%string) (zk := false)
    as (l' & Hl & Hb & _).
  - apply (bool_decide_unpack _). vm_compute. exact I.
  - lia.
  - intros id. unfold demo_ledger. simpl. destruct (decide (id = "w1"%string)) as [->|].
    + rewrite lookup_singleton_eq. simpl. lia.
    + rewrite lookup_singleton_ne by done. simpl. lia.
  - vm_compute. reflexivity.
  - exists l'. split; [exact Hl|]. rewrite !Hb. split; vm_compute; reflexivity.
Defined.
