(* ===== verification/Dispute.v ===== *)
(** * Disputes and optimistic acceptance (crates/coordinator/src/dispute.rs, optimistic.rs)

    Two committed hash chains disagree and a judge decides which side computed honestly, by
    one chunk from an untrusted snapshot or by a full replay.  The judge is right: an honest
    chain wins every divergence inside it. *)

From S2P Require Import Prelude Text Mem Cpu Interp InterpFacts Snapshot Run Chain Elf JobFmt.

Inductive Verdict : Type :=
  | Agreement
  | ClaimHonest (first_divergence : nat)
  | CounterHonest (first_divergence : nat)
  | BothDishonest (first_divergence : nat)
  | MalformedV (e : string).

(** [snapshots] reads [snap-<i>.bin] of the snapshot directory. *)
Record DisputeInput : Type := mkDispute {
  claim : WorkerResult;
  counter : WorkerResult;
  di_elf : list Z;
  di_entry : Z;
  di_input : list Z;
  di_chunk_size : Z;
  di_max_instructions : Z;
  snapshots : option (nat -> option (list Z));
}.

(** One hash of a chain; like the content identifiers it slices the string. *)
Definition decode_hash (h : string) : outcome string (list Z) :=
  if negb (str_len h =? 64) then Err ("bad hash length " +:+ pretty (str_len h))%string
  else
    mapM (fun i => b ← str_slice h (i * 2) (i * 2 + 2);
                   map_err (fun _ => "bad hex at byte " +:+ pretty i)%string (from_str_radix16 b))
      (seqZ 0 32).

Definition decode_chain (hexes : list string) : outcome string (list (list Z)) :=
  mapM decode_hash hexes.

(** The loop over [0..a.len().max(b.len())], from index [i]. *)
Fixpoint divergence_loop (n i : nat) (a b : list (list Z)) : option nat :=
  match n with
  | O => None
  | S n' =>
      match a !! i, b !! i with
      | Some x, Some y => if bool_decide (x = y) then divergence_loop n' (S i) a b else Some i
      | _, _ => Some i
      end
  end.

Definition first_divergence (a b : list (list Z)) : option nat :=
  divergence_loop (Nat.max (length a) (length b)) 0 a b.

Definition verdict_with_truth (a b : list (list Z)) (k : nat) (truth : option (list Z)) : Verdict :=
  match truth with
  | None => MalformedV "judge produced no hash at the divergence"
  | Some t =>
      match bool_decide (a !! k = Some t), bool_decide (b !! k = Some t) with
      | true, false => ClaimHonest k
      | false, true => CounterHonest k
      | true, true => Agreement
      | false, false => BothDishonest k
      end
  end.

(** [Config { chunk_size, max_instructions, ..Default::default() }] *)
Definition judge_cfg (size max : Z) : Config :=
  {| chunk_size := size; max_instructions := max; syscalls := syscalls default_config;
     snapshot_dir := snapshot_dir default_config; tohost_addr := tohost_addr default_config |}.

Section Judges.
Context `{Blake3}.

(** Parse, load and run a job; [Err tt] is the [None] of the source. *)
Definition replay (elf_bytes : list Z) (e : Z) (inp : list Z) (size max : Z) : outcome unit RunOutcome :=
  image ← map_err (fun _ => tt) (parse elf_bytes);
  match load new image with
  | (Ok _, m) =>
      match run m e inp (judge_cfg size max) with
      | Some (Ok out) => Ok out
      | _ => Panic
      end
  | (Err _, _) => Err tt
  | (Panic, _) => Panic
  end.

Definition judge_by_replay (elf_bytes : list Z) (e : Z) (inp : list Z) (size max : Z) :
    outcome unit (list (list Z)) :=
  out ← replay elf_bytes e inp size max; mret (chunk_hashes out).

Definition replay_journal (elf_bytes : list Z) (e : Z) (inp : list Z) (size max : Z) :
    outcome unit (Z * list Z) :=
  out ← replay elf_bytes e inp size max;
  mret (instructions out, default [] (Run.output out)).

(** One chunk from a verified snapshot; [agreed[i]] is in range where it is used. *)
Definition judge_by_snapshot (files : nat -> option (list Z)) (k : nat) (agreed : list (list Z)) (size : Z) :
    outcome unit (list Z) :=
  if (k =? 0)%nat || (length agreed <? k)%nat then Err tt
  else
    bytes ← ok_or (files (k - 1)%nat) tt;
    '(c, m) ← map_err (fun _ => tt) (restore bytes);
    let at_ i := default [] (agreed !! i) in
    let prev_boundary := if (k =? 1)%nat then GENESIS else at_ (k - 2)%nat in
    if negb (bool_decide (state_hash prev_boundary c m = at_ (k - 1)%nat)) then Err tt
    else
      match execute_chunk_from (Z.to_nat size) bytes (at_ (k - 1)%nat) size with
      | Some (Ok (h, _, _)) => Ok h
      | Some (Err _) => Err tt
      | _ => Panic
      end.

(** The snapshot judge first, the replay judge otherwise. *)
Definition truth_at (inp : DisputeInput) (a : list (list Z)) (k : nat) : outcome unit (list Z) :=
  let by_replay :=
    ch ← judge_by_replay (di_elf inp) (di_entry inp) (di_input inp) (di_chunk_size inp) (di_max_instructions inp);
    ok_or (ch !! k) tt in
  match snapshots inp with
  | None => by_replay
  | Some files =>
      match judge_by_snapshot files k a (di_chunk_size inp) with
      | Ok h => Ok h
      | Err _ => by_replay
      | Panic => Panic
      end
  end.

Definition resolve (inp : DisputeInput) : outcome unit Verdict :=
  match decode_chain (r_chunk_hashes (claim inp)), decode_chain (r_chunk_hashes (counter inp)) with
  | Panic, _ | _, Panic => Panic
  | Err e, _ => Ok (MalformedV e)
  | _, Err e => Ok (MalformedV e)
  | Ok a, Ok b =>
      if bool_decide (a = b) then Ok Agreement
      else
        match first_divergence a b with
        | None => Ok Agreement
        | Some k =>
            match truth_at inp a k with
            | Ok t => Ok (verdict_with_truth a b k (Some t))
            | Err _ => Ok (verdict_with_truth a b k None)
            | Panic => Panic
            end
        end
  end.
End Judges.

(** ** Optimistic acceptance *)

Inductive State : Type :=
  | Awaiting
  | Accepted (hash : string)
  | Disputed (verdict : string).

Inductive Event : Type :=
  | Challenge (v : Verdict)
  | Expire (hash : string).

(** [{:?}] of a verdict and of a state; [dbg] formats a string. *)
Definition show_verdict (dbg : string -> string) (v : Verdict) : string :=
  match v with
  | Agreement => "Agreement"
  | ClaimHonest k => "ClaimHonest { first_divergence: " +:+ pretty k +:+ " }"
  | CounterHonest k => "CounterHonest { first_divergence: " +:+ pretty k +:+ " }"
  | BothDishonest k => "BothDishonest { first_divergence: " +:+ pretty k +:+ " }"
  | MalformedV e => "Malformed(" +:+ dbg e +:+ ")"
  end.

Definition show_state (dbg : string -> string) (s : State) : string :=
  match s with
  | Awaiting => "Awaiting"
  | Accepted h => "Accepted { hash: " +:+ dbg h +:+ " }"
  | Disputed v => "Disputed { verdict: " +:+ dbg v +:+ " }"
  end.

Definition transition (dbg : string -> string) (s : State) (ev : Event) (window_open : bool) :
    outcome string State :=
  match s, ev with
  | Awaiting, Expire h =>
      if window_open then Err "window has not expired yet"%string else Ok (Accepted h)
  | Awaiting, Challenge v =>
      if negb window_open then Err "challenge arrived after the window closed"%string
      else Ok (Disputed (show_verdict dbg v))
  | s, _ => Err ("terminal state " +:+ show_state dbg s +:+ " accepts no further events")%string
  end.

Definition expire (dbg : string -> string) (s : State) (h : string) : outcome string State :=
  match s with
  | Awaiting => Ok (Accepted h)
  | s => Err ("terminal state " +:+ show_state dbg s +:+ " accepts no further events")%string
  end.

(** ** Divergence *)

Lemma divergence_loop_spec n i a b :
  take i a = take i b ->
  match divergence_loop n i a b with
  | None => take (i + n) a = take (i + n) b
  | Some k => (i <= k < i + n)%nat /\ take k a = take k b /\ (a !! k = None \/ a !! k <> b !! k)
  end.
Proof.
  revert i. induction n as [|n IH]; intros i Hi; cbn [divergence_loop].
  - by rewrite Nat.add_0_r.
  - destruct (a !! i) as [x|] eqn:Ha; [|split_and!; [lia|lia|done|by left]].
    destruct (b !! i) as [y|] eqn:Hb; [|split_and!; [lia|lia|done|right; congruence]].
    case_bool_decide as Hxy; [|split_and!; [lia|lia|done|right; congruence]]. subst y.
    specialize (IH (S i)). rewrite (take_S_r a i x Ha), (take_S_r b i x Hb), Hi in IH.
    specialize (IH eq_refl). replace (i + S n)%nat with (S i + n)%nat by lia.
    destruct (divergence_loop n (S i) a b); [|done]. destruct IH as (? & ? & ?). split_and!; [lia|lia|done|done].
Qed.

Lemma divergence_loop_bound n i a b k :
  divergence_loop n i a b = Some k -> (k < i + n)%nat.
Proof.
  revert i. induction n as [|n IH]; intros i; cbn [divergence_loop]; [done|].
  repeat case_match; intros; simplify_eq; try lia. apply IH in H2. lia.
Qed.

Lemma first_divergence_spec a b :
  match first_divergence a b with
  | None => a = b
  | Some k => take k a = take k b /\ a !! k <> b !! k
  end.
Proof.
  unfold first_divergence. pose proof (divergence_loop_spec (Nat.max (length a) (length b)) 0 a b eq_refl) as Hs.
  destruct (divergence_loop _ _ _ _) as [k|] eqn:E.
  - destruct Hs as (Hk & Ht & [Hn|Hne]); (split; [done|]); [|done].
    rewrite Hn. intros Hb. symmetry in Hb. apply lookup_ge_None in Hn, Hb. lia.
  - simpl in Hs. by rewrite !take_ge in Hs by lia.
Qed.

Lemma verdict_sides a b k t :
  a !! k <> b !! k ->
  match verdict_with_truth a b k (Some t) with
  | ClaimHonest j => j = k /\ a !! k = Some t /\ b !! k <> Some t
  | CounterHonest j => j = k /\ b !! k = Some t /\ a !! k <> Some t
  | BothDishonest j => j = k /\ a !! k <> Some t /\ b !! k <> Some t
  | _ => False
  end.
Proof.
  intros Hne. unfold verdict_with_truth. repeat case_bool_decide; try done. congruence.
Qed.

(** ** The judges *)

Section Facts.
Context `{Blake3}.

Lemma judge_cfg_job size max : job_config (judge_cfg size max).
Proof. done. Qed.

(** A job writes to no tohost device. *)
Lemma judge_no_tohost m e inp size max out v :
  run m e inp (judge_cfg size max) = Some (Ok out) -> status out <> Tohost v.
Proof.
  intros (m' & i & sf & s & st & _ & _ & Hs & ->)%run_outcome.
  assert (st <> Tohost v) as Hst.
  { unfold run_iter in Hs. case_match; [by injection Hs as _ <-|]. destruct (step_mode _ _ _) as [r [c mm]].
    simpl in Hs. repeat case_match; by simplify_eq. }
  unfold finish. repeat case_match; simpl; by bools.
Qed.

(** A snapshot that passes the preimage check against an honest link, and yet differs from
    the state behind it, exhibits a BLAKE3 collision. *)
Definition snapshot_collision (files : nat -> option (list Z)) (k : nat) (s0 : RunState) (cfg : Config)
    (ch : list (list Z)) : Prop :=
  exists bytes c m s, files (k - 1)%nat = Some bytes /\ restore bytes = Ok (c, m) /\
    link_at cfg s0 ch (k - 1) s /\
    (collision blake3 (state_preimage (last_hash (take (k - 1) ch)) c m)
                      (state_preimage (last_hash (take (k - 1) ch)) (r_cpu s) (r_mem s)) \/
     collision blake3 (root_preimage m) (root_preimage (r_mem s))).

Lemma last_hash_take ch k :
  (0 < k)%nat -> (k <= length ch)%nat -> last_hash (take k ch) = default [] (ch !! (k - 1)%nat).
Proof.
  intros H0 Hk. destruct (lookup_lt_is_Some_2 ch (k - 1)) as [x Hx]; [lia|].
  replace k with (S (k - 1)) at 1 by lia. rewrite (take_S_r ch (k - 1) x Hx), last_hash_snoc. by rewrite Hx.
Qed.

Lemma last_hash_len cfg s0 i s :
  r_chain s0 = [] -> r_prev s0 = GENESIS -> iters i cfg s0 = Some s ->
  forall n, length (last_hash (take n (r_chain s))) = 32%nat.
Proof.
  intros Hc Hp Hi n. destruct (chain_links _ _ _ _ Hc Hp Hi) as [_ Hl].
  destruct n as [|n]; [done|]. destruct (decide (n < length (r_chain s))%nat) as [Hlt|Hge].
  - destruct (Hl n Hlt) as (sj & _ & _ & _ & _ & Hh). rewrite (take_S_r _ _ _ Hh), last_hash_snoc.
    apply blake3_len.
  - destruct (r_chain s) as [|h0 t] eqn:E using rev_ind; [done|].
    rewrite take_ge by lia. rewrite last_hash_snoc.
    destruct (Hl (length t)) as (sj & _ & _ & _ & _ & Hh); [rewrite length_app; simpl; lia|].
    rewrite lookup_app_r, Nat.sub_diag in Hh by lia. injection Hh as ->. apply blake3_len.
Qed.

(** The snapshot judge, on an honest prefix: it gives up, or it finds the honest next link, or
    the snapshot is a collision. *)
Lemma judge_by_snapshot_honest files m e inp size max out m' k :
  mem_wf m -> syscall_log m = [] -> is_u64 e -> Forall is_byte inp -> 0 < size -> 0 <= max ->
  run m e inp (judge_cfg size max) = Some (Ok out) ->
  (status out = InstructionLimit -> (S k < length (chunk_hashes out))%nat) ->
  install m inp = Some m' -> unrouted_in (judge_cfg size max) (init_run m' e) k ->
  (forall i bytes, files i = Some bytes -> Forall is_byte bytes) ->
  (k < length (chunk_hashes out))%nat ->
  match judge_by_snapshot files k (chunk_hashes out) size with
  | Ok h => chunk_hashes out !! k = Some h \/
            snapshot_collision files k (init_run m' e) (judge_cfg size max) (chunk_hashes out)
  | Err _ => True
  | Panic => snapshot_collision files k (init_run m' e) (judge_cfg size max) (chunk_hashes out)
  end.
Proof.
  intros Wm Hlog He Hinp Hsz Hmax Hrun Hst Hins Hun Hfiles Hk. unfold judge_by_snapshot.
  destruct ((k =? 0)%nat || (length (chunk_hashes out) <? k)%nat) eqn:Hg; [done|].
  apply orb_false_iff in Hg as [Hk0%Nat.eqb_neq _].
  destruct (files (k - 1)%nat) as [bytes|] eqn:Hf; [|done]. simpl.
  destruct (restore bytes) as [[c mm]|?|] eqn:Hr; simpl; [|done|].
  2: { pose proof (restore_total bytes (Hfiles _ _ Hf)) as Hp. by rewrite Hr in Hp. }
  destruct (run_link m e inp _ out (k - 1) Hrun) as (m'' & s & Hins' & Hlink); [lia|].
  rewrite Hins in Hins'. injection Hins' as <-.
  set (ch := chunk_hashes out) in *.
  assert ((if (k =? 1)%nat then GENESIS else default [] (ch !! (k - 2)%nat)) = last_hash (take (k - 1) ch)) as Hprev.
  { destruct (Nat.eqb_spec k 1) as [->|]; [done|]. rewrite last_hash_take by lia. do 2 f_equal. lia. }
  rewrite Hprev. pose proof Hlink as ([i0 Hreach] & Hcs & Hks & Hps & Hhs).
  rewrite Hhs. cbn [default]. case_bool_decide as Hsh; [|done]. cbn [negb id] in *.
  destruct (install_wf m inp m' Wm Hinp Hins) as [Wm' Hlog'].
  destruct (iters_wf i0 _ _ s (judge_cfg_job size max) (init_run_wf m' e Wm' ltac:(congruence) He) Hreach)
    as (Wc & Wms & Hth & Hlg).
  assert (length (last_hash (take (k - 1) ch)) = 32%nat) as Hlen.
  { pose proof (last_hash_len (judge_cfg size max) (init_run m' e) i0 s eq_refl eq_refl Hreach (k - 1)) as Hl. rewrite Hcs in Hl.
    rewrite take_take, Nat.min_l in Hl by lia. done. }
  destruct (restored_binds bytes c mm _ (r_cpu s) (r_mem s) _ (Hfiles _ _ Hf) Hr Hlen Hlen Wc Wms Hth Hlg Hsh)
    as [(_ & Hc & Hm)|Hcol].
  2: { assert (snapshot_collision files k (init_run m' e) (judge_cfg size max) ch)
         by (exists bytes, c, mm, s; by split_and!).
       repeat case_match; auto. }
  unfold execute_chunk_from. rewrite Hr.
  rewrite (chunk_loop_equiv _ _ _ (c, mm) (r_cpu s, r_mem s)) by (split_and!; subst; done).
  assert (state_hash (last_hash (take (k - 1) ch)) (r_cpu s) (r_mem s) = r_prev s) as ->.
  { rewrite Hps, (last_hash_take ch (S (k - 1))) by lia. replace (S (k - 1) - 1)%nat with (k - 1)%nat by lia. by rewrite Hhs. }
  destruct (chunk_loop_total (Z.to_nat size) (r_prev s) size (r_cpu s, r_mem s) 0 0) as [r Hl]; [lia..|].
  rewrite Hl. pose proof (chunk_loop_not_err _ _ _ _ _ _ _ Hl) as Hne.
  replace k with (S (k - 1)) in Hst, Hun, Hk |- * by lia.
  destruct r as [[[h en] n]|?|]; [left|done|exfalso].
  - by eapply (judged_next (Z.to_nat size) m e inp (judge_cfg size max)).
  - by eapply (finished_no_panic (Z.to_nat size) m e inp (judge_cfg size max)).
Qed.

(** The memory of a job at its first instruction. *)
Definition job_memory (elf_bytes inp : list Z) : option Mem :=
  match parse elf_bytes with
  | Ok image => match load new image with (Ok _, m) => install m inp | _ => None end
  | _ => None
  end.

Lemma replay_inv elf_bytes e inp size max out :
  Forall is_byte elf_bytes -> replay elf_bytes e inp size max = Ok out ->
  exists m m', run m e inp (judge_cfg size max) = Some (Ok out) /\ mem_wf m /\ syscall_log m = [] /\
    install m inp = Some m' /\ job_memory elf_bytes inp = Some m'.
Proof.
  intros Hb. unfold replay, job_memory. pose proof (parse_post elf_bytes Hb) as Hp.
  destruct (parse elf_bytes) as [img|?|]; [|done..]. simpl.
  destruct Hp as (_ & _ & Hs & _). unfold load.
  destruct (load_segments_ok new (segments img) elf_bytes new_wf Hs) as (m & -> & W & _ & Hl).
  destruct (run m e inp (judge_cfg size max)) as [[o|?|]|] eqn:Hr; try done. intros [= ->].
  destruct (run_outcome _ _ _ _ _ Hr) as (m' & _ & _ & _ & _ & Hi & _). eauto 10.
Qed.

(** The claim's side at a divergence that the judges cannot get wrong. *)
Lemma resolve_truth inp a b k t :
  decode_chain (r_chunk_hashes (claim inp)) = Ok a -> decode_chain (r_chunk_hashes (counter inp)) = Ok b ->
  first_divergence a b = Some k -> truth_at inp a k = Ok t ->
  resolve inp = Ok (verdict_with_truth a b k (Some t)).
Proof.
  intros Ha Hb Hk Ht. unfold resolve. rewrite Ha, Hb.
  pose proof (first_divergence_spec a b) as Hs. rewrite Hk in Hs. destruct Hs as [_ Hne].
  rewrite bool_decide_false by congruence. by rewrite Hk, Ht.
Qed.

Lemma verdict_claim a b k t :
  a !! k = Some t -> a !! k <> b !! k -> verdict_with_truth a b k (Some t) = ClaimHonest k.
Proof.
  intros Ha Hne. unfold verdict_with_truth. rewrite bool_decide_true by done.
  rewrite bool_decide_false by congruence. done.
Qed.

(** A job whose run enters no trap handler of the guest in chunk [k]. *)
Definition unrouted_chunk (elf_bytes : list Z) (e : Z) (inp : list Z) (size max : Z) (k : nat) : Prop :=
  forall m', job_memory elf_bytes inp = Some m' -> unrouted_in (judge_cfg size max) (init_run m' e) k.

(** The submitted snapshot of boundary [k-1] collides with the state of the honest run. *)
Definition dispute_collision (inp : DisputeInput) (ch : list (list Z)) (k : nat) : Prop :=
  exists files m', snapshots inp = Some files /\ job_memory (di_elf inp) (di_input inp) = Some m' /\
    snapshot_collision files k (init_run m' (di_entry inp))
      (judge_cfg (di_chunk_size inp) (di_max_instructions inp)) ch.

(** C19. The dispute game is sound: when the claim's chain is the chain of the job's run, then
    against any counter chain and any submitted snapshots the claim wins a divergence at link
    [k] of its chain, unless the snapshot it is judged by is an explicit BLAKE3 collision with
    the honest state, in two cases only under a condition: a run that ended at its instruction
    limit wins at every link but its last, and a run wins at a link whose chunk routes no trap
    to a handler of the guest.  Both conditions are needed ([limit_link_loses],
    [routed_link_loses]). *)
Theorem honest_claim_wins inp out b k :
  let ch := chunk_hashes out in
  Forall is_byte (di_elf inp) -> Forall is_byte (di_input inp) -> is_u64 (di_entry inp) ->
  0 < di_chunk_size inp -> 0 <= di_max_instructions inp ->
  (forall files i bytes, snapshots inp = Some files -> files i = Some bytes -> Forall is_byte bytes) ->
  replay (di_elf inp) (di_entry inp) (di_input inp) (di_chunk_size inp) (di_max_instructions inp) = Ok out ->
  (status out = InstructionLimit -> (S k < length ch)%nat) ->
  unrouted_chunk (di_elf inp) (di_entry inp) (di_input inp) (di_chunk_size inp) (di_max_instructions inp) k ->
  decode_chain (r_chunk_hashes (claim inp)) = Ok ch ->
  decode_chain (r_chunk_hashes (counter inp)) = Ok b ->
  first_divergence ch b = Some k -> (k < length ch)%nat ->
  resolve inp = Ok (ClaimHonest k) \/ dispute_collision inp ch k.
Proof.
  intros ch Helf Hin He Hsz Hmax Hfiles Hrep Hst Hun Ha Hb Hk Hlt.
  destruct (replay_inv _ _ _ _ _ _ Helf Hrep) as (m & m' & Hrun & W & Hlog & Hins & Hjm).
  pose proof (first_divergence_spec ch b) as Hs. rewrite Hk in Hs. destruct Hs as [_ Hne].
  destruct (lookup_lt_is_Some_2 ch k Hlt) as [t Ht].
  assert ((ch0 ← judge_by_replay (di_elf inp) (di_entry inp) (di_input inp) (di_chunk_size inp) (di_max_instructions inp);
           ok_or (ch0 !! k) tt) = Ok t) as Hbr.
  { unfold judge_by_replay. rewrite Hrep. simpl. fold ch. by rewrite Ht. }
  assert (truth_at inp ch k = Ok t \/ dispute_collision inp ch k) as [Htr|]; [|left|by right].
  2: { rewrite (resolve_truth inp ch b k t) by done. by rewrite (verdict_claim ch b k t). }
  unfold truth_at. rewrite Hbr. destruct (snapshots inp) as [files|] eqn:Hsn; [|by left].
  pose proof (judge_by_snapshot_honest files m (di_entry inp) (di_input inp) (di_chunk_size inp)
    (di_max_instructions inp) out m' k W Hlog He Hin Hsz Hmax Hrun Hst Hins (Hun m' Hjm)
    (fun i bytes => Hfiles files i bytes eq_refl) Hlt) as Hj. fold ch in Hj.
  destruct (judge_by_snapshot files k ch (di_chunk_size inp)) as [h|?|].
  - destruct Hj as [Hj|Hcol]; [left; congruence|right; exists files, m'; by rewrite Hsn].
  - by left.
  - right. exists files, m'. by rewrite Hsn.
Qed.

(** The replay judge, for both sides: with no snapshots, a disagreement is decided at the
    first index where the chains differ, by the chain of the judge's own run, and the side
    declared honest committed the true link there while the other did not. *)
Theorem resolve_by_replay inp a b ch :
  snapshots inp = None -> a <> b ->
  decode_chain (r_chunk_hashes (claim inp)) = Ok a -> decode_chain (r_chunk_hashes (counter inp)) = Ok b ->
  judge_by_replay (di_elf inp) (di_entry inp) (di_input inp) (di_chunk_size inp) (di_max_instructions inp) = Ok ch ->
  exists k v, resolve inp = Ok v /\ take k a = take k b /\ a !! k <> b !! k /\
    match v with
    | ClaimHonest j => j = k /\ a !! k = ch !! k /\ b !! k <> ch !! k
    | CounterHonest j => j = k /\ b !! k = ch !! k /\ a !! k <> ch !! k
    | BothDishonest j => j = k /\ a !! k <> ch !! k /\ b !! k <> ch !! k
    | MalformedV _ => ch !! k = None
    | Agreement => False
    end.
Proof.
  intros Hsn Hne Ha Hb Hj. pose proof (first_divergence_spec a b) as Hs.
  destruct (first_divergence a b) as [k|] eqn:Hk; [|done]. destruct Hs as [Htk Hdk]. exists k.
  assert (truth_at inp a k = ok_or (ch !! k) tt) as Ht by (unfold truth_at; by rewrite Hsn, Hj).
  destruct (ch !! k) as [t|] eqn:Hck; simpl in Ht.
  - exists (verdict_with_truth a b k (Some t)). split; [by apply resolve_truth|].
    pose proof (verdict_sides a b k t Hdk) as Hv. split_and!; [done..|].
    by destruct (verdict_with_truth a b k (Some t)).
  - eexists. split; [|split_and!; [done|done|]].
    + unfold resolve. rewrite Ha, Hb, bool_decide_false by done. by rewrite Hk, Ht.
    + done.
Qed.
End Facts.

(** ** The challenge window *)

(** Events arrive one by one, each with the state of the window at its time; a refused event
    leaves the state as it is. *)
Definition opt_step (dbg : string -> string) (s : State) (x : Event * bool) : State :=
  match transition dbg s x.1 x.2 with Ok s' => s' | _ => s end.

Definition opt_run (dbg : string -> string) (evs : list (Event * bool)) : State := foldl (opt_step dbg) Awaiting evs.

(** The window is open for the events [before] and closed for the events [later]. *)
Definition window (before later : list Event) : list (Event * bool) :=
  ((fun ev => (ev, true)) <$> before) ++ ((fun ev => (ev, false)) <$> later).

Definition challenge_of (ev : Event) : option Verdict := match ev with Challenge v => Some v | _ => None end.
Definition expiry_of (ev : Event) : option string := match ev with Expire h => Some h | _ => None end.

Lemma opt_terminal dbg s evs : s <> Awaiting -> foldl (opt_step dbg) s evs = s.
Proof.
  intros Hs. induction evs as [|[ev w] evs IH]; [done|]. simpl.
  replace (opt_step dbg s (ev, w)) with s; [done|]. by destruct s, ev, w.
Qed.

Lemma opt_open dbg evs :
  foldl (opt_step dbg) Awaiting ((fun ev => (ev, true)) <$> evs) =
  match head (omap challenge_of evs) with Some v => Disputed (show_verdict dbg v) | None => Awaiting end.
Proof.
  induction evs as [|[v|h] evs IH]; [done| |done]. csimpl. by rewrite opt_terminal.
Qed.

Lemma opt_closed dbg evs :
  foldl (opt_step dbg) Awaiting ((fun ev => (ev, false)) <$> evs) =
  match head (omap expiry_of evs) with Some h => Accepted h | None => Awaiting end.
Proof.
  induction evs as [|[v|h] evs IH]; [done|done|]. csimpl. by rewrite opt_terminal.
Qed.

(** The challenge window decides, over every sequence of events: a result is disputed
    exactly by the first challenge that arrives while the window is open, with its verdict;
    without one it is accepted by the first expiry after the window closed; otherwise it is
    still awaiting.  Late challenges and early expiries change nothing. *)
Theorem window_decides dbg before later :
  opt_run dbg (window before later) =
  match head (omap challenge_of before), head (omap expiry_of later) with
  | Some v, _ => Disputed (show_verdict dbg v)
  | None, Some h => Accepted h
  | None, None => Awaiting
  end.
Proof.
  unfold opt_run, window. rewrite foldl_app, opt_open.
  destruct (head (omap challenge_of before)); [by apply opt_terminal|apply opt_closed].
Qed.

(** ** Concrete instances *)

(** [addi x1, x0, 5; addi x1, x0, 5; ebreak], two instructions per chunk. *)
Definition demo_job_elf : list Z :=
  make_elf 0x1000 [(0x1000, [0x93; 0x00; 0x50; 0x00; 0x93; 0x00; 0x50; 0x00; 0x73; 0x00; 0x10; 0x00])].

Definition demo_out : option RunOutcome := ok (@replay toy_blake3 demo_job_elf 0x1000 [7] 2 100).

Definition chain_result (chain : list (list Z)) : WorkerResult := {|
  worker_id := "w"; job_id := "j"; r_status := "halted"; r_instructions := 3;
  result_hash := "aa"; r_chunk_hashes := hex <$> chain; output_hex := None; trap := None;
  pubkey_hex := None; sig_hex := None |}.

Definition demo_chain : list (list Z) := default [] (chunk_hashes <$> demo_out).

(** The machine at the first chunk boundary and at the halt. *)
Definition demo_snap (i : nat) : list Z :=
  match job_memory demo_job_elf [7] with
  | Some m' =>
      match iters (H := toy_blake3) 2 (judge_cfg 2 100) (init_run m' 0x1000) with
      | Some s =>
          if (i =? 0)%nat then capture (r_cpu s) (r_mem s)
          else let '(_, (c, m)) := step (r_cpu s, r_mem s) in capture c m
      | None => []
      end
  | None => []
  end.

Definition demo_files (i : nat) : option (list Z) := Some (demo_snap i).

(** The counter claims another last link. *)
Definition demo_dispute : DisputeInput := {|
  claim := chain_result demo_chain;
  counter := chain_result (take 1 demo_chain ++ [replicate 32 9]);
  di_elf := demo_job_elf; di_entry := 0x1000; di_input := [7]; di_chunk_size := 2;
  di_max_instructions := 100;
  snapshots := Some demo_files |}.

Definition bytes_ok (l : list Z) : bool := forallb (fun b => (0 <=? b) && (b <? 256)) l.

Lemma bytes_ok_Forall l : bytes_ok l = true -> Forall is_byte l.
Proof.
  unfold bytes_ok. rewrite forallb_forall. intros Hl. apply Forall_forall. intros b Hb.
  specialize (Hl b). rewrite <- list_elem_of_In in Hl. specialize (Hl Hb). bools. split; [done|].
  by change (2 ^ 8) with 256.
Qed.

Lemma demo_unrouted k : @unrouted_chunk toy_blake3 demo_job_elf 0x1000 [7] 2 100 k.
Proof.
  assert (match job_memory demo_job_elf [7] with
          | Some m' => trapless (H := toy_blake3) 3 (judge_cfg 2 100) (init_run m' 0x1000)
          | None => true end = true) as Ht by (vm_compute; reflexivity).
  intros m' Hm. rewrite Hm in Ht. by eapply unrouted_everywhere, trapless_unrouted.
Qed.

Lemma demo_snap_bytes i : Forall is_byte (demo_snap i).
Proof.
  apply bytes_ok_Forall. unfold demo_snap. destruct i as [|i]; [vm_compute; reflexivity|].
  change (S i =? 0)%nat with false. cbv iota. vm_compute. reflexivity.
Qed.

Lemma demo_files_bytes files i bytes :
  snapshots demo_dispute = Some files -> files i = Some bytes -> Forall is_byte bytes.
Proof.
  unfold demo_dispute. cbn [snapshots]. intros [= <-]. unfold demo_files.
  generalize (demo_snap_bytes i). generalize (demo_snap i). intros l Hl Hb. by injection Hb as <-.
Qed.

Lemma honest_claim_wins_witness :
  exists out, demo_out = Some out /\
    (@resolve toy_blake3 demo_dispute = Ok (ClaimHonest 1) \/
     @dispute_collision toy_blake3 demo_dispute (chunk_hashes out) 1).
Proof.
  destruct (@replay toy_blake3 demo_job_elf 0x1000 [7] 2 100) as [out|?|] eqn:Hr;
    [|exfalso; assert (is_Some demo_out) as [? Hd] by (vm_compute; eauto); unfold demo_out in Hd; by rewrite Hr in Hd..].
  assert (demo_out = Some out) as Ho by (unfold demo_out; by rewrite Hr). exists out. split; [exact Ho|].
  assert (chunk_hashes out = demo_chain) as Hc by (unfold demo_chain; by rewrite Ho).
  assert (status <$> demo_out = Some Halted) as Hst by (vm_compute; reflexivity).
  rewrite Ho in Hst. injection Hst as Hst. rewrite Hc.
  rewrite <- Hc at 1. apply (@honest_claim_wins toy_blake3 demo_dispute out (take 1 demo_chain ++ [replicate 32 9])).
  - apply bytes_ok_Forall. vm_compute. reflexivity.
  - apply bytes_ok_Forall. vm_compute. reflexivity.
  - split; vm_compute; [discriminate|reflexivity].
  - reflexivity.
  - vm_compute. discriminate.
  - exact demo_files_bytes.
  - exact Hr.
  - rewrite Hst. discriminate.
  - exact (demo_unrouted 1).
  - rewrite Hc. vm_compute. reflexivity.
  - vm_compute. reflexivity.
  - rewrite Hc. vm_compute. reflexivity.
  - rewrite Hc. apply Nat.ltb_lt. vm_compute. reflexivity.
Defined.

Definition demo_replay_dispute : DisputeInput := {|
  claim := chain_result [replicate 32 9]; counter := chain_result demo_chain;
  di_elf := demo_job_elf; di_entry := 0x1000; di_input := [7]; di_chunk_size := 2;
  di_max_instructions := 100; snapshots := None |}.

Lemma resolve_by_replay_witness :
  exists k v, @resolve toy_blake3 demo_replay_dispute = Ok v /\
    take k [replicate 32 9] = take k demo_chain /\ [replicate 32 9] !! k <> demo_chain !! k /\
    match v with
    | ClaimHonest j => j = k /\ [replicate 32 9] !! k = demo_chain !! k /\ demo_chain !! k <> demo_chain !! k
    | CounterHonest j => j = k /\ demo_chain !! k = demo_chain !! k /\ [replicate 32 9] !! k <> demo_chain !! k
    | BothDishonest j => j = k /\ [replicate 32 9] !! k <> demo_chain !! k /\ demo_chain !! k <> demo_chain !! k
    | MalformedV _ => demo_chain !! k = None
    | Agreement => False
    end.
Proof.
  apply (@resolve_by_replay toy_blake3 demo_replay_dispute [replicate 32 9] demo_chain demo_chain).
  - reflexivity.
  - vm_compute. discriminate.
  - vm_compute. reflexivity.
  - vm_compute. reflexivity.
  - vm_compute. reflexivity.
Defined.

(** The honest chain extended by one more hash of the halted machine. *)
Definition extended_dispute : DisputeInput := {|
  claim := chain_result demo_chain;
  counter := chain_result (demo_chain ++
    [match @restore (demo_snap 1) with
     | Ok (c, m) => @state_hash toy_blake3 (@last_hash demo_chain) c m
     | _ => [] end]);
  di_elf := demo_job_elf; di_entry := 0x1000; di_input := [7]; di_chunk_size := 2;
  di_max_instructions := 100;
  snapshots := Some demo_files |}.

(** A chain that goes on after the halt beats the honest chain at the snapshot judge: the
    judge re-executes the halted machine, which halts again and hashes to the extra link.
    The replay judge, for its part, has no hash there and cannot name a winner. *)
Lemma snapshot_judge_accepts_extension :
  @resolve toy_blake3 extended_dispute = Ok (CounterHonest 2) /\
  @judge_by_replay toy_blake3 demo_job_elf 0x1000 [7] 2 100 = Ok demo_chain /\
  decode_chain (r_chunk_hashes (claim extended_dispute)) = Ok demo_chain.
Proof. split_and!; vm_compute; reflexivity. Qed.

(** Five instructions, of which the budget allows three: the second chunk of two is cut in the
    middle. *)
Definition limited_elf : list Z :=
  make_elf 0x1000 [(0x1000, concat (replicate 4 [0x93; 0x80; 0x10; 0x00]) ++ [0x73; 0x00; 0x10; 0x00])].

Definition limited_chain : list (list Z) :=
  default [] (chunk_hashes <$> ok (@replay toy_blake3 limited_elf 0x1000 [7] 2 3)).

(** The machine after the first chunk. *)
Definition limited_snap : option (list Z) :=
  m' ← job_memory limited_elf [7]; s ← iters (H := toy_blake3) 2 (judge_cfg 2 3) (init_run m' 0x1000);
  Some (capture (r_cpu s) (r_mem s)).

(** The counter executes the second chunk to its end, past the budget. *)
Definition limited_dispute : DisputeInput := {|
  claim := chain_result limited_chain;
  counter := chain_result (take 2 (default [] (chunk_hashes <$> ok (@replay toy_blake3 limited_elf 0x1000 [7] 2 100))));
  di_elf := limited_elf; di_entry := 0x1000; di_input := [7]; di_chunk_size := 2; di_max_instructions := 3;
  snapshots := Some (fun _ => limited_snap) |}.

(** The last link of an honest run that reached its limit loses at the snapshot judge, which
    knows no budget, and wins at the replay judge. *)
Lemma limit_link_loses :
  status <$> ok (@replay toy_blake3 limited_elf 0x1000 [7] 2 3) = Some InstructionLimit /\
  decode_chain (r_chunk_hashes (claim limited_dispute)) = Ok limited_chain /\ length limited_chain = 2%nat /\
  @resolve toy_blake3 limited_dispute = Ok (CounterHonest 1) /\
  @judge_by_replay toy_blake3 limited_elf 0x1000 [7] 2 3 = Ok limited_chain.
Proof. split_and!; vm_compute; reflexivity. Qed.

(** [auipc x5, 0; addi x5, x5, 16; csrrw x0, mtvec, x5; ecall; ebreak]: the guest installs the
    address of its last instruction as its trap handler, and traps. *)
Definition routed_elf : list Z :=
  make_elf 0x1000 [(0x1000, [0x97; 0x02; 0x00; 0x00; 0x93; 0x82; 0x02; 0x01; 0x73; 0x90; 0x52; 0x30;
                             0x73; 0x00; 0x00; 0x00; 0x73; 0x00; 0x10; 0x00])].

Definition routed_chain : list (list Z) :=
  default [] (chunk_hashes <$> ok (@replay toy_blake3 routed_elf 0x1000 [7] 2 100)).

Definition routed_snap : option (list Z) :=
  m' ← job_memory routed_elf [7]; s ← iters (H := toy_blake3) 2 (judge_cfg 2 100) (init_run m' 0x1000);
  Some (capture (r_cpu s) (r_mem s)).

(** The counter commits the state at the trap. *)
Definition routed_dispute : DisputeInput := {|
  claim := chain_result routed_chain;
  counter := chain_result (take 1 routed_chain ++
    [match routed_snap ≫= fun bytes => execute_chunk_from (H := toy_blake3) 2 bytes (last_hash (take 1 routed_chain)) 2 with
     | Some (Ok (h, _, _)) => h | _ => [] end]);
  di_elf := routed_elf; di_entry := 0x1000; di_input := [7]; di_chunk_size := 2; di_max_instructions := 100;
  snapshots := Some (fun _ => routed_snap) |}.

(** A trap that the guest handles ends the chunk of the snapshot judge, so that the link of an
    honest, halted run loses there. *)
Lemma routed_link_loses :
  status <$> ok (@replay toy_blake3 routed_elf 0x1000 [7] 2 100) = Some Halted /\
  decode_chain (r_chunk_hashes (claim routed_dispute)) = Ok routed_chain /\ length routed_chain = 2%nat /\
  @resolve toy_blake3 routed_dispute = Ok (CounterHonest 1) /\
  @judge_by_replay toy_blake3 routed_elf 0x1000 [7] 2 100 = Ok routed_chain.
Proof. split_and!; vm_compute; reflexivity. Qed.
