(* ===== verification/ZkJudge.v ===== *)
(** * Receipts and the zk judge (crates/coordinator/src/receipt.rs, zk_judge.rs)

    A receipt is checked by an external verifier process on an exclusively created temporary
    file; a dispute can be settled by an external prover.  Neither process is trusted with
    the digest: the coordinator recomputes it and checks that the verdict is about this job.
    The processes, the temporary directory's disk and the JSON codec are parameters. *)

From S2P Require Import Prelude Text JobFmt ContentStore Quorum.

(** ** External processes *)

(** How waiting for a child process ends: it exited (with the text of its status), the time
    limit passed and it was killed, or waiting failed. *)
Inductive proc_end : Type :=
  | Exited (success : bool) (shown : string)
  | TimedOut
  | WaitFailed (e : string).

(** A finished process: its end, its output, and the files it wrote, by path. *)
Record proc_run : Type := mkRun {
  p_end : proc_end;
  p_stdout : list Z;
  p_stderr : string;
  p_files : Dir;
}.

(** Spawning a command with its arguments.  The files it can read are passed to it: a run is
    a function of the command, its arguments and the files. *)
Class Procs : Type := {
  spawn : string -> list string -> Dir -> outcome string proc_run;
}.

(** The temporary directory's disk: creating it, creating a file that does not exist, and
    writing one (the result, and what the file holds then). *)
Class TmpOs : Type := {
  pid : string;
  tmp_root : string;
  tmp_mkdir : outcome string unit;
  tmp_create : string -> outcome string unit;
  tmp_write : string -> list Z -> outcome string unit * list Z;
}.

(** ** Receipt verification *)

Record ReceiptOutcome : Type := mkReceipt {
  ro_status : Z;
  ro_instructions : Z;
  ro_chunk_hashes : list string;
  ro_output_hex : string;
}.

Definition MAX_RECEIPT_BYTES : Z := 64 * 1024 * 1024.

(** [Verdict] of the verifier's standard output. *)
Record RVerdict : Type := mkVerdict {
  v_ok : bool;
  v_error : option string;
  v_status : option Z;
  v_instructions : option Z;
  v_chain : option (list string);
  v_output_hex : option string;
}.

(** The global counter and the files of the temporary directory. *)
Record Tmp : Type := mkTmp {
  tmp_counter : Z;
  tmp_files : Dir;
}.

(** [String::from_utf8_lossy(bytes).trim()] *)
Definition text_of (bytes : list Z) : list Z := trim (utf8_lossy bytes).

Definition hex_upper (bytes : list Z) : string :=
  from_bytes ((fun c => if 97 <=? c then c - 32 else c) <$> hex_bytes bytes).

Section Receipt.
Context `{TmpOs} `{Procs} `{Json RVerdict}.

Definition receipt_name (n : Z) : string :=
  "receipt-" +:+ pid +:+ "-" +:+ pretty n +:+ ".bin".

(** The loop over the 32 attempts. *)
Fixpoint exclusive_loop (attempts : nat) (bytes : list Z) : M Tmp string string := fun t =>
  match attempts with
  | O => (Err "could not create a unique receipt temp file"%string, t)
  | S rest =>
      let name := receipt_name (tmp_counter t) in
      let t1 := {| tmp_counter := wrap 64 (tmp_counter t + 1); tmp_files := tmp_files t |} in
      match tmp_files t !! name with
      | Some _ => exclusive_loop rest bytes t1
      | None =>
          match tmp_create name with
          | Err e => (Err ("receipt create: " +:+ e)%string, t1)
          | Panic => (Panic, t1)
          | Ok _ =>
              let '(res, stored) := tmp_write name bytes in
              let t2 := {| tmp_counter := tmp_counter t1; tmp_files := <[name := stored]> (tmp_files t) |} in
              match res with
              | Ok _ => (Ok name, t2)
              | Err e => (Err ("receipt write: " +:+ e)%string, t2)
              | Panic => (Panic, t2)
              end
          end
      end
  end.

Definition exclusive_receipt_file (bytes : list Z) : M Tmp string string :=
  _ ← lift (map_err (fun e => "zk verify dir: " +:+ e)%string tmp_mkdir);
  exclusive_loop 32 bytes.

Definition tmp_path (name : string) : string := tmp_root +:+ "/p2pc-zk-verify/" +:+ name.

Definition remove_tmp (name : string) (t : Tmp) : Tmp :=
  {| tmp_counter := tmp_counter t; tmp_files := delete name (tmp_files t) |}.

(** From the end of the verifier process to the outcome. *)
Definition verdict_outcome (p : proc_run) : outcome string ReceiptOutcome :=
  match p_end p with
  | WaitFailed e => Err ("zk verifier wait: " +:+ e)%string
  | TimedOut => Err "zk verifier exceeded the 180s time limit — claim rejected"%string
  | Exited false _ => Err ("zk verifier failed: " +:+ from_bytes (text_of (p_stdout p)))%string
  | Exited true _ =>
      v ← map_err (fun e => "zk verifier output: " +:+ e)%string (from_slice (text_of (p_stdout p)));
      if negb (v_ok v) then Err (default "receipt rejected"%string (v_error v))
      else
        st ← ok_or (v_status v) "verdict missing status"%string;
        n ← ok_or (v_instructions v) "verdict missing instructions"%string;
        ch ← ok_or (v_chain v) "verdict missing chain"%string;
        o ← ok_or (v_output_hex v) "verdict missing output"%string;
        mret {| ro_status := st; ro_instructions := n; ro_chunk_hashes := ch; ro_output_hex := o |}
  end.

Definition verify_args (guest_elf name : string) (binding : list (list Z)) (v2 : bool) : list string :=
  guest_elf :: tmp_path name :: (if v2 then ["--v2"%string] else []) ++ (hex_upper <$> binding).

(** Run the verifier on the written file, then remove the file. *)
Definition run_verifier (cmd guest_elf : string) (binding : list (list Z)) (v2 : bool) (name : string) :
    M Tmp string ReceiptOutcome := fun t =>
  match spawn cmd (verify_args guest_elf name binding v2) (tmp_files t) with
  | Err e => (Err ("zk verifier spawn (" +:+ cmd +:+ "): " +:+ e)%string, remove_tmp name t)
  | Panic => (Panic, t)
  | Ok p => (verdict_outcome p, remove_tmp name t)
  end.

Definition verify_receipt (cmd : string) (receipt_bytes : list Z) (binding : list (list Z))
    (guest_elf : string) (v2 : bool) : M Tmp string ReceiptOutcome :=
  if MAX_RECEIPT_BYTES <? Z.of_nat (length receipt_bytes) then
    Prelude.mfail ("receipt claim " +:+ pretty (Z.of_nat (length receipt_bytes)) +:+
      " bytes exceeds the " +:+ pretty MAX_RECEIPT_BYTES +:+ " byte limit")%string
  else
    name ← exclusive_receipt_file receipt_bytes;
    run_verifier cmd guest_elf binding v2 name.
End Receipt.

(** ** The judge *)

Record ZkJudge : Type := mkZk {
  z_cmd : string;
  z_guest_elf : string;
  max_vm_cycles : Z;
  z_timeout : string;
  receipt_dir : option string;
  verify_cmd : option string;
}.

Record JudgeVerdict : Type := mkJudge {
  j_ok : bool;
  j_error : option string;
  j_status : option Z;
  j_instructions : option Z;
  j_output_hex : option string;
  j_vm_cycles : option Z;
  j_proving_secs : option string;
  j_binding : option (list string);
}.

Definition MAX_VERDICT_BYTES : Z := 1024 * 1024.

(** [jobfmt::from_hex(h, 32).map_err(|e| format!("{tag}: {e}"))] *)
Definition from_hex_tag (tag h : string) (n : Z) : outcome string (list Z) :=
  map_err (fun e => tag +:+ ": " +:+ show_hex_error e)%string (from_hex h n).

(** The key of the receipt cache; an undecodable identifier is an [expect] that panics. *)
Definition receipt_cache_key `{Blake3} (d : JobDescriptor) : outcome string string :=
  let dec id := match from_hex id 32 with Ok b => Ok b | _ => Panic end in
  m ← dec (d_manifest d);
  e ← dec (d_elf d);
  i ← dec (d_input d);
  mret (hex (blake3 (m ++ e ++ i))).

Section Judge.
Context `{Sha256}.

(** From the end of the judge process to its verdict; the capped read stops a process that
    printed too much. *)
Definition judge_verdict `{Json JudgeVerdict} (cfg : ZkJudge) (p : proc_run) : outcome string JudgeVerdict :=
  match p_end p with
  | WaitFailed e => Err ("zk judge wait: " +:+ e)%string
  | _ =>
      if MAX_VERDICT_BYTES <? Z.of_nat (length (p_stdout p)) then
        Err "zk judge verdict exceeds size cap"%string
      else
        match p_end p with
        | Exited success shown =>
            v ← map_err (fun e => "zk judge output: " +:+ e +:+ " (stderr: " +:+ p_stderr p +:+ ")")%string
                  (from_slice (text_of (p_stdout p)));
            if negb (j_ok v) then Err (default "judge rejected"%string (j_error v))
            else if negb success then Err ("zk judge exited with " +:+ shown)%string
            else mret v
        | _ => Err ("zk judge exceeded the " +:+ z_timeout cfg +:+ " time limit — falling back to replay")%string
        end
  end.

(** [run_judge]: the state is the disk the process can write a receipt to, [files] the job
    directory, and [mkdir] the creation of the receipt's directory. *)
Definition run_judge `{Procs} `{Json JudgeVerdict} (cfg : ZkJudge) (job_dir : string) (files : Dir)
    (mkdir : outcome string unit) (receipt_out : option string) : M Dir string JudgeVerdict := fun disk =>
  let args := [job_dir; pretty (max_vm_cycles cfg); z_guest_elf cfg] ++ option_list receipt_out in
  match (match receipt_out with
         | Some _ => map_err (fun e => "receipt dir: " +:+ e)%string mkdir
         | None => Ok tt
         end) with
  | Err e => (Err e, disk)
  | Panic => (Panic, disk)
  | Ok _ =>
      match spawn (z_cmd cfg) args files with
      | Err e => (Err ("zk judge spawn (" +:+ z_cmd cfg +:+ "): " +:+ e)%string, disk)
      | Panic => (Panic, disk)
      | Ok p => (judge_verdict cfg p, p_files p ∪ disk)
      end
  end.

(** The binding check, [for (hex_id, expected) in binding_hex.iter().zip(expected_binding)]. *)
Fixpoint check_binding (hexes : list string) (expected : list (list Z)) : outcome string unit :=
  match hexes, expected with
  | h :: hexes', e :: expected' =>
      b ← from_hex_tag "binding hex" h 32;
      if bool_decide (b = e) then check_binding hexes' expected'
      else Err "judge verdict is not for this job's (manifest, elf, input)"%string
  | _, _ => Ok tt
  end.

Definition judge_decision (v : JudgeVerdict) (expected_binding : list (list Z)) (v2 : bool) :
    outcome string Decision :=
  if negb (j_ok v) then Err (default "judge rejected"%string (j_error v))
  else
    binding_hex ← ok_or (j_binding v) "verdict missing binding"%string;
    _ ← (if v2 then
           match binding_hex with
           | [h] =>
               b ← from_hex_tag "binding hex" h 32;
               if bool_decide (Some b = expected_binding !! 2%nat) then Ok tt
               else Err "judge verdict is not for this job's input"%string
           | _ => Err "v2 verdict binding malformed"%string
           end
         else if negb (length binding_hex =? 3)%nat then Err "verdict binding malformed"%string
         else check_binding binding_hex expected_binding);
    st ← ok_or (j_status v) "verdict missing status"%string;
    n ← ok_or (j_instructions v) "verdict missing instructions"%string;
    oh ← ok_or (j_output_hex v) "verdict missing output"%string;
    o ← from_hex_tag "verdict output hex" oh (str_len oh / 2);
    let hash := hex (journal_digest n o) in
    if st =? 0 then mret (Accept hash (Some oh) [] true)
    else mret (Reject ("zk judge: job does not halt cleanly (status " +:+ pretty st +:+ ")")).

(** The file of a receipt in the cache and its sidecar. *)
Definition cache_paths (rd key : string) : string * string :=
  let d := (rd +:+ "/zk-cache/")%string in
  ((d +:+ key +:+ ".receipt.bin")%string, (d +:+ key +:+ ".verdict.json")%string).

(** [verify_cached]; [Err tt] is a miss.  [cache] holds the files by path. *)
Definition verify_cached `{TmpOs} `{Procs} `{Json RVerdict} (zk : ZkJudge) (cache : Dir)
    (rd key : string) (binding : list (list Z)) (v2 : bool) : M Tmp unit Decision := fun t =>
  match verify_cmd zk, cache !! (cache_paths rd key).1 with
  | Some cmd, Some receipt_bytes =>
      match verify_receipt cmd receipt_bytes binding (z_guest_elf zk) v2 t with
      | (Ok out, t') =>
          if negb (ro_status out =? 0) then (Err tt, t')
          else
            (match from_hex (ro_output_hex out) (str_len (ro_output_hex out) / 2) with
             | Ok o =>
                 let count := if v2 then V2_JOURNAL_COUNT else ro_instructions out in
                 Ok (Accept (hex (journal_digest count o)) (Some (ro_output_hex out)) [] true)
             | _ => Err tt
             end, t')
      | (Err _, t') => (Err tt, t')
      | (Panic, t') => (Panic, t')
      end
  | _, _ => (Err tt, t)
  end.
End Judge.

(** ** Facts on receipts *)

Section ReceiptFacts.
Context `{TmpOs} `{Procs} `{Json RVerdict}.

(** A created file is new, and nothing else changes. *)
Lemma exclusive_loop_spec n bytes t r t' :
  exclusive_loop n bytes t = (r, t') ->
  match r with
  | Ok name => tmp_files t !! name = None /\ exists u (stored : list Z),
      tmp_write name bytes = (Ok u, stored) /\ tmp_files t' = <[name := stored]> (tmp_files t)
  | _ => tmp_files t' = tmp_files t \/ exists (name : string) (stored : list Z),
      tmp_files t !! name = None /\ tmp_files t' = <[name := stored]> (tmp_files t) /\
      (forall u, (tmp_write name bytes).1 <> Ok u)
  end.
Proof.
  revert t. induction n as [|n IH]; intros t; cbn [exclusive_loop]; [intros [= <- <-]; by left|].
  destruct (tmp_files t !! receipt_name (tmp_counter t)) as [d|] eqn:Hl; [by intros Hx%IH|].
  destruct (tmp_create _); try (intros [= <- <-]; by left).
  destruct (tmp_write _ _) as [[u|e|] stored] eqn:Hw; intros [= <- <-].
  - by eauto.
  - right. exists (receipt_name (tmp_counter t)), stored. split_and!; try done. by rewrite Hw.
  - right. exists (receipt_name (tmp_counter t)), stored. split_and!; try done. by rewrite Hw.
Qed.

Lemma exclusive_receipt_file_spec bytes t r t' :
  exclusive_receipt_file bytes t = (r, t') ->
  match r with
  | Ok name => tmp_files t !! name = None /\ exists u (stored : list Z),
      tmp_write name bytes = (Ok u, stored) /\ tmp_files t' = <[name := stored]> (tmp_files t)
  | _ => tmp_files t' = tmp_files t \/ exists (name : string) (stored : list Z),
      tmp_files t !! name = None /\ tmp_files t' = <[name := stored]> (tmp_files t) /\
      (forall u, (tmp_write name bytes).1 <> Ok u)
  end.
Proof.
  unfold exclusive_receipt_file, mbind, M_bind, lift.
  destruct tmp_mkdir; cbn [map_err]; [apply exclusive_loop_spec|intros [= <- <-]; by left..].
Qed.

(** The free name is found when it is among the next 32. *)
Lemma exclusive_loop_free k n bytes t :
  (k < n)%nat -> 0 <= tmp_counter t -> tmp_counter t + Z.of_nat k < 2 ^ 64 ->
  tmp_files t !! receipt_name (tmp_counter t + Z.of_nat k) = None ->
  (forall name, tmp_create name = Ok tt) -> (forall name b, tmp_write name b = (Ok tt, b)) ->
  exists name t', exclusive_loop n bytes t = (Ok name, t').
Proof.
  intros Hk Hpos Hmax Hfree Hc Hw. revert k t Hk Hpos Hmax Hfree.
  induction n as [|n IH]; intros k t Hk Hpos Hmax Hfree; [lia|]. cbn [exclusive_loop].
  destruct (tmp_files t !! receipt_name (tmp_counter t)) eqn:Hl; [|rewrite Hc, Hw; by eauto].
  destruct k as [|k]; [rewrite Z.add_0_r in Hfree; congruence|].
  apply (IH k); simpl; rewrite ?wrap_small by (split; lia); try lia.
  by replace (tmp_counter t + 1 + Z.of_nat k) with (tmp_counter t + Z.of_nat (S k)) by lia.
Qed.

Lemma verdict_outcome_ok p out :
  verdict_outcome p = Ok out ->
  exists shown v, p_end p = Exited true shown /\ from_slice (text_of (p_stdout p)) = Ok v /\ v_ok v = true /\
    v_status v = Some (ro_status out) /\ v_instructions v = Some (ro_instructions out) /\
    v_chain v = Some (ro_chunk_hashes out) /\ v_output_hex v = Some (ro_output_hex out).
Proof.
  unfold verdict_outcome. destruct (p_end p) as [[] shown| |]; try done.
  destruct (from_slice _) as [v|?|] eqn:Hv; try done. simpl.
  destruct (v_ok v) eqn:Hok; try done. simpl.
  destruct (v_status v) eqn:H2; [|done]. destruct (v_instructions v) eqn:H3; [|done].
  destruct (v_chain v) eqn:H4; [|done]. destruct (v_output_hex v) eqn:H5; [|done]. simpl.
  intros [= <-]. exists shown, v. by split_and!.
Qed.
End ReceiptFacts.

(** ** Facts on the judge *)

Lemma from_hex_tag_no_panic tag h n : from_hex_tag tag h n <> Panic.
Proof.
  unfold from_hex_tag. pose proof (from_hex_no_panic h n). by destruct (from_hex h n).
Qed.

Lemma from_hex_tag_ok tag h n b : from_hex_tag tag h n = Ok b <-> from_hex h n = Ok b.
Proof. unfold from_hex_tag. by destruct (from_hex h n); simpl; split; intros [=]; subst. Qed.

Lemma check_binding_spec hexes expected :
  length hexes = length expected ->
  (check_binding hexes expected = Ok tt <-> Forall2 (fun h e => from_hex h 32 = Ok e) hexes expected) /\
  check_binding hexes expected <> Panic.
Proof.
  revert expected. induction hexes as [|h hexes IH]; intros [|e expected] Hlen; try done; cbn [check_binding].
  injection Hlen as Hlen. destruct (IH expected Hlen) as [IH1 IH2].
  pose proof (from_hex_tag_no_panic "binding hex" h 32) as Hp.
  destruct (from_hex_tag "binding hex" h 32) as [b|err|] eqn:Hb; try done; simpl.
  - apply from_hex_tag_ok in Hb. case_bool_decide; [subst|].
    + split; [|done]. rewrite IH1, Forall2_cons. tauto.
    + split; [|done]. rewrite Forall2_cons, Hb. split; [done|]. intros [[=] _]. congruence.
  - split; [|done]. rewrite Forall2_cons. split; [done|]. intros [Hx _].
    apply (from_hex_tag_ok "binding hex") in Hx. congruence.
Qed.

(** What a verdict's binding must be. *)
Definition binds (v2 : bool) (hexes : list string) (expected : list (list Z)) : Prop :=
  if v2 then exists h e, hexes = [h] /\ expected !! 2%nat = Some e /\ from_hex h 32 = Ok e
  else Forall2 (fun h e => from_hex h 32 = Ok e) hexes expected.

Section JudgeFacts.
Context `{Sha256}.

Lemma judge_decision_ok v eb v2 d :
  length eb = 3%nat -> judge_decision v eb v2 = Ok d ->
  exists hexes st n oh o, j_ok v = true /\ j_binding v = Some hexes /\ binds v2 hexes eb /\
    j_status v = Some st /\ j_instructions v = Some n /\ j_output_hex v = Some oh /\
    from_hex oh (str_len oh / 2) = Ok o /\
    d = if st =? 0 then Accept (hex (journal_digest n o)) (Some oh) [] true
        else Reject ("zk judge: job does not halt cleanly (status " +:+ pretty st +:+ ")").
Proof.
  intros Hlen. unfold judge_decision. destruct (j_ok v) eqn:Hok; [|done]. simpl.
  destruct (j_binding v) as [hexes|] eqn:Hbd; [|done]. simpl.
  match goal with |- (_ ← ?c; _) = _ -> _ => destruct c as [[]|?|] eqn:Hc; try done end. simpl.
  destruct (j_status v) as [st|] eqn:Hst; [|done]. destruct (j_instructions v) as [n|] eqn:Hn; [|done]. simpl.
  destruct (j_output_hex v) as [oh|] eqn:Hoh; [|done]. simpl.
  destruct (from_hex_tag _ oh _) as [o|?|] eqn:Ho; try done. simpl. apply from_hex_tag_ok in Ho.
  intros Hd. exists hexes, st, n, oh, o. split_and!; try done.
  - unfold binds. destruct v2.
    + destruct hexes as [|h [|]]; try done. destruct (from_hex_tag _ h 32) as [b|?|] eqn:Hb; try done.
      simpl in Hc. case_bool_decide as Hb2; [|done]. exists h, b. by apply from_hex_tag_ok in Hb.
    + destruct (length hexes =? 3)%nat eqn:Hl; [|done]. apply Nat.eqb_eq in Hl.
      by apply check_binding_spec; [congruence|].
  - destruct (st =? 0); by injection Hd.
Qed.

Lemma judge_decision_complete v eb v2 hexes st n oh o :
  length eb = 3%nat -> j_ok v = true -> j_binding v = Some hexes -> binds v2 hexes eb ->
  j_status v = Some st -> j_instructions v = Some n -> j_output_hex v = Some oh ->
  from_hex oh (str_len oh / 2) = Ok o ->
  judge_decision v eb v2 =
    Ok (if st =? 0 then Accept (hex (journal_digest n o)) (Some oh) [] true
        else Reject ("zk judge: job does not halt cleanly (status " +:+ pretty st +:+ ")")).
Proof.
  intros Hlen Hok Hbd Hb Hst Hn Hoh Ho. unfold judge_decision. rewrite Hok, Hbd, Hst, Hn, Hoh. simpl.
  apply (from_hex_tag_ok "verdict output hex") in Ho.
  match goal with |- (_ ← ?c; _) = _ => assert (c = Ok tt) as -> end.
  - unfold binds in Hb. destruct v2.
    + destruct Hb as (h & e & -> & He & Hh). apply (from_hex_tag_ok "binding hex") in Hh.
      rewrite Hh. simpl. by rewrite He, bool_decide_true.
    + pose proof (Forall2_length _ _ _ Hb) as Hl. rewrite Hl, Hlen. simpl. by apply check_binding_spec.
  - simpl. rewrite Ho. simpl. by destruct (st =? 0).
Qed.

Lemma judge_decision_no_panic v eb v2 : length eb = 3%nat -> judge_decision v eb v2 <> Panic.
Proof.
  intros Hlen. unfold judge_decision. destruct (j_ok v); [|done]. simpl. destruct (j_binding v) as [hexes|]; [|done]. simpl.
  match goal with |- (_ ← ?c; _) <> _ => assert (c <> Panic) as Hc; [|destruct c as [[]|?|]; try done] end.
  - destruct v2.
    + destruct hexes as [|h [|]]; try done. pose proof (from_hex_tag_no_panic "binding hex" h 32).
      destruct (from_hex_tag _ h 32); try done. simpl. by case_bool_decide.
    + destruct (length hexes =? 3)%nat eqn:Hl; [|done]. apply Nat.eqb_eq in Hl.
      apply check_binding_spec. congruence.
  - simpl. destruct (j_status v) as [st|], (j_instructions v), (j_output_hex v) as [oh|]; try done. simpl.
    pose proof (from_hex_tag_no_panic "verdict output hex" oh (str_len oh / 2)).
    destruct (from_hex_tag _ oh _); try done. simpl. by destruct (st =? 0).
Qed.
End JudgeFacts.

Lemma receipt_key_ids `{Blake3} d ids key :
  (fun s => from_hex s 32) <$> [d_manifest d; d_elf d; d_input d] = Ok <$> ids ->
  receipt_cache_key d = Ok key -> key = hex (blake3 (concat ids)) /\ Forall (fun i => length i = 32%nat) ids.
Proof.
  destruct ids as [|m [|e [|i []]]]; try done. simpl. intros [= Hm He Hi].
  unfold receipt_cache_key. rewrite Hm, He, Hi. simpl. intros [= <-]. rewrite app_nil_r.
  split; [done|]. apply from_hex_len in Hm, He, Hi. repeat constructor; lia.
Qed.

Lemma concat_inj_len (n : nat) (l1 l2 : list (list Z)) :
  (0 < n)%nat -> Forall (fun i => length i = n) l1 -> Forall (fun i => length i = n) l2 ->
  concat l1 = concat l2 -> l1 = l2.
Proof.
  intros Hn H1. revert l2. induction H1 as [|a l1 Ha _ IH]; intros [|b l2] H2 Heq; try done.
  - apply Forall_cons in H2 as [Hb _]. destruct b; simpl in *; [lia|done].
  - destruct a; simpl in *; [lia|done].
  - apply Forall_cons in H2 as [Hb H2]. simpl in Heq. apply app_inj_1 in Heq as [-> Heq]; [|congruence].
    f_equal. by apply IH.
Qed.

(** Receipt verification is contained: an oversized claim is refused before any file is
    created or process started; no file of the shared temporary directory is ever changed,
    and on a working disk none is left behind; and an accepted outcome is the verdict of a
    verifier that exited successfully after reading a fresh file written with the receipt. *)
Theorem verify_receipt_spec `{TmpOs} `{Procs} `{Json RVerdict} cmd bytes binding guest v2 t r t' :
  verify_receipt cmd bytes binding guest v2 t = (r, t') ->
  (MAX_RECEIPT_BYTES < Z.of_nat (length bytes) -> t' = t /\ exists e, r = Err e) /\
  (forall p d, tmp_files t !! p = Some d -> tmp_files t' !! p = Some d) /\
  ((forall name b, tmp_write name b = (Ok tt, b)) -> r <> Panic -> tmp_files t' = tmp_files t) /\
  (forall out, r = Ok out -> exists name stored p shown v,
     tmp_files t !! name = None /\ tmp_write name bytes = (Ok tt, stored) /\
     spawn cmd (verify_args guest name binding v2) (<[name := stored]> (tmp_files t)) = Ok p /\
     p_end p = Exited true shown /\ from_slice (text_of (p_stdout p)) = Ok v /\ v_ok v = true /\
     v_status v = Some (ro_status out) /\ v_instructions v = Some (ro_instructions out) /\
     v_chain v = Some (ro_chunk_hashes out) /\ v_output_hex v = Some (ro_output_hex out)).
Proof.
  unfold verify_receipt. destruct (MAX_RECEIPT_BYTES <? Z.of_nat (length bytes)) eqn:Hm; bools.
  { unfold Prelude.mfail. intros [= <- <-]. split_and!; [by eauto|done..]. }
  unfold mbind, M_bind. destruct (exclusive_receipt_file bytes t) as [[name|e|] t1] eqn:Hx;
    pose proof (exclusive_receipt_file_spec _ _ _ _ Hx) as Hs; simpl in Hs.
  - destruct Hs as (Hfree & [] & stored & Hw & Ht1). unfold run_verifier.
    assert (delete name (tmp_files t1) = tmp_files t) as Hdel by (rewrite Ht1; by apply delete_insert_id).
    rewrite Ht1. destruct (spawn _ _ _) as [p|e|] eqn:Hsp; intros [= <- <-]; (split; [lia|]); simpl;
      rewrite ?Hdel; (split_and!; [try done| |done || intros out]); try done.
    + intros Hout. destruct (verdict_outcome_ok p out Hout) as (shown & v & ?).
      exists name, stored, p, shown, v. split; [done|]. split; [done|]. by split.
    + intros p d Hp. rewrite Ht1. apply lookup_insert_Some. right. split; [|done]. intros <-. congruence.
  - intros [= <- <-]. split; [lia|]. destruct Hs as [->|(name & stored & Hfree & -> & Hw)]; [done|].
    split_and!; [|intros Hok _; exfalso; apply (Hw tt); by rewrite Hok|done].
    intros p d Hp. apply lookup_insert_Some. right. split; [|done]. intros <-. congruence.
  - intros [= <- <-]. split; [lia|]. destruct Hs as [->|(name & stored & Hfree & -> & Hw)]; [done|].
    split_and!; [|done..].
    intros p d Hp. apply lookup_insert_Some. right. split; [|done]. intros <-. congruence.
Qed.

(** The judge's verdict is never taken on faith.  A decision is produced only from a
    verdict that names this job (its three content ids, or the input id for the v2 format)
    with a status, a count and a decodable output; status 0 accepts the digest recomputed
    from that count and output, and that digest determines them up to a SHA-256 collision;
    any other status rejects.  Every such verdict is decided, and no verdict panics. *)
Theorem judge_decision_spec `{Sha256} v eb v2 :
  length eb = 3%nat ->
  (forall d, judge_decision v eb v2 = Ok d <->
     exists hexes st n oh o, j_ok v = true /\ j_binding v = Some hexes /\ binds v2 hexes eb /\
       j_status v = Some st /\ j_instructions v = Some n /\ j_output_hex v = Some oh /\
       from_hex oh (str_len oh / 2) = Ok o /\
       d = if st =? 0 then Accept (hex (journal_digest n o)) (Some oh) [] true
           else Reject ("zk judge: job does not halt cleanly (status " +:+ pretty st +:+ ")")) /\
  (forall n oh o n' o', j_instructions v = Some n -> j_output_hex v = Some oh ->
     from_hex oh (str_len oh / 2) = Ok o -> is_u64 n -> is_u64 n' ->
     judge_decision v eb v2 = Ok (Accept (hex (journal_digest n' o')) (Some oh) [] true) ->
     (n' = n /\ o' = o) \/ collision sha256 (journal n' o') (journal n o)) /\
  judge_decision v eb v2 <> Panic.
Proof.
  intros Hlen. split_and!; [|intros n oh o n' o' Hn Hoh Ho Hu Hu' Hd|by apply judge_decision_no_panic].
  - intros d. split; [by apply judge_decision_ok|].
    intros (hexes & st & n & oh & o & ? & ? & ? & ? & ? & ? & ? & ->). by eapply judge_decision_complete.
  - apply judge_decision_ok in Hd as (hexes & st & n1 & oh1 & o1 & _ & _ & _ & _ & Hn1 & Hoh1 & Ho1 & Hd); [|done].
    rewrite Hn in Hn1. injection Hn1 as <-. rewrite Hoh in Hoh1. injection Hoh1 as <-.
    rewrite Ho in Ho1. injection Ho1 as <-. destruct (st =? 0); [|done]. injection Hd as Hh.
    apply hex_inj in Hh; [|apply sha256_byte..]. by apply journal_digest_inj.
Qed.

(** The receipt cache serves a job only what its own receipt proves.  Equal keys mean
    equal content ids, or an explicit BLAKE3 collision; a hit needs a verifier command and a
    receipt in the job's cache file that the verifier accepts for this binding with status
    0; and for the emulator format a hit is the very decision a fresh verdict with the same
    count and output gives. *)
Theorem verify_cached_spec `{Blake3} `{Sha256} `{TmpOs} `{Procs} `{Json RVerdict}
    zk cache rd d1 key eb v2 t dec t' :
  receipt_cache_key d1 = Ok key ->
  verify_cached zk cache rd key eb v2 t = (Ok dec, t') ->
  (exists cmd bytes out o, verify_cmd zk = Some cmd /\ cache !! (cache_paths rd key).1 = Some bytes /\
     verify_receipt cmd bytes eb (z_guest_elf zk) v2 t = (Ok out, t') /\ ro_status out = 0 /\
     from_hex (ro_output_hex out) (str_len (ro_output_hex out) / 2) = Ok o /\
     dec = Accept (hex (journal_digest (if v2 then V2_JOURNAL_COUNT else ro_instructions out) o))
             (Some (ro_output_hex out)) [] true /\
     (forall v, v2 = false -> length eb = 3%nat -> j_ok v = true ->
        (exists hexes, j_binding v = Some hexes /\ binds false hexes eb) ->
        j_status v = Some 0 -> j_instructions v = Some (ro_instructions out) ->
        j_output_hex v = Some (ro_output_hex out) -> judge_decision v eb v2 = Ok dec)) /\
  (forall d2 ids1 ids2, receipt_cache_key d2 = Ok key ->
     (fun s => from_hex s 32) <$> [d_manifest d1; d_elf d1; d_input d1] = Ok <$> ids1 ->
     (fun s => from_hex s 32) <$> [d_manifest d2; d_elf d2; d_input d2] = Ok <$> ids2 ->
     ids1 = ids2 \/ collision blake3 (concat ids1) (concat ids2)).
Proof.
  intros Hkey Hc. split.
  - unfold verify_cached in Hc. destruct (verify_cmd zk) as [cmd|]; [|done].
    destruct (cache !! _) as [bytes|]; [|done].
    destruct (verify_receipt cmd bytes eb (z_guest_elf zk) v2 t) as [[out|?|] t1] eqn:Hv; [|done..].
    destruct (ro_status out =? 0) eqn:Hst; bools; [|done].
    destruct (from_hex (ro_output_hex out) _) as [o|?|] eqn:Ho; [|done..].
    injection Hc as <- <-. exists cmd, bytes, out, o. split_and!; try done.
    intros v -> Hlen Hok (hexes & Hb & Hbs) Hs Hn Hoh. 
    by rewrite (judge_decision_complete v eb false hexes 0 (ro_instructions out) (ro_output_hex out) o).
  - intros d2 ids1 ids2 Hkey2 Hi1 Hi2. destruct (decide (ids1 = ids2)) as [|Hne]; [by left|right].
    destruct (receipt_key_ids d1 ids1 key Hi1 Hkey) as [K1 L1], (receipt_key_ids d2 ids2 key Hi2 Hkey2) as [K2 L2].
    split.
    + intros Heq. apply Hne. by apply (concat_inj_len 32); [lia|..].
    + apply hex_inj; [apply blake3_byte..|]. congruence.
Qed.

(** The two judges disagree on the v2 format: the cached receipt's digest zeroes the count,
    the fresh verdict's digest keeps it. *)
Lemma v2_digests_differ :
  let v := {| j_ok := true; j_error := None; j_status := Some 0; j_instructions := Some 5;
              j_output_hex := Some "00"%string; j_vm_cycles := None; j_proving_secs := None;
              j_binding := Some [hex (replicate 32 3)] |} in
  let eb := [replicate 32 1; replicate 32 2; replicate 32 3] in
  @judge_decision toy_sha256 v eb true <>
  Ok (Accept (hex (@journal_digest toy_sha256 V2_JOURNAL_COUNT [0])) (Some "00"%string) [] true).
Proof. vm_compute. intros [=]. Qed.

(** ** Concrete instances *)

#[export] Instance RVerdict_eq_dec : EqDecision RVerdict.
Proof. solve_decision. Defined.

#[export] Instance RVerdict_countable : Countable RVerdict.
Proof.
  refine (inj_countable'
    (fun v => (v_ok v, v_error v, v_status v, v_instructions v, v_chain v, v_output_hex v))
    (fun '(a, b, c, d, e, f) => mkVerdict a b c d e f) _).
  by intros [].
Defined.

Definition toy_tmp : TmpOs := {|
  pid := "7"; tmp_root := "/tmp"; tmp_mkdir := Ok tt; tmp_create := fun _ => Ok tt;
  tmp_write := fun _ b => (Ok tt, b) |}.

Definition demo_verdict : RVerdict := {|
  v_ok := true; v_error := None; v_status := Some 0; v_instructions := Some 5;
  v_chain := Some ["aa"%string]; v_output_hex := Some "0102"%string |}.

(** A verifier that accepts every receipt with the same verdict. *)
Definition toy_procs : Procs := {|
  spawn := fun _ _ _ => Ok {|
    p_end := Exited true "exit status: 0";
    p_stdout := @to_vec _ (toy_json RVerdict) demo_verdict; p_stderr := ""; p_files := ∅ |} |}.

Definition demo_binding : list (list Z) := [replicate 32 1; replicate 32 2; replicate 32 3].

Definition demo_judge : JudgeVerdict := {|
  j_ok := true; j_error := None; j_status := Some 0; j_instructions := Some 5;
  j_output_hex := Some "0102"%string; j_vm_cycles := None; j_proving_secs := None;
  j_binding := Some (hex <$> demo_binding) |}.

Definition demo_zk : ZkJudge := {|
  z_cmd := "zk-judge"; z_guest_elf := "guest.elf"; max_vm_cycles := 1000; z_timeout := "60s";
  receipt_dir := Some "receipts"%string; verify_cmd := Some "zk-verify"%string |}.

Definition zk_desc : JobDescriptor := {|
  d_job_id := "j"; d_manifest := hex (replicate 32 1); d_elf := hex (replicate 32 2);
  d_input := hex (replicate 32 3) |}.

Definition zk_key : string := default ""%string (ok (@receipt_cache_key toy_blake3 zk_desc)).

Definition zk_cache : Dir := {[ (cache_paths "receipts" zk_key).1 := [9; 9] ]}.

Definition tmp0 : Tmp := {| tmp_counter := 0; tmp_files := {[ "other.bin"%string := [1] ]} |}.

Lemma verify_receipt_spec_witness :
  let res := @verify_receipt toy_tmp toy_procs (toy_json _) "zk-verify" [9; 9] demo_binding "guest.elf" false tmp0 in
  tmp_files res.2 = tmp_files tmp0 /\ is_Some (ok res.1).
Proof.
  split.
  - destruct (@verify_receipt_spec toy_tmp toy_procs (toy_json _) "zk-verify" [9; 9] demo_binding "guest.elf" false
      tmp0 _ _ (surjective_pairing _)) as (_ & _ & Hleak & _).
    apply Hleak; [reflexivity|]. vm_compute. discriminate.
  - vm_compute. eexists. reflexivity.
Defined.

Lemma judge_decision_spec_witness :
  @judge_decision toy_sha256 demo_judge demo_binding false =
    Ok (Accept (hex (@journal_digest toy_sha256 5 [1; 2])) (Some "0102"%string) [] true).
Proof.
  apply (@judge_decision_spec toy_sha256 demo_judge demo_binding false); [reflexivity|].
  exists (hex <$> demo_binding), 0, 5, "0102"%string, [1; 2].
  split_and!; try reflexivity. repeat constructor; vm_compute; reflexivity.
Defined.

Lemma verify_cached_spec_witness :
  exists dec, (@verify_cached toy_sha256 toy_tmp toy_procs (toy_json _) demo_zk zk_cache "receipts" zk_key
                 demo_binding false tmp0).1 = Ok dec /\
    @judge_decision toy_sha256 demo_judge demo_binding false = Ok dec.
Proof.
  eexists. split; [vm_compute; reflexivity|].
  edestruct (@verify_cached_spec toy_blake3 toy_sha256 toy_tmp toy_procs (toy_json _) demo_zk zk_cache "receipts"
    zk_desc zk_key demo_binding false tmp0) as [(cmd & bytes & out & o & Hcmd & Hb & Hv & Hst & Ho & Hd & Hj) _];
    [vm_compute; reflexivity|vm_compute; reflexivity|].
  vm_compute in Hcmd, Hb. injection Hcmd as <-. injection Hb as <-. vm_compute in Hv. injection Hv as <-.
  apply Hj; try reflexivity. exists (hex <$> demo_binding). split; [reflexivity|].
  repeat constructor; vm_compute; reflexivity.
Defined.
