(* ===== verification/Server.v ===== *)
(** * The coordinator's connections and event handlers (crates/coordinator/src/net.rs)

    The state of the network coordinator, the translation of wire messages into events by
    the session threads, and one handler per event.  A handler runs on the main thread with
    the connection table locked; [Panic] is a panic of that thread and [Err] an error that
    ends the server. *)

From S2P Require Import Prelude Text JobFmt ContentStore Wire Quorum Ledger ZkJudge.

(** ** State *)

(** [outbound] is the queue the session thread drains into the stream. *)
Record Conn : Type := mkConn {
  outbound : list ServerToClient;
  c_pubkey : option string;
  c_nonce : option (list Z);
  c_worker_id : string;
  authed : bool;
  peer_addr : option string;
  peer_ip : string;
  c_role : string;
  uploads : Z;
}.

Abbreviation Conns := (gmap Z Conn).

(** [started] is the [Instant] in milliseconds. *)
Record PendingJob : Type := mkJob {
  pj_descriptor : JobDescriptor;
  targets : option (list string);
  pj_path : string;
  dispatched : bool;
  escalated : bool;
  dispatched_ids : list string;
  reserves : list string;
  results : list WorkerResult;
  started : Z;
  zk_accept : option Decision;
  receipt_claimed : list string;
  subscribers : list Z;
}.

Inductive NetEvent : Type :=
  | EvHello (conn : Z) (pubkey worker_id : string) (listen_port : option Z) (role : string)
  | EvNonceSig (conn : Z) (sig : option string) (pow_counter : Z)
  | EvJobSubmission (conn : Z) (submitter : string) (descriptor : JobDescriptor)
      (pubkey_hex sig_hex : string) (require_zk : bool)
  | EvBlobUpload (conn : Z) (id_hex bytes_hex : string)
  | EvReceiptClaim (conn : Z) (worker_id job_id pubkey_hex sig_hex receipt_hex : string)
  | EvBlobRequest (conn : Z) (id : string)
  | EvResult (conn : Z) (result : WorkerResult)
  | EvClosed (conn : Z)
  | EvProved (job : PendingJob) (decision : Decision).

(** [ServeConfig] without the endpoints of its channels and sockets; durations are in
    milliseconds, and [zk] is [ZkVerify]'s command and guest. *)
Record ServeConfig : Type := mkConfig {
  per_job_deadline : Z;
  ledger_path : option string;
  require_identity : bool;
  zk : option (string * string);
  zk_judge : option ZkJudge;
  zk_prover : option ZkJudge;
  accept_submissions : bool;
  results_dir : option string;
  identity_pow_bits : Z;
  cfg_pool : option nat;
  max_jobs : option nat;
  round1_size : option nat;
  round1_ids : option (list string);
}.

(** [JobOutcome] of net.rs *)
Record FinishedJob : Type := mkFinished {
  f_job_id : string;
  f_decision : Decision;
  f_results : list WorkerResult;
  f_deltas : list (string * Z);
}.

(** The locals of [serve] and the files it works on.  [prove_queue] and [events] are the
    channels to the proving thread and to the main loop, and [prover_up] says whether that
    thread still holds its end of the channel. *)
Record Server : Type := mkServer {
  conns : Conns;
  pending : option PendingJob;
  outcomes : list FinishedJob;
  jobs_done : nat;
  scan_errors : gmap string Z;
  submitter_subs : gmap string (list Z);
  events : list NetEvent;
  prove_queue : list PendingJob;
  sv_store : Store;
  jobs_dir : Dir;
  results_files : Dir;
  ledger_file : file_read;
  tmp : Tmp;
  zk_disk : Dir;
  prover_up : bool;
}.

Definition set_conns (f : Conns -> Conns) (s : Server) : Server :=
  mkServer (f (conns s)) (pending s) (outcomes s) (jobs_done s) (scan_errors s) (submitter_subs s)
    (events s) (prove_queue s) (sv_store s) (jobs_dir s) (results_files s) (ledger_file s) (tmp s) (zk_disk s) (prover_up s).

Definition set_pending (p : option PendingJob) (s : Server) : Server :=
  mkServer (conns s) p (outcomes s) (jobs_done s) (scan_errors s) (submitter_subs s)
    (events s) (prove_queue s) (sv_store s) (jobs_dir s) (results_files s) (ledger_file s) (tmp s) (zk_disk s) (prover_up s).

Definition set_subs (m : gmap string (list Z)) (s : Server) : Server :=
  mkServer (conns s) (pending s) (outcomes s) (jobs_done s) (scan_errors s) m
    (events s) (prove_queue s) (sv_store s) (jobs_dir s) (results_files s) (ledger_file s) (tmp s) (zk_disk s) (prover_up s).

Definition set_events (es : list NetEvent) (s : Server) : Server :=
  mkServer (conns s) (pending s) (outcomes s) (jobs_done s) (scan_errors s) (submitter_subs s)
    es (prove_queue s) (sv_store s) (jobs_dir s) (results_files s) (ledger_file s) (tmp s) (zk_disk s) (prover_up s).

Definition set_queue (q : list PendingJob) (s : Server) : Server :=
  mkServer (conns s) (pending s) (outcomes s) (jobs_done s) (scan_errors s) (submitter_subs s)
    (events s) q (sv_store s) (jobs_dir s) (results_files s) (ledger_file s) (tmp s) (zk_disk s) (prover_up s).

Definition set_store (st : Store) (s : Server) : Server :=
  mkServer (conns s) (pending s) (outcomes s) (jobs_done s) (scan_errors s) (submitter_subs s)
    (events s) (prove_queue s) st (jobs_dir s) (results_files s) (ledger_file s) (tmp s) (zk_disk s) (prover_up s).

Definition set_jobs_dir (d : Dir) (s : Server) : Server :=
  mkServer (conns s) (pending s) (outcomes s) (jobs_done s) (scan_errors s) (submitter_subs s)
    (events s) (prove_queue s) (sv_store s) d (results_files s) (ledger_file s) (tmp s) (zk_disk s) (prover_up s).

Definition set_errors (m : gmap string Z) (s : Server) : Server :=
  mkServer (conns s) (pending s) (outcomes s) (jobs_done s) m (submitter_subs s)
    (events s) (prove_queue s) (sv_store s) (jobs_dir s) (results_files s) (ledger_file s) (tmp s) (zk_disk s) (prover_up s).

Definition set_files (results : Dir) (ledger : file_read) (s : Server) : Server :=
  mkServer (conns s) (pending s) (outcomes s) (jobs_done s) (scan_errors s) (submitter_subs s)
    (events s) (prove_queue s) (sv_store s) (jobs_dir s) results ledger (tmp s) (zk_disk s) (prover_up s).

Definition set_zk (t : Tmp) (disk : Dir) (s : Server) : Server :=
  mkServer (conns s) (pending s) (outcomes s) (jobs_done s) (scan_errors s) (submitter_subs s)
    (events s) (prove_queue s) (sv_store s) (jobs_dir s) (results_files s) (ledger_file s) t disk (prover_up s).

Definition set_prover_up (b : bool) (s : Server) : Server :=
  mkServer (conns s) (pending s) (outcomes s) (jobs_done s) (scan_errors s) (submitter_subs s)
    (events s) (prove_queue s) (sv_store s) (jobs_dir s) (results_files s) (ledger_file s) (tmp s) (zk_disk s) b.

Definition add_outcome (o : FinishedJob) (s : Server) : Server :=
  mkServer (conns s) (pending s) (outcomes s ++ [o]) (S (jobs_done s)) (scan_errors s) (submitter_subs s)
    (events s) (prove_queue s) (sv_store s) (jobs_dir s) (results_files s) (ledger_file s) (tmp s) (zk_disk s) (prover_up s).

(** ** Updates of a connection and of the pending job *)

Definition push_msg (msg : ServerToClient) (c : Conn) : Conn :=
  mkConn (outbound c ++ [msg]) (c_pubkey c) (c_nonce c) (c_worker_id c) (authed c) (peer_addr c)
    (peer_ip c) (c_role c) (uploads c).

(** [if let Some(c) = conns.get_mut(&conn) { let _ = c.outbound.send(msg); }] *)
Definition send_to (conn : Z) (msg : ServerToClient) (s : Server) : Server :=
  set_conns (alter (push_msg msg) conn) s.

Definition set_authed (c : Conn) : Conn :=
  mkConn (outbound c) (c_pubkey c) (c_nonce c) (c_worker_id c) true (peer_addr c)
    (peer_ip c) (c_role c) (uploads c).

Definition count_upload (c : Conn) : Conn :=
  mkConn (outbound c) (c_pubkey c) (c_nonce c) (c_worker_id c) (authed c) (peer_addr c)
    (peer_ip c) (c_role c) (uploads c + 1).

Definition set_results (rs : list WorkerResult) (j : PendingJob) : PendingJob :=
  mkJob (pj_descriptor j) (targets j) (pj_path j) (dispatched j) (escalated j) (dispatched_ids j)
    (reserves j) rs (started j) (zk_accept j) (receipt_claimed j) (subscribers j).

Definition set_reserves (ids : list string) (j : PendingJob) : PendingJob :=
  mkJob (pj_descriptor j) (targets j) (pj_path j) (dispatched j) (escalated j) (dispatched_ids j)
    ids (results j) (started j) (zk_accept j) (receipt_claimed j) (subscribers j).

Definition set_claims (acc : option Decision) (claimed : list string) (j : PendingJob) : PendingJob :=
  mkJob (pj_descriptor j) (targets j) (pj_path j) (dispatched j) (escalated j) (dispatched_ids j)
    (reserves j) (results j) (started j) acc claimed (subscribers j).

Definition set_subscribers (l : list Z) (j : PendingJob) : PendingJob :=
  mkJob (pj_descriptor j) (targets j) (pj_path j) (dispatched j) (escalated j) (dispatched_ids j)
    (reserves j) (results j) (started j) (zk_accept j) (receipt_claimed j) l.

(** A connection as the acceptor registers it. *)
Definition new_conn (id : Z) (ip : string) : Conn :=
  mkConn [] None None ("w" +:+ pretty id) false None ip "worker" 0.

(** ** Session threads *)

(** The event a received message becomes. *)
Definition session_event (conn : Z) (msg : ClientToServer) : NetEvent :=
  match msg with
  | Hello pk wid port role => EvHello conn pk wid port role
  | NonceSignature sg pow => EvNonceSig conn sg pow
  | BlobRequest id => EvBlobRequest conn id
  | JobResult r => EvResult conn r
  | BlobUpload id b => EvBlobUpload conn id b
  | JobSubmission sub d pk sg rz => EvJobSubmission conn sub d pk sg rz
  | ReceiptClaim w j pk sg rc => EvReceiptClaim conn w j pk sg rc
  end.

(** One turn of [session_loop]: a message is forwarded; an idle window drains the queue into
    the stream, and a failed send ends the session; a receive error ends the session.  The
    boolean says whether the session goes on. *)
Inductive frame : Type :=
  | Received (msg : ClientToServer)
  | Idle (sends_ok : bool)
  | Broken.

Definition close_session (conn : Z) (s : Server) : Server :=
  set_events (events s ++ [EvClosed conn]) (set_conns (delete conn) s).

Definition drain (c : Conn) : Conn :=
  mkConn [] (c_pubkey c) (c_nonce c) (c_worker_id c) (authed c) (peer_addr c)
    (peer_ip c) (c_role c) (uploads c).

Definition session_turn (conn : Z) (f : frame) (s : Server) : bool * Server :=
  match f with
  | Received msg => (true, set_events (events s ++ [session_event conn msg]) s)
  | Idle true => (true, set_conns (alter drain conn) s)
  | Idle false =>
      match outbound <$> conns s !! conn with
      | Some [] => (true, s)
      | _ => (false, close_session conn s)
      end
  | Broken => (false, close_session conn s)
  end.

(** ** Signatures and gates *)

Section Handlers.
Context `{Blake3} `{Ed25519} `{Os} `{TmpOs} `{Procs}.
Context `{Json JobDescriptor} `{Json RVerdict}.

(** Decode a key and a signature and verify the message; the three callers differ in the tags
    of their errors. *)
Definition check_sig (key_tag sig_tag : string -> string) (pubkey_hex sig_hex : string) (msg : list Z) :
    outcome string unit :=
  pk_bytes ← from_hex_tag "pubkey" pubkey_hex 32;
  sig_bytes ← from_hex_tag "signature" sig_hex 64;
  vk ← map_err key_tag (vkey_from_bytes pk_bytes);
  map_err sig_tag (ed_verify vk msg sig_bytes).

Definition verify_claim_sig (pubkey_hex job_id : string) (receipt_hash : list Z) (sig_hex : string) :
    outcome string unit :=
  check_sig (fun e => "pubkey: " +:+ e)%string (fun e => "signature: " +:+ e)%string pubkey_hex sig_hex
    (receipt_claim_message job_id receipt_hash).

Definition verify_nonce (pubkey_hex : string) (nonce : list Z) (sig_hex : string) : outcome string unit :=
  check_sig id id pubkey_hex sig_hex nonce.

(** [receipt_claim_gate]: whether the attempt is allowed, and the attempts recorded then. *)
Definition receipt_claim_gate (claimed : list string) (worker_id : string) : bool * list string :=
  if bool_decide (worker_id ∈ claimed) then (false, claimed) else (true, claimed ++ [worker_id]).

(** ** The handlers *)

(** [Event::Hello]; [nonce] is the fresh random challenge. *)
Definition on_hello (cfg : ServeConfig) (nonce : list Z) (conn : Z) (pubkey wid : string)
    (listen_port : option Z) (role : string) (s : Server) : Server :=
  let greet c :=
    push_msg (Nonce (hex nonce) (identity_pow_bits cfg))
      (mkConn (outbound c)
        (if bool_decide (pubkey = ""%string) then None else Some pubkey)
        (Some nonce)
        (if bool_decide (wid = ""%string) then c_worker_id c else wid)
        (authed c)
        (match listen_port with
         | Some port => Some (peer_ip c +:+ ":" +:+ pretty port)%string
         | None => peer_addr c
         end)
        (peer_ip c)
        (if bool_decide (role = "submitter"%string) then "submitter" else "worker")%string
        (uploads c)) in
  set_conns (alter greet conn) s.

(** The admission check of [Event::NonceSig]. *)
Definition auth_ok (cfg : ServeConfig) (c : Conn) (sig : option string) (pow_counter : Z) : outcome string bool :=
  let pow_ok := match c_nonce c with
                | Some nonce => verify_pow nonce pow_counter (identity_pow_bits cfg)
                | None => false
                end in
  if negb pow_ok then Ok false
  else
    match c_pubkey c, sig, c_nonce c with
    | Some pk, Some sg, Some nonce =>
        match verify_nonce pk nonce sg with
        | Ok _ => Ok true
        | Err _ => Ok false
        | Panic => Panic
        end
    | None, _, Some _ => Ok (negb (require_identity cfg))
    | _, _, _ => Ok false
    end.

(** A worker that authenticates after dispatch joins the reserves of an untargeted job. *)
Definition late_joiner (wid : string) (j : PendingJob) : PendingJob :=
  if dispatched j && negb (escalated j) && bool_decide (targets j = None) &&
     negb (bool_decide (wid ∈ dispatched_ids j))
  then set_reserves (reserves j ++ [wid]) j else j.

Definition on_nonce_sig (cfg : ServeConfig) (conn : Z) (sig : option string) (pow_counter : Z) :
    M Server string unit := fun s =>
  match conns s !! conn with
  | None => (Ok tt, s)
  | Some c =>
      match auth_ok cfg c sig pow_counter with
      | Ok true =>
          (Ok tt, set_pending (late_joiner (c_worker_id c) <$> pending s)
                    (send_to conn (AuthOk (c_worker_id c)) (set_conns (alter set_authed conn) s)))
      | Ok false =>
          (Ok tt, send_to conn (ShutDown "auth failed")
                    (send_to conn (AuthFailed "nonce signature invalid") s))
      | Err e => (Err e, s)
      | Panic => (Panic, s)
      end
  end.

(** [&id[..12.min(id.len())]], evaluated for the log line. *)
Definition prefix12 (s : string) : outcome string string := str_slice s 0 (Z.min 12 (str_len s)).

Definition on_blob_request (conn : Z) (id : string) : M Server string unit := fun s =>
  match conns s !! conn with
  | None => (Ok tt, s)
  | Some _ =>
      match cid_from_hex id with
      | Panic => (Panic, s)
      | r =>
          let data := ok r ≫= fun cid => ok (get_blob (sv_store s) cid) in
          match prefix12 id with
          | Panic => (Panic, s)
          | _ => (Ok tt, send_to conn (Blob (hex <$> data)) s)
          end
      end
  end.

(** Whether a result may be counted at all: the checks on the connection. *)
Definition result_admissible (cfg : ServeConfig) (c : Conn) (r : WorkerResult) : outcome string bool :=
  if negb (authed c) then Ok false
  else if negb (bool_decide (worker_id r = c_worker_id c)) then Ok false
  else if match c_pubkey c, pubkey_hex r with
          | Some pk, Some claimed => negb (bool_decide (pk = claimed))
          | None, _ => require_identity cfg
          | _, _ => false
          end then Ok false
  else
    match verify_signature r with
    | Ok _ => Ok true
    | Err _ => Ok false
    | Panic => Panic
    end.

(** The pending job after an admissible result of worker [wid]. *)
Definition count_result (wid : string) (r : WorkerResult) (j : PendingJob) : outcome string PendingJob :=
  if negb (bool_decide (job_id r = d_job_id (pj_descriptor j))) then Ok j
  else if negb (bool_decide (wid ∈ dispatched_ids j)) then Ok j
  else if bool_decide (wid ∈ worker_id <$> results j) then Ok j
  else
    _ ← str_slice (E := string) (result_hash r) 0 12;
    mret (set_results (results j ++ [r]) j).

Definition on_result (cfg : ServeConfig) (conn : Z) (r : WorkerResult) : M Server string unit := fun s =>
  match conns s !! conn with
  | None => (Ok tt, s)
  | Some c =>
      match result_admissible cfg c r with
      | Ok true =>
          match pending s with
          | None => (Ok tt, s)
          | Some j =>
              match count_result (c_worker_id c) r j with
              | Ok j' => (Ok tt, set_pending (Some j') s)
              | Err e => (Err e, s)
              | Panic => (Panic, s)
              end
          end
      | Ok false => (Ok tt, s)
      | Err e => (Err e, s)
      | Panic => (Panic, s)
      end
  end.

Definition MAX_BLOB_BYTES : Z := 16 * 1024 * 1024.
Definition MAX_UPLOADS_PER_CONN : Z := 8.

(** The body of [handle_blob_upload] after the connection's checks: the acknowledgement, and
    the store then. *)
Definition store_upload (id_hex bytes_hex : string) : M Store string (bool * option string) := fun st =>
  let refuse (why : string) := (Ok (false, Some why), st) in
  if 2 * MAX_BLOB_BYTES <? str_len bytes_hex then
    refuse ("blob exceeds the " +:+ pretty MAX_BLOB_BYTES +:+ "-byte limit")%string
  else
    match from_hex_tag "bad hex" bytes_hex (str_len bytes_hex / 2) with
    | Err e => refuse e
    | Panic => (Panic, st)
    | Ok bytes =>
        match from_hex_tag "bad id hex" id_hex 32 with
        | Err e => refuse e
        | Panic => (Panic, st)
        | Ok claimed =>
            if negb (bool_decide (claimed = blake3 bytes)) then
              refuse "hash mismatch: bytes are not the claimed content"%string
            else
              match put_blob bytes st with
              | (Err e, st') => (Ok (false, Some ("store: " +:+ e)%string), st')
              | (Panic, st') => (Panic, st')
              | (Ok _, st') =>
                  match prefix12 id_hex with
                  | Panic => (Panic, st')
                  | _ => (Ok (true, None), st')
                  end
              end
        end
    end.

Definition handle_blob_upload (conn : Z) (id_hex bytes_hex : string) : M Server string unit := fun s =>
  match conns s !! conn with
  | None => (Ok tt, s)
  | Some c =>
      if negb (authed c) then (Ok tt, s)
      else if MAX_UPLOADS_PER_CONN <=? uploads c then
        (Ok tt, send_to conn (BlobAck id_hex false (Some "upload limit reached for this connection"%string)) s)
      else
        let s1 := set_conns (alter count_upload conn) s in
        match store_upload id_hex bytes_hex (sv_store s1) with
        | (Ok (accepted, reason), st) =>
            (Ok tt, send_to conn (BlobAck id_hex accepted reason) (set_store st s1))
        | (Err e, st) => (Err e, set_store st s1)
        | (Panic, st) => (Panic, set_store st s1)
        end
  end.

(** The binding of a descriptor: its three content ids, decoded. *)
Definition decode_hex32 (tag h : string) : outcome string (list Z) := from_hex_tag tag h 32.

Definition descriptor_binding (tag : string) (d : JobDescriptor) : outcome string (list (list Z)) :=
  m ← decode_hex32 tag (d_manifest d);
  e ← decode_hex32 tag (d_elf d);
  i ← decode_hex32 tag (d_input d);
  mret [m; e; i].

(** The verified part of [handle_receipt_claim]: the decision a receipt earns the worker.  The
    first 12 bytes of the hash are sliced for the log. *)
Definition receipt_decision (wid : string) (out : ReceiptOutcome) : outcome string (option Decision) :=
  if ro_status out =? 0 then
    let hash := default ""%string (last (ro_chunk_hashes out)) in
    _ ← prefix12 hash;
    mret (Some (Accept hash (Some (ro_output_hex out)) [wid] true))
  else mret None.

(** From the gate on: [j] is the pending job with the attempt recorded, [t] the temporary
    files of the verifier. *)
Definition verify_claim (cmd guest wid : string) (receipt_bytes : list Z) (j : PendingJob) (t : Tmp) :
    outcome string PendingJob * Tmp :=
  match descriptor_binding "descriptor hash" (pj_descriptor j) with
  | Panic => (Panic, t)
  | Err _ => (Ok j, t)
  | Ok eb =>
      match verify_receipt cmd receipt_bytes eb guest false t with
      | (Panic, t') => (Panic, t')
      | (Err _, t') => (Ok j, t')
      | (Ok out, t') =>
          (acc ← receipt_decision wid out;
           mret match acc with
                | Some d => set_claims (Some d) (receipt_claimed j) j
                | None => j
                end, t')
      end
  end.

Definition handle_receipt_claim (cfg : ServeConfig) (wid jid pubkey_hex sig_hex receipt_hex : string) :
    M Server string unit := fun s =>
  match zk cfg with
  | None => (Ok tt, s)
  | Some (cmd, guest) =>
      if 2 * MAX_RECEIPT_BYTES <? str_len receipt_hex then (Ok tt, s)
      else
        match from_hex receipt_hex (str_len receipt_hex / 2) with
        | Err _ => (Ok tt, s)
        | Panic => (Panic, s)
        | Ok receipt_bytes =>
            match verify_claim_sig pubkey_hex jid (blake3 receipt_bytes) sig_hex, pending s with
            | Panic, _ => (Panic, s)
            | Err _, _ | Ok _, None => (Ok tt, s)
            | Ok _, Some j =>
                if negb (bool_decide (jid = d_job_id (pj_descriptor j))) || bool_decide (is_Some (zk_accept j)) then (Ok tt, s)
                else if negb (bool_decide (wid ∈ dispatched_ids j)) then (Ok tt, s)
                else
                  match receipt_claim_gate (receipt_claimed j) wid with
                  | (false, _) => (Ok tt, s)
                  | (true, claimed) =>
                      let j1 := set_claims (zk_accept j) claimed j in
                      let s1 := set_pending (Some j1) s in
                      match verify_claim cmd guest wid receipt_bytes j1 (tmp s1) with
                      | (Ok j2, t) => (Ok tt, set_pending (Some j2) (set_zk t (zk_disk s1) s1))
                      | (Err e, t) => (Err e, set_zk t (zk_disk s1) s1)
                      | (Panic, t) => (Panic, set_zk t (zk_disk s1) s1)
                      end
                  end
            end
        end
  end.

(** [Event::ReceiptClaim]: the identity gate, then the claim. *)
Definition on_receipt_claim (cfg : ServeConfig) (conn : Z) (wid jid pubkey_hex sig_hex receipt_hex : string) :
    M Server string unit := fun s =>
  match conns s !! conn with
  | None => (Ok tt, s)
  | Some c =>
      if negb (authed c) then (Ok tt, s)
      else if negb (bool_decide (wid = c_worker_id c)) then (Ok tt, s)
      else if match c_pubkey c with Some pk => negb (bool_decide (pk = pubkey_hex)) | None => false end then (Ok tt, s)
      else handle_receipt_claim cfg wid jid pubkey_hex sig_hex receipt_hex s
  end.

(** The three blobs of a submission must be in the store: the label and id of the first that
    is not. *)
Fixpoint missing_blob (st : Store) (blobs : list (string * string)) : outcome string (option (string * string)) :=
  match blobs with
  | [] => Ok None
  | (label, id_hex) :: rest =>
      id ← cid_from_hex id_hex;
      present ← has st id;
      if (present : bool) then missing_blob st rest else mret (Some (label, id_hex))
  end.

(** A job that goes straight to the proving queue. *)
Definition proving_job (d : JobDescriptor) (now conn : Z) : PendingJob :=
  mkJob d None "zk-proving" true false [] [] [] now None [] [conn].

(** [submitter_subs.entry(job_id).or_default().push(conn)] *)
Definition subscribe (jid : string) (conn : Z) (m : gmap string (list Z)) : gmap string (list Z) :=
  <[jid := default [] (m !! jid) ++ [conn]]> m.

Definition join_pending (jid : string) (conn : Z) (j : PendingJob) : PendingJob :=
  if bool_decide (d_job_id (pj_descriptor j) = jid) && negb (bool_decide (conn ∈ subscribers j))
  then set_subscribers (subscribers j ++ [conn]) j else j.

(** The last part of [handle_job_submission]: queue the descriptor's file, acknowledge, and
    subscribe the submitter. *)
Definition queue_submission (conn : Z) (d : JobDescriptor) (desc_json : list Z) (s : Server) : Server :=
  let jid := d_job_id d in
  let name := ("submitted-" +:+ jid +:+ ".desc.json")%string in
  match jobs_dir s !! name with
  | Some _ => s
  | None =>
      match fs_write name desc_json (jobs_dir s) with
      | (Ok _, d') =>
          let s1 := send_to conn (SubmissionAck jid true None false) (set_jobs_dir d' s) in
          set_pending (join_pending jid conn <$> pending s1) (set_subs (subscribe jid conn (submitter_subs s1)) s1)
      | _ => s
      end
  end.

(** The submission is authenticated: the key is the connection's and the signature covers the
    job id and the descriptor's hash. *)
Definition submission_signed (c : Conn) (d : JobDescriptor) (pubkey_hex sig_hex : string) : outcome string unit :=
  if negb (authed c) then Err "unauthenticated"%string
  else if match c_pubkey c with Some pk => negb (bool_decide (pk = pubkey_hex)) | None => false end then
    Err "key mismatch"%string
  else
    _ ← check_sig id id pubkey_hex sig_hex (submission_message (d_job_id d) (blake3 (to_vec d)));
    confined_name os_debug (d_job_id d).

(** A submission whose blobs are all there: to the proving queue or to the jobs directory. *)
Definition accept_submission (cfg : ServeConfig) (now conn : Z) (d : JobDescriptor) (require_zk : bool)
    (s : Server) : Server :=
  if require_zk then
    match zk_prover cfg with
    | None =>
        send_to conn (SubmissionAck (d_job_id d) false
          (Some "coordinator does not run a zk prover — high-assurance submissions refused"%string) false) s
    | Some _ =>
        if negb (prover_up s) then s
        else
          send_to conn (SubmissionAck (d_job_id d) true None true)
            (set_queue (prove_queue s ++ [proving_job d now conn]) s)
    end
  else queue_submission conn d (to_vec d) s.

Definition handle_job_submission (cfg : ServeConfig) (now conn : Z) (d : JobDescriptor)
    (pubkey_hex sig_hex : string) (require_zk : bool) : M Server string unit := fun s =>
  if negb (accept_submissions cfg) then (Ok tt, s)
  else
    match conns s !! conn with
    | None => (Ok tt, s)
    | Some c =>
        match submission_signed c d pubkey_hex sig_hex with
        | Panic => (Panic, s)
        | Err _ => (Ok tt, s)
        | Ok _ =>
            match missing_blob (sv_store s)
                    [("manifest", d_manifest d); ("elf", d_elf d); ("input", d_input d)]%string with
            | Panic => (Panic, s)
            | Err _ => (Ok tt, s)
            | Ok (Some (label, id_hex)) =>
                (Ok tt, send_to conn (SubmissionAck (d_job_id d) false
                   (Some ("blob missing: " +:+ label +:+ " (" +:+ id_hex +:+ ") — send BlobUpload first")%string) false) s)
            | Ok None => (Ok tt, accept_submission cfg now conn d require_zk s)
            end
        end
    end.

Definition on_closed (conn : Z) (s : Server) : Server := set_conns (delete conn) s.
End Handlers.
