(* ===== verification/Serve.v ===== *)
(** * The coordinator's main loop (crates/coordinator/src/net.rs)

    The scan of the jobs directory, the dispatch and escalation of a job, the judges behind a
    failed quorum, the finish of a job and one turn of the loop of [serve]; then the whole
    system as steps of the main loop, the session threads, the acceptor and the prover. *)

From S2P Require Import Prelude Text Mem Cpu Run Elf JobFmt ContentStore Wire Quorum Ledger Dispute ZkJudge Server.

(** ** The environment *)

(** What one turn of the loop finds outside: the clock, the iteration order of the connection
    table, the directory listing, random words and the random challenge. *)
Record Env : Type := mkEnv {
  now : Z;
  order : Conns -> list (Z * Conn);
  listing : outcome string (list string);
  rng : nat -> Z;
  nonce : list Z;
}.

(** A [HashMap] lists every entry once, in any order. *)
Definition env_ok (e : Env) : Prop := forall m, order e m ≡ₚ map_to_list m.

(** The rest of the operating system: renaming in the jobs directory, creating a directory,
    reading a path outside a job directory, and the wall clock in seconds. *)
Class NetOs : Type := {
  os_rename : string -> string -> outcome string unit;
  os_mkdir : string -> outcome string unit;
  os_outside : string -> outcome string (list Z);
  os_time : Z;
}.

(** The record of a finished job and the metadata of a proof, as written to disk. *)
Record Evidence : Type := mkEvidence {
  ev_job_id : string;
  ev_decision : Decision;
  ev_results : list WorkerResult;
  ev_deltas : list (string * Z);
}.

Record ProveMeta : Type := mkMeta {
  pm_key : string;
  pm_job_id : string;
  proven_at : Z;
  pm_instructions : option Z;
  pm_output_hex : option string;
  pm_vm_cycles : option Z;
  pm_proving_secs : option string;
}.

(** ** Strings of file names *)

(** [s.trim_end_matches(suffix)] and [s.ends_with(suffix)] *)
Definition DESC_SUFFIX : list Z := as_bytes ".desc.json".

Definition ends_with (suffix l : list Z) : bool :=
  bool_decide (is_Some (strip_prefix (reverse suffix) (reverse l))).

(** [s.split_once(c)] *)
Fixpoint split_once (c : Z) (l : list Z) : option (list Z * list Z) :=
  match l with
  | [] => None
  | b :: t => if b =? c then Some ([], t) else (fun '(x, y) => (b :: x, y)) <$> split_once c t
  end.

(** [s.split(c)] *)
Fixpoint split_on (c : Z) (l cur : list Z) : list (list Z) :=
  match l with
  | [] => [cur]
  | b :: t => if b =? c then cur :: split_on c t [] else split_on c t (cur ++ [b])
  end.

(** The workers a descriptor's file name targets. *)
Definition file_targets (name : string) : option (list string) :=
  let stem := strip_end [DESC_SUFFIX] (as_bytes name) in
  (fun '(_, ids) => from_bytes ∘ trim <$> split_on 44 ids []) <$> split_once 64 stem.

(** ** The jobs directory *)

Definition DESC_WRITE_GRACE : Z := 5000.

Section Scan.
Context `{Os} `{NetOs} `{Json JobDescriptor}.

(** The loop of [scan_jobs_dir] over the listed names; the state is the directory and the
    first failure of each name. *)
Fixpoint scan_loop (t : Z) (names : list string) :
    M (Dir * gmap string Z) string (option (JobDescriptor * option (list string) * string)) := fun st =>
  let '(d, errors) := st in
  match names with
  | [] => (Ok None, st)
  | raw :: rest =>
      let name := from_bytes (utf8_lossy (as_bytes raw)) in
      if negb (ends_with DESC_SUFFIX (as_bytes name)) then scan_loop t rest st
      else
        let loaded :=
          bytes ← map_err (fun e => "jobs dir: " +:+ e)%string (ok_or (d !! raw) os_missing);
          map_err (fun e => "descriptor " +:+ name +:+ ": " +:+ e)%string (from_slice (A := JobDescriptor) bytes) in
        match loaded with
        | Panic => (Panic, st)
        | Err e =>
            match errors !! raw with
            | Some seen =>
                if DESC_WRITE_GRACE <=? t - seen then (Err e, st) else scan_loop t rest st
            | None => scan_loop t rest (d, <[raw := t]> errors)
            end
        | Ok desc =>
            let errors' := delete raw errors in
            let path := (raw +:+ ".dispatching")%string in
            match os_rename raw path with
            | Ok _ =>
                (Ok (Some (desc, file_targets name, path)),
                 (match d !! raw with Some b => <[path := b]> (delete raw d) | None => d end, errors'))
            | Err e => (Err ("jobs dir: " +:+ e)%string, (d, errors'))
            | Panic => (Panic, (d, errors'))
            end
        end
  end.

Definition scan_jobs_dir (e : Env) :
    M (Dir * gmap string Z) string (option (JobDescriptor * option (list string) * string)) := fun st =>
  match map_err (fun x => "jobs dir: " +:+ x)%string (listing e) with
  | Ok names => scan_loop (now e) names st
  | Err x => (Err x, st)
  | Panic => (Panic, st)
  end.

(** A newly queued job; the submitters registered for it move into it. *)
Definition queue_job (e : Env) (q : JobDescriptor * option (list string) * string) (s : Server) : Server :=
  let '(d, tg, path) := q in
  let job := mkJob d tg path false false [] [] [] (now e) None [] (default [] (submitter_subs s !! d_job_id d)) in
  set_pending (Some job) (set_subs (delete (d_job_id d) (submitter_subs s)) s).

Definition scan_step (e : Env) : M Server string unit := fun s =>
  match pending s with
  | Some _ => (Ok tt, s)
  | None =>
      match scan_jobs_dir e (jobs_dir s, scan_errors s) with
      | (r, (d, errs)) =>
          let s1 := set_errors errs (set_jobs_dir d s) in
          match r with
          | Ok (Some q) => (Ok tt, queue_job e q s1)
          | Ok None => (Ok tt, s1)
          | Err x => (Err x, s1)
          | Panic => (Panic, s1)
          end
      end
  end.
End Scan.

(** ** Dispatch *)

Definition is_worker (c : Conn) : bool := bool_decide (c_role c = "worker"%string).

Definition values (e : Env) (m : Conns) : list Conn := (order e m).*2.

Definition authed_count (e : Env) (m : Conns) : nat :=
  length (filter (fun c => authed c && is_worker c = true) (values e m)).

Definition all_authed (e : Env) (m : Conns) (ids : list string) : bool :=
  forallb (fun id => existsb (fun c => authed c && bool_decide (c_worker_id c = id)) (values e m)) ids.

Definition targets_ready (cfg : ServeConfig) (e : Env) (m : Conns) (tg : option (list string)) : bool :=
  let pool_ready := match cfg_pool cfg with Some p => (p <=? authed_count e m)%nat | None => true end in
  match tg, round1_ids cfg with
  | Some ids, _ => all_authed e m ids && pool_ready
  | None, Some ids => all_authed e m ids && pool_ready
  | None, None => (default 1 (cfg_pool cfg) <=? authed_count e m)%nat
  end.

(** The p2p hints for worker [wid]. *)
Definition peer_hints (e : Env) (m : Conns) (wid : string) : list string :=
  omap peer_addr (filter (fun p => authed p && negb (bool_decide (c_worker_id p = wid)) = true) (values e m)).

Definition candidates (e : Env) (m : Conns) (tg : option (list string)) : list (string * list string) :=
  (fun c => (c_worker_id c, peer_hints e m (c_worker_id c))) <$>
    filter (fun c => (match tg with Some ids => bool_decide (c_worker_id c ∈ ids) | None => authed c end)
                     && authed c && is_worker c = true) (values e m).

(** [items.swap(i, j)] *)
Definition swap {A} (i j : nat) (l : list A) : list A :=
  match l !! i, l !! j with
  | Some x, Some y => <[i := y]> (<[j := x]> l)
  | _, _ => l
  end.

(** [shuffle]: [n] steps left, the index going down from [n]; [k] random words are used. *)
Fixpoint shuffle_loop {A} (r : nat -> Z) (n k : nat) (l : list A) : list A :=
  match n with
  | O => l
  | S n' => shuffle_loop r n' (S k) (swap n (Z.to_nat (r k mod Z.of_nat (n + 1))) l)
  end.

Definition shuffle {A} (r : nat -> Z) (l : list A) : list A := shuffle_loop r (length l - 1) 0 l.

(** Random sampling, when more workers are eligible than the round needs. *)
Definition sample (cfg : ServeConfig) (e : Env) (cands : list (string * list string)) : list (string * list string) :=
  match round1_size cfg with
  | Some n => if (n <? length cands)%nat then take n (shuffle (rng e) cands) else cands
  | None => cands
  end.

Definition select (cfg : ServeConfig) (e : Env) (tg : option (list string)) (cands : list (string * list string)) :
    list (string * list string) :=
  match round1_ids cfg, tg with
  | Some ids, None => omap (fun id => find (fun x => bool_decide (x.1 = id)) cands) ids
  | _, _ => sample cfg e cands
  end.

Definition held_back (e : Env) (m : Conns) (tg : option (list string)) (selected : list string) : list string :=
  c_worker_id <$>
    filter (fun c => authed c && is_worker c && negb (bool_decide (c_worker_id c ∈ selected)) &&
                     match tg with Some ids => negb (bool_decide (c_worker_id c ∈ ids)) | None => true end = true)
      (values e m).

(** [map.values_mut().find(|c| p(c))], by its key. *)
Definition find_conn (e : Env) (p : Conn -> bool) (m : Conns) : option Z :=
  fst <$> find (fun x => p x.2) (order e m).

(** Send the assignment to each worker of the list that has a connection; the ids sent to. *)
Fixpoint assign (e : Env) (p : string -> Conn -> bool) (d : JobDescriptor) (ws : list (string * list string)) (m : Conns) :
    list string * Conns :=
  match ws with
  | [] => ([], m)
  | (wid, hints) :: rest =>
      match find_conn e (p wid) m with
      | Some k =>
          let '(ids, m') := assign e p d rest (alter (push_msg (JobAssignment d hints)) k m) in (wid :: ids, m')
      | None => assign e p d rest m
      end
  end.

Definition same_id (wid : string) (c : Conn) : bool := bool_decide (c_worker_id c = wid).

Definition dispatch_job (cfg : ServeConfig) (e : Env) (j : PendingJob) (m : Conns) : PendingJob * Conns :=
  let selected := select cfg e (targets j) (candidates e m (targets j)) in
  let '(ids, m') := assign e same_id (pj_descriptor j) selected m in
  (mkJob (pj_descriptor j) (targets j) (pj_path j) true (escalated j) (dispatched_ids j ++ ids)
     (held_back e m (targets j) selected.*1) (results j) (now e) (zk_accept j) (receipt_claimed j) (subscribers j), m').

Definition dispatch_step (cfg : ServeConfig) (e : Env) (s : Server) : Server :=
  match pending s with
  | Some j =>
      if negb (dispatched j) && targets_ready cfg e (conns s) (targets j) then
        let '(j', m') := dispatch_job cfg e j (conns s) in set_pending (Some j') (set_conns (const m') s)
      else s
  | None => s
  end.

(** ** Escalation *)

Definition authed_id (wid : string) (c : Conn) : bool := bool_decide (c_worker_id c = wid) && authed c.

(** The reserves are dispatched; the hints are read just before each send. *)
Fixpoint assign_reserves (e : Env) (d : JobDescriptor) (ws : list string) (m : Conns) : list string * Conns :=
  match ws with
  | [] => ([], m)
  | wid :: rest =>
      match find_conn e (authed_id wid) m with
      | Some k =>
          let '(ids, m') :=
            assign_reserves e d rest (alter (push_msg (JobAssignment d (peer_hints e m wid))) k m) in (wid :: ids, m')
      | None => assign_reserves e d rest m
      end
  end.

Definition escalate_job (e : Env) (j : PendingJob) (m : Conns) : PendingJob * Conns :=
  let '(ids, m') := assign_reserves e (pj_descriptor j) (reserves j) m in
  (mkJob (pj_descriptor j) (targets j) (pj_path j) (dispatched j) true (dispatched_ids j ++ ids)
     [] (results j) (now e) (zk_accept j) (receipt_claimed j) (subscribers j), m').

(** The copy of the job that is finished. *)
Definition finished_copy (j : PendingJob) : PendingJob :=
  mkJob (pj_descriptor j) (targets j) (pj_path j) true false (dispatched_ids j)
    [] (results j) (started j) (zk_accept j) (receipt_claimed j) (subscribers j).

(** What the completion check decides. *)
Inductive completion : Type :=
  | Waiting
  | Escalating (j : PendingJob) (m : Conns)
  | Finishing (j : PendingJob).

Definition all_in (j : PendingJob) : bool :=
  bool_decide (is_Some (zk_accept j)) ||
  forallb (fun id => bool_decide (id ∈ worker_id <$> results j)) (dispatched_ids j).

Definition check_completion (cfg : ServeConfig) (e : Env) (j : PendingJob) (m : Conns) : outcome string completion :=
  if negb (dispatched j) then Ok Waiting
  else if all_in j then
    d ← Pool.decide (results j) (length (dispatched_ids j));
    if bool_decide (d = Escalate) && negb (bool_decide (reserves j = [])) then
      let '(j', m') := escalate_job e j m in mret (Escalating j' m')
    else mret (Finishing (finished_copy j))
  else if per_job_deadline cfg <? now e - started j then mret (Finishing (finished_copy j))
  else mret Waiting.

(** ** The judges behind a failed quorum *)

Section Judging.
Context `{Blake3} `{Sha256} `{Os} `{NetOs} `{TmpOs} `{Procs}.
Context `{Json JobManifest} `{Json JobDescriptor} `{Json RVerdict} `{Json JudgeVerdict} `{Json ProveMeta}.

(** [std::fs::read(dir.join(name))] in a materialised directory; a name that leaves the
    directory reads another file. *)
Definition dir_read (d : Dir) (name : string) : outcome string (list Z) :=
  if decide (plain_name name) then fs_read d name else os_outside name.

(** [r.ok()?]: an error is the [None] of the caller. *)
Definition or_none {A} (r : outcome string A) : outcome unit A := map_err (fun _ => tt) r.

(** Materialise the job into its own directory, emptied before. *)
Definition fresh_dir (desc : JobDescriptor) (st : Store) : outcome string Dir :=
  match materialize desc st ∅ with
  | (Ok _, d) => Ok d
  | (Err e, _) => Err e
  | (Panic, _) => Panic
  end.

(** The workers whose one-element chain is the true digest, once each. *)
Definition vindicated (truth : string) (rs : list WorkerResult) : list string :=
  foldl (fun agreed r =>
    if bool_decide (r_chunk_hashes r = [truth]) && negb (bool_decide (worker_id r ∈ agreed))
    then agreed ++ [worker_id r] else agreed) [] rs.

Definition judge_by_replay_network (st : Store) (j : PendingJob) : outcome unit Decision :=
  d ← or_none (fresh_dir (pj_descriptor j) st);
  mb ← or_none (fs_read d "job.json");
  m ← or_none (from_slice (A := JobManifest) mb);
  if is_sp1_v2 m then Err tt
  else
    e ← or_none (dir_read d (elf m));
    i ← or_none (dir_read d (input m));
    image ← or_none (parse e);
    '(n, out) ← replay_journal e (entry image) i (m_chunk_size m) (m_max_instructions m);
    let truth := hex (journal_digest n out) in
    mret (Accept truth (Some (hex out)) (vindicated truth (results j)) false).

(** The decision of a receipt-backed verdict, with the responders it vindicates. *)
Definition vindicate_zk (rs : list WorkerResult) (d : Decision) : Decision :=
  match d with
  | Accept h oh _ true =>
      Accept h oh (worker_id <$> filter (fun r => r_chunk_hashes r = [h]) rs) true
  | other => other
  end.

(** [zk_judge_network]; [Err tt] is its [None].  The disk is where receipts are saved. *)
Definition zk_judge_network (cfg : ServeConfig) (st : Store) (j : PendingJob) : M Dir unit Decision := fun disk =>
  match zk_judge cfg with
  | None => (Err tt, disk)
  | Some zkj =>
      match fresh_dir (pj_descriptor j) st with
      | Panic => (Panic, disk)
      | Err _ => (Err tt, disk)
      | Ok d =>
          let receipt_out := (fun rd => rd +:+ "/" +:+ d_job_id (pj_descriptor j) +:+ ".receipt.bin")%string <$> receipt_dir zkj in
          match run_judge zkj ("p2pc-zkjudge-" +:+ d_job_id (pj_descriptor j)) d
                  (os_mkdir (default ""%string (receipt_dir zkj))) receipt_out disk with
          | (Panic, disk') => (Panic, disk')
          | (Err _, disk') => (Err tt, disk')
          | (Ok v, disk') =>
              (or_none (eb ← descriptor_binding "content id" (pj_descriptor j);
                        mb ← fs_read d "job.json";
                        m ← from_slice (A := JobManifest) mb;
                        dec ← judge_decision v eb (is_sp1_v2 m);
                        mret (vindicate_zk (results j) dec)), disk')
          end
      end
  end.

(** The decision on a finished job. *)
Definition decide_job (cfg : ServeConfig) (st : Store) (j : PendingJob) : M Dir string Decision := fun disk =>
  match zk_accept j with
  | Some d => (Ok d, disk)
  | None =>
      match Pool.decide (results j) (length (dispatched_ids j)) with
      | Ok Escalate =>
          match zk_judge_network cfg st j disk with
          | (Ok d, disk') => (Ok d, disk')
          | (Panic, disk') => (Panic, disk')
          | (Err _, disk') =>
              (match judge_by_replay_network st j with
               | Ok d => Ok d
               | Err _ => Ok (Reject "no majority; dispute judgment failed")
               | Panic => Panic
               end, disk')
          end
      | Ok d => (Ok d, disk)
      | Err e => (Err e, disk)
      | Panic => (Panic, disk)
      end
  end.

(** ** The proving queue *)

(** The sidecar of a fresh receipt and the copy under the job's name, when the prover left
    one; the results of the writes are ignored. *)
Definition keep (path : string) (data : list Z) (disk : Dir) : Dir :=
  match os_write path data with Ok stored => <[path := stored]> disk | _ => failed_write path path data disk end.

Definition save_sidecar (rd key jid : string) (v : JudgeVerdict) (disk : Dir) : Dir :=
  match disk !! (cache_paths rd key).1 with
  | None => disk
  | Some receipt =>
      let meta := {| pm_key := key; pm_job_id := jid; proven_at := os_time;
                     pm_instructions := j_instructions v; pm_output_hex := j_output_hex v;
                     pm_vm_cycles := j_vm_cycles v; pm_proving_secs := j_proving_secs v |} in
      keep (rd +:+ "/" +:+ jid +:+ ".receipt.bin")%string receipt
        (keep (cache_paths rd key).2 (to_vec_pretty meta) disk)
  end.

(** A fresh proof. *)
Definition prove_fresh (zkj : ZkJudge) (j : PendingJob) (d : Dir) (key : string) (eb : list (list Z)) (v2 : bool) :
    M Dir string Decision := fun disk =>
  let receipt_out := (fun rd => (cache_paths rd key).1) <$> receipt_dir zkj in
  match run_judge zkj ("p2pc-zkprove-" +:+ d_job_id (pj_descriptor j)) d
          (os_mkdir (default ""%string (receipt_dir zkj))) receipt_out disk with
  | (Ok v, disk') =>
      (judge_decision v eb v2,
       match receipt_dir zkj with
       | Some rd => save_sidecar rd key (d_job_id (pj_descriptor j)) v disk'
       | None => disk'
       end)
  | (Err e, disk') => (Err e, disk')
  | (Panic, disk') => (Panic, disk')
  end.

(** The state is the verifier's temporary files and the receipt directory's disk. *)
Definition prove_one (st : Store) (zkj : ZkJudge) (j : PendingJob) : M (Tmp * Dir) string Decision := fun td =>
  let '(t, disk) := td in
  match (d ← fresh_dir (pj_descriptor j) st;
         eb ← descriptor_binding "content id" (pj_descriptor j);
         mb ← map_err (fun e => "manifest: " +:+ e)%string (fs_read d "job.json");
         m ← map_err (fun e => "manifest parse: " +:+ e)%string (from_slice (A := JobManifest) mb);
         key ← receipt_cache_key (pj_descriptor j);
         mret (d, eb, is_sp1_v2 m, key)) with
  | Err e => (Err e, td)
  | Panic => (Panic, td)
  | Ok (d, eb, v2, key) =>
      let cached := match receipt_dir zkj with
                    | Some rd => verify_cached zkj disk rd key eb v2 t
                    | None => (Err tt, t)
                    end in
      match cached with
      | (Ok dec, t') => (Ok dec, (t', disk))
      | (Panic, t') => (Panic, (t', disk))
      | (Err _, t') => let '(r, disk') := prove_fresh zkj j d key eb v2 disk in (r, (t', disk'))
      end
  end.

(** One turn of [proving_worker]: the decision is delivered as an event; a panic ends the
    thread. *)
Definition prove_turn (cfg : ServeConfig) (s : Server) : Server :=
  match zk_prover cfg, prove_queue s with
  | Some zkj, j :: rest =>
      let s1 := set_queue rest s in
      let deliver d s' := set_events (events s' ++ [EvProved j d]) s' in
      match prove_one (sv_store s) zkj j (tmp s, zk_disk s) with
      | (Ok d, (t, disk)) => deliver d (set_zk t disk s1)
      | (Err e, (t, disk)) => deliver (Reject ("zk proving failed: " +:+ e)) (set_zk t disk s1)
      | (Panic, (t, disk)) => set_prover_up false (set_zk t disk (set_queue [] s))
      end
  | _, _ => s
  end.
End Judging.

(** ** Finishing a job *)

Section Finish.
Context `{Os} `{Json Ledger} `{Json Evidence}.

(** A ledger that does not load is replaced by the empty one; a failed save is logged, and can
    leave a part of the file. *)
Definition finish_ledger (cfg : ServeConfig) (jid : string) (deltas : list (string * Z)) (f : file_read) :
    outcome string file_read :=
  match ledger_path cfg with
  | None => Ok f
  | Some path =>
      let led := match ledger_load f with Ok l => l | _ => empty_ledger end in
      led' ← ledger_apply jid "network-run" deltas led;
      match ledger_save path led' with
      | Ok stored => Ok (FileBytes stored)
      | _ => Ok (match os_failed path (to_vec_pretty led') with Some part => FileBytes part | None => f end)
      end
  end.

Definition notify (j : PendingJob) (d : Decision) (m : Conns) : Conns :=
  match d with
  | Accept h oh agreed z =>
      foldl (fun m' conn => alter (push_msg (JobOutcome (d_job_id (pj_descriptor j)) h agreed oh z None)) conn m')
        m (subscribers j)
  | _ => m
  end.

Definition finish_decided_job (cfg : ServeConfig) (j : PendingJob) (d : Decision) : M Server string unit := fun s =>
  let jid := d_job_id (pj_descriptor j) in
  let deltas := slashing d (results j) in
  let s1 := set_conns (notify j d) s in
  let rf := match results_dir cfg with
            | Some _ =>
                (fs_write (jid +:+ ".json")
                   (to_vec_pretty {| ev_job_id := jid; ev_decision := d; ev_results := results j; ev_deltas := deltas |})
                   (results_files s1)).2
            | None => results_files s1
            end in
  match finish_ledger cfg jid deltas (ledger_file s1) with
  | Ok lf =>
      (Ok tt, add_outcome {| f_job_id := jid; f_decision := d; f_results := results j; f_deltas := deltas |}
                (set_files rf lf s1))
  | Err e => (Err e, set_files rf (ledger_file s1) s1)
  | Panic => (Panic, set_files rf (ledger_file s1) s1)
  end.

Definition broadcast (msg : ServerToClient) (s : Server) : Server := set_conns (fmap (push_msg msg)) s.
End Finish.

(** ** The loop *)

Section Loop.
Context `{Blake3} `{Sha256} `{Ed25519} `{Os} `{NetOs} `{TmpOs} `{Procs}.
Context `{Json JobManifest} `{Json JobDescriptor} `{Json RVerdict} `{Json JudgeVerdict} `{Json ProveMeta}.
Context `{Json Ledger} `{Json Evidence}.

Definition on_event (cfg : ServeConfig) (e : Env) (ev : NetEvent) : M Server string unit :=
  match ev with
  | EvHello conn pk wid port role => fun s => (Ok tt, on_hello cfg (nonce e) conn pk wid port role s)
  | EvNonceSig conn sg pow => on_nonce_sig cfg conn sg pow
  | EvBlobRequest conn id => on_blob_request conn id
  | EvResult conn r => on_result cfg conn r
  | EvBlobUpload conn id b => handle_blob_upload conn id b
  | EvJobSubmission conn _ d pk sg rz => handle_job_submission cfg (now e) conn d pk sg rz
  | EvReceiptClaim conn w j pk sg rc => on_receipt_claim cfg conn w j pk sg rc
  | EvProved j d => _ ← finish_decided_job cfg j d; mmodify (broadcast BetweenJobs)
  | EvClosed conn => fun s => (Ok tt, on_closed conn s)
  end.

(** [event_rx.recv_timeout(..)] takes the oldest event, if there is one. *)
Definition event_step (cfg : ServeConfig) (e : Env) : M Server string unit := fun s =>
  match events s with
  | [] => (Ok tt, s)
  | ev :: rest => on_event cfg e ev (set_events rest s)
  end.

(** [std::fs::rename(&job.path, path.done).ok()] *)
Definition mark_done (path : string) (s : Server) : Server :=
  match os_rename path (path +:+ ".done"), jobs_dir s !! path with
  | Ok _, Some b => set_jobs_dir (<[(path +:+ ".done")%string := b]> (delete path (jobs_dir s))) s
  | _, _ => s
  end.

(** Decide and finish the job [j] that left the pending slot. *)
Definition finish_step (cfg : ServeConfig) (j : PendingJob) : M Server string unit := fun s =>
  match decide_job cfg (sv_store s) j (zk_disk s) with
  | (Ok d, disk) =>
      (_ ← finish_decided_job cfg j d;
       mmodify (fun s' => set_pending None (broadcast BetweenJobs (mark_done (pj_path j) s')))) (set_zk (tmp s) disk s)
  | (Err e, disk) => (Err e, set_zk (tmp s) disk s)
  | (Panic, disk) => (Panic, set_zk (tmp s) disk s)
  end.

Definition completion_step (cfg : ServeConfig) (e : Env) : M Server string unit := fun s =>
  match pending s with
  | None => event_step cfg e s
  | Some j =>
      match check_completion cfg e j (conns s) with
      | Ok Waiting => event_step cfg e s
      | Ok (Escalating j' m) => (Ok tt, set_pending (Some j') (set_conns (const m) s))
      | Ok (Finishing j') => finish_step cfg j' s
      | Err x => (Err x, s)
      | Panic => (Panic, s)
      end
  end.

(** One turn of the loop of [serve]; [false] is its return with the outcomes. *)
Definition turn (cfg : ServeConfig) (e : Env) : M Server string bool := fun s =>
  if match max_jobs cfg with Some n => (n <=? jobs_done s)%nat | None => false end then
    (Ok false, broadcast (ShutDown "all queued jobs complete") s)
  else
    (_ ← scan_step e;
     _ ← mmodify (dispatch_step cfg e);
     _ ← completion_step cfg e;
     mret true) s.

(** ** The system *)

(** The acceptor registers a connection under a new number; a session thread receives, drains
    or breaks; the prover works off its queue; the main loop makes a turn. *)
Inductive sys_step (cfg : ServeConfig) : Server -> Server -> Prop :=
  | step_accept s id ip : conns s !! id = None -> sys_step cfg s (set_conns (insert id (new_conn id ip)) s)
  | step_session s conn f : sys_step cfg s (session_turn conn f s).2
  | step_prove s : sys_step cfg s (prove_turn cfg s)
  | step_turn s e s' : env_ok e -> turn cfg e s = (Ok true, s') -> sys_step cfg s s'.

Definition init_server (st : Store) (jd rf : Dir) (lf : file_read) (t : Tmp) (disk : Dir) : Server :=
  mkServer ∅ None [] 0 ∅ ∅ [] [] st jd rf lf t disk true.

Definition reachable (cfg : ServeConfig) (s : Server) : Prop :=
  exists st jd rf lf t disk, rtc (sys_step cfg) (init_server st jd rf lf t disk) s.
End Loop.
