(* ===== verification/ServeCmd.v ===== *)
(** * The serve command (crates/coordinator/src/main.rs)

    The configuration [coordinator serve] builds from its command line, and what its main
    thread prints of the finished jobs.  The certificate files of [--tls] are in [Tls]. *)

From S2P Require Import Prelude Text JobFmt ContentStore Wire Quorum Ledger ZkJudge Server Serve.

(** The options, with durations in seconds; [sa_accept] is a flag whose default is set. *)
Record ServeArgs : Type := mkServeArgs {
  sa_pool : nat;
  sa_deadline_secs : Z;
  sa_max_jobs : option nat;
  sa_sample_size : option nat;
  sa_round1_ids : option string;
  sa_pow_bits : Z;
  sa_zk_verify_cmd : option string;
  sa_zk_guest_elf : option string;
  sa_zk_judge_cmd : option string;
  sa_zk_judge_guest_elf : option string;
  sa_max_vm_cycles : Z;
  sa_timeout_secs : Z;
  sa_results_dir : option string;
  sa_accept : bool;
  sa_ledger : option string;
}.

Definition zk_judge_cfg (args : ServeArgs) : option ZkJudge :=
  cmd ← sa_zk_judge_cmd args;
  guest ← sa_zk_judge_guest_elf args;
  mret {| z_cmd := cmd; z_guest_elf := guest; max_vm_cycles := sa_max_vm_cycles args;
          z_timeout := pretty (sa_timeout_secs args) +:+ "s"; receipt_dir := sa_results_dir args;
          verify_cmd := sa_zk_verify_cmd args |}.

(** The configuration of [cmd_serve]. *)
Definition serve_config (args : ServeArgs) : ServeConfig := {|
  per_job_deadline := 1000 * sa_deadline_secs args;
  ledger_path := sa_ledger args;
  require_identity := true;
  zk := match sa_zk_verify_cmd args, sa_zk_guest_elf args with
        | Some cmd, Some guest => Some (cmd, guest)
        | _, _ => None
        end;
  zk_judge := zk_judge_cfg args;
  zk_prover := zk_judge_cfg args;
  accept_submissions := sa_accept args;
  results_dir := sa_results_dir args;
  identity_pow_bits := sa_pow_bits args;
  cfg_pool := Some (sa_pool args);
  max_jobs := sa_max_jobs args;
  round1_size := sa_sample_size args;
  round1_ids := (fun s => from_bytes ∘ trim <$> split_on 44 (as_bytes s) []) <$> sa_round1_ids args |}.

(** The lines printed when a job lands; the slice is at a byte offset. *)
Definition landed_lines (o : FinishedJob) : outcome string (list string) :=
  rest ← mapM (fun r =>
    short ← str_slice (result_hash r) 0 (Z.min 16 (str_len (result_hash r)));
    mret ("  " +:+ worker_id r +:+ ": " +:+ r_status r +:+ " " +:+ pretty (r_instructions r) +:+ " insts, result " +:+ short)%string)
    (f_results o);
  mret (("--- job " +:+ f_job_id o +:+ ": " +:+ pretty (Z.of_nat (length (f_results o))) +:+ " results")%string :: rest).

(** The line of a decision when the server has ended. *)
Definition final_line (debug : Decision -> string) (o : FinishedJob) : outcome string string :=
  match f_decision o with
  | Accept h _ agreed _ =>
      short ← str_slice h 0 16;
      mret ("JOB " +:+ f_job_id o +:+ ": ACCEPT — " +:+ String.concat "," agreed +:+ " agreed on " +:+ short)%string
  | Reject reason => mret ("JOB " +:+ f_job_id o +:+ ": REJECT — " +:+ reason)%string
  | other => mret ("JOB " +:+ f_job_id o +:+ ": " +:+ debug other)%string
  end.

(** The main thread: jobs are printed as they land, up to [--max-jobs]; then the decisions. *)
Definition landed_until (limit : option nat) (os : list FinishedJob) : list FinishedJob :=
  match limit with Some (S n) => take (S n) os | _ => os end.

Definition serve_report (args : ServeArgs) (debug : Decision -> string) (os : list FinishedJob) : outcome string (list string) :=
  landed ← mapM landed_lines (landed_until (sa_max_jobs args) os);
  final ← mapM (final_line debug) os;
  mret (concat landed ++ final).

(** A served pool has no anonymous members: under every configuration the command line can
    build, a connection is admitted only if it announced a key, its reply is that key's
    signature of the nonce it was sent, and its counter meets the difficulty asked for. *)
Theorem served_admission `{Blake3} `{Ed25519} args c sg pow :
  auth_ok (serve_config args) c sg pow = Ok true ->
  exists pk n s, c_pubkey c = Some pk /\ c_nonce c = Some n /\ sg = Some s /\
    verify_nonce pk n s = Ok tt /\ verify_pow n pow (sa_pow_bits args) = true.
Proof.
  unfold auth_ok. destruct (c_nonce c) as [n|]; [|by destruct (c_pubkey c), sg]. simpl.
  destruct (verify_pow n pow (sa_pow_bits args)) eqn:Hp; [|done]. simpl.
  destruct (c_pubkey c) as [pk|]; [|done]. destruct sg as [s|]; [|done].
  destruct (verify_nonce pk n s) as [[]|?|] eqn:Hv; [|done..]. intros _. by exists pk, n, s.
Qed.
