(* ===== verification/ServeFacts.v ===== *)
(** * Invariants of the coordinator

    What holds in every state the system can reach, whatever the clients send: votes are
    counted once per dispatched worker and only when signed, claims are attempted once per
    worker, and every accepted job is backed by a quorum, a replay or a receipt. *)

From S2P Require Import Prelude Text Mem Cpu Run Elf JobFmt ContentStore Wire Quorum Ledger Dispute ZkJudge Server Serve.

(** ** Vindication *)

Lemma vindicated_app truth rs agreed :
  NoDup agreed ->
  let l := foldl (fun agreed r =>
    if bool_decide (r_chunk_hashes r = [truth]) && negb (bool_decide (worker_id r ∈ agreed))
    then agreed ++ [worker_id r] else agreed) agreed rs in
  NoDup l /\ forall id, id ∈ l <-> id ∈ agreed \/ exists r, r ∈ rs /\ worker_id r = id /\ r_chunk_hashes r = [truth].
Proof.
  revert agreed. induction rs as [|r rs IH]; intros agreed Hnd; simpl.
  - split; [done|]. intros id. split; [by left|]. intros [?|(r & Hr & _)]; [done|by apply not_elem_of_nil in Hr].
  - set (agreed' := if _ && _ then _ else agreed).
    assert (NoDup agreed' /\ forall id, id ∈ agreed' <-> id ∈ agreed \/ worker_id r = id /\ r_chunk_hashes r = [truth]) as [Hnd' Hin'].
    { subst agreed'. case_bool_decide as Hc; simpl.
      2: { split; [done|]. intros id. split; [by left|]. by intros [?|[_ ?]]. }
      case_bool_decide as Hw; simpl.
      { split; [done|]. intros id. split; [by left|]. by intros [?|[<- _]]. }
      split.
      - apply NoDup_app. split_and!; [done| |apply NoDup_singleton]. by intros x Hx ->%list_elem_of_singleton.
      - intros id. rewrite elem_of_app, list_elem_of_singleton.
        split; [intros [?| ->]; auto|intros [?|[<- _]]; auto]. }
    destruct (IH agreed' Hnd') as [H1l H2l]. split; [done|]. intros id. rewrite H2l, Hin'. setoid_rewrite elem_of_cons.
    split.
    + intros [[?|[? ?]]|(r' & ? & ?)]; [by left|right; exists r; by auto|right; exists r'; by auto].
    + intros [?|(r' & [->|?] & ? & ?)]; [by auto|by auto|right; by exists r'].
Qed.

Section Facts.
Context `{Blake3} `{Sha256} `{Ed25519} `{Os} `{NetOs} `{TmpOs} `{Procs}.
Context `{Json JobManifest} `{Json JobDescriptor} `{Json RVerdict} `{Json JudgeVerdict} `{Json ProveMeta}.
Context `{Json Ledger} `{Json Evidence}.

(** ** What backs a decision *)

(** A worker's receipt, verified for this descriptor with status 0. *)
Definition claim_backed (desc : JobDescriptor) (claimed : list string) (d : Decision) : Prop :=
  exists wid cmd guest bytes tag eb t t' out, wid ∈ claimed /\ descriptor_binding tag desc = Ok eb /\
    verify_receipt cmd bytes eb guest false t = (Ok out, t') /\ ro_status out = 0 /\
    d = Accept (default ""%string (last (ro_chunk_hashes out))) (Some (ro_output_hex out)) [wid] true.

(** The prover's verdict or a cached receipt, for this descriptor. *)
Definition prover_backed (desc : JobDescriptor) (d : Decision) : Prop :=
  exists tag eb, descriptor_binding tag desc = Ok eb /\
    ((exists v v2, judge_decision v eb v2 = Ok d) \/
     (exists zkj disk rd key v2 t t', receipt_cache_key desc = Ok key /\
        verify_cached zkj disk rd key eb v2 t = (Ok d, t'))).

(** The verdict of the zk judge, for this descriptor, with the responders it vindicates. *)
Definition judge_backed (desc : JobDescriptor) (rs : list WorkerResult) (d : Decision) : Prop :=
  exists tag eb v v2 d0, descriptor_binding tag desc = Ok eb /\ judge_decision v eb v2 = Ok d0 /\
    d = vindicate_zk rs d0.

(** The coordinator's own execution of the job, from the blobs of its store. *)
Definition replay_backed (st : Store) (desc : JobDescriptor) (rs : list WorkerResult) (d : Decision) : Prop :=
  exists j, pj_descriptor j = desc /\ results j = rs /\ judge_by_replay_network st j = Ok d.

(** The decision of the pool [ids]. *)
Definition quorum_backed (ids : list string) (rs : list WorkerResult) (d : Decision) : Prop :=
  (forall r, r ∈ rs -> worker_id r ∈ ids) /\ Pool.decide rs (length ids) = Ok d.

(** Results that count: one per worker, for the job, with a verified signature. *)
Definition votes_ok (jid : string) (rs : list WorkerResult) : Prop :=
  NoDup (worker_id <$> rs) /\
  forall r, r ∈ rs -> job_id r = jid /\ verify_signature r = Ok tt.

Definition backed (desc : JobDescriptor) (rs : list WorkerResult) (d : Decision) : Prop :=
  (exists ids, quorum_backed ids rs d) \/ (exists st, replay_backed st desc rs d) \/ judge_backed desc rs d \/
  (exists claimed, claim_backed desc claimed d) \/ prover_backed desc d.

(** A finished job: its bonds follow its decision, its results count, and an acceptance is
    backed. *)
Definition justified (f : FinishedJob) : Prop :=
  f_deltas f = slashing (f_decision f) (f_results f) /\ votes_ok (f_job_id f) (f_results f) /\
  match f_decision f with
  | Accept _ _ _ _ => exists desc, d_job_id desc = f_job_id f /\ backed desc (f_results f) (f_decision f)
  | _ => True
  end.

(** ** The invariant *)

Record job_ok (j : PendingJob) : Prop := {
  jo_votes : votes_ok (d_job_id (pj_descriptor j)) (results j);
  jo_voters : forall r, r ∈ results j -> worker_id r ∈ dispatched_ids j;
  jo_claims : NoDup (receipt_claimed j) /\ forall w, w ∈ receipt_claimed j -> w ∈ dispatched_ids j;
  jo_escalated : escalated j = true -> dispatched j = true /\ reserves j = [];
  jo_queued : dispatched j = false -> dispatched_ids j = [] /\ reserves j = [];
  jo_zk : forall d, zk_accept j = Some d -> claim_backed (pj_descriptor j) (receipt_claimed j) d;
}.

Definition is_proving (j : PendingJob) : Prop := exists d t c, j = proving_job d t c.

Definition ev_ok (ev : NetEvent) : Prop :=
  match ev with
  | EvProved j d => is_proving j /\ match d with Accept _ _ _ _ => prover_backed (pj_descriptor j) d | _ => True end
  | _ => True
  end.

Definition conns_ok (m : Conns) : Prop :=
  forall k c, m !! k = Some c -> 0 <= uploads c <= MAX_UPLOADS_PER_CONN.

Record server_ok (s : Server) : Prop := {
  so_pending : forall j, pending s = Some j -> job_ok j;
  so_outcomes : Forall justified (outcomes s);
  so_done : jobs_done s = length (outcomes s);
  so_queue : Forall is_proving (prove_queue s);
  so_events : Forall ev_ok (events s);
  so_conns : conns_ok (conns s);
}.

(** ** Preservation *)

Definition keeps {A} (k : M Server string A) : Prop :=
  forall s a s', server_ok s -> k s = (Ok a, s') -> server_ok s'.

Lemma keeps_bind {A B} (k : M Server string A) (f : A -> M Server string B) :
  keeps k -> (forall a, keeps (f a)) -> keeps (k ≫= f).
Proof.
  intros Hk Hf s b s' Hs. unfold mbind, M_bind. destruct (k s) as [[a|e|] s1] eqn:Hks; try done.
  intros Hfs. eapply Hf; [|done]. by eapply Hk.
Qed.

Lemma keeps_pure (f : Server -> Server) :
  (forall s, server_ok s -> server_ok (f s)) -> keeps (mmodify f).
Proof. intros Hf s a s' Hs [= _ <-]. by apply Hf. Qed.

Lemma conns_ok_alter g k m : (forall c, uploads (g c) = uploads c) -> conns_ok m -> conns_ok (alter g k m).
Proof.
  intros Hg Hm i c. destruct (decide (i = k)) as [->|Hne].
  - rewrite lookup_alter_eq. intros (c0 & Hc & ->)%fmap_Some. rewrite Hg. by eapply Hm.
  - rewrite lookup_alter_ne by done. apply Hm.
Qed.

Lemma server_ok_conns f s : (conns_ok (conns s) -> conns_ok (f (conns s))) -> server_ok s -> server_ok (set_conns f s).
Proof. intros Hf []. by constructor; simpl; auto. Qed.

Lemma server_ok_send k msg s : server_ok s -> server_ok (send_to k msg s).
Proof. apply server_ok_conns. by apply conns_ok_alter. Qed.

Lemma server_ok_broadcast msg s : server_ok s -> server_ok (broadcast msg s).
Proof.
  apply server_ok_conns. intros Hm k c. rewrite lookup_fmap. intros (c0 & Hc & ->)%fmap_Some. simpl. by eapply Hm.
Qed.

Lemma server_ok_pending p s :
  (forall j, p = Some j -> job_ok j) -> server_ok s -> server_ok (set_pending p s).
Proof. intros Hp []. by constructor. Qed.

Lemma server_ok_zk t d s : server_ok s -> server_ok (set_zk t d s).
Proof. intros []. by constructor. Qed.

Lemma server_ok_store st s : server_ok s -> server_ok (set_store st s).
Proof. intros []. by constructor. Qed.

(** ** Handlers *)

Lemma on_hello_ok cfg n conn pk wid port role s :
  server_ok s -> server_ok (on_hello cfg n conn pk wid port role s).
Proof. apply server_ok_conns. by apply conns_ok_alter. Qed.

Lemma late_joiner_ok wid j : job_ok j -> job_ok (late_joiner wid j).
Proof.
  intros [V1 V2 C E Q Z]. unfold late_joiner. case_match eqn:Hc; [|done].
  apply andb_true_iff in Hc as [Hc _]. apply andb_true_iff in Hc as [Hc _].
  apply andb_true_iff in Hc as [Hd He]. apply negb_true_iff in He.
  constructor; simpl; try done; rewrite ?Hd, ?He; done.
Qed.

Lemma on_nonce_sig_ok cfg conn sg pow : keeps (on_nonce_sig cfg conn sg pow).
Proof.
  intros s a s' Hs. unfold on_nonce_sig. destruct (conns s !! conn) as [c|]; [|by intros [= _ <-]].
  destruct (auth_ok cfg c sg pow) as [[]|?|]; [intros [= _ <-]..|done|done].
  - apply server_ok_pending.
    + intros j (j0 & Hj & ->)%fmap_Some. apply late_joiner_ok, (so_pending s Hs). done.
    + apply server_ok_send, server_ok_conns; [by apply conns_ok_alter|done].
  - by do 2 apply server_ok_send.
Qed.

Lemma on_blob_request_ok conn id : keeps (on_blob_request conn id).
Proof.
  intros s a s' Hs. unfold on_blob_request. destruct (conns s !! conn) as [c|]; [|by intros [= _ <-]].
  destruct (cid_from_hex id); [| |done]; (destruct (prefix12 id); [| |done]);
    intros [= _ <-]; by apply server_ok_send.
Qed.

Lemma result_admissible_inv cfg c r :
  result_admissible cfg c r = Ok true ->
  authed c = true /\ worker_id r = c_worker_id c /\ verify_signature r = Ok tt.
Proof.
  unfold result_admissible. destruct (authed c); [|done]. simpl. case_bool_decide; [|done]. simpl.
  case_match; [done|]. by destruct (verify_signature r) as [[]| |].
Qed.

Lemma count_result_ok cfg c r j j' :
  result_admissible cfg c r = Ok true -> count_result (c_worker_id c) r j = Ok j' -> job_ok j -> job_ok j'.
Proof.
  intros Hadm Hc Hj. pose proof Hj as [[V1 V2] V3 C E Q Z]. unfold count_result in Hc.
  case_match eqn:Hid; [by injection Hc as <-|]. case_match eqn:Hd; [by injection Hc as <-|].
  case_match eqn:Hdup; [by injection Hc as <-|]. bools.
  destruct (str_slice _ _ _); [|done..]. injection Hc as <-.
  apply result_admissible_inv in Hadm as (_ & Hw & Hsig).
  constructor; simpl; try done.
  - split.
    + rewrite fmap_app, NoDup_app. split_and!; [done| |apply NoDup_singleton].
      intros x Hx ->%list_elem_of_singleton. by rewrite Hw in Hx.
    + intros r' [Hr'| ->%list_elem_of_singleton]%elem_of_app; [by apply V2|done].
  - intros r' [Hr'| ->%list_elem_of_singleton]%elem_of_app; [by apply V3|by rewrite Hw].
Qed.

Lemma on_result_ok cfg conn r : keeps (on_result cfg conn r).
Proof.
  intros s a s' Hs. unfold on_result. destruct (conns s !! conn) as [c|]; [|by intros [= _ <-]].
  destruct (result_admissible cfg c r) as [[]|?|] eqn:Ha; [|by intros [= _ <-]|done|done].
  destruct (pending s) as [j|] eqn:Hp; [|by intros [= _ <-]].
  destruct (count_result _ r j) as [j'|?|] eqn:Hc; [intros [= _ <-]|done|done].
  apply server_ok_pending; [|done]. intros ? [= <-]. by eapply count_result_ok; [..|by apply (so_pending s Hs)].
Qed.

Lemma handle_blob_upload_ok conn id b : keeps (handle_blob_upload conn id b).
Proof.
  intros s a s' Hs. unfold handle_blob_upload. destruct (conns s !! conn) as [c|] eqn:Hc; [|by intros [= _ <-]].
  case_match; [by intros [= _ <-]|]. case_match eqn:Hu; [by intros [= _ <-]; apply server_ok_send|].
  bools. destruct (store_upload _ _ _) as [[[]|?|] st]; [intros [= _ <-]|done|done].
  apply server_ok_send, server_ok_store, server_ok_conns; [|done]. intros Hm i c'.
  destruct (decide (i = conn)) as [->|Hne]; [|rewrite lookup_alter_ne by done; apply Hm].
  rewrite lookup_alter_eq, Hc. intros [= <-]. simpl. specialize (Hm _ _ Hc). lia.
Qed.

Lemma verify_claim_inv cmd guest wid bytes j t j' t' :
  wid ∈ receipt_claimed j -> verify_claim cmd guest wid bytes j t = (Ok j', t') ->
  j' = j \/ exists d, j' = set_claims (Some d) (receipt_claimed j) j /\
                      claim_backed (pj_descriptor j) (receipt_claimed j) d.
Proof.
  intros Hw. unfold verify_claim. destruct (descriptor_binding _ _) as [eb|?|] eqn:Hb;
    [|intros [= <- _]; by left|done].
  destruct (verify_receipt cmd bytes eb guest false t) as [[out|?|] t1] eqn:Hv;
    [|intros [= <- _]; by left|done].
  unfold receipt_decision. destruct (ro_status out =? 0) eqn:Hst; bools; [|intros [= <- _]; by left].
  destruct (prefix12 _); [|done..]. intros [= <- _]. right. eexists. split; [done|].
  by exists wid, cmd, guest, bytes, "descriptor hash"%string, eb, t, t1, out.
Qed.

Lemma set_claims_ok acc claimed j :
  job_ok j -> NoDup claimed -> (forall w, w ∈ claimed -> w ∈ dispatched_ids j) ->
  (forall d, acc = Some d -> claim_backed (pj_descriptor j) claimed d) -> job_ok (set_claims acc claimed j).
Proof. intros []. by constructor. Qed.

Lemma receipt_claim_gate_spec claimed wid l :
  receipt_claim_gate claimed wid = (true, l) -> (wid ∉ claimed) /\ l = claimed ++ [wid].
Proof. unfold receipt_claim_gate. case_bool_decide; [done|]. by intros [= <-]. Qed.

Lemma handle_receipt_claim_ok cfg wid jid pk sg rc : keeps (handle_receipt_claim cfg wid jid pk sg rc).
Proof.
  intros s a s' Hs. unfold handle_receipt_claim. destruct (zk cfg) as [[cmd guest]|]; [|by intros [= _ <-]].
  case_match; [by intros [= _ <-]|]. destruct (from_hex rc _) as [bytes|?|]; [|by intros [= _ <-]|done].
  destruct (verify_claim_sig _ _ _ _); [|by intros [= _ <-]|done].
  destruct (pending s) as [j|] eqn:Hp; [|by intros [= _ <-]]. pose proof (so_pending s Hs j Hp) as Hj.
  case_match eqn:Hz; [by intros [= _ <-]|]. apply orb_false_iff in Hz as [_ Hz].
  case_match eqn:Hd; [by intros [= _ <-]|]. bools.
  destruct (receipt_claim_gate (receipt_claimed j) wid) as [[] claimed] eqn:Hg; [|by intros [= _ <-]].
  apply receipt_claim_gate_spec in Hg as [Hnew ->].
  set (j1 := set_claims (zk_accept j) (receipt_claimed j ++ [wid]) j).
  assert (job_ok j1) as Hj1.
  { destruct (jo_claims j Hj) as [C1 C2]. apply set_claims_ok; [done|..].
    - apply NoDup_app. split_and!; [done| |apply NoDup_singleton]. by intros x Hx ->%list_elem_of_singleton.
    - intros w [Hw| ->%list_elem_of_singleton]%elem_of_app; [by apply C2|done].
    - intros d Hd'. exfalso. apply Hz. by exists d. }
  destruct (verify_claim cmd guest wid bytes j1 (tmp s)) as [[j2|?|] t] eqn:Hv; simpl; rewrite Hv; [|done..].
  intros [= _ <-]. apply server_ok_pending; [|by apply server_ok_zk, server_ok_pending; [intros ? [= <-]|]].
  intros ? [= <-]. apply verify_claim_inv in Hv as [->|(d & -> & Hd')].
  - done.
  - apply set_claims_ok; [done|apply (jo_claims j1 Hj1)..|]. by intros ? [= <-].
  - apply elem_of_app. right. by apply list_elem_of_singleton.
Qed.

Lemma on_receipt_claim_ok cfg conn wid jid pk sg rc : keeps (on_receipt_claim cfg conn wid jid pk sg rc).
Proof.
  intros s a s' Hs. unfold on_receipt_claim. destruct (conns s !! conn) as [c|]; [|by intros [= _ <-]].
  do 3 (case_match; [by intros [= _ <-]|]). by apply handle_receipt_claim_ok.
Qed.

Lemma join_pending_ok jid conn j : job_ok j -> job_ok (join_pending jid conn j).
Proof. intros []. unfold join_pending. case_match; by constructor. Qed.

Lemma queue_submission_ok conn d l s : server_ok s -> server_ok (queue_submission conn d l s).
Proof.
  intros Hs. unfold queue_submission. destruct (jobs_dir s !! _); [done|].
  destruct (fs_write _ _ _) as [[]]; [|done..]. apply server_ok_pending.
  - intros j (j0 & Hj & ->)%fmap_Some. by apply join_pending_ok, (so_pending s Hs).
  - match goal with |- server_ok (set_subs _ ?s1) => assert (server_ok s1) as [] by
      (apply server_ok_send; destruct Hs; by constructor) end. by constructor.
Qed.

Lemma handle_job_submission_ok cfg t conn d pk sg rz : keeps (handle_job_submission cfg t conn d pk sg rz).
Proof.
  intros s a s' Hs. unfold handle_job_submission. case_match; [by intros [= _ <-]|].
  destruct (conns s !! conn) as [c|]; [|by intros [= _ <-]].
  destruct (submission_signed c d pk sg); [|by intros [= _ <-]|done].
  destruct (missing_blob _ _) as [[[]|]|?|]; [intros [= _ <-]; by apply server_ok_send| |by intros [= _ <-]|done].
  intros [= _ <-]. unfold accept_submission. destruct rz; [|by apply queue_submission_ok].
  destruct (zk_prover cfg); [|by apply server_ok_send]. case_match; [done|]. apply server_ok_send.
  destruct Hs. constructor; simpl; try done. apply Forall_app. split; [done|]. apply Forall_singleton. by repeat eexists.
Qed.

(** ** Finishing *)

(** A finished job adds one outcome and nothing else the invariant sees. *)
Lemma finish_decided_job_inv cfg j d s a s' :
  finish_decided_job cfg j d s = (Ok a, s') ->
  outcomes s' = outcomes s ++ [{| f_job_id := d_job_id (pj_descriptor j); f_decision := d; f_results := results j;
                                  f_deltas := slashing d (results j) |}] /\
  jobs_done s' = S (jobs_done s) /\ conns s' = notify j d (conns s) /\ pending s' = pending s /\
  prove_queue s' = prove_queue s /\ events s' = events s /\
  Ok (ledger_file s') = finish_ledger cfg (d_job_id (pj_descriptor j)) (slashing d (results j)) (ledger_file s).
Proof.
  unfold finish_decided_job. destruct (finish_ledger _ _ _ _) as [lf|?|] eqn:Hl; [|done..].
  intros [= _ <-]. split_and!; try done.
Qed.

Lemma notify_ok j d m : conns_ok m -> conns_ok (notify j d m).
Proof.
  unfold notify. destruct d; try done. revert m.
  induction (subscribers j) as [|k l IH]; intros m Hm; [done|]. apply IH. by apply conns_ok_alter.
Qed.

Lemma finish_decided_job_ok cfg j d s a s' :
  server_ok s -> votes_ok (d_job_id (pj_descriptor j)) (results j) ->
  match d with Accept _ _ _ _ => backed (pj_descriptor j) (results j) d | _ => True end ->
  finish_decided_job cfg j d s = (Ok a, s') -> server_ok s'.
Proof.
  intros [] Hv Hb (Ho & Hd & Hc & Hp & Hq & He & _)%finish_decided_job_inv.
  constructor; rewrite ?Ho, ?Hd, ?Hc, ?Hp, ?Hq, ?He; try done.
  - apply Forall_app. split; [done|]. apply Forall_singleton. split_and!; [done|done|]. simpl.
    destruct d; [|done..]. by exists (pj_descriptor j).
  - rewrite length_app. simpl. lia.
  - by apply notify_ok.
Qed.

Lemma zk_judge_network_backed cfg st j disk d disk' :
  zk_judge_network cfg st j disk = (Ok d, disk') -> judge_backed (pj_descriptor j) (results j) d.
Proof.
  unfold zk_judge_network. destruct (zk_judge cfg) as [zkj|]; [|done].
  destruct (fresh_dir _ st) as [dir|?|]; [|done..].
  destruct (run_judge _ _ _ _ _ _) as [[v|?|] disk1]; [|done..]. intros [= Hd _]. revert Hd.
  destruct (descriptor_binding _ _) as [eb|?|] eqn:Hb; [|done..]. simpl.
  destruct (fs_read dir _); [|done..]. simpl. destruct (from_slice _) as [m|?|]; [|done..]. simpl.
  destruct (judge_decision v eb (is_sp1_v2 m)) as [d0|?|] eqn:Hj; [|done..]. intros [= <-].
  by exists "content id"%string, eb, v, (is_sp1_v2 m), d0.
Qed.

(** Which way a job was decided. *)
Lemma decide_job_backed cfg st j disk d disk' :
  decide_job cfg st j disk = (Ok d, disk') ->
  zk_accept j = Some d \/ Pool.decide (results j) (length (dispatched_ids j)) = Ok d \/
  judge_backed (pj_descriptor j) (results j) d \/ replay_backed st (pj_descriptor j) (results j) d \/
  d = Reject "no majority; dispute judgment failed".
Proof.
  unfold decide_job. destruct (zk_accept j) as [d0|]; [intros [= <- _]; by left|]. intros Hdj. right. revert Hdj.
  destruct (Pool.decide _ _) as [[]|?|] eqn:Hd; [intros [= <- _]; by left| |intros [= <- _]; by left|done|done].
  destruct (zk_judge_network cfg st j disk) as [[d1|?|] disk1] eqn:Hz; [|..|done].
  - intros [= <- _]. apply zk_judge_network_backed in Hz. auto.
  - destruct (judge_by_replay_network st j) as [d2|?|] eqn:Hr; intros [= <- _]; [|by auto].
    right; right; left. by exists j.
Qed.

Lemma finish_step_ok cfg j s a s' :
  server_ok s -> job_ok j -> finish_step cfg j s = (Ok a, s') -> server_ok s'.
Proof.
  intros Hs [V1 V2 _ _ _ Z]. unfold finish_step.
  destruct (decide_job cfg (sv_store s) j (zk_disk s)) as [[d|?|] disk] eqn:Hd; [|done..].
  unfold mbind, M_bind. destruct (finish_decided_job _ _ _ _) as [[[]|?|] s1] eqn:Hf; [|done..].
  intros [= _ <-]. apply server_ok_pending; [done|]. apply server_ok_broadcast.
  assert (server_ok s1) as Hs1.
  { eapply finish_decided_job_ok; [by apply server_ok_zk|done| |done]. destruct d; try done.
    apply decide_job_backed in Hd as [Hd|[Hd|[Hd|[Hd|Hd]]]].
    - right; right; right; left. eauto.
    - left. exists (dispatched_ids j). by split.
    - right; right; by left.
    - right; left. by exists (sv_store s).
    - done. }
  unfold mark_done. destruct (os_rename _ _); [|done..]. destruct (jobs_dir s1 !! _); [|done].
  destruct Hs1. by constructor.
Qed.

(** ** Scanning, dispatch and completion *)

Lemma new_job_ok d tg path t subs : job_ok (mkJob d tg path false false [] [] [] t None [] subs).
Proof.
  constructor; simpl; try done.
  - split; [constructor|]. intros r Hr. by apply not_elem_of_nil in Hr.
  - intros r Hr. by apply not_elem_of_nil in Hr.
  - split; [constructor|done].
Qed.

Lemma scan_step_ok e : keeps (scan_step e).
Proof.
  intros s a s' Hs. unfold scan_step. destruct (pending s) eqn:Hp; [by intros [= _ <-]|].
  destruct (scan_jobs_dir _ _) as [r [d errs]].
  destruct r as [[[[desc tg] path]|]|?|]; [| |done|done]; intros [= _ <-].
  - unfold queue_job. apply server_ok_pending; [|destruct Hs; by constructor].
    intros ? [= <-]. apply new_job_ok.
  - destruct Hs. by constructor.
Qed.

Lemma assign_conns_ok e p d ws m ids m' : assign e p d ws m = (ids, m') -> conns_ok m -> conns_ok m'.
Proof.
  revert m ids m'. induction ws as [|[wid hints] ws IH]; intros m ids m'; cbn [assign]; [by intros [= _ <-]|].
  destruct (find_conn _ _ _) as [k|]; [|apply IH].
  destruct (assign e p d ws _) as [ids1 m1] eqn:Ha. intros [= _ <-] Hm. eapply IH; [done|]. by apply conns_ok_alter.
Qed.

Lemma assign_reserves_conns_ok e d ws m ids m' : assign_reserves e d ws m = (ids, m') -> conns_ok m -> conns_ok m'.
Proof.
  revert m ids m'. induction ws as [|wid ws IH]; intros m ids m'; cbn [assign_reserves]; [by intros [= _ <-]|].
  destruct (find_conn _ _ _) as [k|]; [|apply IH].
  destruct (assign_reserves e d ws _) as [ids1 m1] eqn:Ha. intros [= _ <-] Hm. eapply IH; [done|]. by apply conns_ok_alter.
Qed.

(** A job that gains dispatched workers keeps its votes and claims. *)
Lemma dispatched_more_ok j ids dis esc res t :
  job_ok j -> (esc = true -> dis = true /\ res = []) -> dis = true ->
  job_ok (mkJob (pj_descriptor j) (targets j) (pj_path j) dis esc (dispatched_ids j ++ ids) res (results j) t
            (zk_accept j) (receipt_claimed j) (subscribers j)).
Proof.
  intros [V1 V2 [C1 C2] E Q Z] He ->. constructor; simpl; try done.
  - intros r Hr. apply elem_of_app. left. by apply V2.
  - split; [done|]. intros w Hw. apply elem_of_app. left. by apply C2.
Qed.

Lemma dispatch_step_ok cfg e s : server_ok s -> server_ok (dispatch_step cfg e s).
Proof.
  intros Hs. unfold dispatch_step. destruct (pending s) as [j|] eqn:Hp; [|done]. case_match eqn:Hd; [|done].
  apply andb_true_iff in Hd as [Hd _]. apply negb_true_iff in Hd. pose proof (so_pending s Hs j Hp) as Hj.
  unfold dispatch_job. destruct (assign _ _ _ _ _) as [ids m'] eqn:Ha. apply server_ok_pending.
  - intros ? [= <-]. apply dispatched_more_ok; [done| |done].
    intros He. destruct (jo_escalated j Hj He). congruence.
  - apply server_ok_conns; [|done]. by eapply assign_conns_ok.
Qed.

Lemma finished_copy_ok j : job_ok j -> job_ok (finished_copy j).
Proof. intros []. by constructor. Qed.

Lemma check_completion_inv cfg e j m c :
  check_completion cfg e j m = Ok c ->
  match c with
  | Waiting => True
  | Escalating j' m' => dispatched j = true /\ (j', m') = escalate_job e j m
  | Finishing j' => dispatched j = true /\ j' = finished_copy j
  end.
Proof.
  unfold check_completion. destruct (dispatched j) eqn:Hd; [|by intros [= <-]]. simpl. case_match.
  - destruct (Pool.decide _ _); [|done..]. simpl. case_match; [|by intros [= <-]].
    destruct (escalate_job e j m). by intros [= <-].
  - case_match; by intros [= <-].
Qed.

Lemma escalate_job_ok e j m j' m' :
  job_ok j -> dispatched j = true -> (j', m') = escalate_job e j m -> conns_ok m -> job_ok j' /\ conns_ok m'.
Proof.
  intros Hj Hd. unfold escalate_job. destruct (assign_reserves _ _ _ _) as [ids m1] eqn:Ha. intros [= -> ->] Hm. split.
  - by apply dispatched_more_ok.
  - by eapply assign_reserves_conns_ok.
Qed.

(** ** The prover and the sessions *)

Lemma prove_one_backed st zkj j td d td' :
  prove_one st zkj j td = (Ok d, td') -> prover_backed (pj_descriptor j) d.
Proof.
  unfold prove_one. destruct td as [t disk]. destruct (fresh_dir _ st) as [dir|?|]; [|done..]. simpl.
  destruct (descriptor_binding _ _) as [eb|?|] eqn:Hb; [|done..]. simpl.
  destruct (fs_read dir _) as [mb|?|]; [|done..]. simpl. destruct (from_slice mb) as [m|?|]; [|done..]. simpl.
  destruct (receipt_cache_key _) as [key|?|] eqn:Hk; [|done..]. simpl.
  set (cached := match receipt_dir zkj with Some _ => _ | None => _ end).
  destruct cached as [[dec|?|] t1] eqn:Hc; unfold cached in Hc.
  - intros [= <- _]. exists "content id"%string, eb. split; [done|]. right.
    destruct (receipt_dir zkj) as [rd|]; [|done]. by exists zkj, disk, rd, key, (is_sp1_v2 m), t, t1.
  - unfold prove_fresh. destruct (run_judge _ _ _ _ _ _) as [[v|?|] disk1]; [|done..].
    intros [= Hj _]. exists "content id"%string, eb. split; [done|]. left. by exists v, (is_sp1_v2 m).
  - done.
Qed.

Lemma prove_turn_ok cfg s : server_ok s -> server_ok (prove_turn cfg s).
Proof.
  intros Hs. unfold prove_turn. destruct (zk_prover cfg) as [zkj|]; [|done].
  destruct (prove_queue s) as [|j rest] eqn:Hq; [done|].
  pose proof (so_queue s Hs) as Hqs. rewrite Hq in Hqs. apply Forall_cons in Hqs as [Hj Hrest].
  destruct (prove_one _ _ _ _) as [[d|e|] [t disk]] eqn:Hp; destruct Hs; constructor; simpl; try done.
  - apply Forall_app. split; [done|]. apply Forall_singleton. split; [done|].
    apply prove_one_backed in Hp. by destruct d.
  - apply Forall_app. split; [done|]. by apply Forall_singleton.
Qed.

Lemma close_session_ok conn s : server_ok s -> server_ok (close_session conn s).
Proof.
  intros []. constructor; simpl; try done.
  - apply Forall_app. split; [done|]. by apply Forall_singleton.
  - intros k c Hk. apply lookup_delete_Some in Hk as [_ Hk]. eauto.
Qed.

Lemma session_turn_ok conn f s : server_ok s -> server_ok (session_turn conn f s).2.
Proof.
  intros Hs. unfold session_turn. destruct f as [msg|[]|]; simpl.
  - destruct Hs. constructor; simpl; try done. apply Forall_app. split; [done|].
    apply Forall_singleton. by destruct msg.
  - apply server_ok_conns; [by apply conns_ok_alter|done].
  - destruct (outbound <$> conns s !! conn) as [[]|]; [done|by apply close_session_ok..].
  - by apply close_session_ok.
Qed.

(** ** The loop *)

Lemma on_event_ok cfg e ev : ev_ok ev -> keeps (on_event cfg e ev).
Proof.
  intros Hev. destruct ev; cbn [on_event].
  - intros s a s' Hs [= _ <-]. by apply on_hello_ok.
  - apply on_nonce_sig_ok.
  - apply handle_job_submission_ok.
  - apply handle_blob_upload_ok.
  - apply on_receipt_claim_ok.
  - apply on_blob_request_ok.
  - apply on_result_ok.
  - intros s a s' Hs [= _ <-]. apply server_ok_conns; [|done].
    intros Hm k c Hk. apply lookup_delete_Some in Hk as [_ Hk]. by eapply Hm.
  - intros s a s' Hs. unfold mbind, M_bind.
    destruct (finish_decided_job cfg job decision s) as [[[]|?|] s1] eqn:Hf; [|done..].
    intros [= _ <-]. apply server_ok_broadcast. destruct Hev as [(d0 & t0 & c0 & ->) Hd].
    eapply finish_decided_job_ok; [done| | |done].
    + split; [constructor|]. intros r Hr. by apply not_elem_of_nil in Hr.
    + destruct decision; try done. by right; right; right; right.
Qed.

Lemma event_step_ok cfg e : keeps (event_step cfg e).
Proof.
  intros s a s' Hs. unfold event_step. destruct (events s) as [|ev rest] eqn:He; [by intros [= _ <-]|].
  pose proof (so_events s Hs) as Hev. rewrite He in Hev. apply Forall_cons in Hev as [Hev Hrest].
  apply on_event_ok; [done|]. destruct Hs. by constructor.
Qed.

Lemma completion_step_ok cfg e : keeps (completion_step cfg e).
Proof.
  intros s a s' Hs. unfold completion_step. destruct (pending s) as [j|] eqn:Hp; [|by apply event_step_ok].
  destruct (check_completion cfg e j (conns s)) as [c|?|] eqn:Hc; [|done..].
  apply check_completion_inv in Hc. pose proof (so_pending s Hs j Hp) as Hj. destruct c as [|j' m|j'].
  - by apply event_step_ok.
  - intros [= _ <-]. destruct Hc as [Hd Hc]. destruct (escalate_job_ok e j (conns s) j' m) as [Hj' Hm]; [done..|apply Hs|].
    apply server_ok_pending; [by intros ? [= <-]|]. by apply server_ok_conns.
  - destruct Hc as [_ ->]. by apply finish_step_ok, finished_copy_ok.
Qed.

Lemma turn_ok cfg e : keeps (turn cfg e).
Proof.
  intros s a s' Hs. unfold turn. destruct (match max_jobs cfg with Some _ => _ | None => _ end).
  - intros [= _ <-]. by apply server_ok_broadcast.
  - revert s a s' Hs. apply keeps_bind; [apply scan_step_ok|intros _].
    apply keeps_bind; [apply keeps_pure, dispatch_step_ok|intros _].
    apply keeps_bind; [apply completion_step_ok|intros _]. by intros s a s' Hs [= _ <-].
Qed.

Lemma sys_step_ok cfg s s' : sys_step cfg s s' -> server_ok s -> server_ok s'.
Proof.
  intros [] Hs.
  - apply server_ok_conns; [|done]. intros Hm k c. rewrite lookup_insert_Some.
    intros [[_ <-]|[_ Hk]]; [simpl; unfold MAX_UPLOADS_PER_CONN; lia|by eapply Hm].
  - by apply session_turn_ok.
  - by apply prove_turn_ok.
  - by eapply turn_ok.
Qed.

Lemma init_ok st jd rf lf t disk : server_ok (init_server st jd rf lf t disk).
Proof. by constructor. Qed.

Lemma reachable_ok cfg s : reachable cfg s -> server_ok s.
Proof.
  intros (st & jd & rf & lf & t & disk & Hr). revert Hr.
  generalize (init_ok st jd rf lf t disk). generalize (init_server st jd rf lf t disk). intros s0 Hs0 Hr.
  induction Hr as [|s1 s2 s3 Hstep _ IH]; [done|]. apply IH. by eapply sys_step_ok.
Qed.

(** ** What a turn adds to the outcomes *)

Lemma on_event_outcomes cfg e ev s a s' :
  on_event cfg e ev s = (Ok a, s') ->
  outcomes s' = outcomes s \/
  exists j d, ev = EvProved j d /\
    outcomes s' = outcomes s ++ [{| f_job_id := d_job_id (pj_descriptor j); f_decision := d; f_results := results j;
                                    f_deltas := slashing d (results j) |}].
Proof.
  destruct ev; cbn [on_event].
  - intros [= _ <-]. by left.
  - unfold on_nonce_sig. repeat case_match; intros [= _ <-]; by left.
  - unfold handle_job_submission. repeat case_match; intros [= _ <-]; try by left.
    left. unfold accept_submission, queue_submission. by repeat case_match.
  - unfold handle_blob_upload. repeat case_match; intros [= _ <-]; by left.
  - unfold on_receipt_claim, handle_receipt_claim. repeat case_match; intros [= _ <-]; by left.
  - unfold on_blob_request. repeat case_match; intros [= _ <-]; by left.
  - unfold on_result. repeat case_match; intros [= _ <-]; by left.
  - intros [= _ <-]. by left.
  - unfold mbind, M_bind. destruct (finish_decided_job _ _ _ _) as [[[]|?|] s1] eqn:Hf; [|done..].
    intros [= _ <-]. right. exists job, decision. split; [done|]. by apply finish_decided_job_inv in Hf as [? _].
Qed.

Lemma scan_step_inv e s a s' :
  scan_step e s = (Ok a, s') ->
  outcomes s' = outcomes s /\ sv_store s' = sv_store s /\
  (pending s' = pending s \/ pending s = None /\ exists j, pending s' = Some j /\ dispatched j = false /\ results j = []).
Proof.
  unfold scan_step. destruct (pending s) eqn:Hp; [intros [= _ <-]; by auto|].
  destruct (scan_jobs_dir _ _) as [r [d errs]]. destruct r as [[[[desc tg] path]|]|?|]; [..|done|done]; intros [= _ <-].
  - split; [done|]. split; [done|]. right. split; [done|]. by eexists.
  - simpl. rewrite Hp. by auto.
Qed.

(** The job that reaches the completion check is the one that was pending, or it has no
    results yet. *)
Lemma dispatch_step_inv cfg e s :
  outcomes (dispatch_step cfg e s) = outcomes s /\ sv_store (dispatch_step cfg e s) = sv_store s /\
  forall j', pending (dispatch_step cfg e s) = Some j' -> exists j, pending s = Some j /\
    pj_descriptor j' = pj_descriptor j /\ results j' = results j /\ (j' = j \/ dispatched j = false).
Proof.
  unfold dispatch_step. destruct (pending s) as [j|] eqn:Hp; [|split; [done|]; split; [done|]; intros j'; by rewrite Hp].
  case_match eqn:Hd.
  - destruct (dispatch_job _ _ _ _) as [j1 m1] eqn:Hj. split; [done|]. split; [done|]. simpl. intros j' [= <-]. exists j.
    unfold dispatch_job in Hj. destruct (assign _ _ _ _ _). injection Hj as <- <-. split_and!; try done.
    right. apply andb_true_iff in Hd as [Hd _]. by apply negb_true_iff in Hd.
  - split; [done|]. split; [done|]. rewrite Hp. intros j' [= <-]. exists j. auto.
Qed.

Lemma finish_step_outcomes cfg j s a s' :
  finish_step cfg j s = (Ok a, s') ->
  exists d disk, decide_job cfg (sv_store s) j (zk_disk s) = (Ok d, disk) /\ pending s' = None /\
    outcomes s' = outcomes s ++ [{| f_job_id := d_job_id (pj_descriptor j); f_decision := d; f_results := results j;
                                    f_deltas := slashing d (results j) |}].
Proof.
  unfold finish_step. destruct (decide_job _ _ _ _) as [[d|?|] disk] eqn:Hd; [|done..].
  unfold mbind, M_bind. destruct (finish_decided_job _ _ _ _) as [[[]|?|] s1] eqn:Hf; [|done..].
  intros [= _ <-]. exists d, disk. split_and!; [done|done|]. simpl. apply finish_decided_job_inv in Hf as [Ho _].
  unfold mark_done. by repeat case_match.
Qed.

Lemma quorum_needs_votes n h oh ids z : Pool.decide [] n <> Ok (Accept h oh ids z).
Proof. unfold Pool.decide. simpl. repeat case_match; try done. all: intros [=]; congruence. Qed.

(** A decision that is not receipt-backed comes from the pool or from the replay judge. *)
Lemma judge_decision_zk v eb v2 h oh ids z : judge_decision v eb v2 = Ok (Accept h oh ids z) -> z = true.
Proof.
  unfold judge_decision. destruct (negb (j_ok v)); [done|]. destruct (j_binding v); [|done]. simpl.
  match goal with |- (_ ← ?c; _) = _ -> _ => destruct c; [|done..] end. simpl.
  destruct (j_status v) as [st|], (j_instructions v), (j_output_hex v); try done. simpl.
  destruct (from_hex_tag _ _ _); [|done..]. simpl. destruct (st =? 0); [|done]. by intros [= _ _ _ <-].
Qed.

Lemma verify_cached_zk zkj cache rd key eb v2 t h oh ids z t' :
  verify_cached zkj cache rd key eb v2 t = (Ok (Accept h oh ids z), t') -> z = true.
Proof. unfold verify_cached. repeat case_match; intros [=]; congruence. Qed.

Lemma prover_backed_zk desc h oh ids z : prover_backed desc (Accept h oh ids z) -> z = true.
Proof.
  intros (tag & eb & _ & [(v & v2 & Hj)|(zkj & disk & rd & key & v2 & t & t' & _ & Hc)]).
  - by eapply judge_decision_zk.
  - by eapply verify_cached_zk.
Qed.

Lemma judge_backed_zk desc rs h oh ids z : judge_backed desc rs (Accept h oh ids z) -> z = true.
Proof.
  intros (tag & eb & v & v2 & d0 & _ & Hj & Hd). destruct d0 as [h0 oh0 ids0 z0| |]; try done.
  apply judge_decision_zk in Hj as ->. by injection Hd.
Qed.

Lemma event_step_accept cfg e s a s' f h oh agreed :
  server_ok s -> event_step cfg e s = (Ok a, s') -> outcomes s' = outcomes s ++ [f] ->
  f_decision f <> Accept h oh agreed false.
Proof.
  intros Hs. unfold event_step. destruct (events s) as [|ev rest] eqn:He.
  { intros [= _ <-] Ho. apply (f_equal length) in Ho. rewrite length_app in Ho. simpl in Ho. lia. }
  pose proof (so_events s Hs) as Hev. rewrite He in Hev. apply Forall_cons in Hev as [Hev _].
  intros [Ho|(j & d & -> & Ho)]%on_event_outcomes Hf; simpl in Ho; rewrite Hf in Ho.
  - apply (f_equal length) in Ho. rewrite length_app in Ho. simpl in Ho. lia.
  - apply app_inv_head in Ho as [= ->]. simpl. intros ->. destruct Hev as [_ Hev].
    by apply prover_backed_zk in Hev.
Qed.

(** The outcome of a finish, when it is an acceptance without a receipt. *)
Lemma finish_step_accept cfg j s a s' f h oh agreed :
  job_ok j -> finish_step cfg j s = (Ok a, s') -> outcomes s' = outcomes s ++ [f] ->
  f_decision f = Accept h oh agreed false ->
  f_job_id f = d_job_id (pj_descriptor j) /\ f_results f = results j /\
  (Pool.decide (results j) (length (dispatched_ids j)) = Ok (Accept h oh agreed false) \/
   replay_backed (sv_store s) (pj_descriptor j) (results j) (Accept h oh agreed false)).
Proof.
  intros Hj (d & disk & Hd & _ & Ho)%finish_step_outcomes Hf Hacc. rewrite Hf in Ho.
  apply app_inv_head in Ho as [= ->]. simpl in *. subst d. split_and!; [done|done|].
  apply decide_job_backed in Hd as [Hd|[Hd|[Hd|[Hd|Hd]]]]; [|by left| |by right|done].
  - apply (jo_zk j Hj) in Hd as (wid & cmd & guest & bytes & tag & eb & t & t' & out & _ & _ & _ & _ & Hd). done.
  - by apply judge_backed_zk in Hd.
Qed.

(** What the strict majority of a dispatched pool is. *)
Definition quorum_of (j : PendingJob) (h : string) (agreed : list string) : Prop :=
  NoDup agreed /\ (length (dispatched_ids j) < 2 * length agreed)%nat /\
  (forall id, id ∈ agreed -> id ∈ dispatched_ids j /\
     exists r, r ∈ results j /\ worker_id r = id /\ r_status r = "halted"%string /\ result_hash r = h /\
               job_id r = d_job_id (pj_descriptor j) /\ verify_signature r = Ok tt) /\
  (forall r, r ∈ results j -> r_status r = "halted"%string -> result_hash r = h -> worker_id r ∈ agreed).

Lemma decide_quorum_of j h oh agreed :
  job_ok j -> Pool.decide (results j) (length (dispatched_ids j)) = Ok (Accept h oh agreed false) ->
  quorum_of j h agreed.
Proof.
  intros [[V0 V1] V2 _ _ _ _] Hdec. pose proof (decide_accept_votes _ _ _ _ _ _ V0 Hdec) as Hall.
  apply decide_accept_inv in Hdec as (_ & Hnd & Hlen & (chain & Hc) & _).
  split_and!; [done|lia| |done]. intros id Hid. destruct (Hc id Hid) as (r & Hr & <- & Hst & Hh & _).
  split; [by apply V2|]. exists r. destruct (V1 r Hr). by split_and!.
Qed.

Lemma turn_accept cfg e s s' f h oh agreed :
  server_ok s -> turn cfg e s = (Ok true, s') -> outcomes s' = outcomes s ++ [f] ->
  f_decision f = Accept h oh agreed false ->
  (exists j, pending s = Some j /\ dispatched j = true /\ f_job_id f = d_job_id (pj_descriptor j) /\
     f_results f = results j /\ quorum_of j h agreed) \/
  (exists j, pending (scan_step e s).2 = Some j /\ f_job_id f = d_job_id (pj_descriptor j) /\ f_results f = results j /\
     replay_backed (sv_store s) (pj_descriptor j) (results j) (f_decision f)).
Proof.
  intros Hs. unfold turn. destruct (match max_jobs cfg with Some _ => _ | None => _ end); [done|].
  unfold mbind, M_bind at 1. destruct (scan_step e s) as [[[]|?|] s1] eqn:Hscan; [|done..].
  unfold mbind, M_bind, mmodify at 1. pose proof (scan_step_ok e s tt s1 Hs Hscan) as Hs1.
  apply scan_step_inv in Hscan as (Ho1 & Hst1 & Hp1).
  destruct (dispatch_step_inv cfg e s1) as (Ho2 & Hst2 & Hp2). pose proof (dispatch_step_ok cfg e s1 Hs1) as Hs2.
  destruct (completion_step cfg e (dispatch_step cfg e s1)) as [[[]|?|] s3] eqn:Hc; [|done..].
  intros [= <-] Hf Hacc. rewrite <- Ho1, <- Ho2 in Hf. unfold completion_step in Hc.
  destruct (pending (dispatch_step cfg e s1)) as [j'|] eqn:Hp'.
  2: { by destruct (event_step_accept cfg e _ _ _ f h oh agreed Hs2 Hc Hf). }
  destruct (check_completion cfg e j' _) as [c|?|] eqn:Hcc; [|done..]. apply check_completion_inv in Hcc.
  destruct c as [|j1 m1|j1].
  - by destruct (event_step_accept cfg e _ _ _ f h oh agreed Hs2 Hc Hf).
  - injection Hc as <-. simpl in Hf. apply (f_equal length) in Hf. rewrite length_app in Hf. simpl in Hf. lia.
  - destruct Hcc as [Hd' ->]. pose proof (so_pending _ Hs2 j' Hp') as Hj'.
    destruct (finish_step_accept cfg _ _ _ _ f h oh agreed (finished_copy_ok _ Hj') Hc Hf Hacc)
      as (Hid & Hres & Hb). simpl in *. destruct (Hp2 j' eq_refl) as (j & Hj & Hdesc & Hrs & Hcase).
    destruct Hb as [Hq|Hr]; [left|right; exists j; by rewrite Hid, Hres, Hacc, <- Hdesc, <- Hrs, <- Hst1, <- Hst2].
    destruct Hcase as [->|Hnd].
    + destruct Hp1 as [Hp1|(_ & j0 & Hp1 & Hd0 & _)]; [|congruence]. exists j. rewrite <- Hp1.
      split_and!; try done. by eapply decide_quorum_of.
    + exfalso. assert (results j = []) as Hnil.
      { pose proof (so_pending s1 Hs1 j Hj) as [_ V _ _ Q _]. destruct (Q Hnd) as [Hids _].
        destruct (results j) as [|r rs]; [done|]. specialize (V r ltac:(by left)). rewrite Hids in V.
        by apply not_elem_of_nil in V. }
      rewrite Hrs, Hnil in Hq. by apply quorum_needs_votes in Hq.
Qed.

(** The replay judge: its decision comes from executing the job's own materialised program
    and input, which are not of the v2 format; it accepts the digest of that execution with
    that execution's output, and vindicates each worker whose submitted chain is that digest,
    once, and nobody else. *)
Theorem replay_judge_spec st j d :
  judge_by_replay_network st j = Ok d ->
  exists dir mb m e i image n out ids,
    fresh_dir (pj_descriptor j) st = Ok dir /\ fs_read dir "job.json" = Ok mb /\ from_slice mb = Ok m /\
    is_sp1_v2 m = false /\ dir_read dir (elf m) = Ok e /\ dir_read dir (input m) = Ok i /\ parse e = Ok image /\
    replay_journal e (entry image) i (m_chunk_size m) (m_max_instructions m) = Ok (n, out) /\
    d = Accept (hex (journal_digest n out)) (Some (hex out)) ids false /\ NoDup ids /\
    forall id, id ∈ ids <-> exists r, r ∈ results j /\ worker_id r = id /\ r_chunk_hashes r = [hex (journal_digest n out)].
Proof.
  unfold judge_by_replay_network, or_none.
  destruct (fresh_dir _ st) as [dir|?|] eqn:Hdir; [|done..]. simpl. destruct (fs_read dir _) as [mb|?|] eqn:Hmb; [|done..]. simpl.
  destruct (from_slice mb) as [m|?|] eqn:Hm; [|done..]. simpl. destruct (is_sp1_v2 m) eqn:Hv; [done|].
  destruct (dir_read dir (elf m)) as [e|?|] eqn:He; [|done..]. simpl. destruct (dir_read dir (input m)) as [i|?|] eqn:Hi; [|done..]. simpl.
  destruct (parse e) as [image|?|] eqn:Hp; [|done..]. simpl.
  destruct (replay_journal _ _ _ _ _) as [[n out]|?|] eqn:Hr; [|done..]. intros [= <-].
  destruct (vindicated_app (hex (journal_digest n out)) (results j) [] NoDup_nil_2) as [Hnd Hin].
  exists dir, mb, m, e, i, image, n, out, (vindicated (hex (journal_digest n out)) (results j)).
  split_and!; try done. intros id. unfold vindicated. rewrite Hin. split; [|by right].
  intros [Hx|?]; [by apply not_elem_of_nil in Hx|done].
Qed.

(** C18. Integrity of the vote in every reachable state, whatever clients send and in whatever
    order: the results counted for the pending job are one per worker, only of workers it was
    dispatched to, for this job and with a verified signature; receipt claims are attempted at
    most once per dispatched worker; an escalated job has no reserves left, so it escalates at
    most once; every finished job's bonds follow its decision, every acceptance is backed by a
    quorum, a replay or a receipt; and no connection ever exceeds its uploads. *)
Theorem quorum_integrity cfg s :
  reachable cfg s ->
  (forall j, pending s = Some j ->
     votes_ok (d_job_id (pj_descriptor j)) (results j) /\
     (forall r, r ∈ results j -> worker_id r ∈ dispatched_ids j) /\
     NoDup (receipt_claimed j) /\ (forall w, w ∈ receipt_claimed j -> w ∈ dispatched_ids j) /\
     (escalated j = true -> reserves j = [])) /\
  Forall justified (outcomes s) /\ jobs_done s = length (outcomes s) /\
  (forall k c, conns s !! k = Some c -> uploads c <= MAX_UPLOADS_PER_CONN).
Proof.
  intros [P O D _ _ C]%reachable_ok. split_and!; [|done|done|intros k c Hk; by apply (C k c Hk)].
  intros j Hj. destruct (P j Hj) as [V1 V2 [C1 C2] E _ _]. split_and!; try done. intros He. by apply E.
Qed.

(** C17. No silent acceptance: when a turn of the main loop finishes a job as accepted without
    a receipt, then either the job that was pending has a strict majority of its dispatched
    workers, distinct, each with a halted, signed result for this job and that hash; or the
    coordinator itself executed the job at hand from its store and the decision is that of its
    own run. *)
Theorem accepted_on_quorum cfg e s s' f h oh agreed :
  reachable cfg s -> turn cfg e s = (Ok true, s') -> outcomes s' = outcomes s ++ [f] ->
  f_decision f = Accept h oh agreed false ->
  (exists j, pending s = Some j /\ dispatched j = true /\ f_job_id f = d_job_id (pj_descriptor j) /\
     f_results f = results j /\ quorum_of j h agreed) \/
  (exists j, pending (scan_step e s).2 = Some j /\ f_job_id f = d_job_id (pj_descriptor j) /\ f_results f = results j /\
     replay_backed (sv_store s) (pj_descriptor j) (results j) (f_decision f)).
Proof. intros Hr%reachable_ok. by apply turn_accept. Qed.
End Facts.
