(* ===== verification/DispatchFacts.v ===== *)
(** * Dispatch, admission and progress of the coordinator

    Who a job is dispatched to and who is held back, when a connection becomes
    authenticated, and that a decided job is finished by the next turn. *)

From S2P Require Import Prelude Text Mem Cpu Run Elf JobFmt ContentStore Wire Quorum Ledger Dispute ZkJudge Server Serve ServeFacts.

(** ** Shuffling *)

Lemma swap_perm {A} i j (l : list A) : swap i j l ≡ₚ l.
Proof.
  unfold swap. destruct (l !! i) as [x|] eqn:Hi; [|done]. destruct (l !! j) as [y|] eqn:Hj; [|done].
  by apply Permutation_insert_swap.
Qed.

Lemma shuffle_loop_perm {A} r n k (l : list A) : shuffle_loop r n k l ≡ₚ l.
Proof.
  revert k l. induction n as [|n IH]; intros k l; [done|]. cbn [shuffle_loop].
  rewrite IH. apply swap_perm.
Qed.

Lemma shuffle_perm {A} r (l : list A) : shuffle r l ≡ₚ l.
Proof. apply shuffle_loop_perm. Qed.

(** ** Connections by iteration order *)

Section Order.
Context (e : Env) (He : env_ok e).

Lemma elem_of_values c m : c ∈ values e m <-> exists k, m !! k = Some c.
Proof using He.
  unfold values. rewrite (He m). rewrite list_elem_of_fmap. split.
  - intros ([k c'] & -> & Hk%elem_of_map_to_list). by exists k.
  - intros [k Hk]. exists (k, c). split; [done|]. by apply elem_of_map_to_list.
Qed.

Lemma find_conn_some p m k c : m !! k = Some c -> p c = true -> is_Some (find_conn e p m).
Proof using He.
  intros Hk Hp. unfold find_conn. destruct (find _ _) eqn:Hf; [by eexists|].
  pose proof (find_none _ _ Hf (k, c)) as Hn. rewrite <- list_elem_of_In, (He m) in Hn.
  specialize (Hn (proj2 (elem_of_map_to_list m k c) Hk)). simpl in Hn. congruence.
Qed.

(** An authenticated worker connection with this id. *)
Definition worker_in (m : Conns) (id : string) : Prop :=
  exists k c, m !! k = Some c /\ authed c = true /\ c_role c = "worker"%string /\ c_worker_id c = id.

Definition targeted (tg : option (list string)) (id : string) : Prop :=
  match tg with Some ids => id ∈ ids | None => True end.

Lemma elem_of_candidates m tg id :
  id ∈ (candidates e m tg).*1 <-> worker_in m id /\ targeted tg id.
Proof using He.
  unfold candidates, worker_in, targeted. rewrite <- list_fmap_compose, list_elem_of_fmap. split.
  - intros (c & -> & Hc). apply list_elem_of_filter in Hc as [Hc Hin]. apply elem_of_values in Hin as [k Hk].
    apply andb_true_iff in Hc as [Hc Hw]. apply andb_true_iff in Hc as [Ht Ha]. unfold is_worker in Hw. bools.
    split; [by exists k, c|]. destruct tg; [by bools|done].
  - intros [(k & c & Hk & Ha & Hr & <-) Ht]. exists c. split; [done|]. apply list_elem_of_filter.
    split; [|apply elem_of_values; by exists k]. unfold is_worker. rewrite Ha, Hr.
    destruct tg; [rewrite bool_decide_true by done|]; done.
Qed.

Lemma elem_of_held_back m tg sel id :
  id ∈ held_back e m tg sel <->
  worker_in m id /\ (id ∉ sel) /\ match tg with Some ids => id ∉ ids | None => True end.
Proof using He.
  unfold held_back, worker_in. rewrite list_elem_of_fmap. split.
  - intros (c & -> & Hc). apply list_elem_of_filter in Hc as [Hc Hin]. apply elem_of_values in Hin as [k Hk].
    apply andb_true_iff in Hc as [Hc Ht]. apply andb_true_iff in Hc as [Hc Hs]. apply andb_true_iff in Hc as [Ha Hw].
    unfold is_worker in Hw. bools. split_and!; [by exists k, c|done|]. destruct tg; [by bools|done].
  - intros [(k & c & Hk & Ha & Hr & <-) [Hs Ht]]. exists c. split; [done|]. apply list_elem_of_filter.
    split; [|apply elem_of_values; by exists k]. unfold is_worker. rewrite Ha, Hr.
    rewrite (bool_decide_false (_ ∈ sel)) by done. destruct tg; [rewrite (bool_decide_false (_ ∈ l)) by done|]; done.
Qed.

(** Every worker of the list that has a connection is sent to. *)
Lemma assign_all d ws m ids m' :
  (forall wid, wid ∈ ws.*1 -> exists k c, m !! k = Some c /\ c_worker_id c = wid) ->
  assign e same_id d ws m = (ids, m') -> ids = ws.*1.
Proof using He.
  revert m ids m'. induction ws as [|[wid hints] ws IH]; intros m ids m' Hws; cbn [assign]; [by intros [= <- _]|].
  destruct (Hws wid ltac:(by left)) as (k & c & Hk & Hid).
  destruct (find_conn_some (same_id wid) m k c Hk) as [k' ->]; [unfold same_id; by rewrite bool_decide_true|].
  destruct (assign e same_id d ws _) as [ids1 m1] eqn:Ha. intros [= <- _]. csimpl. f_equal.
  eapply IH; [|done]. intros w Hw. destruct (Hws w ltac:(by right)) as (k1 & c1 & Hk1 & Hid1).
  destruct (decide (k1 = k')) as [->|Hne].
  - eexists k', _. rewrite lookup_alter_eq, Hk1. done.
  - exists k1, c1. by rewrite lookup_alter_ne.
Qed.

Lemma select_sub cfg tg cands id : id ∈ (select cfg e tg cands).*1 -> id ∈ cands.*1.
Proof.
  intros Hid. assert (forall l : list (string * list string), (forall x, x ∈ l -> x ∈ cands) ->
    id ∈ l.*1 -> id ∈ cands.*1) as Hsub.
  { intros l Hl (x & -> & Hx)%list_elem_of_fmap. apply list_elem_of_fmap. eauto. }
  revert Hid. apply Hsub. intros x. unfold select.
  assert (x ∈ sample cfg e cands -> x ∈ cands) as Hsize.
  { unfold sample. destruct (round1_size cfg); [|done]. case_match; [|done]. intros (i & Hx & _)%elem_of_take.
    rewrite <- (shuffle_perm (rng e) cands). by eapply list_elem_of_lookup_2. }
  destruct (round1_ids cfg), tg; try done. intros (i & Hi & Hf)%list_elem_of_omap.
  apply find_some in Hf as [Hf _]. by apply list_elem_of_In.
Qed.
End Order.


(** ** Admission *)

Section Admission.
Context `{Blake3} `{Sha256} `{Ed25519} `{Os} `{NetOs} `{TmpOs} `{Procs}.
Context `{Json JobManifest} `{Json JobDescriptor} `{Json RVerdict} `{Json JudgeVerdict} `{Json ProveMeta}.
Context `{Json Ledger} `{Json Evidence}.

(** No connection of [m'] is authenticated that was not in [m]. *)
Definition no_new_auth (m m' : Conns) : Prop :=
  forall k c', m' !! k = Some c' -> exists c, m !! k = Some c /\ authed c' = authed c.

Lemma no_new_auth_refl m : no_new_auth m m.
Proof. intros k c Hk. by exists c. Qed.

Lemma no_new_auth_trans m1 m2 m3 : no_new_auth m1 m2 -> no_new_auth m2 m3 -> no_new_auth m1 m3.
Proof.
  intros Ha Hb k c Hk. destruct (Hb k c Hk) as (c2 & Hk2 & ->). by apply Ha.
Qed.

Lemma no_new_auth_alter g k m : (forall c, authed (g c) = authed c) -> no_new_auth m (alter g k m).
Proof.
  intros Hg i c'. destruct (decide (i = k)) as [->|Hne].
  - rewrite lookup_alter_eq. intros (c & Hc & ->)%fmap_Some. by exists c.
  - rewrite lookup_alter_ne by done. intros Hc. by exists c'.
Qed.

Lemma no_new_auth_fmap g m : (forall c, authed (g c) = authed c) -> no_new_auth m (g <$> m).
Proof. intros Hg k c'. rewrite lookup_fmap. intros (c & Hc & ->)%fmap_Some. by exists c. Qed.

Lemma notify_auth j d m : no_new_auth m (notify j d m).
Proof.
  unfold notify. destruct d; try apply no_new_auth_refl. revert m.
  induction (subscribers j) as [|k l IH]; intros m; [apply no_new_auth_refl|]. simpl.
  eapply no_new_auth_trans; [|apply IH]. by apply no_new_auth_alter.
Qed.

(** Every event but the answer to a challenge leaves the authentications alone. *)
Lemma on_event_auth cfg e ev s a s' :
  on_event cfg e ev s = (Ok a, s') -> (forall k sg pow, ev <> EvNonceSig k sg pow) ->
  no_new_auth (conns s) (conns s').
Proof.
  intros Hev Hns. destruct ev; cbn [on_event] in Hev; try (by destruct (Hns conn sig pow_counter)).
  - injection Hev as _ <-. by apply no_new_auth_alter.
  - unfold handle_job_submission, accept_submission, queue_submission in Hev.
    repeat case_match; injection Hev as _ <-; simpl; (apply no_new_auth_refl || by apply no_new_auth_alter).
  - unfold handle_blob_upload in Hev.
    repeat case_match; injection Hev as _ <-; simpl; try apply no_new_auth_refl; try by apply no_new_auth_alter.
    eapply no_new_auth_trans; by apply no_new_auth_alter.
  - unfold on_receipt_claim, handle_receipt_claim in Hev.
    repeat case_match; injection Hev as _ <-; apply no_new_auth_refl.
  - unfold on_blob_request in Hev.
    repeat case_match; injection Hev as _ <-; (apply no_new_auth_refl || by apply no_new_auth_alter).
  - unfold on_result in Hev. repeat case_match; injection Hev as _ <-; apply no_new_auth_refl.
  - injection Hev as _ <-. intros k c' Hk. simpl in Hk. apply lookup_delete_Some in Hk as [_ Hk]. by exists c'.
  - unfold mbind, M_bind in Hev. destruct (finish_decided_job _ _ _ _) as [[[]|?|] s1] eqn:Hf; [|done..].
    injection Hev as _ <-. apply finish_decided_job_inv in Hf as (_ & _ & Hc & _). simpl.
    eapply no_new_auth_trans; [|by apply no_new_auth_fmap]. rewrite Hc. apply notify_auth.
Qed.

(** What the admission check asks of connection [c]. *)
Definition admissible (cfg : ServeConfig) (c : Conn) (sg : option string) (pow : Z) : Prop :=
  exists n, c_nonce c = Some n /\ verify_pow n pow (identity_pow_bits cfg) = true /\
    match c_pubkey c with
    | Some pk => exists sgh, sg = Some sgh /\ verify_nonce pk n sgh = Ok tt
    | None => require_identity cfg = false
    end.

Lemma auth_ok_true cfg c sg pow : auth_ok cfg c sg pow = Ok true <-> admissible cfg c sg pow.
Proof.
  unfold auth_ok, admissible. destruct (c_nonce c) as [n|]; [|split; [done|by intros (? & [=] & _)]].
  destruct (verify_pow n pow (identity_pow_bits cfg)) eqn:Hp; simpl.
  2: { split; [done|]. intros (? & [= <-] & Hq & _). congruence. }
  destruct (c_pubkey c) as [pk|].
  - destruct sg as [sgh|]; [|split; [done|]; by intros (? & _ & _ & ? & [=] & _)].
    destruct (verify_nonce pk n sgh) as [[]|?|] eqn:Hv; (split; [intros [=]|]); try (by eauto 10);
      try (intros (? & [= <-] & _ & ? & [= <-] & ?); congruence).
  - split; [intros [= Hr%negb_true_iff]; by exists n|]. intros (? & _ & _ & ->). done.
Qed.

(** The answer to a challenge authenticates its connection, or leaves all as they are. *)
Lemma on_nonce_sig_auth cfg conn sg pow s a s' :
  on_nonce_sig cfg conn sg pow s = (Ok a, s') ->
  no_new_auth (conns s) (conns s') /\ (forall c, conns s !! conn = Some c -> ~ admissible cfg c sg pow) \/
  exists c, conns s !! conn = Some c /\ admissible cfg c sg pow /\
    (exists c', conns s' !! conn = Some c' /\ authed c' = true) /\
    forall k, k <> conn -> conns s' !! k = conns s !! k.
Proof.
  unfold on_nonce_sig. destruct (conns s !! conn) as [c|] eqn:Hc; [|intros [= _ <-]; left; split; [apply no_new_auth_refl|done]].
  destruct (auth_ok cfg c sg pow) as [[]|?|] eqn:Ha; [..|done|done]; intros [= _ <-].
  - right. exists c. split_and!; [done|by apply auth_ok_true| |].
    + simpl. rewrite lookup_alter_eq, lookup_alter_eq, Hc. by eexists.
    + intros k Hk. simpl. by rewrite !lookup_alter_ne.
  - left. split; [eapply no_new_auth_trans; by apply no_new_auth_alter|].
    intros ? [= <-] Had%auth_ok_true. congruence.
Qed.

(** C34. Admission: an event makes a connection authenticated only when it answers the
    connection's own challenge with a proof of work of the configured difficulty and, when it
    announced a key, a signature of the challenge by that key (without a key, only when
    identities are not required); such an answer always authenticates it.  What a connection
    that is already authenticated may do under another id is in [NetDemo]. *)
Theorem admission_spec cfg e ev s s' k c c' :
  on_event cfg e ev s = (Ok tt, s') -> conns s !! k = Some c -> conns s' !! k = Some c' ->
  (authed c' = true ->
     authed c = true \/ exists sg pow, ev = EvNonceSig k sg pow /\ admissible cfg c sg pow) /\
  (forall sg pow, ev = EvNonceSig k sg pow -> admissible cfg c sg pow -> authed c' = true).
Proof.
  intros Hev Hk Hk'. assert (no_new_auth (conns s) (conns s') -> authed c' = true -> authed c = true) as Hsame.
  { intros Hn Hc'. destruct (Hn k c' Hk') as (c0 & Hc0 & Heq). congruence. }
  split.
  - intros Hc'. destruct ev as [|conn sg pow| | | | | | |];
      try (left; apply Hsame; [by eapply on_event_auth|done]).
    apply on_nonce_sig_auth in Hev as [[Hn _]|(c0 & Hc0 & Had & _ & Hne)]; [left; by apply Hsame|].
    destruct (decide (k = conn)) as [->|Hkc]; [|left; rewrite Hne in Hk' by done; congruence].
    right. exists sg, pow. split; [done|]. congruence.
  - intros sg pow -> Had. apply on_nonce_sig_auth in Hev as [[_ Hno]|(c0 & _ & _ & (c1 & Hc1 & Ha) & _)].
    + by destruct (Hno c Hk).
    + congruence.
Qed.

(** ** Progress *)

(** The ledger has room for the deltas of a job. *)
Definition ledger_room (cfg : ServeConfig) (f : file_read) (n : nat) : Prop :=
  ledger_path cfg = None \/ exists bound, 0 <= bound /\ bound + 100 * Z.of_nat n < 2 ^ 63 /\
    forall l id, ledger_load f = Ok l -> - bound <= default 0 (balances l !! id) <= bound.

Lemma finish_ledger_total cfg jid d rs f :
  ledger_room cfg f (length rs) -> exists f', finish_ledger cfg jid (slashing d rs) f = Ok f'.
Proof.
  unfold finish_ledger. intros [->|(bound & Hb0 & Hb & Hl)]; [by eexists|].
  destruct (ledger_path cfg) as [path|]; [|by eexists].
  set (led := match ledger_load f with Ok l => l | _ => empty_ledger end).
  destruct (apply_deltas_total (slashing d rs) (balances led) bound) as [b Hd]; [done| | | |].
  - intros id. subst led. destruct (ledger_load f) eqn:Hf; [by apply (Hl _ id)| |]; simpl; rewrite lookup_empty; simpl; lia.
  - intros id x. apply slashing_bounds.
  - pose proof (f_equal length (slashing_fst d rs)) as Hlen. rewrite !length_fmap in Hlen. by rewrite Hlen.
  - unfold ledger_apply. rewrite Hd. simpl. destruct (ledger_save _ _); by eexists.
Qed.

Lemma finish_decided_job_total cfg j d s :
  ledger_room cfg (ledger_file s) (length (results j)) -> exists s', finish_decided_job cfg j d s = (Ok tt, s').
Proof.
  intros Hroom. destruct (finish_ledger_total cfg (d_job_id (pj_descriptor j)) d (results j) _ Hroom) as [f' Hf].
  unfold finish_decided_job. simpl ledger_file. rewrite Hf. by eexists.
Qed.

(** The turn that finishes a decided job. *)
Lemma decided_turn cfg e s j d :
  match max_jobs cfg with Some n => (jobs_done s < n)%nat | None => True end ->
  pending s = Some j -> dispatched j = true -> zk_accept j = None ->
  all_in j = true \/ per_job_deadline cfg < now e - started j ->
  Pool.decide (results j) (length (dispatched_ids j)) = Ok d -> d <> Escalate ->
  ledger_room cfg (ledger_file s) (length (results j)) ->
  exists s', turn cfg e s = (Ok true, s') /\ pending s' = None /\ jobs_done s' = S (jobs_done s) /\
    outcomes s' = outcomes s ++ [{| f_job_id := d_job_id (pj_descriptor j); f_decision := d; f_results := results j;
                                    f_deltas := slashing d (results j) |}].
Proof.
  intros Hmax Hp Hd Hz Hwhen Hdec Hne Hroom. unfold turn.
  replace (match max_jobs cfg with Some n => (n <=? jobs_done s)%nat | None => false end) with false
    by (destruct (max_jobs cfg); [symmetry; apply Nat.leb_gt; lia|done]).
  unfold mbind, M_bind, mmodify, scan_step. rewrite Hp. unfold dispatch_step. rewrite Hp, Hd. simpl.
  unfold completion_step. rewrite Hp.
  assert (check_completion cfg e j (conns s) = Ok (Finishing (finished_copy j))) as ->.
  { unfold check_completion. rewrite Hd. simpl. destruct (all_in j).
    - rewrite Hdec. simpl. by rewrite bool_decide_false.
    - destruct Hwhen as [|Hw]; [done|]. by rewrite (proj2 (Z.ltb_lt _ _) Hw). }
  unfold finish_step. assert (decide_job cfg (sv_store s) (finished_copy j) (zk_disk s) = (Ok d, zk_disk s)) as ->.
  { unfold decide_job. simpl. rewrite Hz, Hdec. by destruct d. }
  destruct (finish_decided_job_total cfg (finished_copy j) d (set_zk (tmp s) (zk_disk s) s)) as [s1 Hs1]; [done|].
  unfold mbind, M_bind. rewrite Hs1. apply finish_decided_job_inv in Hs1 as (Ho & Hn & _).
  eexists. split; [reflexivity|]. simpl in *. unfold mark_done. by repeat case_match.
Qed.

(** Progress: a dispatched job whose workers have all answered, or whose deadline has
    passed, and whose pool reaches a decision is finished by the very next turn, whatever
    events are waiting: the pending slot is free again, the outcome records that decision
    with the bonds it implies, and the count of finished jobs goes up. *)
Theorem decided_job_finishes cfg e s j d :
  match max_jobs cfg with Some n => (jobs_done s < n)%nat | None => True end ->
  pending s = Some j -> dispatched j = true -> zk_accept j = None ->
  all_in j = true \/ per_job_deadline cfg < now e - started j ->
  Pool.decide (results j) (length (dispatched_ids j)) = Ok d -> d <> Escalate ->
  ledger_room cfg (ledger_file s) (length (results j)) ->
  exists s', turn cfg e s = (Ok true, s') /\ pending s' = None /\ jobs_done s' = S (jobs_done s) /\
    outcomes s' = outcomes s ++ [{| f_job_id := d_job_id (pj_descriptor j); f_decision := d; f_results := results j;
                                    f_deltas := slashing d (results j) |}].
Proof. apply decided_turn. Qed.
End Admission.
