(* ===== verification/Worker.v ===== *)
(** * The worker daemon (crates/worker/src/daemon.rs)

    A session with the coordinator: greeting and challenge, then assignments, each of which
    fetches the three blobs of the job (peers first), materialises and loads it, executes it
    in the emulator and submits the signed result; and the reconnect loop around sessions.
    This is the build without the sp1 feature. *)

From S2P Require Import Prelude Text Mem Cpu Interp Run Elf JobFmt ContentStore Wire Quorum Dispute.

(** ** Configuration and state *)

(** [DaemonConfig] without the addresses and the certificate of the connection. *)
Record DaemonConfig : Type := mkDaemonConfig {
  dc_worker_id : string;
  identity_path : option string;
  dc_listen_port : option Z;
  corrupt : bool;
  corrupt_byte : option Z;
  extra_submits : Z;
  receipt_file : option string;
}.

(** What the daemon works on.  [incoming] is what the reads of the coordinator's connection
    find and [w_sent] the bytes written to it; [dials] holds the outcomes of the next
    connections to peers, each with what its reads find; [disk] holds files outside the
    directories ([identity_path] and [receipt_file]) and [scratch] the directories jobs are
    materialised into; the counters are those of [Counters] except [served], which the peer
    server keeps.  [said] is a history variable: the messages whose sending succeeded. *)
Record Daemon : Type := mkDaemon {
  incoming : stream;
  w_sent : list Z;
  said : list ClientToServer;
  dials : list (option (Sink * stream));
  w_store : Store;
  disk : gmap string (list Z);
  scratch : gmap string Dir;
  jobs : Z;
  from_peers : Z;
  from_server : Z;
  submitted : bool;
}.

Definition set_incoming (es : stream) (s : Daemon) : Daemon :=
  mkDaemon es (w_sent s) (said s) (dials s) (w_store s) (disk s) (scratch s) (jobs s) (from_peers s)
    (from_server s) (submitted s).
Definition set_sent (b : list Z) (l : list ClientToServer) (s : Daemon) : Daemon :=
  mkDaemon (incoming s) b l (dials s) (w_store s) (disk s) (scratch s) (jobs s) (from_peers s)
    (from_server s) (submitted s).
Definition set_dials (l : list (option (Sink * stream))) (s : Daemon) : Daemon :=
  mkDaemon (incoming s) (w_sent s) (said s) l (w_store s) (disk s) (scratch s) (jobs s) (from_peers s)
    (from_server s) (submitted s).
Definition set_wstore (st : Store) (s : Daemon) : Daemon :=
  mkDaemon (incoming s) (w_sent s) (said s) (dials s) st (disk s) (scratch s) (jobs s) (from_peers s)
    (from_server s) (submitted s).
Definition set_disk (d : gmap string (list Z)) (s : Daemon) : Daemon :=
  mkDaemon (incoming s) (w_sent s) (said s) (dials s) (w_store s) d (scratch s) (jobs s) (from_peers s)
    (from_server s) (submitted s).
Definition set_scratch (d : gmap string Dir) (s : Daemon) : Daemon :=
  mkDaemon (incoming s) (w_sent s) (said s) (dials s) (w_store s) (disk s) d (jobs s) (from_peers s)
    (from_server s) (submitted s).
Definition count_job (s : Daemon) : Daemon :=
  mkDaemon (incoming s) (w_sent s) (said s) (dials s) (w_store s) (disk s) (scratch s) (jobs s + 1)
    (from_peers s) (from_server s) (submitted s).
Definition count_peer (s : Daemon) : Daemon :=
  mkDaemon (incoming s) (w_sent s) (said s) (dials s) (w_store s) (disk s) (scratch s) (jobs s)
    (from_peers s + 1) (from_server s) (submitted s).
Definition count_server (s : Daemon) : Daemon :=
  mkDaemon (incoming s) (w_sent s) (said s) (dials s) (w_store s) (disk s) (scratch s) (jobs s)
    (from_peers s) (from_server s + 1) (submitted s).
Definition set_submitted (b : bool) (s : Daemon) : Daemon :=
  mkDaemon (incoming s) (w_sent s) (said s) (dials s) (w_store s) (disk s) (scratch s) (jobs s) (from_peers s)
    (from_server s) b.

Inductive SessionEnd : Type :=
  | ServerShutdown
  | ConnectionLost.

#[export] Instance SessionEnd_eq_dec : EqDecision SessionEnd.
Proof. solve_decision. Defined.

(** ** The world of the daemon *)

(** ed25519 signing: the key of a seed, its public bytes, and signatures; what the daemon
    relies on is that the coordinator's verification accepts them. *)
Class Signer `{Ed25519} : Type := {
  skey : Type;
  skey_from_seed : list Z -> skey;
  vk_bytes : skey -> list Z;
  ed_sign : skey -> list Z -> list Z;
  vk_bytes_ok : forall k, length (vk_bytes k) = 32%nat /\ Forall is_byte (vk_bytes k);
  ed_sign_ok : forall k msg, length (ed_sign k msg) = 64%nat /\ Forall is_byte (ed_sign k msg);
  ed_correct : forall k, exists vk, vkey_from_bytes (vk_bytes k) = Ok vk /\
    forall msg, ed_verify vk msg (ed_sign k msg) = Ok tt;
}.

(** The operating system as the daemon sees it: whether an error is a connection reset, the
    [{:?}] of a message, what [remove_dir_all] leaves of a directory, the temporary
    directory, and the creation of the directory of a file. *)
Class WorkerOs : Type := {
  os_is_reset : string -> bool;
  os_debug_msg : ServerToClient -> string;
  os_remove_dir : Dir -> Dir;
  os_temp_dir : string;
  os_mkdir_parent : string -> outcome string unit;
}.

(** [WireError]'s [Display] *)
Definition show_wire_error (e : WireError) : string :=
  match e with
  | Io e => "wire i/o: " +:+ e
  | Malformed s => "wire: " +:+ s
  | ConnectionClosed => "wire: connection closed"
  end.

(** [{:?}] of a trap *)
Definition show_trap (t : Trap) : string :=
  match t with
  | FetchUnaligned => "FetchUnaligned"
  | FetchOutOfRange => "FetchOutOfRange"
  | IllegalInstruction pc inst => "IllegalInstruction { pc: " +:+ pretty pc +:+ ", inst: " +:+ pretty inst +:+ " }"
  | LoadOutOfRange addr => "LoadOutOfRange { addr: " +:+ pretty addr +:+ " }"
  | StoreOutOfRange addr => "StoreOutOfRange { addr: " +:+ pretty addr +:+ " }"
  | Ecall => "Ecall"
  | OutputTooLarge => "OutputTooLarge"
  end.

Definition hex_decode (s : string) : option (list Z) := ok (from_hex s (str_len s / 2)).

(** ** Executing a job *)

Section Execute.
Context `{Blake3} `{Sha256}.

(** Parse, load and run on the native emulator. *)
Definition execute_job (job : Job) : outcome string RunOutcome :=
  image ← map_err (fun e => "elf: " +:+ e)%string (parse (job_elf job));
  match load new image with
  | (Ok _, m) =>
      match run m (entry image) (job_input job)
              (judge_cfg (m_chunk_size (manifest job)) (m_max_instructions (manifest job))) with
      | Some (Ok out) => Ok out
      | _ => Panic
      end
  | (Err e, _) => Err ("elf: " +:+ e)%string
  | (Panic, _) => Panic
  end.

Lemma execute_no_tohost job out v : execute_job job = Ok out -> status out <> Tohost v.
Proof.
  unfold execute_job. destruct (parse (job_elf job)) as [image|?|]; [|done..]. simpl.
  destruct (load new image) as [[[]|?|] m]; [|done..]. destruct (run _ _ _ _) as [[o|?|]|] eqn:Hr; [|done..].
  intros [= <-]. by eapply judge_no_tohost.
Qed.

Definition status_str (st : ExitStatus) : string :=
  match st with
  | Halted | Tohost _ => "halted"
  | InstructionLimit => "instruction_limit"
  | Trapped _ => "trap"
  end.

Definition trap_str (st : ExitStatus) : option string :=
  match st with Trapped t => Some (show_trap t) | _ => None end.

(** The corruption test hook: one byte of the journal bumped. *)
Definition corrupt_journal (cfg : DaemonConfig) (j : list Z) : list Z :=
  if corrupt cfg && negb (bool_decide (j = [])) then
    let idx := match corrupt_byte cfg with
               | Some i => (Z.to_nat i mod length j)%nat
               | None => (length j - 1)%nat
               end in
    alter (fun b => wrap 8 (b + 1)) idx j
  else j.

(** The result before signing. *)
Definition build_result (cfg : DaemonConfig) (job : Job) (out : RunOutcome) : WorkerResult :=
  let j := journal (instructions out) (default [] (Run.output out)) in
  let result_hash := hex (sha256 (corrupt_journal cfg j)) in
  {| worker_id := dc_worker_id cfg; job_id := m_id (manifest job); r_status := status_str (status out);
     r_instructions := instructions out; result_hash := result_hash; r_chunk_hashes := [result_hash];
     output_hex := if (8 <? length j)%nat then Some (hex (journal_output j)) else None;
     trap := trap_str (status out); pubkey_hex := None; sig_hex := None |}.

Context `{Ed25519} `{!Signer}.

Definition sign_result (key : option skey) (r : WorkerResult) : WorkerResult :=
  match key with
  | None => r
  | Some k =>
      {| worker_id := worker_id r; job_id := job_id r; r_status := r_status r;
         r_instructions := r_instructions r; result_hash := result_hash r;
         r_chunk_hashes := r_chunk_hashes r; output_hex := output_hex r; trap := trap r;
         pubkey_hex := Some (hex (vk_bytes k)); sig_hex := Some (hex (ed_sign k (signing_message r))) |}
  end.
End Execute.

(** ** The session *)

Section Session.
Context `{Blake3} `{Sha256} `{Ed25519} `{!Signer} `{Os} `{WorkerOs}.
Context `{Json JobManifest} `{Json ClientToServer} `{Json ServerToClient} `{Json PeerToPeer}.
Context `{link : Sink}.

(** [wire::send] and [wire::receive] on the coordinator's connection. *)
Definition say (msg : ClientToServer) : M Daemon WireError unit := fun s =>
  match send msg (w_sent s) with
  | (Ok _, b) => (Ok tt, set_sent b (said s ++ [msg]) s)
  | (Err e, b) => (Err e, set_sent b (said s) s)
  | (Panic, b) => (Panic, set_sent b (said s) s)
  end.

Definition hear : M Daemon WireError ServerToClient := fun s =>
  let '(r, es) := receive (incoming s) in (r, set_incoming es s).

Definition with_tag {S E F A} (f : E -> F) (k : M S E A) : M S F A := fun s =>
  let '(r, s') := k s in (map_err f r, s').

Definition or_text {S A} (k : M S WireError A) : M S string A := with_tag show_wire_error k.

(** A result read off the state. *)
Definition look {S E A} (f : S -> outcome E A) : M S E A := fun s => (f s, s).

(** Store the bytes of a hexadecimal blob if they are the content asked for. *)
Definition keep_blob (tag : string) (id : ContentId) (h : string) : M Daemon string unit := fun s =>
  match hex_decode h with
  | None => (Err (tag +:+ ": bad hex")%string, s)
  | Some bytes =>
      if negb (bool_decide (from_data bytes = id)) then
        (Err (tag +:+ ": content does not match requested hash")%string, s)
      else
        let '(r, st) := put_blob bytes (w_store s) in
        (match r with
         | Ok _ => Ok tt
         | Err e => Err ("store: " +:+ e)%string
         | Panic => Panic
         end, set_wstore st s)
  end.

(** What asking one peer gives: [None] when the loop goes on to the next one. *)
Definition ask_peer (id_hex : string) : M Daemon string (option string) := fun s =>
  match dials s with
  | [] | None :: _ => (Ok None, set_dials (tail (dials s)) s)
  | Some (snk, es) :: rest =>
      let s' := set_dials rest s in
      match send (H := snk) (PeerBlobRequest id_hex) [] with
      | (Panic, _) => (Panic, s')
      | (Err _, _) => (Ok None, s')
      | (Ok _, _) =>
          match receive (A := PeerToPeer) es with
          | (Ok (PeerBlob (Some h)), _) => (Ok (Some h), s')
          | (Panic, _) => (Panic, s')
          | _ => (Ok None, s')
          end
      end
  end.

(** The loop over the peers: whether one of them gave the blob. *)
Fixpoint from_peer (id : ContentId) (id_hex : string) (peers : list string) : M Daemon string bool :=
  match peers with
  | [] => mret false
  | _ :: rest =>
      o ← ask_peer id_hex;
      match o with
      | None => from_peer id id_hex rest
      | Some h =>
          _ ← keep_blob "peer blob" id h;
          _ ← mmodify count_peer;
          _ ← lift (str_slice id_hex 0 12);
          mret true
      end
  end.

Definition cancelled : string := "__cancelled__".

Definition from_coordinator (id : ContentId) (id_hex : string) : M Daemon string unit :=
  _ ← or_text (say (BlobRequest id_hex));
  msg ← or_text hear;
  match msg with
  | Blob (Some h) =>
      _ ← keep_blob "blob" id h;
      mmodify count_server
  | Blob None => Prelude.mfail ("blob " +:+ id_hex +:+ " not found on coordinator")%string
  | BetweenJobs => Prelude.mfail cancelled
  | other => Prelude.mfail ("expected Blob, got " +:+ os_debug_msg other)%string
  end.

Definition fetch_blob (id_hex : string) (peer_hints : list string) : M Daemon string unit :=
  id ← lift (cid_from_hex id_hex);
  here ← look (fun s => has (w_store s) id);
  if here : bool then mret tt
  else
    got ← from_peer id id_hex peer_hints;
    if got : bool then mret tt else from_coordinator id id_hex.

Fixpoint fetch_all (ids : list string) (peer_hints : list string) : M Daemon string unit :=
  match ids with
  | [] => mret tt
  | id :: rest => _ ← fetch_blob id peer_hints; fetch_all rest peer_hints
  end.

Definition job_materialize_dir (worker_id job_id : string) : outcome string string :=
  _ ← confined_name os_debug job_id;
  mret (os_temp_dir +:+ "/p2pc-worker-" +:+ worker_id +:+ "-" +:+ job_id)%string.

(** The receipt carrier: the claim instead of a result. *)
Definition submit_receipt (cfg : DaemonConfig) (key : option skey) (path jid : string) : M Daemon string unit :=
  receipt ← look (fun s => map_err (fun e => "receipt file: " +:+ e)%string (ok_or (disk s !! path) os_missing));
  k ← lift (ok_or key "receipt claims require --identity"%string);
  let sg := ed_sign k (receipt_claim_message jid (blake3 receipt)) in
  _ ← with_tag (fun e => "receipt submit: " +:+ show_wire_error e)%string
        (say (ReceiptClaim (dc_worker_id cfg) jid (hex (vk_bytes k)) (hex sg) (hex receipt)));
  mmodify (set_submitted true).

(** The result is sent [n] times; a failed send is a lost connection. *)
Fixpoint submit_result (n : nat) (r : WorkerResult) : M Daemon string (option SessionEnd) := fun s =>
  match n with
  | O => (Ok None, set_submitted true s)
  | S n' =>
      match say (JobResult r) s with
      | (Ok _, s') => submit_result n' r s'
      | (Err _, s') => (Ok (Some ConnectionLost), s')
      | (Panic, s') => (Panic, s')
      end
  end.

(** Materialise from the store into the directory, emptied before, and load. *)
Definition load_into (path : string) (desc : JobDescriptor) : M Daemon string Job := fun s =>
  let '(r, d) := materialize desc (w_store s) (os_remove_dir (default ∅ (scratch s !! path))) in
  (_ ← map_err (fun e => "materialize: " +:+ e)%string r;
   map_err (fun e => "load: " +:+ e)%string (load_dir path d),
   set_scratch (<[path := d]> (scratch s)) s).

(** The directory is this worker's and this job's. *)
Definition prepare_job (cfg : DaemonConfig) (desc : JobDescriptor) : M Daemon string Job :=
  path ← lift (job_materialize_dir (dc_worker_id cfg) (d_job_id desc));
  load_into path desc.

Definition v2_unsupported : string :=
  "v2 (sp1-native) jobs require the sp1 feature (Linux) — rvcore cannot execute them".

Definition execute_assignment (cfg : DaemonConfig) (key : option skey) (desc : JobDescriptor) :
    M Daemon string (option SessionEnd) :=
  job ← prepare_job cfg desc;
  if is_sp1_v2 (manifest job) then Prelude.mfail v2_unsupported
  else
    out ← lift (execute_job job);
    _ ← mmodify count_job;
    submit_result (S (Z.to_nat (extra_submits cfg))) (sign_result key (build_result cfg job out)).

(** [JobAssignment]; the answer is how the session ended, if it did. *)
Definition on_assignment (cfg : DaemonConfig) (key : option skey) (desc : JobDescriptor) (peer_hints : list string) :
    M Daemon string (option SessionEnd) := fun s =>
  match fetch_all [d_manifest desc; d_elf desc; d_input desc] peer_hints s with
  | (Panic, s') => (Panic, s')
  | (Err _, s') => (Ok (Some ConnectionLost), s')
  | (Ok _, s') =>
      match receipt_file cfg with
      | Some path => (_ ← submit_receipt cfg key path (d_job_id desc); mret None) s'
      | None => execute_assignment cfg key desc s'
      end
  end.

(** One turn of the job loop. *)
Definition loop_turn (cfg : DaemonConfig) (key : option skey) : M Daemon string (option SessionEnd) := fun s =>
  match hear s with
  | (Panic, s') => (Panic, s')
  | (Err ConnectionClosed, s') => (Ok (Some ServerShutdown), s')
  | (Err e, s') =>
      let reset := match e with Io x => submitted s && os_is_reset x | _ => false end in
      if reset then (Ok (Some ServerShutdown), s') else (Err (show_wire_error e), s')
  | (Ok msg, s') =>
      match msg with
      | AuthOk _ | BetweenJobs => (Ok None, s')
      | ShutDown _ => (Ok (Some ServerShutdown), s')
      | JobAssignment desc hints => on_assignment cfg key desc hints s'
      | other => (Err ("unexpected server message: " +:+ os_debug_msg other)%string, s')
      end
  end.

(** The job loop, with fuel. *)
Fixpoint job_loop (fuel : nat) (cfg : DaemonConfig) (key : option skey) (s : Daemon) :
    option (outcome string SessionEnd * Daemon) :=
  match fuel with
  | O => None
  | S fuel' =>
      match loop_turn cfg key s with
      | (Ok None, s') => job_loop fuel' cfg key s'
      | (Ok (Some e), s') => Some (Ok e, s')
      | (Err e, s') => Some (Err e, s')
      | (Panic, s') => Some (Panic, s')
      end
  end.

(** The size of a stream: what the job loop consumes of it bounds its turns. *)
Fixpoint stream_size (es : stream) : nat :=
  match es with
  | [] => 0%nat
  | Data l :: t => (S (length l) + stream_size t)%nat
  | _ :: t => S (stream_size t)
  end.

(** ** Greeting, identity and the whole session *)

(** The surroundings of one session: binding the peer server's port (a failure only degrades
    the worker, [Ok None]), connecting to the coordinator, the random seed of a new identity,
    and opening the store. *)
Record SessionEnv : Type := mkSessionEnv {
  bind_port : Z -> outcome string (option Z);
  dial : outcome string stream;
  seed : list Z;
  open_store : outcome string unit;
}.

(** [load_or_create_identity]; both failures are [expect]s. *)
Definition load_or_create_identity (path : string) (seed : list Z) : M Daemon string skey := fun s =>
  let create :=
    match os_mkdir_parent path with
    | Ok _ =>
        match os_write path seed with
        | Ok stored => (Ok (skey_from_seed seed), set_disk (<[path := stored]> (disk s)) s)
        | _ => (Panic, set_disk (failed_write path path seed (disk s)) s)
        end
    | _ => (Panic, s)
    end in
  match disk s !! path with
  | Some old => if (length old =? 32)%nat then (Ok (skey_from_seed old), s) else create
  | None => create
  end.

Definition identity (cfg : DaemonConfig) (seed : list Z) : M Daemon string (option skey) :=
  match identity_path cfg with
  | None => mret None
  | Some path => k ← load_or_create_identity path seed; mret (Some k)
  end.

(** A connection starts with nothing read and nothing written. *)
Definition connected (es : stream) (s : Daemon) : Daemon := set_sent [] (said s) (set_incoming es s).

(** The port of the peer blob server, when there is one. *)
Definition peer_server (cfg : DaemonConfig) (env : SessionEnv) : outcome string (option Z) :=
  match dc_listen_port cfg with Some p => bind_port env p | None => Ok None end.

(** The session up to the challenge: the key, the nonce and the difficulty. *)
Definition greet (cfg : DaemonConfig) (env : SessionEnv) : M Daemon string (option skey * (list Z * Z)) :=
  port ← lift (peer_server cfg env);
  es ← lift (dial env);
  _ ← mmodify (connected es);
  key ← identity cfg (seed env);
  _ ← or_text (say (Hello (default ""%string ((fun k => hex (vk_bytes k)) <$> key)) (dc_worker_id cfg) port "worker"));
  msg ← or_text hear;
  match msg with
  | Nonce h bits => nonce ← lift (ok_or (hex_decode h) "nonce: bad hex"%string); mret (key, (nonce, bits))
  | AuthFailed reason => Prelude.mfail ("auth failed: " +:+ reason)%string
  | other => Prelude.mfail ("expected Nonce, got " +:+ os_debug_msg other)%string
  end.

(** The answer to the challenge; then the store is opened and the job loop starts. *)
Definition answer (env : SessionEnv) (key : option skey) (nonce : list Z) (counter : Z) : M Daemon string unit :=
  _ ← or_text (say (NonceSignature ((fun k => hex (ed_sign k nonce)) <$> key) counter));
  _ ← lift (open_store env);
  mmodify (set_submitted false).

(** [None] when no counter solves the challenge, so that the miner returns none. *)
Definition session_once (cfg : DaemonConfig) (env : SessionEnv) (s : Daemon) :
    option (outcome string SessionEnd * Daemon) :=
  match greet cfg env s with
  | (Err e, s1) => Some (Err e, s1)
  | (Panic, s1) => Some (Panic, s1)
  | (Ok (key, (nonce, bits)), s1) =>
      counter ← mine_pow nonce bits;
      match answer env key nonce counter s1 with
      | (Err e, s2) => Some (Err e, s2)
      | (Panic, s2) => Some (Panic, s2)
      | (Ok _, s2) => job_loop (S (stream_size (incoming s2))) cfg key s2
      end
  end.

(** The next delay, in seconds. *)
Definition next_backoff (jobs backoff : Z) : Z :=
  if 0 <? jobs then 1 else Z.min (backoff * 2) 10.

(** [run_daemon] over the surroundings of its successive sessions, with the delays slept so
    far; [None] when more sessions are needed. *)
Fixpoint run_daemon (envs : list SessionEnv) (cfg : DaemonConfig) (backoff : Z) (slept : list Z) (s : Daemon) :
    option (outcome string unit * list Z * Daemon) :=
  match envs with
  | [] => None
  | env :: rest =>
      match session_once cfg env s with
      | None => None
      | Some (Err e, s') => Some (Err e, slept, s')
      | Some (Panic, s') => Some (Panic, slept, s')
      | Some (Ok ServerShutdown, s') => Some (Ok tt, slept, s')
      | Some (Ok ConnectionLost, s') =>
          run_daemon rest cfg (next_backoff (jobs s') backoff) (slept ++ [backoff]) s'
      end
  end.

(** One connection of the peer server: the request, the reply and the count of blobs served. *)
Definition serve_peer (st : Store) (es : stream) (served : Z) (sent : list Z) : outcome string unit * (Z * list Z) :=
  match receive (A := PeerToPeer) es with
  | (Ok (PeerBlobRequest id_hex), _) =>
      match cid_from_hex id_hex with
      | Panic => (Panic, (served, sent))
      | r =>
          let data : option (list Z) := ok r ≫= fun cid => ok (get_blob st cid) in
          let served' := match data with Some _ => served + 1 | None => served end in
          match send (PeerBlob (hex <$> data)) sent with
          | (Panic, sent') => (Panic, (served', sent'))
          | (_, sent') => (Ok tt, (served', sent'))
          end
      end
  | (Panic, _) => (Panic, (served, sent))
  | _ => (Ok tt, (served, sent))
  end.
End Session.

(** ** Facts *)

Section Facts.
Context `{Blake3} `{Sha256} `{Ed25519} `{!Signer} `{Os} `{WorkerOs}.
Context `{Json JobManifest} `{Json ClientToServer} `{Json ServerToClient} `{Json PeerToPeer}.
Context `{link : Sink}.

(** ** Streams shrink *)

Lemma rest_of_size l es : (stream_size (rest_of l es) <= S (length l) + stream_size es)%nat.
Proof. destruct l; simpl; lia. Qed.

Lemma read_exact_size es need buf :
  match read_exact es need buf with
  | Exact _ es' => (stream_size es' <= stream_size es)%nat /\ (need <> 0%nat -> (stream_size es' < stream_size es)%nat)
  | UnexpectedEof es' | OtherError _ es' => (stream_size es' <= stream_size es)%nat
  end.
Proof.
  revert need buf. induction es as [|ev es IH]; intros [|need] buf; cbn [read_exact]; try (split; [done|done]).
  1: done.
  destruct ev as [l|i st|e]; simpl; [|lia..]. destruct l as [|b l]; [simpl; lia|].
  destruct (Nat.ltb_spec (length (b :: l)) (S need)) as [Hlt|Hge].
  - specialize (IH (S need - length (b :: l))%nat (buf ++ b :: l)). simpl in Hlt.
    destruct (read_exact es _ _); simpl in *; lia.
  - pose proof (rest_of_size (drop (S need) (b :: l)) es) as Hr. rewrite length_drop in Hr. simpl in *. lia.
Qed.

Lemma receive_size {A} `{Json A} es :
  match receive (A := A) es with
  | (Ok _, es') => (stream_size es' < stream_size es)%nat
  | (_, es') => (stream_size es' <= stream_size es)%nat
  end.
Proof.
  unfold receive. pose proof (read_exact_size es 4 []) as H1s.
  destruct (read_exact es 4 []) as [buf es1|es1|e es1]; [|done..]. destruct H1s as [_ H1s]. specialize (H1s ltac:(lia)).
  destruct (MAX_FRAME <? _); [lia|]. pose proof (read_exact_size es1 (Z.to_nat (le_val buf)) []) as H2s.
  destruct (read_exact es1 _ []) as [buf2 es2|es2|e es2]; [|lia..]. destruct (decode_frame buf2); lia.
Qed.

(** ** What an operation may change *)

(** Messages other than answers to an assignment. *)
Definition asks (msg : ClientToServer) : Prop := match msg with BlobRequest _ => True | _ => False end.

(** Only blob requests are sent, the stream does not grow back, blobs of the store are kept. *)
Definition fetching (s s' : Daemon) : Prop :=
  (exists l, said s' = said s ++ l /\ Forall asks l) /\
  (stream_size (incoming s') <= stream_size (incoming s))%nat /\
  disk s' = disk s /\ scratch s' = scratch s /\ jobs s' = jobs s /\ submitted s' = submitted s /\
  (forall p d, w_store s !! p = Some d -> w_store s' !! p = Some d).

Definition fetches {E A} (k : M Daemon E A) : Prop := forall s, fetching s (k s).2.

#[local] Instance fetching_refl : Reflexive fetching.
Proof. intros s. split_and!; try done. exists []. by rewrite app_nil_r. Qed.

#[local] Instance fetching_trans : Transitive fetching.
Proof.
  intros s1 s2 s3 ((l1 & S1 & F1) & I1 & D1 & C1 & J1 & B1 & P1) ((l2 & S2 & F2) & I2 & D2 & C2 & J2 & B2 & P2).
  split_and!; [|lia|congruence..|auto]. exists (l1 ++ l2). rewrite S2, S1, app_assoc. split; [done|by apply Forall_app].
Qed.

Lemma fetches_bind {E A B} (k : M Daemon E A) (f : A -> M Daemon E B) :
  fetches k -> (forall a, fetches (f a)) -> fetches (a ← k; f a).
Proof.
  intros Hk Hf s. unfold mbind, M_bind. specialize (Hk s). destruct (k s) as [[a|e|] s1]; simpl in *; [|done..].
  etrans; [exact Hk|apply Hf].
Qed.

Lemma fetches_pure {E A} (k : M Daemon E A) : (forall s, (k s).2 = s) -> fetches k.
Proof. intros Hk s. by rewrite Hk. Qed.

Lemma put_blob_keeps data st p d :
  st !! p = Some d -> (put_blob data st).2 !! p = Some d.
Proof.
  intros Hd. unfold put_blob. destruct (st !! blob_path (from_data data)) eqn:Hp; [done|].
  destruct (store_err _); [case_match| |done]; simpl; unfold failed_write; repeat case_match;
    rewrite ?lookup_insert_ne by congruence; done.
Qed.

Lemma fetches_keep_blob tag id h : fetches (keep_blob tag id h).
Proof.
  intros s. unfold keep_blob. destruct (hex_decode h) as [bytes|]; [|done]. case_match; [done|].
  destruct (put_blob bytes (w_store s)) as [r st] eqn:Hp. simpl. split_and!; try done.
  - exists []. by rewrite app_nil_r.
  - intros p d Hd. pose proof (put_blob_keeps bytes (w_store s) p d Hd) as Hk. by rewrite Hp in Hk.
Qed.

Lemma fetches_ask_peer id_hex : fetches (ask_peer id_hex).
Proof.
  intros s. unfold ask_peer.
  assert (forall l, fetching s (set_dials l s)) as Hd by (intros l; split_and!; try done; exists []; by rewrite app_nil_r).
  destruct (dials s) as [|[[snk es]|] rest]; [apply Hd| |apply Hd].
  destruct (send _ []) as [[]]; try apply Hd. destruct (receive es) as [[[]|?|] ?]; try apply Hd.
  case_match; apply Hd.
Qed.

Lemma fetches_from_peer id id_hex peers : fetches (from_peer id id_hex peers).
Proof.
  induction peers as [|p peers IH]; cbn [from_peer]; [by apply fetches_pure|].
  apply fetches_bind; [apply fetches_ask_peer|]. intros [h|]; [|done].
  apply fetches_bind; [apply fetches_keep_blob|intros _].
  apply fetches_bind; [|intros _; apply fetches_bind; [by apply fetches_pure|intros _; by apply fetches_pure]].
  intros s. split_and!; try done. exists []. by rewrite app_nil_r.
Qed.

Lemma say_said msg s :
  exists l, said (say msg s).2 = said s ++ l /\ (l = [] \/ l = [msg]) /\
    ((say msg s).1 = Ok tt -> l = [msg]) /\
    incoming (say msg s).2 = incoming s /\ disk (say msg s).2 = disk s /\ scratch (say msg s).2 = scratch s /\
    w_store (say msg s).2 = w_store s /\ jobs (say msg s).2 = jobs s /\ submitted (say msg s).2 = submitted s.
Proof.
  unfold say. destruct (send msg (w_sent s)) as [[[]|e|] b]; simpl;
    [exists [msg]|exists []|exists []]; rewrite ?app_nil_r; split_and!; auto; done.
Qed.

Lemma fetches_or_text {A} (k : M Daemon WireError A) : fetches k -> fetches (or_text k).
Proof. intros Hk s. unfold or_text, with_tag. specialize (Hk s). by destruct (k s). Qed.

Lemma fetches_hear : fetches hear.
Proof.
  intros s. unfold hear. pose proof (receive_size (A := ServerToClient) (incoming s)) as Hr.
  destruct (receive (incoming s)) as [r es]. simpl. split_and!; try done.
  - exists []. by rewrite app_nil_r.
  - simpl. destruct r; lia.
Qed.

Lemma fetches_from_coordinator id id_hex : fetches (from_coordinator id id_hex).
Proof.
  apply fetches_bind; [|intros _; apply fetches_bind; [apply fetches_or_text, fetches_hear|]].
  - apply fetches_or_text. intros s.
    destruct (say_said (BlobRequest id_hex) s) as (l & Hl & Hc & _ & Hi & Hd & Hs & Hw & Hj & Hb).
    split_and!; [|rewrite Hi; done|done..|by rewrite Hw]. exists l. split; [done|].
    destruct Hc as [-> | ->]; by repeat constructor.
  - intros []; try by apply fetches_pure. case_match; [|by apply fetches_pure].
    apply fetches_bind; [apply fetches_keep_blob|intros _ sd].
    split_and!; try done. exists []. by rewrite app_nil_r.
Qed.

Lemma fetches_fetch_blob id_hex hints : fetches (fetch_blob id_hex hints).
Proof.
  apply fetches_bind; [by apply fetches_pure|intros id]. apply fetches_bind; [by apply fetches_pure|intros []];
    [by apply fetches_pure|]. apply fetches_bind; [apply fetches_from_peer|intros []];
    [by apply fetches_pure|apply fetches_from_coordinator].
Qed.

Lemma fetches_fetch_all ids hints : fetches (fetch_all ids hints).
Proof.
  induction ids as [|id ids IH]; cbn [fetch_all]; [by apply fetches_pure|].
  apply fetches_bind; [apply fetches_fetch_blob|by intros _].
Qed.

(** ** What an assignment submits *)

Lemma submit_result_said n r s :
  exists k, said (submit_result n r s).2 = said s ++ replicate k (JobResult r) /\ (k <= n)%nat /\
    incoming (submit_result n r s).2 = incoming s /\
    ((submit_result n r s).1 = Ok None -> k = n /\ submitted (submit_result n r s).2 = true).
Proof.
  revert s. induction n as [|n IH]; intros s; cbn [submit_result].
  - exists 0%nat. by rewrite app_nil_r.
  - destruct (say_said (JobResult r) s) as (l & Hl & Hc & Hok & Hi & _).
    destruct (say (JobResult r) s) as [[[]|e|] s1]; simpl in *.
    + rewrite Hok in Hl by done. destruct (IH s1) as (k & Hk & Hle & Hin & Hn). exists (S k).
      rewrite Hk, Hl, <- app_assoc, Hin. split_and!; [done|lia|done|]. intros [-> ?]%Hn. by split; [lia|].
    + destruct Hc as [-> | ->]; [exists 0%nat|exists 1%nat]; split_and!; [done|lia|done|done|done|lia|done|done].
    + destruct Hc as [-> | ->]; [exists 0%nat|exists 1%nat]; split_and!; [done|lia|done|done|done|lia|done|done].
Qed.

(** How a result comes out of the state at the end of the fetches. *)
Definition produced (cfg : DaemonConfig) (key : option skey) (desc : JobDescriptor) (s1 : Daemon)
    (r : WorkerResult) : Prop :=
  exists job out s2, prepare_job cfg desc s1 = (Ok job, s2) /\ is_sp1_v2 (manifest job) = false /\
    execute_job job = Ok out /\ r = sign_result key (build_result cfg job out).

Lemma prepare_job_said cfg desc s :
  said (prepare_job cfg desc s).2 = said s /\ incoming (prepare_job cfg desc s).2 = incoming s.
Proof.
  unfold prepare_job, mbind, M_bind, lift, load_into. destruct (job_materialize_dir _ _); [|done..].
  by destruct (materialize _ _ _).
Qed.

Lemma execute_assignment_said cfg key desc s :
  exists l, said (execute_assignment cfg key desc s).2 = said s ++ l /\
    incoming (execute_assignment cfg key desc s).2 = incoming s /\
    (l = [] \/ exists r k, produced cfg key desc s r /\ l = replicate k (JobResult r)).
Proof.
  unfold execute_assignment, mbind, M_bind, lift, mmodify. pose proof (prepare_job_said cfg desc s) as [Hs Hi].
  destruct (prepare_job cfg desc s) as [[job|e|] s1] eqn:Hp; simpl in *;
    [|exists []; rewrite app_nil_r; by auto..].
  destruct (is_sp1_v2 (manifest job)) eqn:Hv; simpl; [exists []; rewrite app_nil_r; by auto|].
  destruct (execute_job job) as [out|e|] eqn:He; simpl; [|exists []; rewrite app_nil_r; by auto..].
  set (r := sign_result key (build_result cfg job out)).
  destruct (submit_result_said (S (Z.to_nat (extra_submits cfg))) r (count_job s1)) as (k & Hk & _ & Hin & _).
  cbn [submit_result] in Hk, Hin. exists (replicate k (JobResult r)). rewrite Hk, Hin. simpl. rewrite Hs, Hi.
  split_and!; [done..|]. right. exists r, k. split; [|done]. exists job, out, s1. done.
Qed.

Lemma submit_receipt_said cfg key path jid s :
  exists l, said (submit_receipt cfg key path jid s).2 = said s ++ l /\
    incoming (submit_receipt cfg key path jid s).2 = incoming s /\
    forall msg, msg ∈ l -> exists w j pk sg rc, msg = ReceiptClaim w j pk sg rc.
Proof.
  unfold submit_receipt, mbind, M_bind, look, lift, mmodify, with_tag.
  assert (exists l, said s = said s ++ l /\ incoming s = incoming s /\
    forall msg : ClientToServer, msg ∈ l -> exists w j pk sg rc, msg = ReceiptClaim w j pk sg rc) as Hnone.
  { exists []. rewrite app_nil_r. split_and!; [done..|]. intros msg Hm. by apply not_elem_of_nil in Hm. }
  destruct (map_err _ _) as [receipt|e|]; simpl; [|done..]. destruct key as [k|]; simpl; [|done].
  match goal with |- context [say ?m s] => destruct (say_said m s) as (l & Hl & Hc & _ & Hi & _); destruct (say m s) as [[[]|e|] s1] end;
    simpl in *; exists l; (split_and!; [done|done|]); destruct Hc as [-> | ->]; intros msg Hm;
    try (by apply not_elem_of_nil in Hm); apply list_elem_of_singleton in Hm as ->; eauto 10.
Qed.

(** An assignment sends blob requests, then either results it produced or a receipt. *)
Lemma on_assignment_said cfg key desc hints s :
  exists l, said (on_assignment cfg key desc hints s).2 = said s ++ l /\
    (stream_size (incoming (on_assignment cfg key desc hints s).2) <= stream_size (incoming s))%nat /\
    forall r, JobResult r ∈ l -> exists s1, fetch_all [d_manifest desc; d_elf desc; d_input desc] hints s = (Ok tt, s1) /\
      produced cfg key desc s1 r.
Proof.
  unfold on_assignment. pose proof (fetches_fetch_all [d_manifest desc; d_elf desc; d_input desc] hints s) as Hf.
  destruct (fetch_all _ hints s) as [[[]|e|] s1] eqn:Hfa; simpl in Hf; destruct Hf as ((l1 & Hl1 & Ha) & Hsz & _).
  2,3: exists l1; (split_and!; [done|done|]); intros r Hr; rewrite Forall_forall in Ha; by specialize (Ha _ Hr).
  assert (forall r, JobResult r ∉ l1) as Hna by (intros r Hr; rewrite Forall_forall in Ha; by specialize (Ha _ Hr)).
  destruct (receipt_file cfg) as [path|].
  - unfold mbind, M_bind. destruct (submit_receipt_said cfg key path (d_job_id desc) s1) as (l2 & Hl2 & Hi & Hm).
    destruct (submit_receipt _ _ _ _ s1) as [[[]|e|] s2]; simpl in *; exists (l1 ++ l2); rewrite Hl2, Hl1, app_assoc, Hi;
      (split_and!; [done|done|]); intros r [Hr|Hr]%elem_of_app; try (by apply Hna in Hr); by destruct (Hm _ Hr) as (?&?&?&?&?&?).
  - destruct (execute_assignment_said cfg key desc s1) as (l2 & Hl2 & Hi & Hc). exists (l1 ++ l2).
    rewrite Hl2, Hl1, app_assoc, Hi. split_and!; [done|done|]. intros r [Hr|Hr]%elem_of_app; [by apply Hna in Hr|].
    exists s1. split; [done|]. destruct Hc as [->|(r' & k & Hp & ->)]; [by apply not_elem_of_nil in Hr|].
    apply elem_of_replicate in Hr as [[= ->] _]. done.
Qed.

(** ** The job a descriptor names *)

(** The three blobs, by their hashes. *)
Definition job_blobs (desc : JobDescriptor) (mb : list Z) (m : JobManifest) (e i : list Z) : Prop :=
  cid_from_hex (d_manifest desc) = Ok (from_data mb) /\ from_slice mb = Ok m /\
  cid_from_hex (d_elf desc) = Ok (from_data e) /\ cid_from_hex (d_input desc) = Ok (from_data i).

(** The directory they materialise into. *)
Definition job_files (m : JobManifest) (mb e i : list Z) : Dir :=
  <[input m := i]> (<[elf m := e]> {[ "job.json"%string := mb ]}).

(** A disk that stores what is written, when it stores anything. *)
Definition faithful : Prop := forall name d d', os_write name d = Ok d' -> d' = d.

Lemma fs_write_inv name data d d' :
  faithful -> fs_write name data d = (Ok tt, d') -> plain_name name /\ d' = <[name := data]> d.
Proof.
  intros Hf. unfold fs_write. case_decide as Hp; [|done]. destruct (os_write name data) as [x|?|] eqn:Hw; [|done..].
  apply Hf in Hw as ->. by intros [= <-].
Qed.

Lemma tagged_m_inv {S A} tag (k : M S string A) s a s' : tagged_m tag k s = (Ok a, s') -> k s = (Ok a, s').
Proof. unfold tagged_m. destruct (k s) as [[b|?|] s1]; simpl; [|done..]. by intros [= -> ->]. Qed.

(** The manifest of a descriptor, as a store serves it. *)
Definition stored_manifest (st : Store) (desc : JobDescriptor) (mb : list Z) (m : JobManifest) : Prop :=
  exists mid, cid_from_hex (d_manifest desc) = Ok mid /\ get_blob st mid = Ok mb /\ from_slice mb = Ok m.

Lemma materialize_from desc st d0 d :
  faithful -> materialize desc st d0 = (Ok tt, d) ->
  exists mb m e i, job_blobs desc mb m e i /\ stored_manifest st desc mb m /\ plain_name (elf m) /\ plain_name (input m) /\
    d = <[input m := i]> (<[elf m := e]> (<["job.json"%string := mb]> d0)).
Proof.
  intros Hf. unfold materialize, mbind, M_bind, lift, tagged.
  destruct (cid_from_hex (d_manifest desc)) as [mid|?|] eqn:Hmid; [|done..].
  destruct (get_blob st mid) as [mb|?|] eqn:Hmb; [|done..].
  destruct (from_slice mb) as [m|?|] eqn:Hm; [|done..]. simpl.
  destruct (confined_name os_debug (elf m)); [|done..]. destruct (confined_name os_debug (input m)); [|done..].
  destruct (cid_from_hex (d_elf desc)) as [eid|?|] eqn:Heid; [|done..].
  destruct (get_blob st eid) as [e|?|] eqn:He; [|done..].
  destruct (cid_from_hex (d_input desc)) as [iid|?|] eqn:Hiid; [|done..].
  destruct (get_blob st iid) as [i|?|] eqn:Hi; [|done..].
  destruct (tagged_m _ (fs_write "job.json" mb) d0) as [[[]|?|] d1] eqn:H1w; [|done..].
  destruct (tagged_m _ (fs_write (elf m) e) d1) as [[[]|?|] d2] eqn:H2w; [|done..].
  destruct (tagged_m _ (fs_write (input m) i) d2) as [[[]|?|] d3] eqn:H3w; [|done..].
  intros [= <-]. exists mb, m, e, i.
  apply tagged_m_inv, (fs_write_inv _ _ _ _ Hf) in H1w as [_ ->], H2w as [Pe ->], H3w as [Pi ->].
  split_and!; [|by exists mid|done..]. apply get_blob_hash in Hmb, He, Hi. unfold job_blobs. by rewrite Hmid, Heid, Hiid, Hmb, He, Hi.
Qed.

Lemma materialize_inv desc st d0 d :
  faithful -> materialize desc st d0 = (Ok tt, d) ->
  exists mb m e i, job_blobs desc mb m e i /\
    d = <[input m := i]> (<[elf m := e]> (<["job.json"%string := mb]> d0)).
Proof. intros Hf Hm. destruct (materialize_from _ _ _ _ Hf Hm) as (mb & m & e & i & Hb & _ & _ & _ & Hd). eauto 10. Qed.

(** What loading a directory reads. *)
Definition loads (d : Dir) (job : Job) : Prop :=
  let m := manifest job in
  (exists mb, d !! "job.json"%string = Some mb /\ from_slice mb = Ok m) /\
  schema m = SCHEMA /\ isa m = ISA /\ plain_name (elf m) /\ plain_name (input m) /\
  d !! elf m = Some (job_elf job) /\ d !! input m = Some (job_input job).

Lemma fs_read_inv d name x : fs_read d name = Ok x -> plain_name name /\ d !! name = Some x.
Proof. unfold fs_read. case_decide; [|done]. destruct (d !! name); [|done]. by intros [= ->]. Qed.

Lemma load_dir_inv path d job : load_dir path d = Ok job -> loads d job.
Proof.
  unfold load_dir. destruct (fs_read d "job.json") as [mb|?|] eqn:Hmb; [|done..]. simpl.
  destruct (from_slice mb) as [m|?|] eqn:Hm; [|done..]. simpl. destruct (schema m =? SCHEMA) eqn:Hs; [|done]. simpl.
  case_bool_decide as Hisa; [|done]. simpl.
  destruct (confined_name os_debug (elf m)); [|done..]. destruct (confined_name os_debug (input m)); [|done..]. simpl.
  destruct (fs_read d (elf m)) as [e|?|] eqn:He; [|done..]. simpl.
  destruct (fs_read d (input m)) as [i|?|] eqn:Hi; [|done..]. simpl. intros [= <-].
  apply fs_read_inv in Hmb as [_ Hmb], He as [Hpe He], Hi as [Hpi Hi]. bools. split_and!; try done. by exists mb.
Qed.

(** A run of the job a descriptor names. *)
Definition runs (desc : JobDescriptor) (job : Job) (out : RunOutcome) : Prop :=
  exists mb m e i, job_blobs desc mb m e i /\ loads (job_files m mb e i) job /\
    is_sp1_v2 (manifest job) = false /\ execute_job job = Ok out.

Lemma cid_data s x y : cid_from_hex s = Ok (from_data x) -> cid_from_hex s = Ok (from_data y) ->
  x = y \/ collision blake3 x y.
Proof. intros -> [= Heq]. destruct (decide (x = y)); [by left|by right]. Qed.

(** The blobs are determined by the descriptor, up to a collision. *)
Lemma job_blobs_unique desc mb1 m1 e1 i1 mb2 m2 e2 i2 :
  job_blobs desc mb1 m1 e1 i1 -> job_blobs desc mb2 m2 e2 i2 ->
  (mb1 = mb2 /\ m1 = m2 /\ e1 = e2 /\ i1 = i2) \/ exists x y, collision blake3 x y.
Proof.
  intros (A1 & B1 & C1 & D1) (A2 & B2 & C2 & D2).
  destruct (cid_data _ _ _ A1 A2) as [->|]; [|by eauto]. destruct (cid_data _ _ _ C1 C2) as [->|]; [|by eauto].
  destruct (cid_data _ _ _ D1 D2) as [->|]; [|by eauto]. left. split_and!; try done. congruence.
Qed.

Lemma loads_unique d job1 job2 : loads d job1 -> loads d job2 ->
  manifest job1 = manifest job2 /\ job_elf job1 = job_elf job2 /\ job_input job1 = job_input job2.
Proof.
  intros ((mb1 & J1 & M1) & _ & _ & _ & _ & E1 & I1) ((mb2 & J2 & M2) & _ & _ & _ & _ & E2 & I2).
  rewrite J1 in J2. injection J2 as <-. rewrite M1 in M2. injection M2 as Hm. rewrite <- Hm in E2, I2.
  split_and!; congruence.
Qed.

Lemma runs_unique desc job1 out1 job2 out2 :
  runs desc job1 out1 -> runs desc job2 out2 ->
  (manifest job1 = manifest job2 /\ out1 = out2) \/ exists x y, collision blake3 x y.
Proof.
  intros (mb1 & m1 & e1 & i1 & B1 & L1 & _ & R1) (mb2 & m2 & e2 & i2 & B2 & L2 & _ & R2).
  destruct (job_blobs_unique _ _ _ _ _ _ _ _ _ B1 B2) as [(-> & -> & -> & ->)|]; [left|by right].
  destruct (loads_unique _ _ _ L1 L2) as (Hm & He & Hi). split; [done|].
  unfold execute_job in R1, R2. rewrite Hm, He, Hi in R1. congruence.
Qed.

(** What the result of a run reports. *)
Definition reports (r : WorkerResult) (wid : string) (job : Job) (out : RunOutcome) : Prop :=
  let bytes := default [] (Run.output out) in
  let digest := hex (journal_digest (instructions out) bytes) in
  worker_id r = wid /\ job_id r = m_id (manifest job) /\ r_status r = status_str (status out) /\
  r_instructions r = instructions out /\ result_hash r = digest /\ r_chunk_hashes r = [digest] /\
  output_hex r = (if bool_decide (bytes = []) then None else Some (hex bytes)) /\ trap r = trap_str (status out).

Lemma build_result_reports cfg job out : corrupt cfg = false -> reports (build_result cfg job out) (dc_worker_id cfg) job out.
Proof.
  intros Hc. unfold reports, build_result, corrupt_journal, journal_digest. rewrite Hc. simpl.
  split_and!; try done. unfold journal_output, journal. rewrite length_app, length_le_bytes.
  destruct (default [] (Run.output out)) as [|b l]; [done|]. rewrite bool_decide_false by done.
  rewrite (proj2 (Nat.ltb_lt _ _)) by (simpl; lia). do 2 f_equal.
  unfold slice_get. rewrite !(proj2 (Z.leb_le _ _)) by (simpl; lia). simpl. rewrite take_ge by (simpl; lia). done.
Qed.

Lemma sign_result_reports key r wid job out : reports r wid job out -> reports (sign_result key r) wid job out.
Proof. by destruct key. Qed.

Lemma sign_result_verifies k r : verify_signature (sign_result (Some k) r) = Ok tt.
Proof.
  destruct (vk_bytes_ok k) as [Hvl Hvb], (ed_sign_ok k (signing_message r)) as [Hsl Hsb].
  destruct (ed_correct k) as (vk & Hvk & Hver). unfold verify_signature. simpl.
  rewrite !from_hex_hex by (done || lia). simpl. rewrite Hvk. simpl.
  change (signing_message _) with (signing_message r) at 1. by rewrite Hver.
Qed.

Lemma produced_reports cfg key desc s r :
  faithful -> (forall d, os_remove_dir d = ∅) -> corrupt cfg = false -> produced cfg key desc s r ->
  exists job out, runs desc job out /\ reports r (dc_worker_id cfg) job out.
Proof.
  intros Hf Hrm Hc (job & out & s2 & Hp & Hv & He & ->). exists job, out.
  split; [|by apply sign_result_reports, build_result_reports].
  unfold prepare_job, mbind, M_bind, lift, load_into in Hp. destruct (job_materialize_dir _ _) as [path|?|]; [|done..].
  rewrite Hrm in Hp. destruct (materialize desc (w_store s) ∅) as [[[]|?|] d] eqn:Hmat; try done. simpl in Hp.
  destruct (load_dir path d) as [job'|?|] eqn:Hl; try done. injection Hp as <- _.
  destruct (materialize_inv _ _ _ _ Hf Hmat) as (mb & m & e & i & Hb & ->). exists mb, m, e, i.
  split_and!; try done. apply load_dir_inv in Hl. exact Hl.
Qed.

(** ** Fetching *)

Lemma radix16_range l acc b : 0 <= acc <= 255 -> radix16 l acc = Ok b -> is_byte b.
Proof.
  revert acc. induction l as [|c l IH]; intros acc Ha; cbn [radix16]; [intros [= <-]; split; lia|].
  destruct (nibble_val c) as [d|] eqn:Hd; [|done]. destruct (Z.ltb_spec 255 (acc * 16 + d)); [done|]. apply IH.
  split; [|lia]. unfold nibble_val in Hd. repeat case_match; bools; simplify_eq; lia.
Qed.

Lemma mapM_inv {E A B} (P : B -> Prop) (f : A -> outcome E B) l ys :
  (forall x y, f x = Ok y -> P y) -> mapM f l = Ok ys -> Forall P ys.
Proof.
  intros Hf. revert ys. induction l as [|x l IH]; intros ys; cbn [mapM]; [by intros [= <-]; constructor|].
  destruct (f x) as [y|?|] eqn:Hx; [|done..]. simpl. destruct (mapM f l) as [zs|?|]; [|done..]. intros [= <-].
  constructor; [by eapply Hf|by apply IH].
Qed.

Lemma cid_from_hex_bytes s id : cid_from_hex s = Ok id -> Forall is_byte id.
Proof.
  unfold cid_from_hex. case_match; [done|]. apply mapM_inv. intros x y.
  destruct (str_slice _ _ _) as [b|?|]; [|done..]. simpl. unfold from_str_radix16.
  destruct (as_bytes b) as [|c t]; [done|]. destruct (_ && _); [done|].
  destruct (c =? 43); (destruct (radix16 _ 0) eqn:Hr; [|done..]); intros [= <-]; by eapply radix16_range, Hr.
Qed.

(** A stored blob that was checked on arrival. *)
Definition holds (st : Store) (id : ContentId) : Prop := exists d, get_blob st id = Ok d /\ from_data d = id.

Lemma keep_blob_ok tag id h s s' :
  keep_blob tag id h s = (Ok tt, s') ->
  (store_ok (w_store s) -> store_ok (w_store s') /\ holds (w_store s') id) /\
  from_peers s' = from_peers s /\ from_server s' = from_server s.
Proof.
  unfold keep_blob. destruct (hex_decode h) as [bytes|]; [|done]. case_match eqn:Hid; [done|]. bools.
  destruct (put_blob bytes (w_store s)) as [[id'|?|] st] eqn:Hp; [|done..]. intros [= <-]. simpl. split; [|done].
  intros Hok. destruct (put_blob_ok _ _ _ _ Hp) as (-> & Hst & _ & d & Hd & _). specialize (Hst Hok).
  split; [done|]. exists d. rewrite Hid in Hd. split.
  - apply get_blob_stored; [done..|]. rewrite <- Hid. apply blake3_byte.
  - apply Hst in Hd. apply blob_path_inj in Hd; [done|rewrite <- Hid; apply blake3_byte|apply blake3_byte].
Qed.

Lemma ask_peer_store id_hex s :
  w_store (ask_peer id_hex s).2 = w_store s /\ from_peers (ask_peer id_hex s).2 = from_peers s /\
  from_server (ask_peer id_hex s).2 = from_server s.
Proof.
  unfold ask_peer. destruct (dials s) as [|[[snk es]|] rest]; try done. destruct (send _ []) as [[]]; try done.
  destruct (receive es) as [[[]|?|] ?]; try done. by case_match.
Qed.

Lemma from_peer_ok id id_hex peers s got s' :
  from_peer id id_hex peers s = (Ok got, s') ->
  if got : bool then (store_ok (w_store s) -> store_ok (w_store s') /\ holds (w_store s') id) /\
    from_peers s' = from_peers s + 1 /\ from_server s' = from_server s
  else w_store s' = w_store s /\ from_peers s' = from_peers s /\ from_server s' = from_server s.
Proof.
  revert s. induction peers as [|p peers IH]; intros s; cbn [from_peer]; [by intros [= <- <-]|].
  unfold mbind, M_bind. pose proof (ask_peer_store id_hex s) as (Hw & Hp & Hv).
  destruct (ask_peer id_hex s) as [[[h|]|?|] s1] eqn:Ha; simpl in *; [| |done..].
  - destruct (keep_blob "peer blob" id h s1) as [[[]|?|] s2] eqn:Hk; [|done..]. unfold mmodify, lift.
    destruct (str_slice id_hex 0 12); [|done..]. intros [= <- <-]. simpl.
    apply keep_blob_ok in Hk as (Hs & Hkp & Hkv). rewrite Hw in Hs. split_and!; [done|lia|lia].
  - intros Hr%IH. rewrite Hw, Hp, Hv in Hr. exact Hr.
Qed.

Lemma from_coordinator_ok id id_hex s s' :
  from_coordinator id id_hex s = (Ok tt, s') ->
  (store_ok (w_store s) -> store_ok (w_store s') /\ holds (w_store s') id) /\
  from_peers s' = from_peers s /\ from_server s' = from_server s + 1.
Proof.
  unfold from_coordinator, mbind, M_bind, or_text, with_tag.
  assert (forall m, w_store (say m s).2 = w_store s /\ from_peers (say m s).2 = from_peers s /\
    from_server (say m s).2 = from_server s) as Hsay by (intros m; unfold say; by destruct (send m _) as [[]]).
  specialize (Hsay (BlobRequest id_hex)). destruct (say _ s) as [[[]|?|] s1]; simpl in *; [|done..].
  unfold hear. destruct (receive (incoming s1)) as [[msg|?|] es]; simpl; [|done..].
  destruct msg as [| | | |[h|]| | | | |]; try done.
  destruct (keep_blob "blob" id h _) as [[[]|?|] s2] eqn:Hk; [|done..]. intros [= <-].
  apply keep_blob_ok in Hk as (Hs & Hkp & Hkv). simpl in *. destruct Hsay as (Hw & Hp & Hv). rewrite Hw in Hs.
  split_and!; [done|lia|lia].
Qed.

Lemma has_holds st id : store_ok st -> Forall is_byte id -> has st id = Ok true -> holds st id.
Proof.
  intros Hok Hid [= Hb]. apply bool_decide_eq_true in Hb as [d Hd]. exists d. split; [by apply get_blob_stored|].
  apply Hok in Hd. symmetry. by apply blob_path_inj in Hd; [|done|apply blake3_byte].
Qed.

Lemma fetch_blob_ok id_hex hints s s' :
  fetch_blob id_hex hints s = (Ok tt, s') ->
  exists id, cid_from_hex id_hex = Ok id /\
    (store_ok (w_store s) -> store_ok (w_store s') /\ holds (w_store s') id) /\
    (s' = s /\ has (w_store s) id = Ok true \/
     has (w_store s) id = Ok false /\ from_peers s' + from_server s' = from_peers s + from_server s + 1).
Proof.
  unfold fetch_blob, mbind, M_bind, lift, look. destruct (cid_from_hex id_hex) as [id|?|] eqn:Hid; [|done..]. intros Hf.
  exists id. split; [done|]. destruct (has (w_store s) id) as [[]|?|] eqn:Hh; try done.
  - injection Hf as <-. split; [|by left]. intros Hok. split; [done|].
    apply has_holds; [done|by eapply cid_from_hex_bytes|done].
  - destruct (from_peer id id_hex hints s) as [[got|?|] s1] eqn:Hp; [|done..]. apply from_peer_ok in Hp. destruct got.
    + injection Hf as <-. destruct Hp as (? & ? & ?). split; [done|]. right. split; [done|lia].
    + destruct Hp as (Hw & ? & ?). apply from_coordinator_ok in Hf as (Hs & ? & ?). rewrite Hw in Hs.
      split; [done|]. right. split; [done|lia].
Qed.

(** What fetching [id] may do to the store, whether it succeeds or not: nothing but fill the
    empty path of [id], and no damage on a disk that writes all or nothing. *)
Definition lands (id : ContentId) (s s' : Daemon) : Prop :=
  (forall p, w_store s' !! p <> w_store s !! p -> p = blob_path id /\ w_store s !! p = None) /\
  (whole_writes -> store_ok (w_store s) -> store_ok (w_store s')).

Definition landing {E A} (id : ContentId) (k : M Daemon E A) : Prop := forall s, lands id s (k s).2.

Lemma landing_same {E A} id (k : M Daemon E A) : (forall s, w_store (k s).2 = w_store s) -> landing id k.
Proof. intros Hk s. unfold lands. by rewrite Hk. Qed.

Lemma landing_bind {E A B} id (k : M Daemon E A) (f : A -> M Daemon E B) :
  landing id k -> (forall a, landing id (f a)) -> landing id (a ← k; f a).
Proof.
  intros Hk Hf s. unfold mbind, M_bind. specialize (Hk s). destruct (k s) as [[a|e|] s1]; simpl in *; [|done..].
  specialize (Hf a s1) as [F1 F2]. destruct Hk as [K1 K2]. split; [|auto]. intros p Hp.
  destruct (decide (w_store s1 !! p = w_store s !! p)) as [Heq|]; [|by auto]. rewrite <- Heq in *. by auto.
Qed.

Lemma landing_keep_blob tag id h : landing id (keep_blob tag id h).
Proof.
  intros s. unfold keep_blob. destruct (hex_decode h) as [bytes|]; [|done]. case_match eqn:Hid; [done|]. bools.
  pose proof (put_blob_frame bytes (w_store s)) as Hf. pose proof (put_blob_whole bytes (w_store s)) as Hw.
  destruct (put_blob bytes (w_store s)) as [r st]. rewrite Hid in Hf. by split.
Qed.

Lemma landing_fetch_blob id_hex hints s :
  match cid_from_hex id_hex with
  | Ok id => lands id s (fetch_blob id_hex hints s).2
  | _ => (fetch_blob id_hex hints s).2 = s
  end.
Proof.
  destruct (cid_from_hex id_hex) as [id|?|] eqn:Hid; [|unfold fetch_blob, mbind, M_bind, lift; by rewrite Hid..].
  assert (forall l, landing id (from_peer id id_hex l)) as Hpeer.
  { induction l as [|a l IH]; cbn [from_peer]; [by apply landing_same|].
    apply landing_bind; [apply landing_same; intros s0; apply ask_peer_store|]. intros [h|]; [|exact IH].
    apply landing_bind; [apply landing_keep_blob|]. intros _. repeat (apply landing_bind; [by apply landing_same|intros _]).
    by apply landing_same. }
  unfold fetch_blob, mbind at 1, M_bind at 1, lift. rewrite Hid. revert s.
  change (landing id (here ← look (fun s => has (w_store s) id);
    if here : bool then mret tt else got ← from_peer id id_hex hints; if got : bool then mret tt else from_coordinator id id_hex)).
  apply landing_bind; [by apply landing_same|]. intros []; [by apply landing_same|].
  apply landing_bind; [apply Hpeer|]. intros []; [by apply landing_same|]. unfold from_coordinator.
  apply landing_bind; [apply landing_same; intros s0; unfold or_text, with_tag, say; by destruct (send _ _) as [[]]|]. intros _.
  apply landing_bind; [apply landing_same; intros s0; unfold or_text, with_tag, hear; by destruct (receive _) as [[]]|].
  intros [| | | |[h|]| | | | |]; try by apply landing_same.
  apply landing_bind; [apply landing_keep_blob|]. intros _. by apply landing_same.
Qed.

(** C21. Fetching a blob, whatever the peers and the coordinator answer.  On every outcome,
    errors included: it sends nothing but blob requests, touches neither other files nor the
    job counters, and changes the store at most by filling the path of the requested id when
    there was no file; on a disk that writes all or nothing a consistent store stays
    consistent.  When it succeeds on a consistent store, whatever the disk does, the store is
    consistent and serves a blob that hashes to the requested id, obtained from exactly one
    source unless it was cached. *)
Theorem fetch_blob_spec id_hex hints s r s' :
  fetch_blob id_hex hints s = (r, s') ->
  (exists l, said s' = said s ++ l /\ Forall asks l) /\
  (forall p, w_store s' !! p <> w_store s !! p ->
     w_store s !! p = None /\ exists id, cid_from_hex id_hex = Ok id /\ p = blob_path id) /\
  (whole_writes -> store_ok (w_store s) -> store_ok (w_store s')) /\
  disk s' = disk s /\ scratch s' = scratch s /\ jobs s' = jobs s /\
  (r = Ok tt -> exists id, cid_from_hex id_hex = Ok id /\
     (store_ok (w_store s) -> store_ok (w_store s') /\ holds (w_store s') id) /\
     (s' = s /\ has (w_store s) id = Ok true \/
      has (w_store s) id = Ok false /\ from_peers s' + from_server s' = from_peers s + from_server s + 1)).
Proof.
  intros Hf. pose proof (fetches_fetch_blob id_hex hints s) as ((l & Hl) & _ & Hd & Hs & Hj & _ & Hp).
  pose proof (landing_fetch_blob id_hex hints s) as Hland.
  rewrite Hf in *. simpl in *. split_and!; [by exists l| | |done..|by intros ->; eapply fetch_blob_ok].
  - intros p Hch. destruct (cid_from_hex id_hex) as [id|?|]; [|by subst..]. apply Hland in Hch as [-> Hn]. eauto.
  - destruct (cid_from_hex id_hex) as [id|?|]; [apply Hland|by subst..].
Qed.

(** ** Progress of an assignment *)

Lemma fetch_all_ok ids hints s s' :
  store_ok (w_store s) -> fetch_all ids hints s = (Ok tt, s') ->
  store_ok (w_store s') /\ forall h, h ∈ ids -> exists id, cid_from_hex h = Ok id /\ holds (w_store s') id.
Proof.
  revert s. induction ids as [|h ids IH]; intros s Hok; cbn [fetch_all].
  - intros [= <-]. split; [done|]. intros h Hh. by apply not_elem_of_nil in Hh.
  - unfold mbind, M_bind. destruct (fetch_blob h hints s) as [[[]|?|] s1] eqn:Hf; [|done..]. intros Hr.
    apply fetch_blob_ok in Hf as (id & Hid & Hs & _). destruct (Hs Hok) as [Hok1 (d & Hd & Hh)].
    destruct (IH s1 Hok1 Hr) as [Hok' Hall]. split; [done|]. intros h' [->|Hin]%elem_of_cons; [|by apply Hall].
    exists id. split; [done|]. exists d. split; [|done].
    pose proof (fetches_fetch_all ids hints s1) as (_ & _ & _ & _ & _ & _ & Hkeep). rewrite Hr in Hkeep. simpl in Hkeep.
    apply get_blob_stored; [done| |by eapply cid_from_hex_bytes]. apply Hkeep.
    unfold get_blob in Hd. destruct (w_store s1 !! blob_path id) eqn:Hl; [|done]. simpl in Hd. case_match; [done|].
    by injection Hd as ->.
Qed.

(** A blob that is held is the one with that hash, up to a collision. *)
Lemma holds_data st h id x :
  cid_from_hex h = Ok id -> holds st id -> cid_from_hex h = Ok (from_data x) ->
  get_blob st id = Ok x \/ exists y z, collision blake3 y z.
Proof.
  intros Hid (d & Hd & Hh) Hx. rewrite Hid in Hx. injection Hx as Hx.
  destruct (decide (d = x)) as [->|Hne]; [by left|right]. exists d, x. split; [done|].
  unfold from_data in *. congruence.
Qed.

(** A job the daemon can load: distinct plain names, the schema and the pinned ISA. *)
Definition loadable (m : JobManifest) : Prop :=
  names_ok m /\ schema m = SCHEMA /\ isa m = ISA /\ is_sp1_v2 m = false.

Lemma load_into_ok path desc s mb m e i :
  (forall name d, os_write name d = Ok d) -> loadable m -> job_blobs desc mb m e i ->
  get_blob (w_store s) (from_data mb) = Ok mb -> get_blob (w_store s) (from_data e) = Ok e ->
  get_blob (w_store s) (from_data i) = Ok i ->
  exists d, load_into path desc s =
    (Ok {| manifest := m; dir := path; job_elf := e; job_input := i |}, set_scratch (<[path := d]> (scratch s)) s).
Proof.
  intros Hw (Hn & Hs & Hisa & _) (Bm & Hm & Be & Bi) Gm Ge Gi. unfold load_into.
  set (d0 := os_remove_dir _). pose proof Hn as (Hpe & Hpi & Hne1 & Hne2 & Hne3).
  assert (materialize desc (w_store s) d0 =
    (Ok tt, <[input m := i]> (<[elf m := e]> (<["job.json"%string := mb]> d0)))) as ->.
  { unfold materialize, mbind, M_bind, lift. rewrite Bm, Gm, Hm, Be, Bi. simpl.
    rewrite !confined_name_complete, Ge, Gi by done. unfold tagged_m.
    by rewrite !fs_write_plain by (done || apply plain_job_json). }
  simpl. eexists. rewrite (load_dir_bytes path _ m mb e i); try done.
  - by do 2 (rewrite lookup_insert_ne by done); rewrite lookup_insert_eq.
  - by rewrite lookup_insert_ne, lookup_insert_eq by done.
  - by rewrite lookup_insert_eq.
Qed.

Context `{!JsonLaws ClientToServer}.

Lemma submit_result_ok n r s :
  open_sink -> fits (JobResult r) ->
  (submit_result n r s).1 = Ok None /\ said (submit_result n r s).2 = said s ++ replicate n (JobResult r) /\
  submitted (submit_result n r s).2 = true /\ jobs (submit_result n r s).2 = jobs s /\
  w_sent (submit_result n r s).2 = w_sent s ++ concat (replicate n (Wire.frame (JobResult r))).
Proof.
  intros Ho Hf. revert s. induction n as [|n IH]; intros s; cbn [submit_result replicate concat].
  - simpl. by rewrite !app_nil_r.
  - unfold say. rewrite send_ok by done. simpl.
    destruct (IH (set_sent (w_sent s ++ Wire.frame (JobResult r)) (said s ++ [JobResult r]) s)) as (-> & -> & -> & -> & ->).
    simpl. by rewrite <- !app_assoc.
Qed.

(** The directory of a job. *)
Definition job_path (cfg : DaemonConfig) (desc : JobDescriptor) : string :=
  (os_temp_dir +:+ "/p2pc-worker-" +:+ dc_worker_id cfg +:+ "-" +:+ d_job_id desc)%string.

(** Progress: once the blobs are fetched, an assignment of a loadable job that the
    emulator executes ends with the session still up and exactly the configured number of
    copies of the signed result sent, byte for byte their frames; or the store and the job
    exhibit a BLAKE3 collision. *)
Theorem assignment_completes cfg key desc hints s s1 mb m e i out :
  (forall name d, os_write name d = Ok d) -> open_sink -> store_ok (w_store s) ->
  fetch_all [d_manifest desc; d_elf desc; d_input desc] hints s = (Ok tt, s1) ->
  receipt_file cfg = None -> plain_name (d_job_id desc) -> job_blobs desc mb m e i -> loadable m ->
  let job := {| manifest := m; dir := job_path cfg desc; job_elf := e; job_input := i |} in
  execute_job job = Ok out ->
  let r := sign_result key (build_result cfg job out) in
  let n := S (Z.to_nat (extra_submits cfg)) in
  fits (JobResult r) ->
  (exists s', on_assignment cfg key desc hints s = (Ok None, s') /\
     said s' = said s1 ++ replicate n (JobResult r) /\
     w_sent s' = w_sent s1 ++ concat (replicate n (Wire.frame (JobResult r))) /\
     jobs s' = jobs s + 1 /\ submitted s' = true) \/
  exists x y, collision blake3 x y.
Proof.
  intros Hw Ho Hok Hf Hrc Hpj Hb Hl job He r n Hfit.
  destruct (fetch_all_ok _ _ _ _ Hok Hf) as [_ Hall]. pose proof Hb as (Bm & Hm & Be & Bi).
  destruct (Hall (d_manifest desc)) as (idm & Cm & Dm); [set_solver|].
  destruct (Hall (d_elf desc)) as (ide & Ce & De); [set_solver|].
  destruct (Hall (d_input desc)) as (idi & Ci & Di); [set_solver|].
  destruct (holds_data _ _ _ mb Cm Dm Bm) as [Gm|]; [|by right]. destruct (holds_data _ _ _ e Ce De Be) as [Ge|]; [|by right].
  destruct (holds_data _ _ _ i Ci Di Bi) as [Gi|]; [|by right]. left.
  rewrite Bm in Cm. rewrite Be in Ce. rewrite Bi in Ci. injection Cm as <-. injection Ce as <-. injection Ci as <-.
  destruct (load_into_ok (job_path cfg desc) desc s1 mb m e i) as (d & Hload); [done..|].
  assert (prepare_job cfg desc s1 = (Ok job, set_scratch (<[job_path cfg desc := d]> (scratch s1)) s1)) as Hprep.
  { unfold prepare_job, job_materialize_dir, mbind, M_bind, lift. by rewrite confined_name_complete by done. }
  unfold on_assignment. rewrite Hf, Hrc. unfold execute_assignment, mbind, M_bind, lift, mmodify. rewrite Hprep.
  destruct Hl as (_ & _ & _ & Hv2). change (manifest job) with m. rewrite Hv2, He. fold r n.
  match goal with |- context [submit_result n r ?s0] =>
    destruct (submit_result_ok n r s0 Ho Hfit) as (H1s & H2s & H3s & H4s & H5s); exists (submit_result n r s0).2 end.
  split_and!; [|by rewrite H2s|by rewrite H5s|rewrite H4s|done].
  - rewrite <- H1s. apply surjective_pairing.
  - simpl. pose proof (fetches_fetch_all [d_manifest desc; d_elf desc; d_input desc] hints s) as (_ & _ & _ & _ & Hj & _).
    rewrite Hf in Hj. simpl in Hj. by rewrite Hj.
Qed.

(** ** Sessions *)

(** [r] is submitted in answer to the assignment of [desc]. *)
Definition submits (cfg : DaemonConfig) (key : option skey) (desc : JobDescriptor) (r : WorkerResult) : Prop :=
  exists hints s l, said (on_assignment cfg key desc hints s).2 = said s ++ l /\ JobResult r ∈ l.

Lemma submits_produced cfg key desc r : submits cfg key desc r -> exists s1, produced cfg key desc s1 r.
Proof.
  intros (hints & s & l & Hl & Hr). destruct (on_assignment_said cfg key desc hints s) as (l' & Hl' & _ & Hp).
  rewrite Hl in Hl'. apply app_inv_head in Hl' as ->. destruct (Hp r Hr) as (s1 & _ & Hp'). by exists s1.
Qed.

(** What a stretch of a session says: every result answers an assignment. *)
Definition answering (cfg : DaemonConfig) (key : option skey) (s s' : Daemon) : Prop :=
  exists l, said s' = said s ++ l /\ forall r, JobResult r ∈ l -> exists desc, submits cfg key desc r.

#[local] Instance answering_trans cfg key : Transitive (answering cfg key).
Proof.
  intros s1 s2 s3 (l1 & S1 & A1) (l2 & S2 & A2). exists (l1 ++ l2). rewrite S2, S1, app_assoc. split; [done|].
  intros r [?|?]%elem_of_app; auto.
Qed.

Lemma answering_quiet cfg key s s' : said s' = said s -> answering cfg key s s'.
Proof. intros Heq. exists []. rewrite app_nil_r. split; [done|]. intros r Hr. by apply not_elem_of_nil in Hr. Qed.

Lemma hear_said s : said (hear s).2 = said s.
Proof. unfold hear. by destruct (receive (incoming s)). Qed.

Lemma hear_size s msg s' : hear s = (Ok msg, s') -> (stream_size (incoming s') < stream_size (incoming s))%nat.
Proof.
  unfold hear. pose proof (receive_size (A := ServerToClient) (incoming s)) as Hr.
  destruct (receive (incoming s)) as [r es]. intros [= -> <-]. exact Hr.
Qed.

Lemma loop_turn_said cfg key s : answering cfg key s (loop_turn cfg key s).2.
Proof.
  unfold loop_turn. pose proof (hear_said s) as Hs. destruct (hear s) as [[msg|e|] s1]; simpl in Hs.
  - destruct msg; try by apply answering_quiet. simpl.
    destruct (on_assignment_said cfg key descriptor peer_hints s1) as (l & Hl & _ & Hr). exists l.
    split; [by rewrite Hl, Hs|]. intros r Hin. exists descriptor, peer_hints, s1, l. done.
  - destruct e; try by apply answering_quiet. case_match; by apply answering_quiet.
  - by apply answering_quiet.
Qed.

Lemma loop_turn_size cfg key s s' :
  loop_turn cfg key s = (Ok None, s') -> (stream_size (incoming s') < stream_size (incoming s))%nat.
Proof.
  unfold loop_turn. destruct (hear s) as [[msg|e|] s1] eqn:Hh; [|by destruct e; repeat case_match|done].
  apply hear_size in Hh. destruct msg; try done; try (intros [= <-]; done). intros Ha.
  destruct (on_assignment_said cfg key descriptor peer_hints s1) as (_ & _ & Hsz & _). rewrite Ha in Hsz. simpl in Hsz. lia.
Qed.

Lemma job_loop_total fuel cfg key s :
  (stream_size (incoming s) < fuel)%nat -> is_Some (job_loop fuel cfg key s).
Proof.
  revert s. induction fuel as [|fuel IH]; intros s Hf; [lia|]. cbn [job_loop].
  destruct (loop_turn cfg key s) as [[[e|]|e|] s'] eqn:Ht; try by eexists.
  apply IH. apply loop_turn_size in Ht. lia.
Qed.

Lemma job_loop_said fuel cfg key s o s' :
  job_loop fuel cfg key s = Some (o, s') -> answering cfg key s s'.
Proof.
  revert s. induction fuel as [|fuel IH]; intros s; [done|]. cbn [job_loop].
  pose proof (loop_turn_said cfg key s) as Ha. destruct (loop_turn cfg key s) as [[[e|]|e|] s1]; simpl in Ha;
    try (by intros [= _ <-]). intros Hr%IH. by etrans.
Qed.

(** ** The greeting *)

(** No result is submitted. *)
Definition silent (s s' : Daemon) : Prop := exists l, said s' = said s ++ l /\ forall r, JobResult r ∉ l.

#[local] Instance silent_trans : Transitive silent.
Proof.
  intros s1 s2 s3 (l1 & S1 & A1) (l2 & S2 & A2). exists (l1 ++ l2). rewrite S2, S1, app_assoc. split; [done|].
  intros r [?|?]%elem_of_app; firstorder.
Qed.

Lemma silent_eq s s' : said s' = said s -> silent s s'.
Proof. intros Heq. exists []. rewrite app_nil_r. split; [done|]. intros r. apply not_elem_of_nil. Qed.

Lemma say_silent msg s : (forall r, msg <> JobResult r) -> silent s (say msg s).2.
Proof.
  intros Hne. destruct (say_said msg s) as (l & Hl & Hc & _). exists l. split; [done|]. intros r Hr.
  destruct Hc as [-> | ->]; [by apply not_elem_of_nil in Hr|]. apply list_elem_of_singleton in Hr. by destruct (Hne r).
Qed.

Lemma identity_said cfg sd s : said (identity cfg sd s).2 = said s.
Proof.
  unfold identity, mbind, M_bind, load_or_create_identity. destruct (identity_path cfg); [|done].
  destruct (disk s !! _) as [old|]; [destruct (length old =? 32)%nat; [done|]|];
    destruct (os_mkdir_parent _); try done; by destruct (os_write _ _).
Qed.

Lemma greet_silent cfg env s : silent s (greet cfg env s).2.
Proof.
  unfold greet, mbind, M_bind, lift, mmodify, or_text, with_tag. destruct (peer_server cfg env) as [port|?|]; [|by apply silent_eq..].
  destruct (dial env) as [es|?|]; [|by apply silent_eq..].
  pose proof (identity_said cfg (seed env) (connected es s)) as Hid.
  destruct (identity cfg _ _) as [[k|?|] s1]; simpl in Hid; [|by apply silent_eq..].
  assert (silent s s1) as H01 by (by apply silent_eq).
  match goal with |- context [say ?m s1] => pose proof (say_silent m s1 ltac:(done)) as H12; destruct (say m s1) as [[[]|?|] s2] end;
    simpl in *; [|by etrans..].
  pose proof (hear_said s2) as Hh. destruct (hear s2) as [[msg|?|] s3]; simpl in *;
    (assert (silent s s3) as H03; [etrans; [exact H01|]; etrans; [exact H12|]; by apply silent_eq|]); [|done..].
  destruct msg; try done. by destruct (hex_decode n_hex).
Qed.

Lemma answer_silent env k nonce c s : silent s (answer env k nonce c s).2.
Proof.
  unfold answer, mbind, M_bind, lift, mmodify, or_text, with_tag.
  match goal with |- context [say ?m s] => pose proof (say_silent m s ltac:(done)) as H1s; destruct (say m s) as [[[]|?|] s1] end;
    simpl in *; [|done..]. destruct (open_store env); try done.
Qed.

Lemma greet_key cfg env s key nb s1 :
  greet cfg env s = (Ok (key, nb), s1) -> is_Some (identity_path cfg) -> is_Some key.
Proof.
  unfold greet, mbind, M_bind, lift, mmodify, or_text, with_tag. intros Hg [path Hp].
  destruct (peer_server cfg env); [|done..]. destruct (dial env) as [es|?|]; [|done..].
  unfold identity in Hg. rewrite Hp in Hg. unfold mbind, M_bind in Hg.
  destruct (load_or_create_identity _ _ _) as [[k|?|] s2]; [|done..]. cbn [mret M_ret] in Hg.
  match goal with H : context [say ?m s2] |- _ => destruct (say m s2) as [[[]|?|] s3]; [|done..] end.
  destruct (hear s3) as [[msg|?|] s4]; [|done..]. simpl in Hg. destruct msg; try done.
  destruct (hex_decode n_hex); [|done]. injection Hg as <- _ _. by eexists.
Qed.

(** Every result of a session answers an assignment, under the session's key. *)
Lemma session_submits cfg env s o s' :
  session_once cfg env s = Some (o, s') ->
  exists l, said s' = said s ++ l /\ forall r, JobResult r ∈ l ->
    exists key desc, (is_Some (identity_path cfg) -> is_Some key) /\ submits cfg key desc r.
Proof.
  assert (forall sq, silent s sq -> exists l, said sq = said s ++ l /\ forall r, JobResult r ∈ l ->
    exists key desc, (is_Some (identity_path cfg) -> is_Some key) /\ submits cfg key desc r) as Hquiet.
  { intros sq (l & Hl & Hn). exists l. split; [done|]. intros r Hr. by apply Hn in Hr. }
  unfold session_once. pose proof (greet_silent cfg env s) as H01.
  destruct (greet cfg env s) as [[[key [nonce bits]]|e|] s1] eqn:Hg; simpl in H01;
    [|intros [= _ <-]; by apply Hquiet..].
  destruct (mine_pow _ _) as [c|]; cbn [mbind option_bind]; [|done].
  pose proof (answer_silent env key nonce c s1) as H12.
  destruct (answer env key nonce c s1) as [[[]|e|] s2]; simpl in H12;
    [|intros [= _ <-]; apply Hquiet; by etrans..].
  intros (l2 & Hl2 & Ha)%job_loop_said. assert (silent s s2) as (l1 & Hl1 & Hn) by (by etrans).
  exists (l1 ++ l2). rewrite Hl2, Hl1, app_assoc. split; [done|].
  intros r [Hr|Hr]%elem_of_app; [by apply Hn in Hr|]. destruct (Ha r Hr) as [desc Hd]. exists key, desc.
  split; [|done]. by eapply greet_key.
Qed.

(** C23. A session ends, for every behaviour of the coordinator, the peers and the disk, with one
    exception, which is exact: the coordinator chose a challenge that none of the 64-bit
    counters solves, and the miner, whose counter wraps in a release build, searches for ever. *)
Theorem session_ends cfg env s :
  session_once cfg env s = None <->
  exists key nonce bits s1, greet cfg env s = (Ok (key, (nonce, bits)), s1) /\
    forall c, is_u64 c -> verify_pow nonce c bits = false.
Proof.
  unfold session_once. destruct (greet cfg env s) as [[[key [nonce bits]]|e|] s1].
  2,3: split; [done|by intros (? & ? & ? & ? & ? & _)].
  pose proof (mine_pow_spec nonce bits) as Hm. destruct (mine_pow nonce bits) as [c|]; cbn [mbind option_bind].
  - destruct Hm as (Hc & Hv & _). split.
    + destruct (answer env key nonce c s1) as [[[]|e|] s2]; [|done..]. intros Hn.
      destruct (job_loop_total (S (stream_size (incoming s2))) cfg key s2) as [r Hr]; [lia|congruence].
    + intros (? & ? & ? & ? & [= <- <- <- <-] & Hno). by rewrite Hno in Hv.
  - split; [|done]. intros _. by exists key, nonce, bits, s1.
Qed.
End Facts.

(** ** Honest workers *)

Section Honest.
Context `{Blake3} `{Sha256} `{Ed25519} `{!Signer}.
Context `{Json JobManifest} `{Json ClientToServer} `{Json ServerToClient} `{Json PeerToPeer}.

(** A result submitted for [desc] by an unmodified daemon with an identity, on whatever
    machine: its disk stores what is written and removes what is removed; its peers, its
    connection and its past are arbitrary. *)
Definition honest_result (desc : JobDescriptor) (r : WorkerResult) : Prop :=
  exists (os : Os) (wos : WorkerOs) (link : Sink) cfg key,
    faithful /\ (forall d, os_remove_dir d = ∅) /\ corrupt cfg = false /\ submits cfg (Some key) desc r.

Lemma honest_result_reports desc r :
  honest_result desc r ->
  verify_signature r = Ok tt /\ exists job out, runs desc job out /\ reports r (worker_id r) job out.
Proof.
  intros (os & wos & link & cfg & key & Hf & Hrm & Hc & Hs).
  apply submits_produced in Hs as (s1 & Hp). pose proof Hp as (job' & out' & s2 & _ & _ & _ & ->).
  split; [apply sign_result_verifies|].
  destruct (produced_reports _ _ _ _ _ Hf Hrm Hc Hp) as (job & out & Hr & Hrep). exists job, out. split; [done|].
  pose proof Hrep as (-> & _). exact Hrep.
Qed.


(** ** Corruption *)

Lemma corrupt_journal_differs cfg j :
  corrupt cfg = true -> j <> [] -> Forall is_byte j -> corrupt_journal cfg j <> j.
Proof.
  intros Hc Hj Hb. unfold corrupt_journal. rewrite Hc, bool_decide_false by done. simpl.
  set (idx := match corrupt_byte cfg with Some i => _ | None => _ end).
  assert (idx < length j)%nat as Hidx.
  { assert (0 < length j)%nat by (destruct j; [done|simpl; lia]). subst idx. destruct (corrupt_byte cfg); [|lia].
    apply Nat.mod_upper_bound. lia. }
  destruct (lookup_lt_is_Some_2 _ _ Hidx) as [b Hl]. intros Heq.
  assert (alter (fun b => wrap 8 (b + 1)) idx j !! idx = Some (wrap 8 (b + 1))) as Ha
    by (by rewrite list_lookup_alter_eq, Hl).
  rewrite Heq, Hl in Ha. injection Ha as Hw. rewrite Forall_lookup in Hb. specialize (Hb _ _ Hl).
  unfold wrap, is_u in *. change (2 ^ 8) with 256 in *.
  destruct (decide (b = 255)) as [->|Hne]; [done|]. rewrite Z.mod_small in Hw by lia. lia.
Qed.

(** The corruption hook always diverges: a corrupting daemon's hash for a run differs
    from the honest one, or the two journals are a SHA-256 collision. *)
Theorem corruption_diverges cfg honest job out :
  corrupt cfg = true -> corrupt honest = false -> Forall is_byte (default [] (Run.output out)) ->
  result_hash (build_result cfg job out) <> result_hash (build_result honest job out) \/
  exists x y, collision sha256 x y.
Proof.
  intros Hc Hh Ho. unfold build_result. simpl. set (j := journal _ _).
  assert (corrupt_journal honest j = j) as -> by (unfold corrupt_journal; by rewrite Hh).
  assert (corrupt_journal cfg j <> j) as Hne.
  { apply corrupt_journal_differs; [done| |].
    - unfold j, journal. intros Hn. apply (f_equal length) in Hn. by rewrite length_app, length_le_bytes in Hn.
    - apply Forall_app. split; [apply le_bytes_range|done]. }
  destruct (decide (sha256 (corrupt_journal cfg j) = sha256 j)) as [Heq|Hne2].
  - right. by exists (corrupt_journal cfg j), j.
  - left. intros Heq. apply hex_inj in Heq; [done|apply sha256_byte..].
Qed.

(** ** Admission of an honest daemon *)

(** The daemon's answer to a challenge. *)
Lemma answer_said `{Os} `{WorkerOs} `{link : Sink} env k nonce c s :
  (answer env (Some k) nonce c s).1 = Ok tt ->
  said (answer env (Some k) nonce c s).2 = said s ++ [NonceSignature (Some (hex (ed_sign k nonce))) c].
Proof.
  unfold answer, mbind, M_bind, lift, mmodify, or_text, with_tag.
  match goal with |- context [say ?m s] => destruct (say_said m s) as (l & Hl & _ & Hok & _); destruct (say m s) as [[[]|?|] s1] end;
    simpl in *; [|done..]. rewrite Hok in Hl by done. destruct (open_store env); try done.
Qed.
End Honest.
