(* ===== verification/Local.v ===== *)
(** * The command lines (crates/worker/src/main.rs, crates/coordinator/src/main.rs)

    The worker's local execution of a job and the coordinator's local commands: the quorum run
    over spawned workers, disputes, the optimistic demo, publishing and fetching.  A command
    works on the files of the machine; [Err] is an exit with a message, [Panic] a panic. *)

From S2P Require Import Prelude Text Mem Cpu Interp Run Chain Elf JobFmt ContentStore Wire Quorum Ledger Dispute Worker.

(** The files of the machine, by path. *)
Abbreviation Disk := (gmap string (list Z)).

(** ** The worker *)

(** The options of [worker run]. *)
Record RunArgs : Type := mkRunArgs {
  ra_out : option string;
  ra_id : string;
  ra_corrupt : bool;
  ra_snapshots : option string;
  ra_syscalls : bool;
  ra_identity : option string;
}.

(** [None] is [Err tt]; the slices panic inside a character. *)
Definition unhex (s : string) : outcome unit (list Z) :=
  if negb (str_len s mod 2 =? 0) then Err tt
  else
    mapM (fun i => b ← str_slice s (i * 2) (i * 2 + 2); map_err (fun _ => tt) (from_str_radix16 b))
      (seqZ 0 (str_len s / 2)).

Definition flip_last (s : string) : outcome string string :=
  let b := as_bytes s in
  match last b with
  | None => Panic
  | Some c => Ok (from_bytes (take (length b - 1) b ++ [if c =? 48 then 49 else 48]))
  end.

(** The chain of a run with its last link, corrupted on request. *)
Definition cli_hashes (corrupt : bool) (out : RunOutcome) : outcome string (string * list string) :=
  let chain := hex <$> chunk_hashes out in
  let result_hash := default (hex GENESIS) (last chain) in
  if corrupt && negb (bool_decide (chain = [])) then
    h ← flip_last result_hash;
    l ← flip_last (default ""%string (last chain));
    mret (h, take (length chain - 1) chain ++ [l])
  else mret (result_hash, chain).

Definition cli_execute `{Blake3} (args : RunArgs) (job : Job) : outcome string RunOutcome :=
  image ← parse (job_elf job);
  match load new image with
  | (Ok _, m) =>
      match run m (entry image) (job_input job)
              {| chunk_size := m_chunk_size (manifest job); max_instructions := m_max_instructions (manifest job);
                 syscalls := ra_syscalls args; snapshot_dir := ra_snapshots args; tohost_addr := None |} with
      | Some (Ok out) => Ok out
      | _ => Panic
      end
  | (Err e, _) => Err e
  | (Panic, _) => Panic
  end.

Section Cli.
Context `{Blake3} `{Ed25519} `{!Signer} `{Os} `{WorkerOs}.
Context `{Json JobManifest} `{Json WorkerResult} `{Json JobDescriptor}.

(** The worker's own [load_or_create_identity]: without the parent directory. *)
Definition cli_identity (path : string) (seed : list Z) : M Disk string skey := fun d =>
  let create :=
    match os_write path seed with
    | Ok stored => (Ok (skey_from_seed seed), <[path := stored]> d)
    | _ => (Panic, failed_write path path seed d)
    end in
  match d !! path with
  | Some old => if (length old =? 32)%nat then (Ok (skey_from_seed old), d) else create
  | None => create
  end.

(** The signature covers the raw bytes of the result hash. *)
Definition cli_sign (args : RunArgs) (seed : list Z) (h : string) : M Disk string (option string * option string) :=
  match ra_identity args with
  | None => mret (None, None)
  | Some path =>
      k ← cli_identity path seed;
      msg ← lift (match unhex h with Ok b => Ok b | _ => Panic end);
      mret (Some (hex (vk_bytes k)), Some (hex (ed_sign k msg)))
  end.

Definition write_file (path : string) (data : list Z) : M Disk string unit := fun d =>
  match os_write path data with
  | Ok stored => (Ok tt, <[path := stored]> d)
  | Err e => (Err e, failed_write path path data d)
  | Panic => (Panic, d)
  end.

Definition expect_m {A} (k : M Disk string A) : M Disk string A := fun d => let '(r, d') := k d in (expect r, d').

(** [worker run]; [jd] holds the files of the job directory [dir]. *)
Definition cli_result (args : RunArgs) (seed : list Z) (dir : string) (jd : Dir) : M Disk string WorkerResult :=
  job ← lift (load_dir dir jd);
  out ← lift (cli_execute args job);
  '(h, chain) ← lift (cli_hashes (ra_corrupt args) out);
  '(pk, sg) ← cli_sign args seed h;
  mret {| worker_id := ra_id args; job_id := m_id (manifest job); r_status := status_str (status out);
          r_instructions := instructions out; result_hash := h; r_chunk_hashes := chain;
          output_hex := hex <$> Run.output out; trap := trap_str (status out);
          pubkey_hex := pk; sig_hex := sg |}.

Definition worker_run (args : RunArgs) (seed : list Z) (dir : string) (jd : Dir) : M Disk string unit :=
  r ← cli_result args seed dir jd;
  match ra_out args with
  | Some p => expect_m (write_file p (to_vec_pretty r))
  | None => mret tt
  end.

(** The options on the command line, after the job directory. *)
Fixpoint parse_flags (l : list string) (a : RunArgs) : option RunArgs :=
  match l with
  | [] => Some a
  | f :: t =>
      if bool_decide (f = "--corrupt"%string) then
        parse_flags t (mkRunArgs (ra_out a) (ra_id a) true (ra_snapshots a) (ra_syscalls a) (ra_identity a))
      else if bool_decide (f = "--syscalls"%string) then
        parse_flags t (mkRunArgs (ra_out a) (ra_id a) (ra_corrupt a) (ra_snapshots a) true (ra_identity a))
      else
        match t with
        | [] => None
        | v :: t' =>
            if bool_decide (f = "--out"%string) then
              parse_flags t' (mkRunArgs (Some v) (ra_id a) (ra_corrupt a) (ra_snapshots a) (ra_syscalls a) (ra_identity a))
            else if bool_decide (f = "--id"%string) then
              parse_flags t' (mkRunArgs (ra_out a) v (ra_corrupt a) (ra_snapshots a) (ra_syscalls a) (ra_identity a))
            else if bool_decide (f = "--snapshots"%string) then
              parse_flags t' (mkRunArgs (ra_out a) (ra_id a) (ra_corrupt a) (Some v) (ra_syscalls a) (ra_identity a))
            else if bool_decide (f = "--identity"%string) then
              parse_flags t' (mkRunArgs (ra_out a) (ra_id a) (ra_corrupt a) (ra_snapshots a) (ra_syscalls a) (Some v))
            else None
        end
  end.

Definition default_args : RunArgs := mkRunArgs None "w0" false None false None.

(** The worker as a process: its arguments, and whether it exits with success. *)
Definition worker_process (seed : list Z) (jd : Dir) (argv : list string) : M Disk string bool := fun d =>
  match argv with
  | c :: dir :: rest =>
      if bool_decide (c = "run"%string) then
        match parse_flags rest default_args with
        | Some args => let '(r, d') := worker_run args seed dir jd d in (Ok (bool_decide (ok r = Some tt)), d')
        | None => (Ok false, d)
        end
      else (Ok false, d)
  | _ => (Ok false, d)
  end.

(** ** The local quorum run *)

(** Spawning the worker binary of [--worker]: its exit, and the files then. *)
Context (spawn_worker : list string -> M Disk string bool).

(** [load_result]; both failures panic. *)
Definition load_result (path : string) : M Disk string WorkerResult := fun d =>
  (match d !! path with
   | Some json => expect (from_slice json)
   | None => Panic
   end, d).

Definition run_worker (job_dir id : string) (extra : list string) : M Disk string WorkerResult :=
  let out := (os_temp_dir +:+ "/p2pc-" +:+ id +:+ ".json")%string in
  st ← expect_m (spawn_worker (["run"; job_dir; "--out"; out; "--id"; id]%string ++ extra));
  if st : bool then load_result out else fun d => (Panic, d).

(** The options of [coordinator run]. *)
Record LocalArgs : Type := mkLocalArgs {
  la_job_dir : string;
  la_out : option string;
  la_corrupt : bool;
  la_ledger : option string;
  la_snapshots : bool;
  la_identities : bool;
}.

(** [spawn_extra[i]] *)
Definition spawn_extra (args : LocalArgs) (i : nat) : list string :=
  (if la_corrupt args && (i =? 1)%nat then ["--corrupt"%string] else []) ++
  (if la_snapshots args then ["--snapshots"; "snaps-w" +:+ pretty (S i)]%string else []) ++
  (if la_identities args then ["--identity"; "identities/w" +:+ pretty (S i) +:+ ".key"]%string else []).

Definition worker_name (i : nat) : string := ("w" +:+ pretty (S i))%string.

Definition malformed (r : WorkerResult) : WorkerResult :=
  {| worker_id := worker_id r; job_id := job_id r; r_status := "malformed"; r_instructions := r_instructions r;
     result_hash := result_hash r; r_chunk_hashes := r_chunk_hashes r; output_hex := output_hex r;
     trap := trap r; pubkey_hex := pubkey_hex r; sig_hex := sig_hex r |}.

(** With identities, a result that does not verify is kept as malformed. *)
Definition check_identity (args : LocalArgs) (r : WorkerResult) : outcome string WorkerResult :=
  if la_identities args then
    match verify_signature r with
    | Ok _ => Ok r
    | Err _ => Ok (malformed r)
    | Panic => Panic
    end
  else Ok r.

Fixpoint round1 (args : LocalArgs) (idx : list nat) : M Disk string (list WorkerResult) :=
  match idx with
  | [] => mret []
  | i :: rest =>
      r ← run_worker (la_job_dir args) (worker_name i) (spawn_extra args i);
      r' ← lift (check_identity args r);
      rs ← round1 args rest;
      mret (r' :: rs)
  end.

Definition expected_pool (pool : list WorkerResult) : nat := if (3 <? length pool)%nat then 5 else 3.

(** Round 1, and the two more workers of an escalation. *)
Definition local_pool (args : LocalArgs) : M Disk string (list WorkerResult * Decision) :=
  pool ← round1 args [0; 1; 2]%nat;
  d ← lift (Pool.decide pool (expected_pool pool));
  match d with
  | Escalate =>
      r4 ← run_worker (la_job_dir args) (worker_name 3) [];
      r5 ← run_worker (la_job_dir args) (worker_name 4) [];
      let pool' := pool ++ [r4; r5] in
      d' ← lift (Pool.decide pool' (expected_pool pool'));
      mret (pool', d')
  | _ => mret (pool, d)
  end.

(** What is printed without a ledger. *)
Record RunSummary : Type := mkSummary {
  rs_job_id : string;
  rs_decision : string;
  rs_bonds : list (string * Z);
}.

Context `{Json Ledger} `{Json RunSummary}.

Definition decision_str (d : Decision) : string :=
  match d with Accept _ _ _ _ => "accept" | Escalate => "escalate" | Reject _ => "reject" end.

Definition local_deltas (d : Decision) (pool : list WorkerResult) : list (string * Z) :=
  match d with Escalate => [] | _ => slashing d pool end.

(** The log lines slice the hashes. *)
Definition local_logs (d : Decision) (pool : list WorkerResult) : outcome string unit :=
  _ ← mapM (fun r => str_slice (result_hash r) 0 (Z.min 16 (str_len (result_hash r)))) pool;
  match d with
  | Accept h _ _ _ => _ ← str_slice h 0 16; mret tt
  | _ => mret tt
  end.

Definition settle_ledger (path jid : string) (d : Decision) (deltas : list (string * Z)) : M Disk string (list Z) := fun disk =>
  let f := match disk !! path with Some b => FileBytes b | None => NotFound end in
  match (led ← ledger_load f; ledger_apply jid (decision_str d) deltas led) with
  | Ok led =>
      match ledger_save path led with
      | Ok stored => (Ok (to_vec_pretty led), <[path := stored]> disk)
      | _ => (Panic, failed_write path path (to_vec_pretty led) disk)
      end
  | _ => (Panic, disk)
  end.

(** [coordinator run]: the pool, the decision, the bonds and the exit code. *)
Definition local_run (args : LocalArgs) : M Disk string (list WorkerResult * Decision * list (string * Z) * Z) :=
  '(pool, d) ← local_pool args;
  _ ← lift (local_logs d pool);
  let deltas := local_deltas d pool in
  jid ← lift (match head pool with Some r => Ok (job_id r) | None => Panic end);
  text ← match la_ledger args with
         | Some path => settle_ledger path jid d deltas
         | None => mret (to_vec_pretty {| rs_job_id := jid; rs_decision := decision_str d; rs_bonds := deltas |})
         end;
  _ ← match la_out args with Some p => expect_m (write_file p text) | None => mret tt end;
  mret (pool, d, deltas, if bool_decide (decision_str d = "reject"%string) then 1 else 0).

(** ** The other commands *)

(** [coordinator dispute]: the verdict and the exit code. *)
Definition dispute_input (job : Job) (e : Z) (a b : WorkerResult) (snaps : option (nat -> option (list Z))) : DisputeInput :=
  {| claim := a; counter := b; di_elf := job_elf job; di_entry := e; di_input := job_input job;
     di_chunk_size := m_chunk_size (manifest job); di_max_instructions := m_max_instructions (manifest job);
     snapshots := snaps |}.

Definition cmd_dispute (dir : string) (jd : Dir) (a b : string) (snaps : option (nat -> option (list Z))) :
    M Disk string (Verdict * Z) :=
  job ← lift (expect (load_dir dir jd));
  ra ← load_result a;
  rb ← load_result b;
  image ← lift (expect (parse (job_elf job)));
  v ← lift (match resolve (dispute_input job (entry image) ra rb snaps) with Ok v => Ok v | _ => Panic end);
  mret (v, match v with ClaimHonest _ | CounterHonest _ | Agreement => 0 | _ => 1 end).

(** [coordinator optimistic]: a challenge inside the window, or its expiry, whose hash is
    printed. *)
Definition cmd_optimistic (dir : string) (jd : Dir) (challenge : bool) : M Disk string State :=
  job ← lift (expect (load_dir dir jd));
  prover ← run_worker dir "prover" [];
  if challenge then
    counter ← run_worker dir "challenger" ["--corrupt"%string];
    image ← lift (expect (parse (job_elf job)));
    v ← lift (match resolve (dispute_input job (entry image) prover counter None) with Ok v => Ok v | _ => Panic end);
    lift (expect (transition os_debug Awaiting (Challenge v) true))
  else
    _ ← lift (str_slice (result_hash prover) 0 (Z.min 16 (str_len (result_hash prover))));
    lift (expect (expire os_debug Awaiting (result_hash prover))).

(** [coordinator publish], [fetch] and [verify]: the store and the files are threaded. *)
Definition cmd_publish (rd : string -> outcome string (list Z)) (out : string) : M (Store * Disk) string unit := fun sd =>
  match publish rd sd.1 with
  | (Ok desc, st) => let '(r, d) := write_file out (to_vec_pretty desc) sd.2 in (expect r, (st, d))
  | (_, st) => (Panic, (st, sd.2))
  end.

Definition cmd_fetch (desc_path : string) (st : Store) (d : Disk) : M Dir string unit := fun dir =>
  match (bytes ← ok_or (d !! desc_path) os_missing; from_slice (A := JobDescriptor) bytes) with
  | Ok desc => let '(r, dir') := materialize desc st dir in (expect r, dir')
  | _ => (Panic, dir)
  end.

Definition cmd_verify (show : string * string -> string) (st : Store) (order : Store -> list ((string * string) * list Z)) :
    outcome string Z :=
  expect (verify_files show (order st) 0).
End Cli.

(** ** The local quorum *)

Section LocalFacts.
Context `{Blake3} `{Ed25519} `{!Signer} `{Os} `{WorkerOs}.
Context `{Json JobManifest} `{Json WorkerResult} `{Json JobDescriptor} `{Json Ledger} `{Json RunSummary}.
Context (spawn_worker : list string -> M Disk string bool).

Lemma round1_ok args idx d rs d' :
  round1 spawn_worker args idx d = (Ok rs, d') ->
  length rs = length idx /\
  (la_identities args = true -> forall r, r ∈ rs -> r_status r = "halted"%string -> verify_signature r = Ok tt).
Proof.
  revert d rs d'. induction idx as [|i idx IH]; intros d rs d'; cbn [round1].
  - intros [= <- _]. split; [done|]. intros _ r Hr. by apply not_elem_of_nil in Hr.
  - intros (r & d1 & _ & (r' & d2 & [Hc _]%lift_ok & (rs' & d3 & Hrec & Hret)%bind_ok)%bind_ok)%bind_ok.
    injection Hret as <- _. destruct (IH _ _ _ Hrec) as [Hl Hs]. split; [simpl; lia|].
    intros Hid r0 [->|Hin]%elem_of_cons Hst; [|by apply Hs]. unfold check_identity in Hc. rewrite Hid in Hc.
    destruct (verify_signature r) as [[]|?|] eqn:Hv; [|by injection Hc as <-|done]. by injection Hc as <-.
Qed.

Lemma local_pool_ok args d pool dec d' :
  local_pool spawn_worker args d = (Ok (pool, dec), d') ->
  (length pool = 3%nat \/ length pool = 5%nat) /\ Pool.decide pool (length pool) = Ok dec /\
  (la_identities args = true ->
     forall r, r ∈ take 3 pool -> r_status r = "halted"%string -> verify_signature r = Ok tt).
Proof.
  intros (rs & d1 & [Hl Hs]%round1_ok & (dec1 & d2 & [Hdec _]%lift_ok & Hrest)%bind_ok)%bind_ok.
  simpl in Hl. unfold expected_pool in Hdec. rewrite Hl in Hdec. simpl in Hdec.
  assert ((rs, dec1) = (pool, dec) \/ dec1 = Escalate) as Hrest' by (destruct dec1; simplify_eq/=; auto; injection Hrest as <- <- _; auto).
  destruct Hrest' as [Hr| ->].
  - injection Hr as <- <-. rewrite Hl. split_and!; [by left|done|]. intros Hid r Hr. apply Hs; [done|].
    by rewrite take_ge in Hr by lia.
  - apply bind_ok in Hrest as (r4 & d3 & _ & (r5 & d4 & _ & (dec2 & d5 & [Hdec2 _]%lift_ok & Hret)%bind_ok)%bind_ok).
    unfold expected_pool in Hdec2. rewrite length_app, Hl in Hdec2. simpl in Hdec2. injection Hret as <- <- _.
    rewrite length_app, Hl. split_and!; [by right|done|]. intros Hid r Hr. apply Hs; [done|].
    by rewrite take_app_length' in Hr by lia.
Qed.

(** The local quorum run, with any worker program: it ends with three results, or five
    after an escalation; an acceptance, exit code 0, names distinct workers that are a strict
    majority of them, each with a halted result of the accepted hash, and with identities the
    round-1 results among them carry verified signatures; the bonds follow the decision, and
    the exit code is 1 exactly on a rejection. *)
Theorem local_run_sound args d pool dec deltas code d' :
  local_run spawn_worker args d = (Ok (pool, dec, deltas, code), d') ->
  (length pool = 3%nat \/ length pool = 5%nat) /\
  (code = 1 <-> exists why, dec = Reject why) /\ (dec = Escalate -> deltas = []) /\
  (dec <> Escalate -> deltas = slashing dec pool) /\
  (forall h oh agreed zk, dec = Accept h oh agreed zk ->
     code = 0 /\ NoDup agreed /\ (length pool < 2 * length agreed)%nat /\
     forall id, id ∈ agreed -> exists r, r ∈ pool /\ worker_id r = id /\ r_status r = "halted"%string /\
       result_hash r = h /\ (la_identities args = true -> r ∈ take 3 pool -> verify_signature r = Ok tt)).
Proof.
  intros ([pool' dec'] & d1 & Hp & (u & d2 & _ & (jid & d3 & _ & (text & d4 & _ & (u2 & d5 & _ & Hret)%bind_ok)%bind_ok)%bind_ok)%bind_ok)%bind_ok.
  injection Hret as <- <- <- <- _. destruct (local_pool_ok _ _ _ _ _ Hp) as (Hlen & Hdec & Hver).
  split_and!; [done| | | |].
  - unfold decision_str. destruct dec'; simpl; split; [done|by intros [? ?]|done|by intros [? ?]|by eauto|done].
  - by intros ->.
  - by destruct dec'.
  - intros h oh agreed zk ->. apply decide_accept_inv in Hdec as (_ & Hnd & Hmaj & (chain & Hc) & _).
    split_and!; [done|done|done|]. intros id Hid. destruct (Hc id Hid) as (r & Hr & Hw & Hst & Hh & _).
    exists r. split_and!; try done. intros Hi Ht. by apply Hver.
Qed.
End LocalFacts.

(** ** The chain of a run is made of digests *)

Section Digests.
Context `{Blake3}.

Lemma cli_execute_digests args job out :
  cli_execute args job = Ok out ->
  Forall digest (chunk_hashes out) /\ (status_str (status out) = "halted"%string -> chunk_hashes out <> []).
Proof.
  unfold cli_execute. destruct (parse (job_elf job)) as [image|?|]; [|done..]. simpl.
  destruct (load new image) as [[[]|?|] m]; [|done..].
  destruct (run _ _ _ _) as [[o|?|]|] eqn:Hr; [|done..]. intros [= ->].
  destruct (run_digests _ _ _ _ _ Hr) as [Hd Hne]. split; [done|]. intros Hs. apply Hne. intros t Ht. by rewrite Ht in Hs.
Qed.

(** ** Corruption of the command line *)

Lemma flip_last_hex h : digest h ->
  exists s, flip_last (hex h) = Ok s /\ s <> hex h /\ as_bytes s = take 63 (hex_bytes h) ++ [if default 0 (last (hex_bytes h)) =? 48 then 49 else 48].
Proof.
  intros [Hl Hb]. unfold flip_last. rewrite as_bytes_hex by done.
  assert (length (hex_bytes h) = 64%nat) as Hlen by (rewrite length_hex_bytes; lia).
  destruct (last (hex_bytes h)) as [c|] eqn:Hc.
  2: { apply last_None in Hc. by rewrite Hc in Hlen. }
  rewrite Hlen. simpl default. eexists. split; [done|].
  assert (Forall is_byte (take 63 (hex_bytes h) ++ [if c =? 48 then 49 else 48])) as Hbytes.
  { apply Forall_app. split; [|apply Forall_singleton; case_match; split; lia].
    apply Forall_take. eapply Forall_impl; [by apply hex_bytes_ascii|]. simpl. intros x Hx. split; lia. }
  change (64 - 1)%nat with 63%nat. rewrite as_from_bytes by done. split; [|done]. intros Heq.
  apply (f_equal as_bytes) in Heq. rewrite as_from_bytes, as_bytes_hex in Heq by done.
  assert (last (hex_bytes h) = Some (if c =? 48 then 49 else 48)) as Hlast by (by rewrite <- Heq, last_snoc).
  rewrite Hc in Hlast. injection Hlast as Hx. case_match; bools; lia.
Qed.
End Digests.

(** ** The run with the real worker *)

Section HonestRun.
Context `{Blake3} `{Ed25519} `{!Signer} `{Os} `{WorkerOs}.
Context `{Json JobManifest} `{Json WorkerResult} `{!JsonLaws WorkerResult} `{Json JobDescriptor} `{Json Ledger} `{Json RunSummary}.
Context (seed : list Z) (dir : string) (jd : Dir) (job : Job) (out : RunOutcome).
Context (Hdisk : forall name d, os_write name d = Ok d).
Context (Hload : load_dir dir jd = Ok job) (Hexec : cli_execute default_args job = Ok out).
Context (Hhalt : status_str (status out) = "halted"%string).

(** The last link of the honest chain. *)
Definition final_link : list Z := default [] (last (chunk_hashes out)).

(** The unsigned result of worker [id]. *)
Definition cli_vote (id h : string) (chain : list string) : WorkerResult :=
  {| worker_id := id; job_id := m_id (manifest job); r_status := status_str (status out);
     r_instructions := instructions out; result_hash := h; r_chunk_hashes := chain;
     output_hex := hex <$> Run.output out; trap := trap_str (status out);
     pubkey_hex := None; sig_hex := None |}.

Lemma final_link_digest : digest final_link /\ last (chunk_hashes out) = Some final_link.
Proof.
  destruct (cli_execute_digests _ _ _ Hexec) as [Hd Hne]. specialize (Hne Hhalt). unfold final_link.
  destruct (last (chunk_hashes out)) as [h|] eqn:Hl; [|by apply last_None in Hl].
  split; [|done]. simpl. rewrite Forall_forall in Hd. apply Hd. by apply last_Some_elem_of.
Qed.

Lemma honest_hashes : cli_hashes false out = Ok (hex final_link, hex <$> chunk_hashes out).
Proof. unfold cli_hashes. simpl. rewrite fmap_last. by destruct final_link_digest as [_ ->]. Qed.

Lemma corrupt_hashes :
  exists h chain, cli_hashes true out = Ok (h, chain) /\ h <> hex final_link /\
    (exists c, as_bytes h = take 63 (hex_bytes final_link) ++ [c] /\ 48 <= c < 50).
Proof.
  destruct final_link_digest as [Hd Hl]. destruct (flip_last_hex _ Hd) as (h & Hf & Hne & Hb).
  unfold cli_hashes. rewrite bool_decide_false by (intros Hn; apply fmap_nil_inv in Hn; by rewrite Hn in Hl).
  rewrite fmap_last, Hl. simpl. rewrite Hf. simpl. exists h. eexists. split_and!; [done|done|].
  eexists. split; [exact Hb|]. case_match; lia.
Qed.

Lemma run_worker_vote id extra c h chain d :
  (extra = [] /\ c = false \/ extra = ["--corrupt"%string] /\ c = true) -> cli_hashes c out = Ok (h, chain) ->
  exists d', run_worker (worker_process seed jd) dir id extra d = (Ok (cli_vote id h chain), d').
Proof.
  intros Hc Hh. unfold run_worker. set (path := (_ +:+ _)%string).
  set (args := mkRunArgs (Some path) id c None false None).
  assert (parse_flags (["--out"; path; "--id"; id]%string ++ extra) default_args = Some args) as Hargs
    by (by destruct Hc as [[-> ->]|[-> ->]]).
  assert (worker_run args seed dir jd d = (Ok tt, <[path := to_vec_pretty (cli_vote id h chain)]> d)) as Hrun.
  { unfold worker_run, cli_result, mbind, M_bind, lift. rewrite Hload.
    change (cli_execute args job) with (cli_execute default_args job). rewrite Hexec. simpl. rewrite Hh. simpl.
    unfold expect_m, write_file. by rewrite Hdisk. }
  unfold mbind, M_bind, expect_m, worker_process. simpl app.
  change ("--out"%string :: path :: "--id"%string :: id :: extra) with (["--out"; path; "--id"; id]%string ++ extra).
  cbv iota. rewrite bool_decide_true, Hargs, Hrun by done. simpl. unfold load_result. rewrite lookup_insert_eq.
  rewrite from_to_vec_pretty. by eexists.
Qed.

(** The hash of a digest can be cut for the log. *)
Lemma slice16 h : Forall (fun c => 48 <= c < 103) (as_bytes h) -> str_len h = 64 ->
  exists x, str_slice (E := string) h 0 16 = Ok x /\ str_slice (E := string) h 0 (Z.min 16 (str_len h)) = Ok x.
Proof.
  intros Ha Hl. rewrite Hl. change (Z.min 16 64) with 16. unfold str_slice.
  rewrite !ascii_boundary by (done || lia). unfold slice_get. unfold str_len in Hl.
  rewrite !(proj2 (Z.leb_le _ _)) by lia. simpl. by eexists.
Qed.

Lemma final_slice : Forall (fun c => 48 <= c < 103) (as_bytes (hex final_link)) /\ str_len (hex final_link) = 64.
Proof.
  destruct final_link_digest as [[Hl Hb] _]. rewrite as_bytes_hex, str_len_hex, Hl by done.
  split; [by apply hex_bytes_ascii|done].
Qed.

(** Three votes of which at least the first and the last are for the final link. *)
Lemma decide_three h2 chain2 :
  let v1 := cli_vote "w1" (hex final_link) (hex <$> chunk_hashes out) in
  let v2 := cli_vote "w2" h2 chain2 in
  let v3 := cli_vote "w3" (hex final_link) (hex <$> chunk_hashes out) in
  (h2 = hex final_link -> chain2 = hex <$> chunk_hashes out) ->
  Pool.decide [v1; v2; v3] 3 = Ok (Accept (hex final_link) (hex <$> Run.output out)
    (if bool_decide (h2 = hex final_link) then ["w1"; "w2"; "w3"] else ["w1"; "w3"])%string false).
Proof.
  intros v1 v2 v3 Hchain.
  assert (votes (hex final_link) [v1; v2; v3] = if bool_decide (h2 = hex final_link) then [v1; v2; v3] else [v1; v3]) as Hv.
  { unfold votes, with_hash. rewrite dedup_id.
    - unfold halted_result. rewrite !filter_cons. simpl. rewrite Hhalt. simpl.
      case_bool_decide as Hh; rewrite !filter_cons; simpl;
        by repeat first [rewrite decide_True by done|rewrite decide_False by done].
    - simpl. apply (bool_decide_unpack _). vm_compute. exact I.
    - intros r _. apply not_elem_of_empty. }
  assert (majority (hex final_link) [v1; v2; v3] 3) as Hm.
  { unfold majority, pool_size. rewrite Hv. rewrite dedup_id.
    - case_bool_decide; simpl; lia.
    - simpl. apply (bool_decide_unpack _). vm_compute. exact I.
    - intros r _. apply not_elem_of_empty. }
  case_bool_decide as Hh.
  - rewrite (decide_majority (hex final_link) v1 [v2; v3]) by done. rewrite Hv. simpl.
    rewrite (Hchain Hh). by rewrite !bool_decide_true by done.
  - rewrite (decide_majority (hex final_link) v1 [v3]) by done. rewrite Hv. simpl. by rewrite !bool_decide_true by done.
Qed.

(** The local quorum run with the real worker on a job that halts, without identities,
    snapshots, ledger or output file: it accepts the last link of the run's chain with the
    run's output and exits 0, rewarding all three workers; with one corrupted worker it
    accepts the same hash, rewards the two others and slashes the liar. *)
Theorem local_run_accepts args d :
  la_job_dir args = dir -> la_identities args = false -> la_snapshots args = false ->
  la_ledger args = None -> la_out args = None ->
  exists pool d', local_run (worker_process seed jd) args d =
    (Ok (pool, Accept (hex final_link) (hex <$> Run.output out)
           (if la_corrupt args then ["w1"; "w3"] else ["w1"; "w2"; "w3"])%string false,
         [("w1"%string, 10); ("w2"%string, if la_corrupt args then -100 else 10); ("w3"%string, 10)], 0), d').
Proof.
  intros Hdir Hid Hsn Hled Hout.
  assert (exists h2 chain2, cli_hashes (la_corrupt args) out = Ok (h2, chain2) /\
    (h2 = hex final_link -> chain2 = hex <$> chunk_hashes out) /\
    bool_decide (h2 = hex final_link) = negb (la_corrupt args) /\
    Forall (fun c => 48 <= c < 103) (as_bytes h2) /\ str_len h2 = 64) as (h2 & chain2 & Hh2 & Hc2 & Hb2 & Ha2 & Hl2).
  { destruct (la_corrupt args).
    - destruct corrupt_hashes as (h & chain & Hh & Hne & c & Hb & Hc). exists h, chain.
      destruct final_slice as [Hfa Hfl]. destruct final_link_digest as [[_ Hfb] _]. rewrite as_bytes_hex in Hfa by done.
      split_and!; [done|done|by rewrite bool_decide_false| |].
      + rewrite Hb. apply Forall_app. split; [by apply Forall_take|]. apply Forall_singleton. lia.
      + unfold str_len in *. rewrite as_bytes_hex in Hfl by done. rewrite Hb, length_app, length_take. cbn [length]. lia.
    - exists (hex final_link), (hex <$> chunk_hashes out). split_and!; try done; [apply honest_hashes| |apply final_slice..].
      by rewrite bool_decide_true. }
  assert (forall i extra c h chain d, extra = spawn_extra args i -> c = la_corrupt args && (i =? 1)%nat ->
    cli_hashes c out = Ok (h, chain) ->
    exists d', run_worker (worker_process seed jd) dir (worker_name i) extra d = (Ok (cli_vote (worker_name i) h chain), d')) as Hrw.
  { intros i extra c h chain d0 -> -> Hh. eapply run_worker_vote; [|exact Hh]. unfold spawn_extra. rewrite Hsn, Hid, !app_nil_r.
    destruct (la_corrupt args && _); auto. }
  destruct (Hrw 0%nat _ _ (hex final_link) (hex <$> chunk_hashes out) d eq_refl eq_refl) as (d1 & R1); [rewrite andb_false_r; apply honest_hashes|].
  destruct (Hrw 1%nat _ _ h2 chain2 d1 eq_refl eq_refl) as (d2 & R2); [rewrite andb_true_r; exact Hh2|].
  destruct (Hrw 2%nat _ _ (hex final_link) (hex <$> chunk_hashes out) d2 eq_refl eq_refl) as (d3 & R3); [rewrite andb_false_r; apply honest_hashes|].
  destruct final_slice as [Hfa Hfl]. destruct (slice16 _ Hfa Hfl) as (x & Hx1 & Hx2). destruct (slice16 _ Ha2 Hl2) as (y & _ & Hy2).
  pose proof (decide_three h2 chain2 Hc2) as Hdec. rewrite Hb2 in Hdec.
  exists [cli_vote "w1" (hex final_link) (hex <$> chunk_hashes out); cli_vote "w2" h2 chain2;
          cli_vote "w3" (hex final_link) (hex <$> chunk_hashes out)], d3.
  unfold local_run, local_pool, round1, check_identity, mbind, M_bind, lift. rewrite Hid, Hdir, R1, R2, R3.
  assert (worker_name 0 = "w1" /\ worker_name 1 = "w2" /\ worker_name 2 = "w3")%string as (-> & -> & ->) by (split_and!; vm_compute; reflexivity).
  unfold expected_pool. cbn [mret M_ret length Nat.ltb Nat.leb]. rewrite Hdec. cbv iota beta.
  unfold local_logs, mret, M_ret. cbn [mapM]. simpl result_hash. rewrite Hx2, Hy2, Hx1. simpl. rewrite Hled, Hout.
  destruct (la_corrupt args); reflexivity.
Qed.
End HonestRun.

(** ** Publishing and fetching *)

Section PublishFetch.
Context `{Blake3} `{Os} `{Json JobManifest} `{Json JobDescriptor} `{!JsonLaws JobDescriptor}.

Lemma publish_store_ok rd st desc st' : publish rd st = (Ok desc, st') -> store_ok st -> store_ok st'.
Proof.
  unfold publish. intros Hp Hok.
  apply bind_ok in Hp as (mb & s1 & [_ ->]%lift_ok & Hp). apply bind_ok in Hp as (m & s2 & [_ ->]%lift_ok & Hp).
  apply bind_ok in Hp as (e & s3 & [_ ->]%lift_ok & Hp). apply bind_ok in Hp as (i & s4 & [_ ->]%lift_ok & Hp).
  apply bind_ok in Hp as (mid & s5 & (_ & H5 & _)%put_blob_ok & Hp).
  apply bind_ok in Hp as (eid & s6 & (_ & H6 & _)%put_blob_ok & Hp).
  apply bind_ok in Hp as (iid & s7 & (_ & H7 & _)%put_blob_ok & Hp). injection Hp as _ <-. auto.
Qed.

(** C33. Publishing and fetching on the command line: on a working disk and a consistent
    store, [publish] writes a descriptor file from which [fetch] materialises, into any
    directory, a job that loads as the published one, and [verify] then counts exactly the
    blobs of the store. *)
Theorem publish_fetch_roundtrip (rd : string -> outcome string (list Z)) (st : Store) (d : Disk)
    (desc_path : string) (out : Dir) (path : string) (m : JobManifest) (mb e i : list Z) (S : list (list Z))
    (show : string * string -> string) (order : Store -> list ((string * string) * list Z)) :
  (forall name x, os_write name x = Ok x) -> store_ok st ->
  inj_on S -> mb ∈ S -> e ∈ S -> i ∈ S -> (forall p x, st !! p = Some x -> x ∈ S) ->
  rd "job.json"%string = Ok mb -> from_slice mb = Ok m -> rd (elf m) = Ok e -> rd (input m) = Ok i ->
  names_ok m -> schema m = SCHEMA -> isa m = ISA -> (forall s, order s ≡ₚ map_to_list s) ->
  exists (st' : Store) (d' : Disk) (out' : Dir), cmd_publish rd desc_path (st, d) = (Ok tt, (st', d')) /\
    cmd_fetch desc_path st' d' out = (Ok tt, out') /\
    load_dir path out' = Ok {| manifest := m; dir := path; job_elf := e; job_input := i |} /\
    cmd_verify show st' order = Ok (Z.of_nat (size st')).
Proof.
  intros Hw Hok Hinj Hmb He Hi Hst Hrj Hm Hre Hri Hn Hs Hisa Hord.
  destruct (publish_materialize_roundtrip rd st out path m mb e i S) as (desc & st' & out' & Hp & _ & Hmat & Hl); [done..|].
  pose proof (publish_store_ok _ _ _ _ Hp Hok) as Hok'.
  exists st', (<[desc_path := to_vec_pretty desc]> d), out'. unfold cmd_publish, cmd_fetch, write_file. simpl.
  rewrite Hp, Hw, lookup_insert_eq. simpl. rewrite from_to_vec_pretty, Hmat. split_and!; try done.
  unfold cmd_verify. destruct (verify_files_spec show (order st') 0) as [Hv _]. rewrite Hv.
  - simpl. by rewrite (Permutation_length (Hord st')), length_map_to_list.
  - rewrite Hord. apply Forall_forall. intros [p x] Hx%elem_of_map_to_list. apply Hok' in Hx. by rewrite Hx.
Qed.
End PublishFetch.
