(* ===== verification/EndToEnd.v ===== *)
(** * End to end: workers and coordinator

    The daemon of [Worker] composed with the coordinator of [Serve]: an honest daemon is
    admitted; an accepted hash is the digest of the job's own run as soon as one result of the
    accepting majority is honest; and an honest result loses bond only to a receipt or to a
    majority of results with not one honest among them.  Results are counted by worker id; that
    one connection can submit under several ids is shown in [NetDemo]. *)

From S2P Require Import Prelude Text Mem Cpu Interp Run Elf JobFmt ContentStore Wire Quorum Ledger Dispute ZkJudge.
From S2P Require Import Server Serve ServeFacts DispatchFacts Worker.

Section EndToEnd.
Context `{Blake3} `{Sha256} `{Ed25519} `{!Signer} `{Os} `{NetOs} `{TmpOs} `{Procs}.
Context `{Json JobManifest} `{Json JobDescriptor} `{Json RVerdict} `{Json JudgeVerdict} `{Json ProveMeta}.
Context `{Json Ledger} `{Json Evidence} `{Json ClientToServer} `{Json ServerToClient} `{Json PeerToPeer}.

(** ** The run of a job *)

(** Running the job whose files are in [d]: the manifest, the program and the input are files
    of the directory, under plain names. *)
Definition own_run (d : Dir) (o : RunOutcome) : Prop :=
  exists mb m e i, d !! "job.json"%string = Some mb /\ from_slice mb = Ok m /\ is_sp1_v2 m = false /\
    plain_name (elf m) /\ d !! elf m = Some e /\ plain_name (input m) /\ d !! input m = Some i /\
    execute_job {| manifest := m; dir := ""; job_elf := e; job_input := i |} = Ok o.

(** [o] is the outcome of running the job [desc] names: the blobs with those hashes, in a
    directory of their own. *)
Definition runs_to (desc : JobDescriptor) (o : RunOutcome) : Prop :=
  exists mb m e i, job_blobs desc mb m e i /\ own_run (job_files m mb e i) o.

(** The hash an honest result commits to. *)
Definition out_digest (o : RunOutcome) : string :=
  hex (journal_digest (instructions o) (default [] (Run.output o))).

(** ** What the judges execute *)

(** A file of the directory, or the outside file of a name that leaves it. *)
Definition resolves (d : Dir) (name : string) (x : list Z) : Prop :=
  if decide (plain_name name) then d !! name = Some x else os_outside name = Ok x.

Definition judged (d : Dir) (o : RunOutcome) : Prop :=
  exists mb m e i, d !! "job.json"%string = Some mb /\ from_slice mb = Ok m /\ is_sp1_v2 m = false /\
    resolves d (elf m) e /\ resolves d (input m) i /\
    execute_job {| manifest := m; dir := ""; job_elf := e; job_input := i |} = Ok o.

(** A judge executed the job [desc] names as the store [st] materialises it. *)
Definition judged_for (st : Store) (desc : JobDescriptor) (o : RunOutcome) : Prop :=
  exists mb m e i, job_blobs desc mb m e i /\ stored_manifest st desc mb m /\ plain_name (elf m) /\ plain_name (input m) /\
    judged (job_files m mb e i) o.

(** The files of the job do not replace its manifest. *)
Definition keeps_manifest (st : Store) (desc : JobDescriptor) : Prop :=
  forall mb m, stored_manifest st desc mb m -> elf m <> "job.json"%string /\ input m <> "job.json"%string.

Lemma execute_job_dir m d1 d2 e i :
  execute_job {| manifest := m; dir := d1; job_elf := e; job_input := i |} =
  execute_job {| manifest := m; dir := d2; job_elf := e; job_input := i |}.
Proof. reflexivity. Qed.

Lemma judged_for_runs st desc o : keeps_manifest st desc -> judged_for st desc o -> runs_to desc o.
Proof.
  intros Hk (mb & m & e & i & Hb & Hst & Pe & Pi & mb' & m' & e' & i' & Hj & Hm & Hv & He & Hi & Hx).
  destruct (Hk mb m Hst) as [Ne Ni]. exists mb, m, e, i. split; [done|].
  pose proof Hst as (mid & _ & _ & Hs). unfold job_files in Hj. rewrite !lookup_insert_ne, lookup_singleton_eq in Hj by done.
  injection Hj as <-. rewrite Hs in Hm. injection Hm as <-. exists mb, m, e', i'. unfold resolves in He, Hi.
  rewrite decide_True in He by done. rewrite decide_True in Hi by done. split_and!; try done.
  unfold job_files. by rewrite !lookup_insert_ne, lookup_singleton_eq.
Qed.

(** The run of a descriptor is unique, up to a collision, also against what a judge executes. *)
Lemma judged_unique d o1 o2 : own_run d o1 -> judged d o2 -> o1 = o2.
Proof.
  intros (mb1 & m1 & e1 & i1 & A1 & B1 & _ & P1 & C1 & Q1 & D1 & X1) (mb2 & m2 & e2 & i2 & A2 & B2 & _ & C2 & D2 & X2).
  rewrite A1 in A2. injection A2 as <-. rewrite B1 in B2. injection B2 as <-. unfold resolves in C2, D2.
  rewrite decide_True in C2 by done. rewrite decide_True in D2 by done. congruence.
Qed.

Lemma own_run_judged d o : own_run d o -> judged d o.
Proof.
  intros (mb & m & e & i & A & B & Hv & P & C & Q & D & X). exists mb, m, e, i. unfold resolves. by rewrite !decide_True.
Qed.

Lemma judged_for_unique st desc o1 o2 :
  runs_to desc o1 -> judged_for st desc o2 -> o1 = o2 \/ exists x y, collision blake3 x y.
Proof.
  intros (mb1 & m1 & e1 & i1 & B1 & R1) (mb2 & m2 & e2 & i2 & B2 & _ & _ & _ & R2).
  destruct (job_blobs_unique _ _ _ _ _ _ _ _ _ B1 B2) as [(-> & -> & -> & ->)|]; [left|by right].
  by eapply judged_unique.
Qed.

Lemma runs_to_unique desc o1 o2 :
  runs_to desc o1 -> runs_to desc o2 -> o1 = o2 \/ exists x y, collision blake3 x y.
Proof.
  intros (mb1 & m1 & e1 & i1 & B1 & R1) (mb2 & m2 & e2 & i2 & B2 & R2).
  destruct (job_blobs_unique _ _ _ _ _ _ _ _ _ B1 B2) as [(-> & -> & -> & ->)|]; [left|by right].
  by eapply judged_unique, own_run_judged.
Qed.

(** A worker's run is the run of the descriptor. *)
Lemma runs_runs_to desc job o : runs desc job o -> runs_to desc o.
Proof.
  intros (mb & m & e & i & Hb & ((mb' & Hj & Hm) & _ & _ & Hpe & Hpi & He & Hi) & Hv & Hx).
  exists mb, m, e, i. split; [done|]. exists mb', (manifest job), (job_elf job), (job_input job). by split_and!.
Qed.

(** What an honest result says. *)
Lemma honest_result_run desc r :
  honest_result desc r ->
  exists o, runs_to desc o /\ result_hash r = out_digest o /\ r_chunk_hashes r = [out_digest o] /\
    (r_status r = "halted"%string <-> status o = Halted).
Proof.
  intros (_ & job & o & Hr & _ & _ & S1 & _ & D1 & C1 & _)%honest_result_reports.
  exists o. split_and!; [by eapply runs_runs_to|done..|]. rewrite S1.
  destruct Hr as (mb & m & e & i & _ & _ & _ & Hx). pose proof (fun v => execute_no_tohost _ _ v Hx) as Ht.
  destruct (status o) as [|v| |]; simpl; [done| |done|done]. by destruct (Ht v).
Qed.

(** The replay judge's digest is that of the run it executed. *)
Lemma replay_backed_runs st desc rs h oh agreed zk :
  faithful -> replay_backed st desc rs (Accept h oh agreed zk) ->
  exists o, judged_for st desc o /\ h = out_digest o /\
    forall r, r ∈ rs -> r_chunk_hashes r = [h] -> worker_id r ∈ agreed.
Proof.
  intros Hf (j & <- & <- & Hr). unfold judge_by_replay_network, or_none in Hr.
  unfold fresh_dir in Hr. destruct (materialize (pj_descriptor j) st ∅) as [[[]|?|] dir] eqn:Hdir; [|done..]. simpl in Hr.
  destruct (fs_read dir _) as [mb|?|] eqn:Hmb; [|done..]. simpl in Hr.
  destruct (from_slice mb) as [m|?|] eqn:Hm; [|done..]. simpl in Hr. destruct (is_sp1_v2 m) eqn:Hv; [done|].
  destruct (dir_read dir (elf m)) as [e|?|] eqn:He; [|done..]. simpl in Hr. destruct (dir_read dir (input m)) as [i|?|] eqn:Hi; [|done..].
  simpl in Hr. destruct (parse e) as [image|?|] eqn:Hp; [|done..]. simpl in Hr.
  unfold replay_journal in Hr. destruct (replay e (entry image) i (m_chunk_size m) (m_max_instructions m)) as [o|?|] eqn:Hrj; [|done..].
  injection Hr as <- _ <- _. exists o. split_and!; [|done|].
  - destruct (materialize_from _ _ _ _ Hf Hdir) as (mb0 & m0 & e0 & i0 & Hb & Hst & Pe & Pi & ->). exists mb0, m0, e0, i0.
    split_and!; [done..|]. exists mb, m, e, i. apply fs_read_inv in Hmb as [_ Hmb]. split_and!; try done.
    + unfold resolves, dir_read in *. destruct (decide (plain_name (elf m))); [by apply fs_read_inv in He as [_ He]|done].
    + unfold resolves, dir_read in *. destruct (decide (plain_name (input m))); [by apply fs_read_inv in Hi as [_ Hi]|done].
    + unfold replay in Hrj. unfold execute_job. simpl. rewrite Hp in *. simpl in *.
      destruct (load new image) as [[[]|?|] mem]; [|done..]. by destruct (run _ _ _ _) as [[o'|?|]|]; simplify_eq.
  - intros r Hin Hc. unfold vindicated. apply (vindicated_app (out_digest o) (results j) [] NoDup_nil_2).
    right. by exists r.
Qed.

(** ** Acceptance *)

(** The result counted for a worker of the quorum carries the accepted hash. *)
Lemma quorum_member j h agreed r :
  job_ok j -> quorum_of j h agreed -> r ∈ results j -> worker_id r ∈ agreed ->
  r_status r = "halted"%string /\ result_hash r = h.
Proof.
  intros Hj (_ & _ & Hin & _) Hr Hag. destruct (Hin _ Hag) as (_ & r0 & Hr0 & Hid & Hs & Hh & _).
  by rewrite (NoDup_fmap_eq worker_id (results j) r r0 (proj1 (jo_votes j Hj)) Hr Hr0).
Qed.

(** An honest result in a quorum makes its hash that of the run, and puts every honest result
    of the pool in it. *)
Lemma quorum_truth j h agreed r :
  job_ok j -> quorum_of j h agreed -> r ∈ results j -> worker_id r ∈ agreed -> honest_result (pj_descriptor j) r ->
  exists o, runs_to (pj_descriptor j) o /\ status o = Halted /\ h = out_digest o /\
    forall r', r' ∈ results j -> honest_result (pj_descriptor j) r' -> worker_id r' ∈ agreed \/ exists x y, collision blake3 x y.
Proof.
  intros Hj Hq Hr Hag Hh. destruct (quorum_member _ _ _ _ Hj Hq Hr Hag) as [Hs Hhash].
  destruct (honest_result_run _ _ Hh) as (o & Ho & Hd & _ & Hst). exists o. apply Hst in Hs as Hs'.
  split_and!; [done..|congruence|]. intros r' Hr' Hh'.
  destruct (honest_result_run _ _ Hh') as (o' & Ho' & Hd' & _ & Hst').
  destruct (runs_to_unique _ _ _ Ho Ho') as [<-|]; [left|by right].
  destruct Hq as (_ & _ & _ & Hall). apply Hall; [done|by apply Hst'|congruence].
Qed.

(** The pending job survives the scan. *)
Lemma pending_scanned e s j : pending s = Some j -> pending (scan_step e s).2 = Some j.
Proof. intros Hp. unfold scan_step. by rewrite Hp. Qed.

(** An acceptance without a receipt: by quorum, or by the replay judge. *)
Lemma accepted_by cfg e s s' f h oh agreed :
  reachable cfg s -> turn cfg e s = (Ok true, s') -> outcomes s' = outcomes s ++ [f] ->
  f_decision f = Accept h oh agreed false -> faithful ->
  exists j, pending (scan_step e s).2 = Some j /\ f_job_id f = d_job_id (pj_descriptor j) /\ f_results f = results j /\
    ((job_ok j /\ quorum_of j h agreed) \/
     exists o, judged_for (sv_store s) (pj_descriptor j) o /\ h = out_digest o /\
       forall r, r ∈ results j -> r_chunk_hashes r = [h] -> worker_id r ∈ agreed).
Proof.
  intros Hr%reachable_ok Ht Ho Hacc Hf.
  destruct (turn_accept _ _ _ _ _ _ _ _ Hr Ht Ho Hacc) as [(j & Hp & Hd & Hid & Hrs & Hq)|(j & Hp & Hid & Hrs & Hb)];
    exists j; (split_and!; [by auto using pending_scanned|done|done|]); [left|right].
  - split; [by apply (so_pending s Hr)|done].
  - rewrite Hacc in Hb. by eapply replay_backed_runs.
Qed.

(** C1. End to end: when the main loop accepts a job without a receipt, whatever the clients do,
    it does so in one of two ways.  Either a strict majority of the worker ids it was
    dispatched to have a counted, signed, halted result with that hash, and a single one among
    those results that an unmodified daemon submits makes the hash the digest of the run of the
    job its descriptor names (the blobs with those hashes, executed by the emulator, to a
    halt).  Or the coordinator replayed the job, and the hash is the digest of that run, however
    it ended, provided the job's files do not replace its manifest.  The results are counted by
    worker id: what one connection can submit under several ids is in [NetDemo]. *)
Theorem accepted_is_true_run cfg e s s' f h oh agreed :
  reachable cfg s -> turn cfg e s = (Ok true, s') -> outcomes s' = outcomes s ++ [f] ->
  f_decision f = Accept h oh agreed false -> faithful ->
  (forall j, pending (scan_step e s).2 = Some j -> keeps_manifest (sv_store s) (pj_descriptor j)) ->
  exists j, pending (scan_step e s).2 = Some j /\ f_job_id f = d_job_id (pj_descriptor j) /\
    ((quorum_of j h agreed /\
      forall r, r ∈ results j -> worker_id r ∈ agreed -> honest_result (pj_descriptor j) r ->
        exists o, runs_to (pj_descriptor j) o /\ status o = Halted /\ h = out_digest o) \/
     exists o, runs_to (pj_descriptor j) o /\ h = out_digest o).
Proof.
  intros Hr Ht Ho Hacc Hf Hk. destruct (accepted_by _ _ _ _ _ _ _ _ Hr Ht Ho Hacc Hf) as (j & Hp & Hid & _ & [[Hj Hq]|(o & Hjf & Hh & _)]);
    exists j; (split_and!; [done..|]); [left|right].
  - split; [done|]. intros r Hin Hag Hh. destruct (quorum_truth _ _ _ _ Hj Hq Hin Hag Hh) as (o & ? & ? & ? & _). by exists o.
  - exists o. split; [by eapply judged_for_runs; [apply Hk|]|done].
Qed.


(** ** The honest majority *)

(** The results [good] of distinct workers, more than half of the dispatched pool, are those
    of unmodified daemons whose run halted; and nobody submits another chain under their
    hash. *)
Definition honest_majority (good : list WorkerResult) (j : PendingJob) : Prop :=
  NoDup (worker_id <$> good) /\ (length (dispatched_ids j) < 2 * length good)%nat /\
  (forall r, r ∈ good -> r ∈ results j /\ honest_result (pj_descriptor j) r /\ r_status r = "halted"%string) /\
  (forall r g, r ∈ results j -> g ∈ good -> result_hash r = result_hash g -> r_chunk_hashes r = r_chunk_hashes g).

(** Honest results carry one hash and one chain, those of the run. *)
Lemma honest_digest desc good :
  good <> [] -> (forall r, r ∈ good -> honest_result desc r) ->
  (exists o, runs_to desc o /\
     forall r, r ∈ good -> result_hash r = out_digest o /\ r_chunk_hashes r = [out_digest o] /\
       (r_status r = "halted"%string -> status o = Halted)) \/
  exists x y, collision blake3 x y.
Proof.
  destruct good as [|r0 good]; [done|]. intros _ Hh.
  destruct (honest_result_run _ _ (Hh r0 ltac:(by left))) as (o & Ro & _).
  destruct (decide (Forall (fun r => result_hash r = out_digest o /\ r_chunk_hashes r = [out_digest o] /\
    (r_status r = "halted"%string -> status o = Halted)) (r0 :: good))) as [Hall|Hex].
  - left. exists o. split; [done|]. by apply Forall_forall.
  - right. apply not_Forall_Exists in Hex; [|apply _]. apply Exists_exists in Hex as (r & Hin & Hn).
    destruct (honest_result_run _ _ (Hh r Hin)) as (o1 & R1 & D1 & C1 & S1).
    destruct (runs_to_unique _ _ _ Ro R1) as [<-|]; [|done]. destruct Hn. by rewrite <- S1.
Qed.

(** The pool of a job is no larger than its dispatched list. *)
Lemma results_bounded j : job_ok j -> (length (results j) <= length (dispatched_ids j))%nat.
Proof.
  intros [[Hnd _] Hin _ _ _ _]. rewrite <- (length_fmap worker_id (results j)). apply submseteq_length.
  apply NoDup_submseteq; [done|]. intros id (r & -> & Hr)%list_elem_of_fmap. by apply Hin.
Qed.


(** ** Admission of an honest daemon *)

Lemma hex_decode_hex l : Forall is_byte l -> hex_decode (hex l) = Some l.
Proof.
  intros Hl. unfold hex_decode. rewrite str_len_hex by done.
  rewrite from_hex_hex; [done|done|]. rewrite Z.mul_comm, Z.div_mul by lia. lia.
Qed.

Lemma verify_nonce_signed k nonce : verify_nonce (hex (vk_bytes k)) nonce (hex (ed_sign k nonce)) = Ok tt.
Proof.
  destruct (vk_bytes_ok k) as [Hvl Hvb], (ed_sign_ok k nonce) as [Hsl Hsb].
  destruct (ed_correct k) as (vk & Hvk & Hver). unfold verify_nonce, check_sig, from_hex_tag.
  rewrite !from_hex_hex by (done || lia). simpl. rewrite Hvk. simpl. by rewrite Hver.
Qed.

Context `{!JsonLaws ClientToServer} `{!JsonLaws ServerToClient}.

(** The greeting of a daemon whose identity file exists, against a coordinator that sends a
    challenge. *)
Lemma greet_ok `{WorkerOs} `{link : Sink} dcfg env s path sd port es nonce bits rest :
  let k := skey_from_seed sd in
  let hello := Hello (hex (vk_bytes k)) (dc_worker_id dcfg) port "worker" in
  identity_path dcfg = Some path -> disk s !! path = Some sd -> length sd = 32%nat ->
  peer_server dcfg env = Ok port -> dial env = Ok es -> blocking es ->
  stream_bytes es = Wire.frame (Nonce (hex nonce) bits) ++ rest -> fits (Nonce (hex nonce) bits) ->
  Forall is_byte nonce -> open_sink -> fits hello ->
  exists s1, greet dcfg env s = (Ok (Some k, (nonce, bits)), s1) /\ said s1 = said s ++ [hello].
Proof.
  intros k hello Hid Hsd Hlen Hport Hdial Hbl Hbytes Hfn Hnb Ho Hfit.
  destruct (receive_frame (Nonce (hex nonce) bits) es rest Hfn Hbl Hbytes) as (es' & Hrec & _).
  unfold greet, mbind, M_bind, lift, mmodify, or_text, with_tag. rewrite Hport, Hdial.
  unfold identity, load_or_create_identity, mbind, M_bind. rewrite Hid. simpl. rewrite Hsd, Hlen. simpl.
  unfold say. simpl. fold k hello. rewrite send_ok by done. unfold hear. simpl. rewrite Hrec. simpl.
  rewrite hex_decode_hex by done. simpl. by eexists.
Qed.

(** Nothing queued, proved or subscribed in between. *)
Definition same_jobs (s s' : Server) : Prop :=
  jobs_dir s' = jobs_dir s /\ submitter_subs s' = submitter_subs s /\
  prover_up s' = prover_up s /\ prove_queue s' = prove_queue s.

(** The coordinator's side of an admission: a greeting with a key and its answer, signed with
    that key and with a counter that meets the difficulty, authenticate the connection; the
    jobs, the store and the subscriptions are left alone. *)
Lemma admitted cfg e e' sv conn c0 k wid port role c :
  conns sv !! conn = Some c0 -> wid <> ""%string -> verify_pow (nonce e) c (identity_pow_bits cfg) = true ->
  exists sv1 sv2 c2,
    on_event cfg e (session_event conn (Hello (hex (vk_bytes k)) wid port role)) sv = (Ok tt, sv1) /\
    on_event cfg e' (session_event conn (NonceSignature (Some (hex (ed_sign k (nonce e)))) c)) sv1 = (Ok tt, sv2) /\
    conns sv2 !! conn = Some c2 /\ authed c2 = true /\ c_pubkey c2 = Some (hex (vk_bytes k)) /\
    uploads c2 = uploads c0 /\
    outbound c2 = outbound c0 ++ [Nonce (hex (nonce e)) (identity_pow_bits cfg); AuthOk wid] /\
    sv_store sv2 = sv_store sv /\ same_jobs sv sv2.
Proof.
  intros Hconn Hw Hv. do 3 eexists. split; [reflexivity|].
  assert (hex (vk_bytes k) <> ""%string) as Hpk.
  { intros Hn. destruct (vk_bytes_ok k) as [Hvl Hvb]. apply (f_equal str_len) in Hn.
    by rewrite str_len_hex, Hvl in Hn by done. }
  split.
  - simpl. unfold on_nonce_sig, on_hello, set_conns. simpl. rewrite lookup_alter_eq, Hconn. simpl.
    unfold auth_ok. simpl. rewrite Hv. simpl. rewrite bool_decide_false by done.
    rewrite verify_nonce_signed. simpl. rewrite bool_decide_false by done. reflexivity.
  - simpl. rewrite !lookup_alter_eq, Hconn. split; [reflexivity|].
    split_and!; try done. simpl. by rewrite <- app_assoc.
Qed.

(** C14. Admission end to end: an unmodified daemon with an identity, whose connection
    delivers the challenge the coordinator sends it, answers it when the puzzle has a solution;
    and its two messages, as events of its connection, make the coordinator authenticate that
    connection and say so. *)
Theorem handshake_admits `{WorkerOs} `{link : Sink} dcfg env s path sd port es rest cfg e sv conn c0 :
  let k := skey_from_seed sd in
  let hello := Hello (hex (vk_bytes k)) (dc_worker_id dcfg) port "worker" in
  let challenge := Nonce (hex (nonce e)) (identity_pow_bits cfg) in
  identity_path dcfg = Some path -> disk s !! path = Some sd -> length sd = 32%nat -> dc_worker_id dcfg <> ""%string ->
  peer_server dcfg env = Ok port -> dial env = Ok es -> blocking es ->
  stream_bytes es = Wire.frame challenge ++ rest -> fits challenge ->
  Forall is_byte (nonce e) -> open_sink -> fits hello ->
  (forall c, is_u64 c -> fits (NonceSignature (Some (hex (ed_sign k (nonce e)))) c)) -> open_store env = Ok tt ->
  (exists c, is_u64 c /\ verify_pow (nonce e) c (identity_pow_bits cfg) = true) ->
  conns sv !! conn = Some c0 ->
  exists c s1 s2 sv1 sv2 c2,
    let reply := NonceSignature (Some (hex (ed_sign k (nonce e)))) c in
    greet dcfg env s = (Ok (Some k, (nonce e, identity_pow_bits cfg)), s1) /\
    mine_pow (nonce e) (identity_pow_bits cfg) = Some c /\
    answer env (Some k) (nonce e) c s1 = (Ok tt, s2) /\ said s2 = said s ++ [hello; reply] /\
    on_event cfg e (session_event conn hello) sv = (Ok tt, sv1) /\
    on_event cfg e (session_event conn reply) sv1 = (Ok tt, sv2) /\
    conns sv2 !! conn = Some c2 /\ authed c2 = true /\
    outbound c2 = outbound c0 ++ [challenge; AuthOk (dc_worker_id dcfg)].
Proof.
  intros k hello challenge Hid Hsd Hlen Hw Hport Hdial Hbl Hbytes Hfc Hnb Ho Hfh Hfr Hst (c & Hc & Hv) Hconn.
  destruct (greet_ok dcfg env s path sd port es (nonce e) (identity_pow_bits cfg) rest) as (s1 & Hg & Hs1); [done..|].
  destruct (mine_pow_ends (nonce e) (identity_pow_bits cfg) c Hc Hv) as (c' & Hm & Hc' & Hv').
  destruct (admitted cfg e e sv conn c0 k (dc_worker_id dcfg) port "worker" c' Hconn Hw Hv')
    as (sv1 & sv2 & c2 & He1 & He2 & Hl2 & Ha & _ & _ & Hout & _).
  exists c', s1. unfold answer, mbind, M_bind, or_text, with_tag, say, lift, mmodify. simpl.
  rewrite send_ok by (done || by apply Hfr). simpl.
  rewrite Hst. eexists. exists sv1, sv2, c2. split_and!; try done. simpl. by rewrite Hs1, <- app_assoc.
Qed.
End EndToEnd.
