(* ===== verification/NetDemo.v ===== *)
(** * Executions of the coordinator

    An executable scheduler over the steps of the system, sound for reachability; concrete
    sessions at which the theorems on the coordinator are applied; and sessions that show
    what the code does not prevent. *)

From S2P Require Import Prelude Text Mem Cpu Run Elf JobFmt ContentStore Wire Quorum Ledger Dispute ZkJudge.
From S2P Require Import Server Serve ServeFacts DispatchFacts.

Section Exec.
Context `{Blake3} `{Sha256} `{Ed25519} `{Os} `{NetOs} `{TmpOs} `{Procs}.
Context `{Json JobManifest} `{Json JobDescriptor} `{Json RVerdict} `{Json JudgeVerdict} `{Json ProveMeta}.
Context `{Json Ledger} `{Json Evidence}.

(** One step of the system, named. *)
Inductive sys_input : Type :=
  | InAccept (id : Z) (ip : string)
  | InFrame (conn : Z) (f : Server.frame)
  | InProve
  | InTurn (e : Env).

Definition exec1 (cfg : ServeConfig) (i : sys_input) (s : Server) : option Server :=
  match i with
  | InAccept id ip =>
      match conns s !! id with None => Some (set_conns (insert id (new_conn id ip)) s) | Some _ => None end
  | InFrame conn f => Some (session_turn conn f s).2
  | InProve => Some (prove_turn cfg s)
  | InTurn e => match turn cfg e s with (Ok true, s') => Some s' | _ => None end
  end.

Fixpoint exec (cfg : ServeConfig) (ins : list sys_input) (s : Server) : option Server :=
  match ins with
  | [] => Some s
  | i :: rest => exec1 cfg i s ≫= exec cfg rest
  end.

Definition env_of (i : sys_input) : Prop := match i with InTurn e => env_ok e | _ => True end.

Lemma exec_sound cfg ins s s' :
  Forall env_of ins -> exec cfg ins s = Some s' -> rtc (sys_step cfg) s s'.
Proof.
  intros Hins. revert s. induction Hins as [|i ins Hi _ IH]; intros s; cbn [exec].
  - intros [= ->]. constructor.
  - intros (s1 & H1s & Hrest)%bind_Some. eapply rtc_l; [|by apply IH]. destruct i; simpl in H1s.
    + destruct (conns s !! id) eqn:Hc; [done|]. injection H1s as <-. by constructor.
    + injection H1s as <-. constructor.
    + injection H1s as <-. constructor.
    + destruct (turn cfg e s) as [[[]|?|] s2] eqn:Ht; try done. injection H1s as ->. by econstructor.
Qed.
End Exec.

(** ** A concrete world *)

#[export] Instance JobDescriptor_eq_dec : EqDecision JobDescriptor.
Proof. solve_decision. Defined.

#[export] Instance JobDescriptor_countable : Countable JobDescriptor.
Proof.
  refine (inj_countable' (fun d => (d_job_id d, d_manifest d, d_elf d, d_input d))
    (fun '(a, b, c, d) => mkDesc a b c d) _).
  by intros [].
Defined.

(** A codec for the types no session decodes. *)
Definition no_json A : Json A := {|
  to_vec _ := []; to_vec_pretty _ := []; from_slice _ := Err "not decoded"%string |}.

Definition toy_net : NetOs := {|
  os_rename := fun _ _ => Ok tt; os_mkdir := fun _ => Ok tt;
  os_outside := fun _ => Err "No such file"%string; os_time := 0 |}.

#[local] Existing Instances toy_blake3 toy_sha256 toy_ed25519 toy_os toy_net toy_tmp toy_procs.
#[local] Instance j1 : Json JobManifest := toy_json _.
#[local] Instance j2 : Json JobDescriptor := toy_json _.
#[local] Instance j3 : Json RVerdict := toy_json _.
#[local] Instance j4 : Json JudgeVerdict := no_json _.
#[local] Instance j5 : Json ProveMeta := no_json _.
#[local] Instance j6 : Json Ledger := no_json _.
#[local] Instance j7 : Json Evidence := no_json _.

Definition net_cfg : ServeConfig := {|
  per_job_deadline := 1000; ledger_path := None; require_identity := true; zk := None; zk_judge := None;
  zk_prover := None; accept_submissions := true; results_dir := None; identity_pow_bits := 0;
  cfg_pool := Some 3%nat; max_jobs := None; round1_size := None; round1_ids := None |}.

Definition net_env (t : Z) (names : list string) : Env := {|
  now := t; order := map_to_list; listing := Ok names; rng := fun _ => 0; nonce := replicate 32 5 |}.

Lemma net_env_ok t names : env_ok (net_env t names).
Proof. intros m. done. Qed.

Definition net_server : Server :=
  init_server ∅ {[ "demo.desc.json"%string := to_vec zk_desc ]} ∅ NotFound tmp0 ∅.

Definition key_of (n : Z) : string := hex (replicate 32 n).
Definition good_sig : string := hex (replicate 64 7).

(** A signed result of worker [id] under key [n]. *)
Definition signed (id : string) (n : Z) (h : string) : WorkerResult := {|
  worker_id := id; job_id := "j"; r_status := "halted"; r_instructions := 7; result_hash := h;
  r_chunk_hashes := [h]; output_hex := None; trap := None;
  pubkey_hex := Some (key_of n); sig_hex := Some good_sig |}.

Definition tick : sys_input := InTurn (net_env 0 []).

(** Connection [n] greets under [id] and answers the challenge. *)
Definition join (n : Z) (id role : string) : list sys_input :=
  [InAccept n "10.0.0.1"; InFrame n (Received (Hello (key_of n) id None role)); tick;
   InFrame n (Received (NonceSignature (Some good_sig) 0)); tick].

Definition vote (conn : Z) (r : WorkerResult) : list sys_input := [InFrame conn (Received (JobResult r)); tick].

Definition honest_hash : string := hex (replicate 32 1).
Definition forged_hash : string := hex (replicate 32 2).

(** Three workers join, the job is queued and dispatched, and two agree. *)
Definition pool_session : list sys_input :=
  join 1 "w1" "worker" ++ join 2 "w2" "worker" ++ join 3 "w3" "worker" ++
  [InTurn (net_env 1 ["demo.desc.json"%string])].

Definition quorum_session : list sys_input :=
  pool_session ++ vote 1 (signed "w1" 1 honest_hash) ++ vote 2 (signed "w2" 2 forged_hash) ++
  vote 1 (signed "w1" 1 honest_hash) ++ vote 3 (signed "w3" 3 honest_hash).

Definition after (ins : list sys_input) : Server := default net_server (exec net_cfg ins net_server).

Lemma session_envs ins : Forall (fun i => match i with InTurn e => order e = map_to_list | _ => True end) ins ->
  Forall env_of ins.
Proof.
  intros Hins. eapply Forall_impl; [exact Hins|]. intros [| | |e]; try done. simpl. intros He m. by rewrite He.
Qed.

Lemma after_reachable ins s :
  Forall (fun i => match i with InTurn e => order e = map_to_list | _ => True end) ins ->
  exec net_cfg ins net_server = Some s -> reachable net_cfg s.
Proof.
  intros Hins He. exists ∅, {[ "demo.desc.json"%string := to_vec zk_desc ]}, ∅, NotFound, tmp0, ∅.
  eapply exec_sound; [by apply session_envs|exact He].
Qed.

(** ** Witnesses *)

Definition voted : Server := after quorum_session.

Lemma voted_reachable : reachable net_cfg voted.
Proof. apply (after_reachable quorum_session); [by repeat constructor|vm_compute; reflexivity]. Qed.

Definition finished : Server := (turn net_cfg (net_env 0 []) voted).2.

Lemma finished_reachable : reachable net_cfg finished.
Proof.
  apply (after_reachable (quorum_session ++ [tick])); [by repeat constructor|vm_compute; reflexivity].
Qed.

Lemma quorum_integrity_witness :
  length (outcomes finished) = 1%nat /\ Forall justified (outcomes finished) /\
  (forall j, pending voted = Some j -> votes_ok (d_job_id (pj_descriptor j)) (results j)).
Proof.
  split_and!; [vm_compute; reflexivity| |].
  - apply (quorum_integrity net_cfg finished finished_reachable).
  - intros j Hj. apply (quorum_integrity net_cfg voted voted_reachable). exact Hj.
Defined.

Definition demo_outcome : FinishedJob := {|
  f_job_id := "j"; f_decision := Accept honest_hash None ["w1"; "w3"]%string false;
  f_results := [signed "w1" 1 honest_hash; signed "w2" 2 forged_hash; signed "w3" 3 honest_hash];
  f_deltas := [("w1"%string, 10); ("w2"%string, -100); ("w3"%string, 10)] |}.

Lemma accepted_on_quorum_witness :
  (exists j, pending voted = Some j /\ dispatched j = true /\ f_job_id demo_outcome = d_job_id (pj_descriptor j) /\
     f_results demo_outcome = results j /\ quorum_of j honest_hash ["w1"; "w3"]%string) \/
  (exists j, pending (scan_step (net_env 0 []) voted).2 = Some j /\
     f_job_id demo_outcome = d_job_id (pj_descriptor j) /\ f_results demo_outcome = results j /\
     replay_backed (sv_store voted) (pj_descriptor j) (results j) (f_decision demo_outcome)).
Proof.
  apply (accepted_on_quorum net_cfg (net_env 0 []) voted finished demo_outcome honest_hash None).
  - exact voted_reachable.
  - vm_compute. reflexivity.
  - vm_compute. reflexivity.
  - reflexivity.
Defined.

Definition pool_conns : Conns := conns (after (join 1 "w1" "worker" ++ join 2 "w2" "worker" ++ join 3 "sub" "submitter")).

Definition queued : PendingJob := mkJob zk_desc None "demo.desc.json.dispatching" false false [] [] [] 0 None [] [].


(** Connection 1 has greeted and holds its challenge. *)
Definition greeted : Server := after (take 3 (join 1 "w1" "worker")).

Lemma admission_spec_witness :
  exists c', conns (on_nonce_sig net_cfg 1 (Some good_sig) 0 greeted).2 !! 1 = Some c' /\ authed c' = true.
Proof.
  eexists. split; [vm_compute; reflexivity|].
  eapply (admission_spec net_cfg (net_env 0 []) (EvNonceSig 1 (Some good_sig) 0) greeted
            (on_nonce_sig net_cfg 1 (Some good_sig) 0 greeted).2 1).
  - vm_compute. reflexivity.
  - vm_compute. reflexivity.
  - vm_compute. reflexivity.
  - reflexivity.
  - exists (replicate 32 5). split; [reflexivity|]. split; [vm_compute; reflexivity|].
    exists good_sig. split; [reflexivity|vm_compute; reflexivity].
Defined.

Definition voted_job : PendingJob := default queued (pending voted).

Lemma decided_job_finishes_witness :
  exists s', turn net_cfg (net_env 0 []) voted = (Ok true, s') /\ pending s' = None /\
    outcomes s' = outcomes voted ++ [{| f_job_id := d_job_id (pj_descriptor voted_job);
      f_decision := Accept honest_hash None ["w1"; "w3"]%string false; f_results := results voted_job;
      f_deltas := slashing (Accept honest_hash None ["w1"; "w3"]%string false) (results voted_job) |}].
Proof.
  destruct (decided_job_finishes net_cfg (net_env 0 []) voted voted_job
    (Accept honest_hash None ["w1"; "w3"]%string false)) as (s' & Ht & Hp & _ & Ho).
  - exact I.
  - vm_compute. reflexivity.
  - vm_compute. reflexivity.
  - vm_compute. reflexivity.
  - left. vm_compute. reflexivity.
  - vm_compute. reflexivity.
  - discriminate.
  - left. reflexivity.
  - exists s'. split; [exact Ht|]. split; [exact Hp|exact Ho].
Defined.

(** A published job, its digest, and a pool in which only [w1] reports it. *)
Definition job_store : Store :=
  (put_blob [] (put_blob demo_job_elf (put_blob demo_mb ∅).2).2).2.

Definition job_desc : JobDescriptor := {|
  d_job_id := "demo"; d_manifest := to_hex (from_data demo_mb); d_elf := to_hex (from_data demo_job_elf);
  d_input := to_hex (from_data []) |}.

Definition job_truth : string := hex (journal_digest 3 []).

Definition disputed_job : PendingJob :=
  set_results [signed "w1" 1 job_truth; signed "w2" 2 forged_hash] (proving_job job_desc 0 1).

Lemma replay_judge_spec_witness :
  exists dir mb m e i image n out ids,
    fresh_dir job_desc job_store = Ok dir /\ fs_read dir "job.json" = Ok mb /\ from_slice mb = Ok m /\
    is_sp1_v2 m = false /\ dir_read dir (elf m) = Ok e /\ dir_read dir (input m) = Ok i /\ parse e = Ok image /\
    replay_journal e (entry image) i (m_chunk_size m) (m_max_instructions m) = Ok (n, out) /\
    Accept job_truth (Some ""%string) ["w1"%string] false =
      Accept (hex (journal_digest n out)) (Some (hex out)) ids false /\ NoDup ids /\
    forall id, id ∈ ids <-> exists r, r ∈ results disputed_job /\ worker_id r = id /\
                                      r_chunk_hashes r = [hex (journal_digest n out)].
Proof.
  apply (replay_judge_spec job_store disputed_job). vm_compute. reflexivity.
Defined.

(** ** What the code does not prevent *)

(** Connection 4 is admitted once, under its own key, and then greets again under the ids of
    two dispatched workers: its two forged votes are a majority of the pool of three, and the
    honest worker loses its bond. *)
Definition forge_session : list sys_input :=
  pool_session ++ join 4 "evil" "submitter" ++
  [InFrame 4 (Received (Hello (key_of 4) "w1" None "submitter")); tick] ++ vote 4 (signed "w1" 4 forged_hash) ++
  [InFrame 4 (Received (Hello (key_of 4) "w2" None "submitter")); tick] ++ vote 4 (signed "w2" 4 forged_hash) ++
  vote 3 (signed "w3" 3 honest_hash) ++ [tick].

Lemma one_connection_forges_quorum :
  exists s f, reachable net_cfg s /\ exec net_cfg forge_session net_server = Some s /\ outcomes s = [f] /\
    f_decision f = Accept forged_hash None ["w1"; "w2"]%string false /\
    f_deltas f = [("w1"%string, 10); ("w2"%string, 10); ("w3"%string, -100)].
Proof.
  exists (after forge_session). eexists. split_and!.
  - apply (after_reachable forge_session); [by repeat constructor|vm_compute; reflexivity].
  - vm_compute. reflexivity.
  - vm_compute. reflexivity.
  - reflexivity.
  - reflexivity.
Qed.

(** The id of a submitted job becomes part of a file name whose part after [@] names the
    workers of the job: a submitter can choose its own pool of one. *)
Lemma submitter_picks_pool :
  confined_name id "x@w1" = Ok tt /\
  file_targets ("submitted-" +:+ "x@w1" +:+ ".desc.json") = Some ["w1"%string] /\
  Pool.decide [signed "w1" 1 forged_hash] 1 = Ok (Accept forged_hash None ["w1"%string] false).
Proof. split_and!; vm_compute; reflexivity. Qed.

(** The assignment of a selected worker goes to the first connection under its id, also to
    one that never authenticated. *)
Lemma assignment_misdirected :
  exists e m, env_ok e /\ worker_in m "w1" /\
    (forall c, m !! 2 = Some c -> authed c = false) /\
    exists c, (dispatch_job net_cfg e queued m).2 !! 2 = Some c /\ outbound c = [JobAssignment zk_desc []].
Proof.
  set (c1 := mkConn [] (Some (key_of 1)) None "w1" true None "10.0.0.1" "worker" 0).
  set (c2 := mkConn [] None None "w1" false None "10.0.0.2" "worker" 0).
  exists (net_env 0 []), {[ 1 := c1; 2 := c2 ]}. split_and!.
  - apply net_env_ok.
  - by exists 1, c1.
  - intros c. vm_compute. by intros [= <-].
  - eexists. split; vm_compute; reflexivity.
Qed.

(** A target of a sampled round that is not selected is neither dispatched nor held in
    reserve, although the reserves are said to be the workers outside the round. *)
Lemma unselected_target_idle :
  let cfg := {| per_job_deadline := 1000; ledger_path := None; require_identity := true; zk := None; zk_judge := None;
    zk_prover := None; accept_submissions := true; results_dir := None; identity_pow_bits := 0;
    cfg_pool := None; max_jobs := None; round1_size := Some 1%nat; round1_ids := None |} in
  let j := mkJob zk_desc (Some ["w1"; "w2"]%string) "demo.desc.json.dispatching" false false [] [] [] 0 None [] [] in
  let j' := (dispatch_job cfg (net_env 0 []) j pool_conns).1 in
  worker_in pool_conns "w1" /\ worker_in pool_conns "w2" /\
  length (dispatched_ids j') = 1%nat /\ reserves j' = [].
Proof.
  split_and!; [exists 1; eexists; by split_and!; vm_compute|exists 2; eexists; by split_and!; vm_compute|vm_compute; reflexivity..].
Qed.

(** A request for a malformed blob id, on any open connection, panics the main thread. *)
Lemma blob_request_panics :
  exists id, forall s conn c, conns s !! conn = Some c -> (on_blob_request conn id s).1 = Panic.
Proof.
  destruct cid_from_hex_panics as (id & _ & Hp). exists id. intros s conn c Hc.
  unfold on_blob_request. by rewrite Hc, Hp.
Qed.

(** So does a valid vote with a result hash of fewer than 12 bytes. *)
Lemma short_hash_panics :
  (on_result net_cfg 1 (signed "w1" 1 "aa") (after pool_session)).1 = Panic.
Proof. vm_compute. reflexivity. Qed.

Section Findings.
Context `{Os} `{Json Ledger}.

(** A ledger file that does not load is overwritten by one that starts from nothing. *)
Lemma unreadable_ledger_is_reset cfg jid deltas f e :
  ledger_load f = Err e ->
  finish_ledger cfg jid deltas f =
  match ledger_path cfg with
  | None => Ok f
  | Some path =>
      led ← ledger_apply jid "network-run" deltas empty_ledger;
      match ledger_save path led with
      | Ok stored => Ok (FileBytes stored)
      | _ => Ok (match os_failed path (to_vec_pretty led) with Some part => FileBytes part | None => f end)
      end
  end.
Proof. intros Hf. unfold finish_ledger. by rewrite Hf. Qed.
End Findings.

(** A job with a verified receipt is still escalated when its pool is undecided. *)
Lemma receipt_still_escalates cfg e j m d :
  dispatched j = true -> zk_accept j = Some d -> reserves j <> [] ->
  Pool.decide (results j) (length (dispatched_ids j)) = Ok Escalate ->
  exists j' m', check_completion cfg e j m = Ok (Escalating j' m').
Proof.
  intros Hd Hz Hr Hdec. unfold check_completion, all_in. rewrite Hd, Hz, Hdec. simpl.
  rewrite (bool_decide_false (reserves j = [])) by done. simpl.
  destruct (escalate_job e j m) as [j' m']. by exists j', m'.
Qed.
