(* ===== verification/EndDemo.v ===== *)
(** * Executions of workers and coordinator

    Concrete daemons and sessions at which the theorems of [Worker] and [EndToEnd] are
    applied, and executions that show what the code does not prevent. *)

From S2P Require Import Prelude Text Mem Cpu Interp Run Elf JobFmt ContentStore Wire Quorum Ledger Dispute ZkJudge.
From S2P Require Import Server Serve ServeFacts DispatchFacts Worker EndToEnd NetDemo.

(** ** Codecs for the messages *)

#[export] Instance WorkerResult_eq_dec : EqDecision WorkerResult.
Proof. solve_decision. Defined.

#[export] Instance WorkerResult_countable : Countable WorkerResult.
Proof.
  refine (inj_countable'
    (fun r => (((worker_id r, job_id r), (r_status r, (r_instructions r, trap r))),
               ((result_hash r, r_chunk_hashes r), (output_hex r, (pubkey_hex r, sig_hex r)))))
    (fun '(((a, b), (c, (d, h))), ((e, f), (g, (i, j)))) => mkResult a b c d e f g h i j) _).
  by intros [].
Defined.

#[export] Instance ClientToServer_eq_dec : EqDecision ClientToServer.
Proof. solve_decision. Defined.

#[export] Instance ClientToServer_countable : Countable ClientToServer.
Proof.
  refine (inj_countable'
    (fun m => match m with
      | Hello a b c d => inl (a, b, c, d)
      | NonceSignature a b => inr (inl (a, b))
      | BlobRequest a => inr (inr (inl a))
      | JobResult r => inr (inr (inr (inl r)))
      | JobSubmission a b c d e => inr (inr (inr (inr (inl (a, b, c, d, e)))))
      | BlobUpload a b => inr (inr (inr (inr (inr (inl (a, b))))))
      | ReceiptClaim a b c d e => inr (inr (inr (inr (inr (inr (a, b, c, d, e))))))
      end)
    (fun x => match x with
      | inl (a, b, c, d) => Hello a b c d
      | inr (inl (a, b)) => NonceSignature a b
      | inr (inr (inl a)) => BlobRequest a
      | inr (inr (inr (inl r))) => JobResult r
      | inr (inr (inr (inr (inl (a, b, c, d, e))))) => JobSubmission a b c d e
      | inr (inr (inr (inr (inr (inl (a, b)))))) => BlobUpload a b
      | inr (inr (inr (inr (inr (inr (a, b, c, d, e)))))) => ReceiptClaim a b c d e
      end) _).
  by intros [].
Defined.

#[export] Instance ServerToClient_eq_dec : EqDecision ServerToClient.
Proof. solve_decision. Defined.

#[export] Instance ServerToClient_countable : Countable ServerToClient.
Proof.
  refine (inj_countable'
    (fun m => match m with
      | Nonce a b => inl (a, b)
      | AuthOk a => inr (inl a)
      | AuthFailed a => inr (inr (inl a))
      | JobAssignment a b => inr (inr (inr (inl (a, b))))
      | Blob a => inr (inr (inr (inr (inl a))))
      | BetweenJobs => inr (inr (inr (inr (inr (inl tt)))))
      | ShutDown a => inr (inr (inr (inr (inr (inr (inl a))))))
      | JobOutcome a b c d e f => inr (inr (inr (inr (inr (inr (inr (inl (a, b, c, d, e, f))))))))
      | BlobAck a b c => inr (inr (inr (inr (inr (inr (inr (inr (inl (a, b, c)))))))))
      | SubmissionAck a b c d => inr (inr (inr (inr (inr (inr (inr (inr (inr (a, b, c, d)))))))))
      end)
    (fun x => match x with
      | inl (a, b) => Nonce a b
      | inr (inl a) => AuthOk a
      | inr (inr (inl a)) => AuthFailed a
      | inr (inr (inr (inl (a, b)))) => JobAssignment a b
      | inr (inr (inr (inr (inl a)))) => Blob a
      | inr (inr (inr (inr (inr (inl tt))))) => BetweenJobs
      | inr (inr (inr (inr (inr (inr (inl a)))))) => ShutDown a
      | inr (inr (inr (inr (inr (inr (inr (inl (a, b, c, d, e, f)))))))) => JobOutcome a b c d e f
      | inr (inr (inr (inr (inr (inr (inr (inr (inl (a, b, c))))))))) => BlobAck a b c
      | inr (inr (inr (inr (inr (inr (inr (inr (inr (a, b, c, d))))))))) => SubmissionAck a b c d
      end) _).
  by intros [].
Defined.

(** A codec with encodings of one symbol, so that every message fits a frame. *)
Definition tight_json A `{Countable A} : Json A := {|
  to_vec a := [Z.pos (encode a)];
  to_vec_pretty a := [Z.pos (encode a)];
  from_slice l := match l with [Z.pos p] => ok_or (decode p) "bad json"%string | _ => Err "bad json"%string end;
|}.

Lemma tight_json_laws A `{Countable A} : @JsonLaws A (tight_json A).
Proof. constructor; intros a; simpl; by rewrite decode_encode. Qed.

(** ** A concrete worker *)

#[local] Existing Instances toy_blake3 toy_sha256 toy_ed25519 toy_os toy_net toy_tmp toy_procs toy_sink.
#[local] Instance k1 : Json JobManifest := toy_json _.
#[local] Instance k2 : Json JobDescriptor := toy_json _.
#[local] Instance k3 : Json RVerdict := toy_json _.
#[local] Instance k4 : Json JudgeVerdict := no_json _.
#[local] Instance k5 : Json ProveMeta := no_json _.
#[local] Instance k6 : Json Ledger := no_json _.
#[local] Instance k7 : Json Evidence := no_json _.
#[local] Instance k8 : Json ClientToServer := tight_json _.
#[local] Instance k9 : Json ServerToClient := tight_json _.
#[local] Instance k10 : Json PeerToPeer := tight_json _.
#[local] Instance k8_laws : JsonLaws ClientToServer := tight_json_laws _.
#[local] Instance k9_laws : JsonLaws ServerToClient := tight_json_laws _.

(** Keys are numbers, public keys their byte repeated, and one signature verifies. *)
#[local] Instance toy_signer : Signer.
Proof.
  refine {| skey := Z; skey_from_seed := fun sd => default 0 (head sd);
            vk_bytes := fun k => replicate 32 (wrap 8 k); ed_sign := fun _ _ => replicate 64 7 |}.
  - intros k. split; [by rewrite length_replicate|]. apply Forall_replicate, wrap_range. lia.
  - intros k msg. split; [done|]. by apply Forall_replicate.
  - intros k. eexists. split; [reflexivity|]. intros msg. vm_compute. reflexivity.
Defined.

#[local] Instance toy_wos : WorkerOs := {|
  os_is_reset := fun _ => false; os_debug_msg := fun _ => "msg"%string; os_remove_dir := fun _ => ∅;
  os_temp_dir := "tmp"; os_mkdir_parent := fun _ => Ok tt |}.

Definition worker_cfg (id : string) : DaemonConfig := {|
  dc_worker_id := id; identity_path := Some "key"%string; dc_listen_port := None; corrupt := false;
  corrupt_byte := None; extra_submits := 0; receipt_file := None |}.

(** A worker that has the blobs of the job, or none. *)
Definition worker_with (st : Store) (es : stream) (dialled : list (option (Sink * stream))) : Daemon := {|
  incoming := es; w_sent := []; said := []; dials := dialled; w_store := st;
  disk := {[ "key"%string := replicate 32 1 ]}; scratch := ∅; jobs := 0; from_peers := 0; from_server := 0;
  submitted := false |}.

(** What worker [id] with key [n] submits for the published job. *)
Definition job_out : RunOutcome :=
  default (mkOutcome Halted [] 0 None []) (ok (@execute_job toy_blake3 {|
    manifest := demo_manifest; dir := ""; job_elf := demo_job_elf; job_input := [] |})).

Definition honest_vote (id : string) (n : Z) : WorkerResult :=
  sign_result (Some n) (build_result (worker_cfg id)
    {| manifest := demo_manifest; dir := ""; job_elf := demo_job_elf; job_input := [] |} job_out).

Lemma toy_faithful : faithful.
Proof. intros name d d' [= <-]. done. Qed.

Lemma submits_honest id n :
  submits (worker_cfg id) (Some n) job_desc (honest_vote id n) -> honest_result job_desc (honest_vote id n).
Proof. intros Hs. exists toy_os, toy_wos, toy_sink, (worker_cfg id), n. by split_and!; [exact toy_faithful|..]. Qed.

Lemma honest_vote_1 : honest_result job_desc (honest_vote "w1" 1).
Proof.
  apply submits_honest. exists [], (worker_with job_store [] []), [JobResult (honest_vote "w1" 1)].
  split; [vm_compute; reflexivity|by left].
Qed.

Lemma honest_vote_2 : honest_result job_desc (honest_vote "w2" 2).
Proof.
  apply submits_honest. exists [], (worker_with job_store [] []), [JobResult (honest_vote "w2" 2)].
  split; [vm_compute; reflexivity|by left].
Qed.

(** ** Witnesses for the workers *)


Definition liar_cfg : DaemonConfig := {|
  dc_worker_id := "w3"; identity_path := None; dc_listen_port := None; corrupt := true;
  corrupt_byte := Some 200; extra_submits := 2; receipt_file := None |}.

Lemma corruption_diverges_witness :
  let job := {| manifest := demo_manifest; dir := ""; job_elf := demo_job_elf; job_input := [] |} in
  result_hash (build_result liar_cfg job job_out) <> result_hash (build_result (worker_cfg "w1") job job_out) \/
  exists x y, collision sha256 x y.
Proof.
  apply corruption_diverges; [reflexivity|reflexivity|]. vm_compute. constructor.
Defined.

Lemma ok_pair {S A} (p : outcome string A * S) a : p.1 = Ok a -> p = (Ok a, p.2).
Proof. intros <-. apply surjective_pairing. Qed.

(** The manifest's blob comes from a peer after one that is down. *)
Definition manifest_id : string := d_manifest job_desc.

Definition peer_stream (h : option string) : stream := [Data (Wire.frame (PeerBlob h))].

Definition fetching_worker : Daemon :=
  worker_with ∅ [] [None; Some (toy_sink, peer_stream (Some (hex demo_mb)))].

Lemma fetch_blob_spec_witness :
  let s' := (fetch_blob manifest_id ["a"; "b"]%string fetching_worker).2 in
  from_peers s' = 1 /\
  exists id, cid_from_hex manifest_id = Ok id /\
    (store_ok (w_store fetching_worker) -> store_ok (w_store s') /\ holds (w_store s') id).
Proof.
  split; [vm_compute; reflexivity|].
  destruct (fetch_blob_spec manifest_id ["a"; "b"]%string fetching_worker (Ok tt)
    (fetch_blob manifest_id ["a"; "b"]%string fetching_worker).2) as (_ & _ & _ & _ & _ & _ & Hok).
  - apply ok_pair. vm_compute. reflexivity.
  - destruct (Hok eq_refl) as (id & Hid & Hs & _). exists id. split; [exact Hid|exact Hs].
Defined.

Definition demo_key : option skey := Some (skey_from_seed (replicate 32 1)).

Definition idle_worker : Daemon := worker_with job_store [] [].

Lemma job_store_ok : store_ok job_store.
Proof.
  intros path data Hl. assert (forall st x, store_ok st -> store_ok (put_blob x st).2) as Hput.
  { intros st x Hst. destruct (put_blob x st) as [[id|?|] st'] eqn:Hp.
    - apply put_blob_ok in Hp as (_ & Hs & _). by apply Hs.
    - exfalso. unfold put_blob in Hp. destruct (st !! _); [done|]. simpl in Hp. by rewrite bool_decide_true in Hp.
    - exfalso. unfold put_blob in Hp. destruct (st !! _); [done|]. simpl in Hp. by rewrite bool_decide_true in Hp. }
  revert path data Hl. unfold job_store. do 3 apply Hput. intros p d Hd. by rewrite lookup_empty in Hd.
Qed.

Definition fetched : Daemon := (fetch_all [d_manifest job_desc; d_elf job_desc; d_input job_desc] [] idle_worker).2.

Lemma fetched_ok : fetch_all [d_manifest job_desc; d_elf job_desc; d_input job_desc] [] idle_worker = (Ok tt, fetched).
Proof. unfold fetched. apply ok_pair. vm_compute. reflexivity. Qed.

Lemma fetched_said : said fetched = [].
Proof. vm_compute. reflexivity. Qed.

Definition demo_job : Job := {|
  manifest := demo_manifest; dir := job_path (worker_cfg "w1") job_desc; job_elf := demo_job_elf; job_input := [] |}.

Lemma assignment_completes_witness :
  (exists s', on_assignment (worker_cfg "w1") demo_key job_desc [] idle_worker = (Ok None, s') /\
     said s' = [JobResult (sign_result demo_key (build_result (worker_cfg "w1") demo_job job_out))] /\
     jobs s' = jobs idle_worker + 1 /\ submitted s' = true) \/
  exists x y, collision blake3 x y.
Proof.
  destruct (assignment_completes (worker_cfg "w1") demo_key job_desc [] idle_worker fetched
    demo_mb demo_manifest demo_job_elf [] job_out) as [(s' & Ha & Hs & _ & Hj & Hsub)|Hc].
  - intros name d. reflexivity.
  - split; intros; reflexivity.
  - exact job_store_ok.
  - exact fetched_ok.
  - reflexivity.
  - apply (bool_decide_unpack _). vm_compute. exact I.
  - split_and!; vm_compute; reflexivity.
  - split_and!; try reflexivity. apply (bool_decide_unpack _). vm_compute. exact I.
  - vm_compute. reflexivity.
  - unfold fits. simpl. unfold MAX_FRAME. lia.
  - left. exists s'. split; [exact Ha|]. rewrite fetched_said in Hs.
    change (Z.to_nat (extra_submits (worker_cfg "w1"))) with 0%nat in Hs. cbn [replicate app] in Hs. fold demo_job in Hs.
    split; [exact Hs|]. split; [exact Hj|exact Hsub].
  - right. exact Hc.
Defined.

(** A session: the challenge, the admission, then the end of the stream. *)
Definition demo_env : SessionEnv := {|
  bind_port := fun p => Ok (Some p); seed := replicate 32 9; open_store := Ok tt;
  dial := Ok [Data (Wire.frame (Nonce (hex (replicate 32 5)) 0)); Data (Wire.frame (AuthOk "w1"))] |}.

(** ** Witnesses for the composition *)

(** Two honest workers and a liar on the published job. *)
Definition job_server : Server :=
  init_server job_store {[ "demo.desc.json"%string := to_vec job_desc ]} ∅ NotFound tmp0 ∅.

Definition forged_vote : WorkerResult :=
  sign_result (Some (skey_from_seed (replicate 32 3))) (build_result liar_cfg demo_job job_out).

Definition job_session : list sys_input :=
  pool_session ++ vote 1 (honest_vote "w1" 1) ++ vote 3 forged_vote ++ vote 2 (honest_vote "w2" 2).

Definition job_voted : Server := default job_server (exec net_cfg job_session job_server).
Definition job_finished : Server := (turn net_cfg (net_env 0 []) job_voted).2.

Lemma job_voted_reachable : reachable net_cfg job_voted.
Proof.
  exists job_store, {[ "demo.desc.json"%string := to_vec job_desc ]}, ∅, NotFound, tmp0, ∅.
  apply (exec_sound net_cfg job_session); [apply session_envs; by repeat constructor|].
  unfold job_voted. assert (is_Some (exec net_cfg job_session job_server)) as [sv Hsv];
    [|fold job_server; by rewrite Hsv].
  apply (bool_decide_unpack _). vm_compute. exact I.
Qed.

Definition job_outcome : FinishedJob := {|
  f_job_id := "demo"; f_decision := Accept job_truth None ["w1"; "w2"]%string false;
  f_results := [honest_vote "w1" 1; forged_vote; honest_vote "w2" 2];
  f_deltas := [("w1"%string, 10); ("w3"%string, -100); ("w2"%string, 10)] |}.

Lemma job_turn : turn net_cfg (net_env 0 []) job_voted = (Ok true, job_finished).
Proof. unfold job_finished. apply ok_pair. vm_compute. reflexivity. Qed.

Lemma job_outcomes : outcomes job_finished = outcomes job_voted ++ [job_outcome].
Proof. vm_compute. reflexivity. Qed.

Lemma job_voted_store : sv_store job_voted = job_store.
Proof. apply (bool_decide_unpack _). vm_compute. exact I. Qed.

(** The manifest of the published job names other files than its own. *)
Lemma job_keeps : keeps_manifest job_store job_desc.
Proof.
  intros mb m (mid & Hid & Hmb & Hm).
  assert (bool_decide ((mid ← ok (cid_from_hex (d_manifest job_desc)); mb ← ok (get_blob job_store mid);
    ok (from_slice (A := JobManifest) mb)) = Some demo_manifest) = true) as Hx%bool_decide_eq_true_1 by (vm_compute; reflexivity).
  rewrite Hid in Hx. cbn [ok mbind option_bind] in Hx. rewrite Hmb in Hx. cbn [ok mbind option_bind] in Hx. rewrite Hm in Hx.
  injection Hx as ->. split; discriminate.
Qed.

Definition job_pending : PendingJob := default queued (pending job_voted).

Lemma job_pending_is :
  pending job_voted = Some job_pending /\ dispatched job_pending = true /\ zk_accept job_pending = None /\
  all_in job_pending = true /\ length (dispatched_ids job_pending) = 3%nat /\ pj_descriptor job_pending = job_desc /\
  results job_pending = [honest_vote "w1" 1; forged_vote; honest_vote "w2" 2].
Proof. split_and!; vm_compute; reflexivity. Qed.

(** The honest vote of the first worker is in the quorum, so the accepted hash is that of the
    job's run. *)
Lemma accepted_is_true_run_witness :
  exists j o, pending (scan_step (net_env 0 []) job_voted).2 = Some j /\
    runs_to (pj_descriptor j) o /\ job_truth = out_digest o.
Proof.
  generalize job_pending_is. generalize job_pending. intros jp (Hp & _ & _ & _ & _ & Hd & Hr).
  apply (pending_scanned (net_env 0 [])) in Hp.
  destruct (accepted_is_true_run net_cfg (net_env 0 []) job_voted job_finished job_outcome job_truth None
    ["w1"; "w2"]%string) as (j & Hj & _ & Hby).
  - exact job_voted_reachable.
  - exact job_turn.
  - exact job_outcomes.
  - reflexivity.
  - exact toy_faithful.
  - intros j Hj. rewrite Hp in Hj. injection Hj as <-. rewrite Hd.
    rewrite job_voted_store. exact job_keeps.
  - exists j. rewrite Hp in Hj. injection Hj as <-. destruct Hby as [[_ Hq]|(o & Ho & Hh)].
    + destruct (Hq (honest_vote "w1" 1)) as (o & Ho & _ & Hh).
      * rewrite Hr. left.
      * apply (bool_decide_unpack _). vm_compute. exact I.
      * rewrite Hd. exact honest_vote_1.
      * exists o. split; [exact Hp|]. split; [exact Ho|exact Hh].
    + exists o. split; [exact Hp|]. split; [exact Ho|exact Hh].
Defined.

(** Every chain of the pool has one link, the hash. *)
Lemma one_link x :
  x ∈ [honest_vote "w1" 1; forged_vote; honest_vote "w2" 2] -> r_chunk_hashes x = [result_hash x].
Proof. revert x. apply Forall_forall. repeat constructor; vm_compute; reflexivity. Qed.

Lemma job_honest_majority : honest_majority [honest_vote "w1" 1; honest_vote "w2" 2] job_pending.
Proof.
  destruct job_pending_is as (_ & _ & _ & _ & Hn & Hd & Hr). split_and!.
  - apply (bool_decide_unpack _). vm_compute. exact I.
  - rewrite Hn. simpl. lia.
  - rewrite Hd, Hr. intros r Hin. rewrite !elem_of_cons in Hin.
    destruct Hin as [->|[->|Hin]]; [| |exfalso; exact (not_elem_of_nil _ Hin)].
    + split_and!; [left|exact honest_vote_1|vm_compute; reflexivity].
    + split_and!; [right; right; left|exact honest_vote_2|vm_compute; reflexivity].
  - rewrite Hr. intros r g Hin Hg.
    assert (g ∈ [honest_vote "w1" 1; forged_vote; honest_vote "w2" 2]) as Hg'.
    { rewrite !elem_of_cons in Hg |- *. destruct Hg as [->|[->|Hg]]; [left|right; right; left|right; right; right]; trivial. }
    rewrite !one_link; [intros ->; reflexivity|exact Hg'|exact Hin].
Qed.


(** A fourth connection, a submitter's, votes under the ids of two workers; the third one's
    honest vote then completes the pool. *)
Definition forge (id : string) : WorkerResult := {|
  worker_id := id; job_id := "demo"; r_status := "halted"; r_instructions := 5; result_hash := forged_hash;
  r_chunk_hashes := [forged_hash]; output_hex := None; trap := None; pubkey_hex := Some (key_of 4);
  sig_hex := Some good_sig |}.

Definition forged_session : list sys_input :=
  pool_session ++ join 4 "evil" "submitter" ++
  [InFrame 4 (Received (Hello (key_of 4) "w1" None "submitter")); tick] ++ vote 4 (forge "w1") ++
  [InFrame 4 (Received (Hello (key_of 4) "w2" None "submitter")); tick] ++ vote 4 (forge "w2") ++
  vote 3 (honest_vote "w3" 3).

Definition forged_pool : Server := default job_server (exec net_cfg forged_session job_server).
Definition forged_end : Server := (turn net_cfg (net_env 0 []) forged_pool).2.

Definition forged_outcome : FinishedJob := {|
  f_job_id := "demo"; f_decision := Accept forged_hash None ["w1"; "w2"]%string false;
  f_results := [forge "w1"; forge "w2"; honest_vote "w3" 3];
  f_deltas := [("w1"%string, 10); ("w2"%string, 10); ("w3"%string, -100)] |}.

Lemma forged_pool_reachable : reachable net_cfg forged_pool.
Proof.
  exists job_store, {[ "demo.desc.json"%string := to_vec job_desc ]}, ∅, NotFound, tmp0, ∅.
  apply (exec_sound net_cfg forged_session); [apply session_envs; by repeat constructor|].
  unfold forged_pool. assert (is_Some (exec net_cfg forged_session job_server)) as [sv Hsv];
    [|fold job_server; by rewrite Hsv].
  apply (bool_decide_unpack _). vm_compute. exact I.
Qed.

Lemma honest_vote_3 : honest_result job_desc (honest_vote "w3" 3).
Proof.
  apply submits_honest. exists [], (worker_with job_store [] []), [JobResult (honest_vote "w3" 3)].
  split; [vm_compute; reflexivity|by left].
Qed.


Definition empty_server : Server :=
  set_conns (insert 1 (new_conn 1 "10.0.0.1")) (init_server ∅ ∅ ∅ NotFound tmp0 ∅).

Lemma handshake_admits_witness :
  exists c s1 s2 sv1 sv2 c2,
    let reply := NonceSignature (Some (hex (ed_sign (skey_from_seed (replicate 32 1)) (replicate 32 5)))) c in
    let hello := Hello (hex (vk_bytes (skey_from_seed (replicate 32 1)))) "w1" None "worker" in
    greet (worker_cfg "w1") demo_env idle_worker = (Ok (Some (skey_from_seed (replicate 32 1)), (replicate 32 5, 0)), s1) /\
    mine_pow (replicate 32 5) 0 = Some c /\
    answer demo_env (Some (skey_from_seed (replicate 32 1))) (replicate 32 5) c s1 = (Ok tt, s2) /\
    said s2 = said idle_worker ++ [hello; reply] /\
    on_event net_cfg (net_env 0 []) (session_event 1 hello) empty_server = (Ok tt, sv1) /\
    on_event net_cfg (net_env 0 []) (session_event 1 reply) sv1 = (Ok tt, sv2) /\
    conns sv2 !! 1 = Some c2 /\ authed c2 = true /\
    outbound c2 = outbound (new_conn 1 "10.0.0.1") ++ [Nonce (hex (replicate 32 5)) 0; AuthOk "w1"].
Proof.
  apply (handshake_admits (worker_cfg "w1") demo_env idle_worker "key" (replicate 32 1) None
    [Data (Wire.frame (Nonce (hex (replicate 32 5)) 0)); Data (Wire.frame (AuthOk "w1"))]
    (Wire.frame (AuthOk "w1")) net_cfg (net_env 0 []) empty_server 1 (new_conn 1 "10.0.0.1")).
  - reflexivity.
  - reflexivity.
  - reflexivity.
  - discriminate.
  - reflexivity.
  - reflexivity.
  - repeat constructor; intros; discriminate.
  - cbn [stream_bytes]. rewrite app_nil_r. reflexivity.
  - unfold fits. simpl. unfold MAX_FRAME. lia.
  - by apply Forall_replicate.
  - split; intros; reflexivity.
  - unfold fits. simpl. unfold MAX_FRAME. lia.
  - intros c _. unfold fits. simpl. unfold MAX_FRAME. lia.
  - reflexivity.
  - exists 0. split; [split; lia|]. vm_compute. reflexivity.
  - reflexivity.
Defined.

(** ** What the code does not prevent *)

(** A hinted peer that answers with other bytes ends the fetch: the coordinator, which has the
    blob, is not asked, and the session ends as a lost connection. *)
Lemma lying_peer_denies_job :
  let s := worker_with ∅ [] [Some (toy_sink, peer_stream (Some "00"%string))] in
  (fetch_blob manifest_id ["liar"%string] s).1 = Err "peer blob: content does not match requested hash"%string /\
  said (fetch_blob manifest_id ["liar"%string] s).2 = [] /\
  (on_assignment (worker_cfg "w1") demo_key job_desc ["liar"%string] s).1 = Ok (Some ConnectionLost).
Proof. split_and!; vm_compute; reflexivity. Qed.

(** A published job whose program is not an ELF file. *)
Definition broken_store : Store := (put_blob [] (put_blob [1; 2] (put_blob demo_mb ∅).2).2).2.

Definition broken_desc : JobDescriptor := {|
  d_job_id := "demo"; d_manifest := to_hex (from_data demo_mb); d_elf := to_hex (from_data [1; 2]);
  d_input := to_hex (from_data []) |}.

Definition session_of (msgs : list ServerToClient) (tl : stream) : SessionEnv := {|
  bind_port := fun p => Ok (Some p); seed := replicate 32 9; open_store := Ok tt;
  dial := Ok (((fun m => Data (Wire.frame m)) <$> (Nonce (hex (replicate 32 5)) 0 :: msgs)) ++ tl) |}.

Definition ended {A B C} (x : option (outcome string A * B * C)) : option (outcome string A) := (fun p => p.1.1) <$> x.

(** Assigning it ends the daemon with an error, not only the job or the session. *)
Lemma broken_job_ends_daemon :
  ended (run_daemon [session_of [AuthOk "w1"; JobAssignment broken_desc []] []; demo_env] (worker_cfg "w1") 1 []
           (worker_with broken_store [] [])) = Some (Err "elf: elf: too short"%string).
Proof. vm_compute. reflexivity. Qed.

(** So does a connection reset before the first submission: it is not retried. *)
Lemma reset_ends_daemon :
  ended (run_daemon [session_of [AuthOk "w1"] [Fail "reset"]; demo_env] (worker_cfg "w1") 1 [] idle_worker) =
    Some (Err "wire i/o: reset"%string).
Proof. vm_compute. reflexivity. Qed.

(** One worker that reports the majority's hash with another chain turns the acceptance into
    a rejection. *)
Lemma bad_chain_blocks_majority :
  let spoiler := {| worker_id := "w4"; job_id := "demo"; r_status := "halted"; r_instructions := 3;
    result_hash := job_truth; r_chunk_hashes := []; output_hex := None; trap := None;
    pubkey_hex := None; sig_hex := None |} in
  Pool.decide [honest_vote "w1" 1; honest_vote "w2" 2; honest_vote "w3" 3] 4 =
    Ok (Accept job_truth None ["w1"; "w2"; "w3"]%string false) /\
  Pool.decide [honest_vote "w1" 1; honest_vote "w2" 2; honest_vote "w3" 3; spoiler] 4 =
    Ok (Reject "winning group disagrees on chunk chain (dispute required)").
Proof. split; vm_compute; reflexivity. Qed.

(** A receipt names its carrier alone, so every other counted result loses its bond, whatever
    it reported. *)
Lemma receipt_slashes_responders desc claimed d :
  claim_backed desc claimed d ->
  exists carrier, forall rs r, r ∈ rs -> worker_id r <> carrier -> (worker_id r, -100) ∈ slashing d rs.
Proof.
  intros (wid & cmd & guest & bytes & tag & eb & t & t' & out & _ & _ & _ & _ & ->). exists wid. intros rs r Hr Hne.
  simpl. apply list_elem_of_fmap. exists r. split; [|done].
  rewrite bool_decide_false; [done|]. intros Heq%list_elem_of_singleton. congruence.
Qed.

(** A manifest that names its own file as the program: materialising replaces [job.json] by
    the program blob, here a second manifest whose names are not confined. *)
Definition inner_manifest : JobManifest := {|
  schema := 1; m_id := "demo"; m_name := "demo"; isa := "rv64imc"; format := None;
  toolchain := "t"; m_chunk_size := 2; m_max_instructions := 100; verification_class := "a";
  elf := "prog"; input := "/etc/passwd" |}.

Definition outer_manifest : JobManifest := {|
  schema := 1; m_id := "demo"; m_name := "demo"; isa := "rv64imc"; format := None;
  toolchain := "t"; m_chunk_size := 2; m_max_instructions := 100; verification_class := "a";
  elf := "job.json"; input := "prog" |}.

Definition outer_mb : list Z := to_vec outer_manifest.
Definition inner_mb : list Z := to_vec inner_manifest.

Definition trick_store : Store := (put_blob demo_job_elf (put_blob inner_mb (put_blob outer_mb ∅).2).2).2.

Definition trick_job : PendingJob := proving_job {|
  d_job_id := "demo"; d_manifest := to_hex (from_data outer_mb); d_elf := to_hex (from_data inner_mb);
  d_input := to_hex (from_data demo_job_elf) |} 0 1.

(** A machine that has the outside file. *)
Definition leaky_net : NetOs := {|
  os_rename := fun _ _ => Ok tt; os_mkdir := fun _ => Ok tt; os_outside := fun _ => Ok [114; 111; 111; 116]; os_time := 0 |}.

(** The replay judge then runs the submitter's program on the outside file. *)
Lemma judge_reads_outside :
  judge_by_replay_network trick_store trick_job = Err tt /\
  exists h oh ids, @judge_by_replay_network toy_blake3 toy_sha256 toy_os leaky_net k1 trick_store trick_job =
    Ok (Accept h oh ids false).
Proof. split; [vm_compute; reflexivity|]. do 3 eexists. vm_compute. reflexivity. Qed.
