(* ===== verification/LocalDemo.v ===== *)
(** * Executions of the command lines

    Concrete local runs at which the theorems of [Local] are applied, and what the local run
    does with its own signed results. *)

From S2P Require Import Prelude Text Mem Cpu Interp Run Elf JobFmt ContentStore Wire Quorum Ledger Dispute ZkJudge.
From S2P Require Import Server Serve ServeCmd ServeFacts DispatchFacts Worker Local EndToEnd NetDemo EndDemo.

#[local] Existing Instances toy_blake3 toy_sha256 toy_ed25519 toy_os toy_signer toy_wos.
#[local] Instance l1 : Json JobManifest := toy_json _.
#[local] Instance l2 : Json JobDescriptor := toy_json _.
#[local] Instance l3 : Json WorkerResult := tight_json _.
#[local] Instance l4 : Json Ledger := no_json _.
#[local] Instance l5 : Json RunSummary := no_json _.
#[local] Instance l3_laws : JsonLaws WorkerResult := tight_json_laws _.
#[local] Instance l2_laws : JsonLaws JobDescriptor.
Proof. constructor; intros a; apply (@toy_json_laws JobDescriptor). Qed.

(** The job directory of the published job, and the job in it. *)
Definition job_dir_files : Dir :=
  <["job.json"%string := demo_mb]> (<["program.elf"%string := demo_job_elf]> (<["input.bin"%string := []]> ∅)).

Definition dir_job : Job := {| manifest := demo_manifest; dir := "jobs/demo"; job_elf := demo_job_elf; job_input := [] |}.

Definition dir_out : RunOutcome := default (mkOutcome Halted [] 0 None []) (ok (cli_execute default_args dir_job)).

Definition local_args (corrupt ids : bool) : LocalArgs := mkLocalArgs "jobs/demo" None corrupt None false ids.

Definition local_process : list string -> M Disk string bool := worker_process (replicate 32 9) job_dir_files.

Lemma local_run_accepts_witness :
  exists pool d', local_run (worker_process (replicate 32 9) job_dir_files) (local_args true false) ∅ =
    (Ok (pool, Accept (hex (final_link dir_out)) (hex <$> Run.output dir_out)
           (if la_corrupt (local_args true false) then ["w1"; "w3"] else ["w1"; "w2"; "w3"])%string false,
         [("w1"%string, 10); ("w2"%string, if la_corrupt (local_args true false) then -100 else 10); ("w3"%string, 10)], 0), d').
Proof.
  eapply (local_run_accepts (replicate 32 9) "jobs/demo" job_dir_files dir_job dir_out).
  - intros name d. reflexivity.
  - vm_compute. reflexivity.
  - vm_compute. reflexivity.
  - vm_compute. reflexivity.
  - reflexivity.
  - reflexivity.
  - reflexivity.
  - reflexivity.
  - reflexivity.
Defined.

(** A local run in which every worker signs its result. *)
Definition signed_run : outcome string (list WorkerResult * Decision * list (string * Z) * Z) * Disk :=
  local_run local_process (local_args false true) ∅.

Lemma local_run_sound_witness :
  match signed_run.1 with
  | Ok (pool, dec, deltas, code) =>
      (length pool = 3%nat \/ length pool = 5%nat) /\ code = 0 /\
      (forall h oh agreed zk, dec = Accept h oh agreed zk ->
         forall id, id ∈ agreed -> exists r, r ∈ pool /\ worker_id r = id /\ r_status r = "halted"%string /\
           result_hash r = h /\ (true = true -> r ∈ take 3 pool -> verify_signature r = Ok tt))
  | _ => False
  end.
Proof.
  unfold signed_run. destruct (local_run local_process (local_args false true) ∅) as [[[[[pool dec] deltas] code]|e|] d'] eqn:He.
  - destruct (local_run_sound local_process (local_args false true) ∅ pool dec deltas code d' He) as (Hl & _ & _ & _ & Ha).
    split; [exact Hl|]. split.
    + apply (f_equal (fun p => match p.1 with Ok (_, _, _, c) => c | _ => 7 end)) in He. vm_compute in He. by rewrite He.
    + intros h oh agreed zk Hd id Hid. destruct (Ha h oh agreed zk Hd) as (_ & _ & _ & Hr). exact (Hr id Hid).
  - apply (f_equal fst) in He. vm_compute in He. discriminate He.
  - apply (f_equal fst) in He. vm_compute in He. discriminate He.
Defined.

Lemma publish_fetch_roundtrip_witness :
  exists (st' : Store) (d' : Disk) (out' : Dir), cmd_publish demo_rd "job.desc.json" (∅, ∅) = (Ok tt, (st', d')) /\
    cmd_fetch "job.desc.json" st' d' ∅ = (Ok tt, out') /\
    load_dir "jobs" out' = Ok {| manifest := demo_manifest; dir := "jobs"; job_elf := [1; 2]; job_input := [3] |} /\
    cmd_verify (fun p => (p.1 +:+ "/" +:+ p.2)%string) st' map_to_list = Ok (Z.of_nat (size st')).
Proof.
  apply (publish_fetch_roundtrip demo_rd ∅ ∅ "job.desc.json" ∅ "jobs" demo_manifest demo_mb [1; 2] [3]
    [demo_mb; [1; 2]; [3]]); try reflexivity.
  - intros p d. by rewrite lookup_empty.
  - intros x y Hx Hy Heq. set_unfold.
    destruct Hx as [->|[->|[->|[]]]], Hy as [->|[->|[->|[]]]]; try reflexivity;
      vm_compute in Heq; discriminate Heq.
  - by left.
  - by right; left.
  - by right; right; left.
  - intros p d. by rewrite lookup_empty.
  - unfold names_ok. split_and!; try done; apply (bool_decide_unpack _); vm_compute; exact I.
Defined.

(** ** What the code does not do *)

(** Signatures that depend on the message, here on its length only. *)
Definition len_tag (msg : list Z) : list Z := replicate 64 (wrap 8 (Z.of_nat (length msg))).

Definition len_ed25519 : Ed25519 := {|
  vkey := list Z; vkey_from_bytes := Ok;
  ed_verify := fun _ msg s => if bool_decide (s = len_tag msg) then Ok tt else Err "bad"%string |}.

Definition len_signer : @Signer len_ed25519.
Proof.
  refine {| skey := Z; skey_from_seed := fun sd => default 0 (head sd);
            vk_bytes := fun k => replicate 32 (wrap 8 k); ed_sign := fun _ msg => len_tag msg |}.
  - intros k. split; [by rewrite length_replicate|]. apply Forall_replicate, wrap_range. lia.
  - intros k msg. split; [by unfold len_tag; rewrite length_replicate|]. apply Forall_replicate, wrap_range. lia.
  - intros k. eexists. split; [reflexivity|]. intros msg. simpl. by rewrite bool_decide_true.
Defined.

(** The command line signs the bytes of the result hash, the coordinator verifies the signed
    message of the whole result: a local run with identities counts its own honest, signed
    results as malformed and rejects the job. *)
Lemma local_identities_reject :
  exists pool d,
    (@local_run len_ed25519 toy_os toy_wos l3
       (@worker_process toy_blake3 len_ed25519 len_signer toy_os l1 l3 (replicate 32 9) job_dir_files)
       l4 l5 (local_args false true) ∅).1 =
      Ok (pool, Reject "majority of workers trapped: job is broken", d, 1) /\
    r_status <$> pool = ["malformed"; "malformed"; "malformed"]%string.
Proof. do 2 eexists. split; vm_compute; reflexivity. Qed.

(** ** The serve command *)

Definition serve_args : ServeArgs := {|
  sa_pool := 5; sa_deadline_secs := 120; sa_max_jobs := None; sa_sample_size := None;
  sa_round1_ids := Some "w1, w2"%string; sa_pow_bits := 0; sa_zk_verify_cmd := None; sa_zk_guest_elf := None;
  sa_zk_judge_cmd := None; sa_zk_judge_guest_elf := None; sa_max_vm_cycles := 10000000; sa_timeout_secs := 1800;
  sa_results_dir := None; sa_accept := true; sa_ledger := None |}.

Lemma served_admission_witness :
  exists pk n s, Some (key_of 1) = Some pk /\ Some (replicate 32 5) = Some n /\ Some good_sig = Some s /\
    verify_nonce pk n s = Ok tt /\ verify_pow n 0 0 = true.
Proof.
  apply (served_admission serve_args (mkConn [] (Some (key_of 1)) (Some (replicate 32 5)) "w1" false None "10.0.0.1" "worker" 0)
    (Some good_sig) 0).
  vm_compute. reflexivity.
Defined.

(** A result hash whose sixteenth byte starts a two-byte character is counted, and ends the
    process when its job is printed. *)
Definition split_hash : string := from_bytes (replicate 15 97 ++ [0xc3; 0xa9] ++ replicate 47 97).

Lemma result_hash_ends_serve :
  (exists j, count_result "w1" (signed "w1" 1 split_hash) (mkJob (mkDesc "j" "" "" "") None "p" true false ["w1"%string] [] [] 0 None [] []) = Ok j /\
     length (results j) = 1%nat) /\
  serve_report serve_args (fun _ => "") [mkFinished "j" (Reject "split") [signed "w1" 1 split_hash] []] = Panic.
Proof. split; [eexists; split; [vm_compute; reflexivity|reflexivity]|vm_compute; reflexivity]. Qed.
