(* ===== verification/Sp1.v ===== *)
(** * The SP1 tier (sp1-guest, sp1-host, the sp1 build of crates/worker)

    The guest programs that run inside the zkVM, the zk-judge and zk-verify processes the
    coordinator spawns, and the worker's execution inside the zkVM.  The SP1 SDK (executor,
    prover, verifier, receipt files) and bincode are parameters. *)

From S2P Require Import Prelude Text Mem Cpu Interp InterpFacts Run Chain Elf JobFmt ContentStore Wire Quorum Dispute ZkJudge Worker.

(** ** bincode *)

(** A decoder takes its value off the front of the bytes. *)
Record codec (A : Type) : Type := mkCodec {
  enc : A -> list Z;
  dec : list Z -> option (A * list Z);
}.
Arguments enc {A} _ _.
Arguments dec {A} _ _.

(** What bincode is relied on for: a value of the type is read back. *)
Definition reads_back {A} (c : codec A) (typed : A -> Prop) : Prop :=
  forall a rest, typed a -> dec c (enc c a ++ rest) = Some (a, rest).

(** The codecs of [[u8; 32]; 3], [u8; 32], [u32], [u64], [Vec<[u8; 32]>], [Vec<u8>] and
    [u64; 4]. *)
Class Bincode : Type := {
  c_ids : codec (list (list Z));
  c_id : codec (list Z);
  c_u32 : codec Z;
  c_u64 : codec Z;
  c_hashes : codec (list (list Z));
  c_bytes : codec (list Z);
  c_words : codec (list Z);
}.

Class BincodeLaws `{Bincode} : Prop := {
  ids_back : reads_back c_ids (fun l => length l = 3%nat /\ Forall digest l);
  id_back : reads_back c_id digest;
  u32_back : reads_back c_u32 (fun n => 0 <= n < 2 ^ 32);
  u64_back : reads_back c_u64 is_u64;
  hashes_back : reads_back c_hashes (Forall digest);
  bytes_back : reads_back c_bytes (Forall is_byte);
  words_back : reads_back c_words (fun l => length l = 4%nat /\ Forall is_u64 l);
}.

(** ** The SDK *)

(** Executing an ELF on the values written to its stdin gives the public values and the VM
    cycle count; a proof carries its public values and is checked against the key of an ELF. *)
Class Sp1 : Type := {
  proving_key : Type;
  sp1_proof : Type;
  sp1_execute : list Z -> list (list Z) -> outcome string (list Z * Z);
  sp1_setup : list Z -> outcome string proving_key;
  sp1_prove : proving_key -> list (list Z) -> outcome string sp1_proof;
  sp1_verify : sp1_proof -> proving_key -> outcome string unit;
  public_values : sp1_proof -> list Z;
  proof_bytes : sp1_proof -> list Z;
  proof_load : list Z -> outcome string sp1_proof;
}.

(** [public_values.read()]: the cursor advances; a value that does not decode panics. *)
Definition pv_read {A} (c : codec A) : M (list Z) string A := fun pv =>
  match dec c pv with Some (a, rest) => (Ok a, rest) | None => (Panic, pv) end.

(** ** Guest programs *)

(** What is left of stdin, and the values committed so far. *)
Record Guest : Type := mkGuest {
  g_stdin : list (list Z);
  g_public : list Z;
}.

Definition io_read : M Guest string (list Z) := fun g =>
  match g_stdin g with
  | x :: rest => (Ok x, mkGuest rest (g_public g))
  | [] => (Panic, g)
  end.

Definition io_commit {A} (c : codec A) (a : A) : M Guest string unit :=
  mmodify (fun g => mkGuest (g_stdin g) (g_public g ++ enc c a)).

(** The public values of a guest that ends. *)
Definition guest_run (main : M Guest string unit) (stdin : list (list Z)) : outcome string (list Z) :=
  match main (mkGuest stdin []) with
  | (Ok _, g) => Ok (g_public g)
  | (Err e, _) => Err e
  | (Panic, _) => Panic
  end.

(** The committed status of an execution. *)
Definition zk_status (st : ExitStatus) : Z :=
  match st with
  | Halted | Tohost _ => 0
  | InstructionLimit => 1
  | Trapped _ => 2
  end.

Section Guests.
Context `{Blake3} `{Bincode} `{Json JobManifest}.

(** Parse, load and run, every failure an [expect]. *)
Definition guest_execute (m : JobManifest) (elf_bytes inp : list Z) : outcome string RunOutcome :=
  image ← expect (parse elf_bytes);
  match load new image with
  | (Ok _, mem) =>
      match run mem (entry image) inp (judge_cfg (m_chunk_size m) (m_max_instructions m)) with
      | Some (Ok out) => Ok out
      | _ => Panic
      end
  | _ => Panic
  end.

Definition job_binding (manifest_bytes elf_bytes inp : list Z) : list (list Z) :=
  [blake3 manifest_bytes; blake3 elf_bytes; blake3 inp].

(** sp1-guest-emu: the emulator as a guest. *)
Definition guest_emu : M Guest string unit :=
  manifest_bytes ← io_read;
  elf_bytes ← io_read;
  inp ← io_read;
  m ← lift (expect (from_slice (A := JobManifest) manifest_bytes));
  _ ← io_commit c_ids (job_binding manifest_bytes elf_bytes inp);
  out ← lift (guest_execute m elf_bytes inp);
  _ ← io_commit c_u32 (zk_status (status out));
  _ ← io_commit c_u64 (instructions out);
  _ ← io_commit c_hashes (chunk_hashes out);
  io_commit c_bytes (default [] (Run.output out)).
End Guests.

(** *** The four-stream FNV fold of the demo jobs *)

Definition MUL : Z := 0x100000001b3.
Definition SEEDS : list Z := [0xcbf29ce484222325; 0x9e3779b97f4a7c15; 0x165667e19a9c2b1d; 0x27d4eb2f165667c5].

Definition wmul (a b : Z) : Z := wrap 64 (a * b).
Definition rotl (n x : Z) : Z := wrap 64 (x .<< n) .| (x .>> (64 - n)).

(** One byte into the four accumulators. *)
Definition fnv_step (acc : list Z) (b : Z) : list Z :=
  match acc with
  | [a0; a1; a2; a3] =>
      [wmul (Z.lxor a0 b) MUL; wmul (Z.lxor a1 b) (Z.lxor MUL 1);
       wmul (Z.lxor a2 (rotl 7 b)) MUL; Z.lxor (rotl 13 (wmul (Z.lxor a3 b) MUL)) b]
  | _ => acc
  end.

Definition host_reference (inp : list Z) : list Z := foldl fnv_step SEEDS inp.

(** sp1-guest-fnv commits the accumulators. *)
Definition guest_fnv `{Bincode} : M Guest string unit :=
  inp ← io_read;
  io_commit c_words (foldl fnv_step SEEDS inp).

(** The V2 demo job commits the input's id and the accumulators as bytes. *)
Definition v2_fold (inp : list Z) : list Z := concat (le_bytes 8 <$> foldl fnv_step SEEDS inp).

Definition guest_v2 `{Blake3} `{Bincode} : M Guest string unit :=
  inp ← io_read;
  _ ← io_commit c_id (blake3 inp);
  io_commit c_bytes (v2_fold inp).

(** The scaffold's guest: one stream, and no input id. *)
Definition guest_scaffold `{Bincode} : M Guest string unit :=
  inp ← io_read;
  io_commit c_bytes (le_bytes 8 (foldl (fun acc b => wmul (Z.lxor acc b) MUL) 0xcbf29ce484222325 inp)).

(** ** zk-judge *)

(** [str::parse::<u64>] *)
Fixpoint parse_digits (acc : Z) (l : list Z) : option Z :=
  match l with
  | [] => Some acc
  | c :: t =>
      if (48 <=? c) && (c <=? 57) then
        let acc' := acc * 10 + (c - 48) in
        if 2 ^ 64 <=? acc' then None else parse_digits acc' t
      else None
  end.

Definition parse_u64 (s : string) : option Z :=
  match as_bytes s with
  | [] => None
  | c :: t => if c =? 43 then (if bool_decide (t = []) then None else parse_digits 0 t) else parse_digits 0 (c :: t)
  end.

(** [Job] of zk-judge *)
Record ZkJob : Type := mkZkJob {
  zj_manifest_bytes : list Z;
  zj_elf : list Z;
  zj_input : list Z;
  zj_chunk_size : Z;
  zj_max_instructions : Z;
  zj_v2 : bool;
}.

(** The verdict before it is printed. *)
Record JudgeLine : Type := mkLine {
  jl_status : Z;
  jl_instructions : Z;
  jl_output_hex : string;
  jl_vm_cycles : Z;
  jl_proving_secs : string;
  jl_binding : list string;
  jl_v2 : bool;
  jl_receipt_saved : option string;
}.

Record VerifyLine : Type := mkVerifyLine {
  vl_status : Z;
  vl_instructions : Z;
  vl_chain : list string;
  vl_output_hex : string;
}.

(** Printing JSON by hand: a quote, a key with its colon, an encoded value. *)
Definition quote : string := from_bytes [34].
Definition jkey (k : string) : string := quote +:+ k +:+ quote +:+ ":".
Definition jval `{Json A} (a : A) : string := from_bytes (to_vec a).
Definition jbool (b : bool) : string := if b then "true" else "false".

Section Texts.
Context `{Json string} `{Json (list string)} `{Json (option string)}.

Definition judge_text (l : JudgeLine) : string :=
  "{" +:+ jkey "ok" +:+ "true," +:+ jkey "status" +:+ pretty (jl_status l) +:+ "," +:+
  jkey "instructions" +:+ pretty (jl_instructions l) +:+ "," +:+ jkey "output_hex" +:+ jval (jl_output_hex l) +:+ "," +:+
  jkey "vm_cycles" +:+ pretty (jl_vm_cycles l) +:+ "," +:+ jkey "proving_secs" +:+ jl_proving_secs l +:+ "," +:+
  jkey "binding" +:+ jval (jl_binding l) +:+ "," +:+ jkey "v2" +:+ jbool (jl_v2 l) +:+ "," +:+
  jkey "receipt_saved" +:+ jval (jl_receipt_saved l) +:+ "}".

Definition verify_text (l : VerifyLine) : string :=
  "{" +:+ jkey "ok" +:+ "true," +:+ jkey "status" +:+ pretty (vl_status l) +:+ "," +:+
  jkey "instructions" +:+ pretty (vl_instructions l) +:+ "," +:+ jkey "chain" +:+ jval (vl_chain l) +:+ "," +:+
  jkey "output_hex" +:+ jval (vl_output_hex l) +:+ "}".

Definition error_text (e : string) : string :=
  "{" +:+ jkey "ok" +:+ "false," +:+ jkey "error" +:+ jval e +:+ "}".

Definition usage_text (u : string) : string :=
  "{" +:+ jkey "ok" +:+ "false," +:+ jkey "error" +:+ quote +:+ u +:+ quote +:+ "}".
End Texts.

(** A process that prints one line and exits. *)
Definition prints (success : bool) (line : string) (files : Dir) : proc_run := {|
  p_end := Exited success (if success then "exit status: 0" else "exit status: 1");
  p_stdout := as_bytes line ++ [10]; p_stderr := ""; p_files := files |}.

(** A process that panics before it prints. *)
Definition panics (files : Dir) : proc_run := {|
  p_end := Exited false "exit status: 101"; p_stdout := []; p_stderr := "panicked"; p_files := files |}.

Section Host.
Context `{Blake3} `{Bincode} `{!Sp1} `{Os} `{Json JobManifest}.
Context `{Json string} `{Json (list string)} `{Json (option string)}.

(** Reading a file by its path. *)
Context (rd : string -> outcome string (list Z)).

Definition tag_err {A} (tag : string) (r : outcome string A) : outcome string A :=
  map_err (fun e => tag +:+ ": " +:+ e)%string r.

Definition load_job (dir : string) : outcome string ZkJob :=
  mb ← tag_err "manifest" (rd (dir +:+ "/job.json")%string);
  m ← tag_err "manifest parse" (from_slice (A := JobManifest) mb);
  e ← tag_err "job elf" (rd (dir +:+ "/" +:+ elf m)%string);
  i ← tag_err "job input" (rd (dir +:+ "/" +:+ input m)%string);
  mret {| zj_manifest_bytes := mb; zj_elf := e; zj_input := i; zj_chunk_size := m_chunk_size m;
          zj_max_instructions := m_max_instructions m; zj_v2 := is_sp1_v2 m |}.

(** The legacy guest's committed sequence. *)
Definition read_committed : M (list Z) string (list (list Z) * Z * Z * list (list Z) * list Z) :=
  binding ← pv_read c_ids;
  st ← pv_read c_u32;
  n ← pv_read c_u64;
  chain ← pv_read c_hashes;
  out ← pv_read c_bytes;
  mret (binding, st, n, chain, out).

(** What is written to the guest's stdin. *)
Definition judge_stdin (job : ZkJob) : list (list Z) :=
  if zj_v2 job then [zj_input job] else [zj_manifest_bytes job; zj_elf job; zj_input job].

(** Step 2: the committed values and the binding, per format. *)
Definition judge_committed (job : ZkJob) : M (list Z) string (Z * Z * list Z * list string) :=
  if zj_v2 job then
    input_id ← pv_read c_id;
    out ← pv_read c_bytes;
    let expected := blake3 (zj_input job) in
    if negb (bool_decide (input_id = expected)) then Prelude.mfail "v2 guest input binding mismatch"%string
    else mret (0, V2_JOURNAL_COUNT, out, [hex expected])
  else
    let binding := job_binding (zj_manifest_bytes job) (zj_elf job) (zj_input job) in
    '(committed, st, n, _, out) ← read_committed;
    if negb (bool_decide (committed = binding)) then
      Prelude.mfail "guest binding does not match this job's (manifest, elf, input)"%string
    else mret (st, n, out, hex <$> binding).

(** Step 3: the locally linked emulator. *)
Definition cross_check (job : ZkJob) (st n : Z) (out : list Z) : outcome string unit :=
  if zj_v2 job then Ok tt
  else
    image ← tag_err "elf parse" (parse (zj_elf job));
    match load new image with
    | (Err e, _) => Err ("elf load: " +:+ e)%string
    | (Panic, _) => Panic
    | (Ok _, mem) =>
        match run mem (entry image) (zj_input job) (judge_cfg (zj_chunk_size job) (zj_max_instructions job)) with
        | Some (Ok o) =>
            let rv_out := default [] (Run.output o) in
            if bool_decide (zk_status (status o) = st /\ instructions o = n /\ rv_out = out) then Ok tt
            else Err ("guest and local rvcore disagree (status " +:+ pretty st +:+ "/" +:+ pretty (zk_status (status o)) +:+
                      ", instructions " +:+ pretty n +:+ "/" +:+ pretty (instructions o) +:+
                      ", output " +:+ pretty (Z.of_nat (length out)) +:+ " bytes/" +:+
                      pretty (Z.of_nat (length rv_out)) +:+ " bytes)")%string
        | _ => Panic
        end
    end.

(** Step 4: the proved public values against the executed ones. *)
Definition proof_matches (job : ZkJob) (st n : Z) (out : list Z) : M (list Z) string bool :=
  if zj_v2 job then
    p_input ← pv_read c_id;
    p_out ← pv_read c_bytes;
    mret (bool_decide (p_input = blake3 (zj_input job) /\ p_out = out))
  else
    '(_, p_st, p_n, _, p_out) ← read_committed;
    mret (bool_decide (p_st = st /\ p_n = n /\ p_out = out)).

Definition vm_bound (vm_cycles max_cycles : Z) : outcome string unit :=
  if max_cycles <? vm_cycles then
    Err ("vm cycle bound exceeded: " +:+ pretty vm_cycles +:+ " > " +:+ pretty max_cycles +:+
         " — refusing to prove an unbounded trace")%string
  else Ok tt.

(** The proof, verified and compared. *)
Definition judge_prove (job : ZkJob) (exec_elf : list Z) (st n : Z) (out : list Z) : outcome string sp1_proof :=
  pk ← tag_err "setup" (sp1_setup exec_elf);
  proof ← tag_err "prove" (sp1_prove pk (judge_stdin job));
  _ ← tag_err "receipt verification" (sp1_verify proof pk);
  same ← (proof_matches job st n out (public_values proof)).1;
  if same : bool then mret proof else Err "proved public values differ from the executed ones"%string.

(** [run] of zk-judge; the files hold the saved receipt, [secs] is the printed proving time. *)
Definition judge_run (secs job_dir max_text guest_path : string) (receipt_out : option string) :
    outcome string (JudgeLine * Dir) :=
  max_cycles ← ok_or (parse_u64 max_text) "max-vm-cycles parse"%string;
  job ← load_job job_dir;
  exec_elf ← (if zj_v2 job then Ok (zj_elf job) else tag_err "guest ELF" (rd guest_path));
  '(pv, vm_cycles) ← tag_err "execute" (sp1_execute exec_elf (judge_stdin job));
  _ ← vm_bound vm_cycles max_cycles;
  '(st, n, out, binding) ← (judge_committed job pv).1;
  _ ← cross_check job st n out;
  proof ← judge_prove job exec_elf st n out;
  files ← match receipt_out with
          | Some path => stored ← tag_err "receipt save" (os_write path (proof_bytes proof)); mret {[path := stored]}
          | None => mret ∅
          end;
  mret ({| jl_status := st; jl_instructions := n; jl_output_hex := hex out; jl_vm_cycles := vm_cycles;
           jl_proving_secs := secs; jl_binding := binding; jl_v2 := zj_v2 job; jl_receipt_saved := receipt_out |}, files).

Definition judge_usage : string := "usage: zk-judge <job-dir> <max-vm-cycles> <guest-elf> [receipt-out]".

(** zk-judge as a process. *)
Definition zk_judge_process (secs : string) (args : list string) : proc_run :=
  let go job_dir max_text guest_path receipt_out :=
    match judge_run secs job_dir max_text guest_path receipt_out with
    | Ok (l, files) => prints true (judge_text l) files
    | Err e => prints false (error_text e) ∅
    | Panic => panics ∅
    end in
  match args with
  | [j; m; g] => go j m g None
  | [j; m; g; r] => go j m g (Some r)
  | _ => prints false (usage_text judge_usage) ∅
  end.

(** The cross-validation of sp1-host: the FNV guest proved on a prefix of the demo input, its
    digest compared and its receipt verified. *)
Definition host_validate : outcome string unit :=
  full ← expect (rd "../jobs/demo-hash/input.bin"%string);
  if (length full <? 4 * 1024)%nat then Panic
  else
    let inp := take (4 * 1024) full in
    guest ← expect (rd "../elf/sp1-guest-fnv"%string);
    pk ← expect (sp1_setup guest);
    proof ← expect (sp1_prove pk [inp]);
    committed ← (pv_read c_words (public_values proof)).1;
    if bool_decide (committed = host_reference inp) then expect (sp1_verify proof pk) else Panic.

(** ** zk-verify *)

Definition decode_ids (ids : list string) : outcome string (list (list Z)) :=
  mapM (fun s => from_hex_tag "binding hex" s 32) ids.

(** The committed values of a receipt, checked against the expected binding. *)
Definition receipt_values (expected : option (list (list Z))) (v2 : bool) :
    M (list Z) string (Z * Z * list Z * list (list Z)) :=
  if v2 then
    input_id ← pv_read c_id;
    if match expected with Some b => negb (bool_decide (Some input_id = b !! 2%nat)) | None => false end then
      Prelude.mfail "receipt is not for this job's input (binding mismatch)"%string
    else
      out ← pv_read c_bytes;
      mret (0, V2_JOURNAL_COUNT, out, [])
  else
    binding ← pv_read c_ids;
    if match expected with Some b => negb (bool_decide (binding = b)) | None => false end then
      Prelude.mfail "receipt is not for this job's (manifest, elf, input)"%string
    else
      st ← pv_read c_u32;
      n ← pv_read c_u64;
      chain ← pv_read c_hashes;
      out ← pv_read c_bytes;
      mret (st, n, out, chain).

(** [run] of zk-verify *)
Definition verify_run (guest_path receipt_path : string) (binding_hex : option (list string)) (v2 : bool) :
    outcome string VerifyLine :=
  expected ← match binding_hex with
             | Some ids => b ← decode_ids ids; mret (Some b)
             | None => mret None
             end;
  proof ← tag_err "receipt load" (bytes ← rd receipt_path; proof_load bytes);
  guest ← tag_err "guest ELF" (rd guest_path);
  pk ← tag_err "guest setup" (sp1_setup guest);
  '(st, n, out, chain) ← (receipt_values expected v2 (public_values proof)).1;
  _ ← tag_err "receipt verification" (sp1_verify proof pk);
  mret {| vl_status := st; vl_instructions := n; vl_chain := hex <$> chain; vl_output_hex := hex out |}.

Definition verify_usage : string :=
  "usage: zk-verify <guest-elf> <receipt-file> [--v2] [<binding-hex-1> <2> <3>]".

(** zk-verify as a process. *)
Definition zk_verify_process (args : list string) : proc_run :=
  let v2 := bool_decide ("--v2"%string ∈ args) in
  let go g r binding :=
    match verify_run g r binding v2 with
    | Ok l => prints true (verify_text l) ∅
    | Err e => prints false (error_text e) ∅
    | Panic => panics ∅
    end in
  match filter (fun a => a <> "--v2"%string) args with
  | [g; r; b1; b2; b3] => go g r (Some [b1; b2; b3])
  | [g; r] => go g r None
  | _ => prints false (usage_text verify_usage) ∅
  end.
End Host.

(** ** The sp1 build of the worker daemon *)

Section Sp1Worker.
Context `{Blake3} `{Sha256} `{Ed25519} `{!Signer} `{Os} `{WorkerOs} `{Bincode} `{!Sp1}.
Context `{Json JobManifest} `{Json ClientToServer} `{Json ServerToClient} `{Json PeerToPeer}.
Context `{link : Sink}.

(** The compiled emulator guest that is linked into the worker. *)
Context (EMU_ELF : list Z).

(** Journal, instruction count, status and trap text. *)
Definition execution : Type := list Z * Z * string * option string.

(** The result of an execution; the native build has its execution from the emulator. *)
Definition execution_result (cfg : DaemonConfig) (job : Job) (x : execution) : WorkerResult :=
  let '(j, n, st, tr) := x in
  let result_hash := hex (sha256 (corrupt_journal cfg j)) in
  {| worker_id := dc_worker_id cfg; job_id := m_id (manifest job); r_status := st;
     r_instructions := n; result_hash := result_hash; r_chunk_hashes := [result_hash];
     output_hex := if (8 <? length j)%nat then Some (hex (journal_output j)) else None;
     trap := tr; pubkey_hex := None; sig_hex := None |}.

(** The guest's committed sequence; the binding is checked before the rest is read. *)
Definition worker_committed (binding : list (list Z)) : M (list Z) string (Z * Z * list Z) :=
  b ← pv_read c_ids;
  if negb (bool_decide (b = binding)) then
    Prelude.mfail "sp1 execute: guest binding does not match this job"%string
  else
    code ← pv_read c_u32;
    n ← pv_read c_u64;
    _ ← pv_read c_hashes;
    out ← pv_read c_bytes;
    mret (code, n, out).

(** The emulator guest executed in the zkVM. *)
Definition sp1_execute_job (manifest_bytes : list Z) (job : Job) : outcome string execution :=
  '(pv, _) ← tag_err "sp1 execute" (sp1_execute EMU_ELF [manifest_bytes; job_elf job; job_input job]);
  '(code, n, out) ← (worker_committed (job_binding manifest_bytes (job_elf job) (job_input job)) pv).1;
  let st := if code =? 0 then "halted"%string else if code =? 1 then "instruction_limit"%string else "trap"%string in
  mret (journal n out, n, st,
        if bool_decide (st = "trap"%string) then Some ("guest exit status " +:+ pretty code)%string else None).

(** A V2 job runs as its own guest. *)
Definition sp1_v2_result (cfg : DaemonConfig) (job : Job) : outcome string WorkerResult :=
  '(pv, cycles) ← tag_err "sp1 execute" (sp1_execute (job_elf job) [job_input job]);
  out ← ((input_id ← pv_read c_id;
          if negb (bool_decide (input_id = blake3 (job_input job))) then
            Prelude.mfail "sp1 execute: guest input binding mismatch"%string
          else pv_read c_bytes) pv).1;
  let h := hex (sha256 (journal V2_JOURNAL_COUNT out)) in
  mret {| worker_id := dc_worker_id cfg; job_id := m_id (manifest job); r_status := "halted";
          r_instructions := cycles; result_hash := h; r_chunk_hashes := [h]; output_hex := Some (hex out);
          trap := None; pubkey_hex := None; sig_hex := None |}.

(** The assignment after fetching, in the sp1 build. *)
Definition execute_assignment_sp1 (cfg : DaemonConfig) (key : option skey) (desc : JobDescriptor) :
    M Daemon string (option SessionEnd) :=
  job ← prepare_job cfg desc;
  if is_sp1_v2 (manifest job) then
    r ← lift (sp1_v2_result cfg job);
    _ ← mmodify count_job;
    submit_result 1 (sign_result key r)
  else
    mb ← look (fun s => tag_err "manifest" (fs_read (default ∅ (scratch s !! dir job)) "job.json"));
    x ← lift (sp1_execute_job mb job);
    _ ← mmodify count_job;
    submit_result (S (Z.to_nat (extra_submits cfg))) (sign_result key (execution_result cfg job x)).
End Sp1Worker.
