(* ===== verification/Sp1Facts.v ===== *)
(** * Facts on the SP1 tier

    The emulator guest commits what the native emulator computes, so the two builds of the
    worker agree; the judge's verdict and a verified receipt are the job's own run; and the
    coordinator that spawns these processes accepts the digest of that run.  What is assumed
    of the SDK is stated where it is used. *)

From S2P Require Import Prelude Text Mem Cpu Interp InterpFacts Run Chain Elf JobFmt ContentStore Wire Quorum Ledger Dispute ZkJudge.
From S2P Require Import Server Serve ServeFacts DispatchFacts Worker EndToEnd Sp1.

(** A decoded manifest has numbers of their width. *)
Class ManifestTyped `{Json JobManifest} : Prop := {
  manifest_u64 : forall b m, from_slice (A := JobManifest) b = Ok m -> is_u64 (m_max_instructions m);
}.

Definition typed_stdin (l : list (list Z)) : Prop := Forall (Forall is_byte) l.

(** A first part that succeeds. *)
(** ** The emulator guest *)

Section GuestFacts.
Context `{Blake3} `{Bincode} `{!BincodeLaws} `{Json JobManifest} `{!ManifestTyped}.

Lemma guest_execute_ok m e i out path :
  guest_execute m e i = Ok out <-> execute_job {| manifest := m; dir := path; job_elf := e; job_input := i |} = Ok out.
Proof.
  unfold guest_execute, execute_job. simpl. destruct (parse e) as [image|?|]; [|done..]. simpl.
  destruct (load new image) as [[[]|?|] mem]; [|done..]. done.
Qed.

(** The values of an execution have their types. *)
Lemma execute_typed job out :
  is_u64 (m_max_instructions (manifest job)) -> Forall is_byte (job_elf job) -> Forall is_byte (job_input job) ->
  execute_job job = Ok out ->
  Forall digest (chunk_hashes out) /\ is_u64 (instructions out) /\ Forall is_byte (default [] (Run.output out)).
Proof.
  intros Hmax He Hi. unfold execute_job. destruct (parse (job_elf job)) as [image|?|] eqn:Hp; [|done..]. simpl.
  pose proof (parse_post _ He) as Hpost. rewrite Hp in Hpost. destruct Hpost as (Hent & _).
  destruct (load_parsed _ _ new He Hp new_wf) as (mem & Hl & Wm & _ & Hlog). rewrite Hl.
  destruct (run _ _ _ _) as [[o|?|]|] eqn:Hr; [|done..]. intros [= ->].
  split; [by eapply run_digests|]. eapply run_typed; [..|exact Hr]; by try done.
Qed.

(** What the guest commits, in order. *)
Definition emu_values (binding : list (list Z)) (out : RunOutcome) : list Z :=
  enc c_ids binding ++ enc c_u32 (zk_status (status out)) ++ enc c_u64 (instructions out) ++
  enc c_hashes (chunk_hashes out) ++ enc c_bytes (default [] (Run.output out)).

(** A guest that ends has read the three blobs and committed the run of the job they are. *)
Lemma guest_emu_inv stdin pv :
  guest_run guest_emu stdin = Ok pv ->
  exists mb e i rest m out, stdin = mb :: e :: i :: rest /\ from_slice mb = Ok m /\
    guest_execute m e i = Ok out /\ pv = emu_values (job_binding mb e i) out.
Proof.
  unfold guest_run, guest_emu. destruct stdin as [|mb [|e [|i rest]]]; [done..|].
  unfold mbind, M_bind, io_read, lift, io_commit, mmodify. cbn [g_stdin g_public].
  destruct (from_slice mb) as [m|?|] eqn:Hm; [|done..]. simpl.
  destruct (guest_execute m e i) as [out|?|] eqn:Hx; [|done..]. simpl. intros [= <-].
  exists mb, e, i, rest, m, out. split_and!; try done. unfold emu_values. by rewrite <- !app_assoc.
Qed.

Lemma job_binding_typed mb e i : length (job_binding mb e i) = 3%nat /\ Forall digest (job_binding mb e i).
Proof. split; [done|]. repeat constructor; apply blake3_digest. Qed.

Lemma zk_status_range st : 0 <= zk_status st < 2 ^ 32.
Proof. destruct st; simpl; lia. Qed.

Lemma pv_read_back {A} (c : codec A) typed a rest :
  reads_back c typed -> typed a -> pv_read c (enc c a ++ rest) = (Ok a, rest).
Proof. intros Hc Ha. unfold pv_read. by rewrite Hc. Qed.

Lemma pv_read_end {A} (c : codec A) typed a :
  reads_back c typed -> typed a -> pv_read c (enc c a) = (Ok a, []).
Proof. intros Hc Ha. rewrite <- (app_nil_r (enc c a)). by eapply pv_read_back. Qed.

(** The job behind typed values. *)
Lemma emu_typed mb e i m out :
  Forall is_byte e -> Forall is_byte i -> from_slice mb = Ok m -> guest_execute m e i = Ok out ->
  Forall digest (chunk_hashes out) /\ is_u64 (instructions out) /\ Forall is_byte (default [] (Run.output out)).
Proof.
  intros He Hi Hm Hx%(guest_execute_ok _ _ _ _ ""). eapply execute_typed; [..|exact Hx]; simpl; try done.
  by eapply manifest_u64.
Qed.

(** The values after the binding, after the status, and so on. *)
Definition after_ids (out : RunOutcome) : list Z :=
  enc c_u32 (zk_status (status out)) ++ enc c_u64 (instructions out) ++
  enc c_hashes (chunk_hashes out) ++ enc c_bytes (default [] (Run.output out)).

(** Reading the values back, one by one. *)
Lemma emu_values_back b out :
  length b = 3%nat /\ Forall digest b ->
  Forall digest (chunk_hashes out) /\ is_u64 (instructions out) /\ Forall is_byte (default [] (Run.output out)) ->
  pv_read c_ids (emu_values b out) = (Ok b, after_ids out) /\
  forall A (k : Z -> Z -> list (list Z) -> list Z -> M (list Z) string A),
    (st ← pv_read c_u32; n ← pv_read c_u64; chain ← pv_read c_hashes; o ← pv_read c_bytes; k st n chain o) (after_ids out) =
    k (zk_status (status out)) (instructions out) (chunk_hashes out) (default [] (Run.output out)) [].
Proof.
  intros Hb (Hd & Hn & Ho). split; [eapply pv_read_back; [apply ids_back|done]|]. intros A k.
  unfold mbind, M_bind, after_ids. rewrite (pv_read_back _ _ _ _ u32_back (zk_status_range _)).
  rewrite (pv_read_back _ _ _ _ u64_back Hn), (pv_read_back _ _ _ _ hashes_back Hd).
  by rewrite (pv_read_end _ _ _ bytes_back Ho).
Qed.
End GuestFacts.

(** ** The two builds of the worker *)

Section Workers.
Context `{Blake3} `{Sha256} `{Ed25519} `{!Signer} `{Os} `{WorkerOs} `{Bincode} `{!BincodeLaws} `{!Sp1}.
Context `{Json JobManifest} `{!ManifestTyped} `{Json ClientToServer} `{Json ServerToClient} `{Json PeerToPeer}.
Context `{link : Sink} (EMU_ELF : list Z).

(** The zkVM executes a compiled guest as its source says. *)
Definition executes (elf_bytes : list Z) (main : M Guest string unit) : Prop :=
  forall stdin pv n, typed_stdin stdin -> sp1_execute elf_bytes stdin = Ok (pv, n) -> guest_run main stdin = Ok pv.

Definition native_execution (out : RunOutcome) : execution :=
  (journal (instructions out) (default [] (Run.output out)), instructions out, status_str (status out), trap_str (status out)).

Lemma build_result_execution cfg job out : build_result cfg job out = execution_result cfg job (native_execution out).
Proof. done. Qed.

(** The same execution, but for the text of a trap. *)
Definition sp1_execution (out : RunOutcome) : execution :=
  (journal (instructions out) (default [] (Run.output out)), instructions out, status_str (status out),
   match status out with Trapped _ => Some "guest exit status 2"%string | _ => None end).

Lemma sp1_execute_job_ok mb job pv n :
  executes EMU_ELF guest_emu -> typed_stdin [mb; job_elf job; job_input job] -> from_slice mb = Ok (manifest job) ->
  sp1_execute EMU_ELF [mb; job_elf job; job_input job] = Ok (pv, n) ->
  exists out, execute_job job = Ok out /\ sp1_execute_job EMU_ELF mb job = Ok (sp1_execution out).
Proof.
  intros Hex Ht Hm Hrun. pose proof (Hex _ _ _ Ht Hrun) as Hg.
  apply guest_emu_inv in Hg as (mb' & e & i & rest & m & out & [= <- <- <- <-] & Hm' & Hx & ->).
  rewrite Hm in Hm'. injection Hm' as <-. apply Forall_cons in Ht as [Hb [He [Hi _]%Forall_cons]%Forall_cons].
  exists out. split; [by apply (guest_execute_ok _ _ _ _ (dir job)) in Hx; destruct job|].
  destruct (emu_values_back (job_binding mb (job_elf job) (job_input job)) out (job_binding_typed _ _ _)
    (emu_typed _ _ _ _ _ He Hi Hm Hx)) as (R1 & R2).
  unfold sp1_execute_job. rewrite Hrun. simpl. unfold worker_committed. rewrite (bind_eq _ _ _ _ _ R1).
  rewrite bool_decide_true by done. cbn [negb].
  rewrite (R2 _ (fun st n _ o => mret (st, n, o))). simpl. unfold sp1_execution. destruct (status out); reflexivity.
Qed.

(** C20. The two builds agree: on a job of the emulator format that the zkVM executes and
    that does not trap, the sp1 build of the daemon does exactly what the native build does
    with an assignment, down to every byte sent and every state kept, given that the zkVM
    executes the compiled emulator as its source says. *)
Theorem sp1_build_agrees cfg key desc s job s1 mb pv n out :
  executes EMU_ELF guest_emu -> prepare_job cfg desc s = (Ok job, s1) -> is_sp1_v2 (manifest job) = false ->
  fs_read (default ∅ (scratch s1 !! dir job)) "job.json" = Ok mb -> typed_stdin [mb; job_elf job; job_input job] ->
  sp1_execute EMU_ELF [mb; job_elf job; job_input job] = Ok (pv, n) ->
  execute_job job = Ok out -> (forall t, status out <> Trapped t) ->
  execute_assignment_sp1 EMU_ELF cfg key desc s = execute_assignment cfg key desc s.
Proof.
  intros Hex Hprep Hv Hmb Ht Hrun Hx Hnt.
  assert (from_slice mb = Ok (manifest job)) as Hm.
  { unfold prepare_job in Hprep. apply bind_ok in Hprep as (path & s2 & [_ ->]%lift_ok & Hload).
    unfold load_into in Hload. destruct (materialize _ _ _) as [r d]. injection Hload as Hr <-.
    apply obind_ok in Hr as (u & _ & Hl%map_err_ok). pose proof (load_dir_inv _ _ _ Hl) as ((mb' & Hj & Hm') & _).
    assert (dir job = path) as Hd.
    { unfold load_dir in Hl. repeat (apply obind_ok in Hl as (? & _ & Hl) || case_match); try done. by injection Hl as <-. }
    simpl in Hmb. rewrite Hd, lookup_insert_eq in Hmb. apply fs_read_inv in Hmb as [_ Hmb]. simpl in Hmb. congruence. }
  destruct (sp1_execute_job_ok _ _ _ _ Hex Ht Hm Hrun) as (out' & Hx' & Hs). rewrite Hx in Hx'. injection Hx' as <-.
  unfold execute_assignment_sp1, execute_assignment, mbind, M_bind. rewrite Hprep, Hv.
  unfold look, lift. rewrite Hmb. simpl. rewrite Hs, Hx. unfold mmodify. rewrite build_result_execution.
  replace (sp1_execution out) with (native_execution out); [done|].
  unfold sp1_execution, native_execution. destruct (status out); done || by edestruct Hnt.
Qed.
End Workers.

(** ** The FNV guests *)

Section FnvFacts.
Context `{Blake3} `{Sha256} `{Bincode} `{!BincodeLaws} `{!Sp1}.

Lemma fnv_step_typed acc b : length (fnv_step acc b) = length acc /\
  (Forall is_u64 acc -> is_byte b -> Forall is_u64 (fnv_step acc b)).
Proof.
  destruct acc as [|a0 [|a1 [|a2 [|a3 []]]]]; try done. split; [done|]. intros Ha Hb. cbn [fnv_step].
  assert (forall x y, is_u64 (wmul x y)) as Hw by (intros; apply wrap_range; lia).
  assert (forall n x, 0 <= n <= 64 -> is_u64 x -> is_u64 (rotl n x)) as Hro.
  { intros n x Hn Hx. apply lor_range; [lia|apply wrap_range; lia|]. apply shiftr_range; [lia..|done]. }
  do 3 (constructor; [apply Hw|]). constructor; [|constructor].
  apply lxor_range; [lia|by apply Hro; [lia|apply Hw]|]. by apply (is_u_weaken 8).
Qed.

Lemma host_reference_typed inp : Forall is_byte inp -> length (host_reference inp) = 4%nat /\ Forall is_u64 (host_reference inp).
Proof.
  intros Hi. unfold host_reference.
  assert (length SEEDS = 4%nat /\ Forall is_u64 SEEDS) as Hs.
  { split; [done|]. unfold SEEDS, is_u64, is_u. repeat (constructor; [lia|]). constructor. }
  revert Hs. generalize SEEDS. induction Hi as [|b inp Hb _ IH]; intros acc [Hl Ha]; [done|].
  simpl. destruct (fnv_step_typed acc b) as [Hl' Ha']. apply IH. split; [by rewrite Hl'|by apply Ha'].
Qed.

Lemma le_words_bytes l : Forall is_byte (concat (le_bytes 8 <$> l)).
Proof. induction l as [|x l IH]; [constructor|]. rewrite fmap_cons, concat_cons. apply Forall_app. split; [apply le_bytes_range|done]. Qed.

(** The zkVM agrees with the host: when the prover proves the compiled FNV guest as its source
    says, the digest assertion of the validation holds, and only the verification is left. *)
Lemma host_validates rd full guest pk proof :
  rd "../jobs/demo-hash/input.bin"%string = Ok full -> (4096 <= length full)%nat -> Forall is_byte full ->
  rd "../elf/sp1-guest-fnv"%string = Ok guest -> sp1_setup guest = Ok pk ->
  sp1_prove pk [take 4096 full] = Ok proof -> guest_run guest_fnv [take 4096 full] = Ok (public_values proof) ->
  host_validate rd = expect (sp1_verify proof pk).
Proof.
  intros Hf Hl Hb Hg Hpk Hp Hrun. unfold host_validate. rewrite Hf. cbn [expect mbind outcome_bind].
  rewrite (proj2 (Nat.ltb_ge _ _)) by lia. change (4 * 1024)%nat with 4096%nat.
  rewrite Hg. cbn [expect mbind outcome_bind]. rewrite Hpk. cbn [expect mbind outcome_bind]. rewrite Hp. cbn [expect mbind outcome_bind].
  unfold guest_run, guest_fnv, io_read, io_commit, mbind, M_bind, mmodify in Hrun. cbn in Hrun.
  apply (f_equal ok) in Hrun. injection Hrun as <-.
  rewrite (pv_read_end _ _ _ words_back (host_reference_typed _ (Forall_take _ _ _ Hb))). cbn. by rewrite bool_decide_true.
Qed.

(** A worker's result for the V2 demo job, when the zkVM executes the compiled guest as its
    source says. *)
Lemma v2_result_ok cfg job pv n :
  executes (job_elf job) guest_v2 -> Forall is_byte (job_input job) ->
  sp1_execute (job_elf job) [job_input job] = Ok (pv, n) ->
  exists r, sp1_v2_result cfg job = Ok r /\
    result_hash r = hex (journal_digest V2_JOURNAL_COUNT (v2_fold (job_input job))) /\
    output_hex r = Some (hex (v2_fold (job_input job))) /\ r_instructions r = n.
Proof.
  intros Hex Hb Hrun. assert (guest_run guest_v2 [job_input job] = Ok pv) as Hg.
  { apply (Hex _ _ n); [|done]. by constructor. }
  unfold guest_run, guest_v2, io_read, io_commit, mbind, M_bind, mmodify in Hg. cbn in Hg. injection Hg as <-.
  unfold sp1_v2_result. rewrite Hrun. cbn [tag_err map_err mbind outcome_bind].
  rewrite (bind_eq _ _ _ _ _ (pv_read_back _ _ _ _ id_back (conj (blake3_len _) (blake3_byte _)))).
  rewrite bool_decide_true by done. cbn [negb].
  rewrite (pv_read_end _ _ _ bytes_back (le_words_bytes _ : Forall is_byte (v2_fold (job_input job)))). by eexists.
Qed.
End FnvFacts.

(** ** The judge *)

Section JudgeFacts.
Context `{Blake3} `{Sha256} `{Bincode} `{!Sp1} `{Os} `{Json JobManifest}.
Context `{Json string} `{Json (list string)} `{Json (option string)}.

(** The verdict the coordinator should read in a printed line. *)
Definition verdict_of (l : JudgeLine) : JudgeVerdict := {|
  j_ok := true; j_error := None; j_status := Some (jl_status l); j_instructions := Some (jl_instructions l);
  j_output_hex := Some (jl_output_hex l); j_vm_cycles := Some (jl_vm_cycles l);
  j_proving_secs := Some (jl_proving_secs l); j_binding := Some (jl_binding l) |}.

(** The run a verdict is about: the files read, and their execution by the linked emulator. *)
Definition judged_run (rd : string -> outcome string (list Z)) (job_dir : string) (l : JudgeLine) : Prop :=
  exists mb m e i out, rd (job_dir +:+ "/job.json")%string = Ok mb /\ from_slice mb = Ok m /\ is_sp1_v2 m = false /\
    rd (job_dir +:+ "/" +:+ elf m)%string = Ok e /\ rd (job_dir +:+ "/" +:+ input m)%string = Ok i /\
    execute_job {| manifest := m; dir := job_dir; job_elf := e; job_input := i |} = Ok out /\
    jl_status l = zk_status (status out) /\ jl_instructions l = instructions out /\
    jl_output_hex l = hex (default [] (Run.output out)) /\ jl_binding l = hex <$> job_binding mb e i.

Lemma load_job_inv rd job_dir job :
  load_job rd job_dir = Ok job ->
  exists m, rd (job_dir +:+ "/job.json")%string = Ok (zj_manifest_bytes job) /\ from_slice (zj_manifest_bytes job) = Ok m /\
    zj_v2 job = is_sp1_v2 m /\ rd (job_dir +:+ "/" +:+ elf m)%string = Ok (zj_elf job) /\
    rd (job_dir +:+ "/" +:+ input m)%string = Ok (zj_input job) /\
    zj_chunk_size job = m_chunk_size m /\ zj_max_instructions job = m_max_instructions m.
Proof.
  unfold load_job, tag_err.
  intros (mb & Hmb%map_err_ok & (m & Hm%map_err_ok & (e & He%map_err_ok & (i & Hi%map_err_ok & Hj)%obind_ok)%obind_ok)%obind_ok)%obind_ok.
  injection Hj as <-. by exists m.
Qed.

Lemma judge_committed_binding job pv st n out b :
  zj_v2 job = false -> (judge_committed job pv).1 = Ok (st, n, out, b) ->
  b = hex <$> job_binding (zj_manifest_bytes job) (zj_elf job) (zj_input job).
Proof.
  intros Hv. unfold judge_committed. rewrite Hv. unfold mbind, M_bind.
  destruct (read_committed pv) as [[[[[[c st0] n0] ch] o]|?|] rest]; [|done..].
  case_bool_decide; [|done]. by intros [= _ _ _ <-].
Qed.

(** The cross-check: the reported values are those of the local run. *)
Lemma cross_check_inv job m job_dir st n out :
  zj_v2 job = false -> zj_chunk_size job = m_chunk_size m -> zj_max_instructions job = m_max_instructions m ->
  cross_check job st n out = Ok tt ->
  exists o, execute_job {| manifest := m; dir := job_dir; job_elf := zj_elf job; job_input := zj_input job |} = Ok o /\
    st = zk_status (status o) /\ n = instructions o /\ out = default [] (Run.output o).
Proof.
  intros Hv Hc Hm. unfold cross_check, execute_job, tag_err. rewrite Hv, Hc, Hm. simpl.
  destruct (parse (zj_elf job)) as [image|?|]; [|done..]. simpl. destruct (load new image) as [[[]|?|] mem]; [|done..].
  destruct (run _ _ _ _) as [[o|?|]|]; [|done..]. case_bool_decide as Hd; [|done]. intros _. destruct Hd as (<- & <- & <-).
  by exists o.
Qed.

(** The format printed is that of the manifest read. *)
Lemma judge_run_format rd secs job_dir max_text guest rout l files :
  judge_run rd secs job_dir max_text guest rout = Ok (l, files) ->
  exists mb m, rd (job_dir +:+ "/job.json")%string = Ok mb /\ from_slice mb = Ok m /\ jl_v2 l = is_sp1_v2 m.
Proof.
  unfold judge_run. intros (bound & _ & (job & Hload & (exec & _ & ([pv cycles] & _ & (u & _ & ([[[st n] out] b] & _ & (u2 & _ &
    (proof & _ & (fs & _ & Hl)%obind_ok)%obind_ok)%obind_ok)%obind_ok)%obind_ok)%obind_ok)%obind_ok)%obind_ok)%obind_ok.
  injection Hl as <- _. destruct (load_job_inv _ _ _ Hload) as (m & Hmb & Hm & Hv & _). by eauto.
Qed.

(** The judge's verdict on a job of the emulator format is the job's own run: whatever
    the zkVM, the prover and the guest ELF do, a verdict is printed only when its status,
    instruction count and output are those of the locally linked emulator on the files of the
    job directory, with the content ids of those files, and within the cycle bound. *)
Theorem judge_run_sound rd secs job_dir max_text guest rout l files :
  judge_run rd secs job_dir max_text guest rout = Ok (l, files) ->
  jl_v2 l = false ->
  judged_run rd job_dir l /\ exists bound, parse_u64 max_text = Some bound /\ jl_vm_cycles l <= bound.
Proof.
  unfold judge_run. destruct (parse_u64 max_text) as [bound|] eqn:Hmax; [|done]. simpl.
  intros (job & Hload & (exec & _ & ([pv cycles] & _ & (u & Hvm & ([[[st n] out] b] & Hcom & (u2 & Hx &
    (proof & _ & (fs & _ & Hl)%obind_ok)%obind_ok)%obind_ok)%obind_ok)%obind_ok)%obind_ok)%obind_ok)%obind_ok.
  injection Hl as <- <-. simpl. intros Hv. destruct u2. split.
  - destruct (load_job_inv _ _ _ Hload) as (m & Hmb & Hm & Hv2 & He & Hi & Hc & Hmx).
    destruct (cross_check_inv _ m job_dir _ _ _ Hv Hc Hmx Hx) as (o & Hex & -> & -> & ->).
    exists (zj_manifest_bytes job), m, (zj_elf job), (zj_input job), o. simpl.
    split_and!; try done; [congruence|]. by eapply judge_committed_binding.
  - exists bound. split; [done|]. unfold vm_bound in Hvm. case_match; [done|]. bools. lia.
Qed.

(** ** Jobs of the second format *)

(** The V2 tier agrees with itself: on the same program and input, the digest a worker of
    the sp1 build votes for and the digest of the count and output that zk-judge prints are the
    same, and so are the outputs, whatever the guest commits; the cycle counts of the zkVM do
    not enter. *)
Theorem v2_worker_judge_agree rd secs job_dir max_text guest rout l files zj cfg job r :
  judge_run rd secs job_dir max_text guest rout = Ok (l, files) -> load_job rd job_dir = Ok zj -> zj_v2 zj = true ->
  zj_elf zj = job_elf job -> zj_input zj = job_input job -> sp1_v2_result cfg job = Ok r ->
  exists out, jl_status l = 0 /\ r_status r = "halted"%string /\ jl_output_hex l = hex out /\
    output_hex r = Some (hex out) /\ result_hash r = hex (journal_digest (jl_instructions l) out) /\
    r_chunk_hashes r = [result_hash r] /\ jl_binding l = [hex (blake3 (job_input job))].
Proof.
  intros Hj Hload Hv He Hi Hr. unfold judge_run in Hj. apply obind_ok in Hj as (bound & _ & Hj).
  rewrite Hload in Hj. simpl in Hj. rewrite Hv in Hj.
  apply obind_ok in Hj as (exec & [= <-] & ([pv cycles] & Hx%map_err_ok & (u & _ & ([[[st n] out] b] & Hcom & (u2 & _ &
    (proof & _ & (fs & _ & Hl)%obind_ok)%obind_ok)%obind_ok)%obind_ok)%obind_ok)%obind_ok).
  injection Hl as <- _. simpl. unfold judge_stdin in Hx. rewrite Hv, He, Hi in Hx.
  unfold sp1_v2_result in Hr. rewrite Hx in Hr. simpl in Hr.
  unfold judge_committed in Hcom. rewrite Hv, Hi in Hcom. unfold mbind, M_bind in Hcom, Hr.
  destruct (pv_read c_id pv) as [[id|e|] pv1]; [|done..].
  destruct (pv_read c_bytes pv1) as [[o|e|] pv2] eqn:Hb; [|done..].
  destruct (bool_decide (id = blake3 (job_input job))); [|done]. simpl in Hcom, Hr. injection Hcom as <- <- <- <-.
  rewrite Hb in Hr. injection Hr as <-. by exists o.
Qed.
End JudgeFacts.

(** ** The coordinator and its judge process *)

Section Judged.
Context `{Blake3} `{Sha256} `{Ed25519} `{!Signer} `{Os} `{NetOs} `{Procs} `{Bincode} `{!Sp1}.
Context `{Json JobManifest} `{!ManifestTyped} `{Json JudgeVerdict}.
Context `{Json ClientToServer} `{Json ServerToClient} `{Json PeerToPeer}.
Context `{Json string} `{Json (list string)} `{Json (option string)}.

(** A process reads bytes: the files of its directory, and outside files by names that leave
    it. *)
Definition sees (rd : string -> outcome string (list Z)) (job_dir : string) (files : Dir) : Prop :=
  forall name x, rd (job_dir +:+ "/" +:+ name)%string = Ok x -> resolves files name x /\ Forall is_byte x.

(** [cmd] is zk-judge: a spawned process that exits with success is it, on the files it is
    given, and the coordinator's JSON reader finds in a printed verdict the printed values. *)
Definition judge_spawned (cmd : string) : Prop :=
  forall args files p shown, spawn cmd args files = Ok p -> p_end p = Exited true shown ->
  exists rd secs, p = zk_judge_process rd secs args /\
    forall job_dir max_text guest rout l fs, args = [job_dir; max_text; guest] ++ option_list rout ->
      sees rd job_dir files /\
      (judge_run rd secs job_dir max_text guest rout = Ok (l, fs) -> from_slice (text_of (p_stdout p)) = Ok (verdict_of l)).

(** A verdict of the spawned judge is about the run of the files. *)
Lemma run_judge_judged zkj job_dir files mkdir rout disk v disk' mb m :
  judge_spawned (z_cmd zkj) -> run_judge zkj job_dir files mkdir rout disk = (Ok v, disk') ->
  fs_read files "job.json" = Ok mb -> from_slice mb = Ok m -> is_sp1_v2 m = false ->
  exists rd l, sees rd job_dir files /\ v = verdict_of l /\ judged_run rd job_dir l.
Proof.
  intros Hj. unfold run_judge. destruct (match rout with Some _ => _ | None => _ end); [|done..].
  set (args := [job_dir; _; _] ++ _). destruct (spawn (z_cmd zkj) args files) as [p|?|] eqn:Hs; [|done..].
  intros [= Hv _] Hmb Hm Hleg. unfold judge_verdict in Hv.
  destruct (p_end p) as [succ shown| |] eqn:Hend; [|by case_match|done].
  case_match; [done|]. apply obind_ok in Hv as (v0 & Hv0%map_err_ok & Hv).
  destruct (j_ok v0) eqn:Hok; [|done]. destruct succ; [|done]. injection Hv as <-. simpl in *.
  destruct (Hj args files p shown Hs Hend) as (rd & secs & -> & Hread).
  assert (zk_judge_process rd secs args =
    match judge_run rd secs job_dir (pretty (max_vm_cycles zkj)) (z_guest_elf zkj) rout with
    | Ok (l, fs) => prints true (judge_text l) fs | Err e => prints false (error_text e) ∅ | Panic => panics ∅ end) as Hp
    by (unfold args; by destruct rout).
  destruct (judge_run rd secs job_dir _ _ rout) as [[l fs]|?|] eqn:Hr; [|by rewrite Hp in Hend..].
  destruct (Hread job_dir _ _ rout l fs eq_refl) as [Hsees Hback]. rewrite (Hback Hr) in Hv0. injection Hv0 as <-.
  exists rd, l. split_and!; [done..|]. eapply judge_run_sound; [exact Hr|].
  destruct (judge_run_format _ _ _ _ _ _ _ _ Hr) as (mb' & m' & Hmb' & Hm' & ->).
  apply (Hsees "job.json"%string) in Hmb' as [Hmb' _]. unfold resolves in Hmb'. rewrite decide_True in Hmb' by apply plain_job_json.
  apply fs_read_inv in Hmb as [_ Hmb]. congruence.
Qed.

(** The judged run is the run of the descriptor's blobs. *)
Lemma judged_run_runs rd job_dir desc st d l :
  faithful -> keeps_manifest st desc ->
  materialize desc st ∅ = (Ok tt, d) -> sees rd job_dir d -> judged_run rd job_dir l ->
  exists o, runs_to desc o /\ jl_status l = zk_status (status o) /\ jl_instructions l = instructions o /\
    jl_output_hex l = hex (default [] (Run.output o)) /\ Forall is_byte (default [] (Run.output o)).
Proof.
  intros Hf Hk Hmat Hs (mb & m & e & i & out & Hmb & Hm & Hv & He & Hi & Hx & Hst & Hn & Ho & _).
  destruct (materialize_from _ _ _ _ Hf Hmat) as (mb0 & m0 & e0 & i0 & Hb & Hstm & Pe & Pi & ->).
  apply (Hs "job.json"%string) in Hmb as [Hmb _]. apply Hs in He as [He Hbe], Hi as [Hi Hbi].
  destruct (execute_typed {| manifest := m; dir := job_dir; job_elf := e; job_input := i |} out (manifest_u64 _ _ Hm) Hbe Hbi Hx) as (_ & _ & Hbo).
  exists out. split_and!; [|done..]. apply (judged_for_runs st); [done|].
  exists mb0, m0, e0, i0. split_and!; [done..|].
  unfold resolves in Hmb. rewrite decide_True in Hmb by apply plain_job_json.
  exists mb, m, e, i. by split_and!.
Qed.

(** The job is of the emulator format, as far as the store tells. *)
Definition emulator_format (desc : JobDescriptor) (st : Store) : Prop :=
  forall d mb m, fresh_dir desc st = Ok d -> fs_read d "job.json" = Ok mb -> from_slice mb = Ok m -> is_sp1_v2 m = false.

Lemma descriptor_binding_len tag desc eb : descriptor_binding tag desc = Ok eb -> length eb = 3%nat.
Proof.
  unfold descriptor_binding. intros (m & _ & (e & _ & (i & _ & Hr)%obind_ok)%obind_ok)%obind_ok. by injection Hr as <-.
Qed.

(** C10. A job of the emulator format settled by the zk judge is settled by its own run: when
    the coordinator's judge command is zk-judge, and the job is not of the V2 format (which
    zk-judge does not execute itself) and its files do not replace its manifest, an acceptance
    carries the digest and the output of running the job its descriptor names, which ended
    cleanly, and every honest result of the pool is vindicated, or a BLAKE3 collision is at
    hand.  For these jobs nothing is assumed of the zkVM, the prover or the guest ELF. *)
Theorem zk_judged_is_true_run cfg zkj st j disk h oh agreed disk' :
  zk_judge cfg = Some zkj -> judge_spawned (z_cmd zkj) -> faithful ->
  emulator_format (pj_descriptor j) st -> keeps_manifest st (pj_descriptor j) ->
  zk_judge_network cfg st j disk = (Ok (Accept h oh agreed true), disk') ->
  exists o, runs_to (pj_descriptor j) o /\ zk_status (status o) = 0 /\ h = out_digest o /\
    oh = Some (hex (default [] (Run.output o))) /\
    forall r, r ∈ results j -> honest_result (pj_descriptor j) r -> worker_id r ∈ agreed \/ exists x y, collision blake3 x y.
Proof.
  intros Hzk Hsp Hf Hleg Hk. unfold emulator_format in Hleg. unfold zk_judge_network. rewrite Hzk. unfold fresh_dir in *.
  destruct (materialize (pj_descriptor j) st ∅) as [[[]|?|] d] eqn:Hmat; [|done..].
  set (rout := _ <$> receipt_dir zkj). destruct (run_judge _ _ _ _ _ _) as [[v|?|] disk1] eqn:Hrj; [|done..].
  intros [= Hdec _]. unfold or_none in Hdec. apply map_err_ok in Hdec.
  apply obind_ok in Hdec as (eb & Heb & (mb & Hmb & (m & Hm & (dec & Hd & Hret)%obind_ok)%obind_ok)%obind_ok).
  specialize (Hleg d mb m eq_refl Hmb Hm). rewrite Hleg in Hd.
  destruct (run_judge_judged _ _ _ _ _ _ _ _ _ _ Hsp Hrj Hmb Hm Hleg) as (rd & l & Hsees & -> & Hl).
  apply judge_decision_ok in Hd as (hexes & s & n & ohx & o & _ & [= <-] & Hbind & [= <-] & [= <-] & [= <-] & Ho & ->);
    [|by eapply descriptor_binding_len].
  destruct (jl_status l =? 0) eqn:Hz; [|done]. bools. injection Hret as <- <- <-.
  destruct (judged_run_runs _ _ _ _ _ _ Hf Hk Hmat Hsees Hl) as (out & Hruns & Hst & Hn & Hoh & Hbo).
  rewrite Hoh, str_len_hex, from_hex_hex in Ho by (done || (rewrite Z.mul_comm, Z.div_mul; lia)). injection Ho as <-.
  rewrite Hn. exists out. split_and!; [done|by rewrite <- Hst|done|by rewrite Hoh|]. intros r Hin Hhon.
  destruct (honest_result_run _ _ Hhon) as (o1 & R1 & _ & C1 & _).
  destruct (runs_to_unique _ _ _ Hruns R1) as [<-|]; [left|by right].
  apply list_elem_of_fmap. exists r. split; [done|]. by apply list_elem_of_filter.
Qed.
End Judged.

(** ** Receipts *)

Lemma hex_pairs_upper l : Forall (fun c => 48 <= c < 103) l ->
  hex_pairs ((fun c => if 97 <=? c then c - 32 else c) <$> l) = hex_pairs l.
Proof.
  assert (forall c, 48 <= c < 103 -> hex_err_digit (if 97 <=? c then c - 32 else c) = hex_err_digit c) as Hd.
  { intros c Hc. destruct (Z.leb_spec 97 c); [|done]. unfold hex_err_digit.
    repeat (case_match; bools; try lia). f_equal. lia. }
  induction l as [l IH] using (induction_ltof1 _ (@length Z)). unfold ltof in IH. intros Hl.
  destruct l as [|c1 [|c2 t]]; [done..|]. cbn [fmap list_fmap hex_pairs].
  apply Forall_cons in Hl as [H1 [H2 Ht]%Forall_cons]. rewrite !Hd by done.
  change (list_fmap _ _ _ t) with ((fun c => if 97 <=? c then c - 32 else c) <$> t). by rewrite IH by (simpl; auto with lia).
Qed.

Lemma from_hex_upper b : digest b -> from_hex (hex_upper b) 32 = Ok b.
Proof.
  intros [Hl Hb]. unfold hex_upper, from_hex.
  assert (Forall is_byte ((fun c => if 97 <=? c then c - 32 else c) <$> hex_bytes b)) as Hbytes.
  { apply Forall_fmap. eapply Forall_impl; [by apply hex_bytes_ascii|]. intros c Hc. simpl in *. unfold is_byte. case_match; bools; lia. }
  unfold str_len. rewrite as_from_bytes by done. rewrite length_fmap, length_hex_bytes, Hl.
  change (negb _) with false. cbv iota. rewrite hex_pairs_upper by (by apply hex_bytes_ascii). by apply hex_pairs_hex.
Qed.

Lemma decode_ids_upper eb : Forall digest eb -> decode_ids (hex_upper <$> eb) = Ok eb.
Proof.
  unfold decode_ids. induction 1 as [|b eb Hb _ IH]; [done|]. rewrite fmap_cons. cbn [mapM].
  assert (from_hex_tag "binding hex" (hex_upper b) 32 = Ok b) as -> by (unfold from_hex_tag; by rewrite from_hex_upper).
  unfold mbind at 1, outcome_bind at 1. by rewrite IH.
Qed.

Section Receipts.
Context `{Blake3} `{TmpOs} `{Procs} `{Bincode} `{!BincodeLaws} `{!Sp1} `{Json JobManifest} `{!ManifestTyped} `{Json RVerdict}.
Context `{Json string} `{Json (list string)}.

(** The verdict the coordinator should read in a line of zk-verify. *)
Definition rverdict_of (l : VerifyLine) : RVerdict := {|
  v_ok := true; v_error := None; v_status := Some (vl_status l); v_instructions := Some (vl_instructions l);
  v_chain := Some (vl_chain l); v_output_hex := Some (vl_output_hex l) |}.

(** [cmd] is zk-verify, and [guest] the path of the compiled guest [gb]. *)
Definition verify_spawned (cmd guest : string) (gb : list Z) : Prop :=
  forall args files p shown, spawn cmd args files = Ok p -> p_end p = Exited true shown ->
  exists rd, p = zk_verify_process rd args /\ (forall x, rd guest = Ok x -> x = gb) /\
    forall receipt ids l, args = guest :: receipt :: ids ->
      verify_run rd guest receipt (Some ids) false = Ok l -> from_slice (text_of (p_stdout p)) = Ok (rverdict_of l).

(** Soundness of the proof system: what verifies against the key of a compiled guest was
    committed by a run of that guest. *)
Definition proves (elf_bytes : list Z) (main : M Guest string unit) : Prop :=
  forall pk proof, sp1_setup elf_bytes = Ok pk -> sp1_verify proof pk = Ok tt ->
  exists stdin, typed_stdin stdin /\ guest_run main stdin = Ok (public_values proof).

(** The outcome reported is that of running a job with the expected content ids. *)
Definition proven_run (eb : list (list Z)) (st n : Z) (chain : list string) (oh : string) : Prop :=
  exists mb m e i o, eb = job_binding mb e i /\ from_slice mb = Ok m /\
    execute_job {| manifest := m; dir := ""; job_elf := e; job_input := i |} = Ok o /\
    st = zk_status (status o) /\ n = instructions o /\ chain = hex <$> chunk_hashes o /\
    oh = hex (default [] (Run.output o)) /\ Forall is_byte (default [] (Run.output o)).

Lemma verify_run_proven rd guest gb receipt ids eb l :
  proves gb guest_emu -> (forall x, rd guest = Ok x -> x = gb) -> decode_ids ids = Ok eb ->
  verify_run rd guest receipt (Some ids) false = Ok l ->
  proven_run eb (vl_status l) (vl_instructions l) (vl_chain l) (vl_output_hex l).
Proof.
  intros Hsound Hg Hids. unfold verify_run. rewrite Hids. cbn [mbind outcome_bind mret outcome_ret].
  intros (proof & _ & (g & Hgb%map_err_ok%Hg & (pk & Hpk%map_err_ok & ([[[st n] out] chain] & Hv &
    (u & Hver%map_err_ok & Hl)%obind_ok)%obind_ok)%obind_ok)%obind_ok)%obind_ok.
  injection Hl as <-. subst g. destruct u. destruct (Hsound _ _ Hpk Hver) as (stdin & Ht & Hrun).
  apply guest_emu_inv in Hrun as (mb & e & i & rest & m & o & -> & Hm & Hx & Hpv).
  apply Forall_cons in Ht as [_ [He [Hi _]%Forall_cons]%Forall_cons].
  pose proof (emu_typed _ _ _ _ _ He Hi Hm Hx) as Hty.
  destruct (emu_values_back (job_binding mb e i) o (job_binding_typed _ _ _) Hty) as (R1 & R2).
  unfold receipt_values in Hv. rewrite Hpv, (bind_eq _ _ _ _ _ R1) in Hv.
  case_bool_decide as Hb; [|done]. cbn [negb] in Hv. rewrite (R2 _ (fun st n chain o => mret (st, n, o, chain))) in Hv.
  injection Hv as <- <- <- <-. exists mb, m, e, i, o. apply (guest_execute_ok _ _ _ _ "") in Hx.
  split_and!; try done. by apply Hty.
Qed.

(** The V2 mode, on the repository's V2 guest: of the ids only that of the input is compared,
    and what is reported is a halted run of 0 instructions with the output the guest commits
    for an input with that id. *)
Lemma verify_run_v2_proven rd guest gb receipt ids eb l :
  proves gb guest_v2 -> (forall x, rd guest = Ok x -> x = gb) -> decode_ids ids = Ok eb ->
  verify_run rd guest receipt (Some ids) true = Ok l ->
  exists inp, eb !! 2%nat = Some (blake3 inp) /\
    l = {| vl_status := 0; vl_instructions := V2_JOURNAL_COUNT; vl_chain := []; vl_output_hex := hex (v2_fold inp) |}.
Proof.
  intros Hsound Hg Hids. unfold verify_run. rewrite Hids. cbn [mbind outcome_bind mret outcome_ret].
  intros (proof & _ & (g & Hgb%map_err_ok%Hg & (pk & Hpk%map_err_ok & ([[[st n] out] chain] & Hv &
    (u & Hver%map_err_ok & Hl)%obind_ok)%obind_ok)%obind_ok)%obind_ok)%obind_ok.
  injection Hl as <-. subst g. destruct u. destruct (Hsound _ _ Hpk Hver) as (stdin & Ht & Hrun).
  unfold guest_run, guest_v2, io_read, io_commit, mbind, M_bind, mmodify in Hrun.
  destruct stdin as [|inp rest]; [done|]. cbn in Hrun. apply (f_equal ok) in Hrun. injection Hrun as Hpv. exists inp.
  unfold receipt_values in Hv. rewrite <- Hpv in Hv.
  rewrite (bind_eq _ _ _ _ _ (pv_read_back _ _ _ _ id_back (conj (blake3_len _) (blake3_byte _)))) in Hv.
  case_bool_decide as Hb; [|done]. cbn [negb] in Hv. split; [done|].
  rewrite (bind_eq _ _ _ _ _ (pv_read_end _ _ _ bytes_back (le_words_bytes _ : Forall is_byte (v2_fold inp)))) in Hv.
  by injection Hv as <- <- <- <-.
Qed.

(** The arguments of the coordinator's call carry no flag. *)
Lemma verify_args_plain guest name eb :
  Forall digest eb -> guest <> "--v2"%string ->
  Forall (fun a => a <> "--v2"%string) (verify_args guest name eb false).
Proof.
  intros Heb Hg. unfold verify_args. constructor; [done|]. constructor; [|simpl; apply Forall_fmap; eapply Forall_impl; [exact Heb|]].
  - unfold tmp_path. intros Heq. apply (f_equal String.length) in Heq. rewrite !string_length_app in Heq. simpl in Heq. lia.
  - intros b Hb Heq. simpl in Heq. apply from_hex_upper in Hb. rewrite Heq in Hb. vm_compute in Hb. discriminate.
Qed.

Lemma filter_all {A} (P : A -> Prop) `{!forall x, base.Decision (P x)} l : Forall P l -> filter P l = l.
Proof. induction 1 as [|x l Hx _ IH]; [done|]. by rewrite filter_cons_True, IH. Qed.

(** The outcome of verifying a receipt against the content ids of a job is that of executing
    a job with exactly those ids. *)
Lemma verify_receipt_proven cmd bytes eb guest gb t out t' :
  verify_spawned cmd guest gb -> proves gb guest_emu -> guest <> "--v2"%string ->
  length eb = 3%nat -> Forall digest eb ->
  verify_receipt cmd bytes eb guest false t = (Ok out, t') ->
  proven_run eb (ro_status out) (ro_instructions out) (ro_chunk_hashes out) (ro_output_hex out).
Proof.
  intros Hsp Hsound Hg Hlen Heb. unfold verify_receipt. case_match; [done|].
  intros (name & t1 & _ & Hrun)%bind_ok. unfold run_verifier in Hrun.
  destruct (spawn cmd _ _) as [p|?|] eqn:Hs; [|done..]. injection Hrun as Hout _.
  apply verdict_outcome_ok in Hout as (shown & v & Hend & Hv & _ & Hst & Hn & Hch & Hoh).
  destruct (Hsp _ _ _ _ Hs Hend) as (rd & -> & Hgb & Hread).
  pose proof (verify_args_plain guest name eb Heb Hg) as Hplain.
  assert (zk_verify_process rd (verify_args guest name eb false) =
    match verify_run rd guest (tmp_path name) (Some (hex_upper <$> eb)) false with
    | Ok l => prints true (verify_text l) ∅ | Err e => prints false (error_text e) ∅ | Panic => panics ∅ end) as Hp.
  { unfold zk_verify_process. rewrite bool_decide_false by (intros Hin; by rewrite Forall_forall in Hplain; apply Hplain in Hin).
    rewrite (filter_all _ _ Hplain). by destruct eb as [|b1 [|b2 [|b3 []]]]. }
  destruct (verify_run rd guest _ _ false) as [l|?|] eqn:Hr; [|by rewrite Hp in Hend..].
  rewrite (Hread (tmp_path name) (hex_upper <$> eb) l eq_refl Hr) in Hv. injection Hv as <-.
  injection Hst as <-. injection Hn as <-. injection Hch as <-. injection Hoh as <-.
  eapply verify_run_proven; [exact Hsound|exact Hgb|by apply decode_ids_upper|exact Hr].
Qed.

Lemma from_hex_tag_digest tag h b : from_hex_tag tag h 32 = Ok b -> digest b /\ from_hex h 32 = Ok b.
Proof.
  intros Hb%from_hex_tag_ok. split; [|done]. pose proof (from_hex_len _ _ _ Hb). split; [lia|by eapply from_hex_bytes].
Qed.

Lemma verify_claim_proven cmd guest gb wid bytes j t j' t' d :
  verify_spawned cmd guest gb -> proves gb guest_emu -> guest <> "--v2"%string ->
  verify_claim cmd guest wid bytes j t = (Ok j', t') -> zk_accept j = None -> zk_accept j' = Some d ->
  exists em ee ei chain oh n, from_hex (d_manifest (pj_descriptor j)) 32 = Ok em /\
    from_hex (d_elf (pj_descriptor j)) 32 = Ok ee /\ from_hex (d_input (pj_descriptor j)) 32 = Ok ei /\
    proven_run [em; ee; ei] 0 n chain oh /\ d = Accept (default ""%string (last chain)) (Some oh) [wid] true.
Proof.
  intros Hsp Hsound Hg Hv Hn Hd. unfold verify_claim in Hv.
  destruct (descriptor_binding _ _) as [eb|?|] eqn:Heb; [|injection Hv as <- _; congruence|done].
  unfold descriptor_binding, decode_hex32 in Heb.
  apply obind_ok in Heb as (em & [Dm Hm]%from_hex_tag_digest & (ee & [De He]%from_hex_tag_digest & (ei & [Di Hi]%from_hex_tag_digest & [= <-])%obind_ok)%obind_ok).
  destruct (verify_receipt _ _ _ _ _ _) as [[out|?|] t1] eqn:Hr; [|injection Hv as <- _; congruence|done].
  injection Hv as Hv _. unfold receipt_decision in Hv. destruct (ro_status out =? 0) eqn:Hst; [|injection Hv as <-; congruence].
  bools. apply obind_ok in Hv as (acc & (u & _ & [= <-])%obind_ok & [= <-]). simpl in Hd. injection Hd as <-.
  exists em, ee, ei, (ro_chunk_hashes out), (ro_output_hex out), (ro_instructions out). split_and!; try done.
  rewrite <- Hst. eapply verify_receipt_proven; [exact Hsp|exact Hsound|exact Hg|done| |exact Hr]. by do 3 (constructor; [done|]).
Qed.

(** C11. A job accepted on a worker's receipt is accepted on its run: when the coordinator's
    verifier command is zk-verify on the compiled emulator guest and the proof system is
    sound for that guest, a receipt claim decides the pending job only with the last link of
    the hash chain and the output of a clean execution of a job with exactly the content ids
    of the pending job's descriptor, whatever the claiming worker sends. *)
Theorem receipt_claim_proves_run `{Sha256} `{Ed25519} `{Json JobDescriptor} cfg cmd guest gb conn wid jid pk sg rc s u s' j j' d :
  zk cfg = Some (cmd, guest) -> verify_spawned cmd guest gb -> proves gb guest_emu -> guest <> "--v2"%string ->
  on_receipt_claim cfg conn wid jid pk sg rc s = (Ok u, s') -> pending s = Some j -> zk_accept j = None ->
  pending s' = Some j' -> zk_accept j' = Some d ->
  exists em ee ei chain oh n, from_hex (d_manifest (pj_descriptor j)) 32 = Ok em /\
    from_hex (d_elf (pj_descriptor j)) 32 = Ok ee /\ from_hex (d_input (pj_descriptor j)) 32 = Ok ei /\
    proven_run [em; ee; ei] 0 n chain oh /\ d = Accept (default ""%string (last chain)) (Some oh) [wid] true.
Proof.
  intros Hzk Hsp Hsound Hg Hc Hp Hn Hp' Hd. unfold on_receipt_claim in Hc.
  assert (s' <> s) as Hsame by (intros ->; congruence).
  destruct (conns s !! conn) as [c|]; [|by injection Hc as _ Hc; destruct (Hsame (eq_sym Hc))].
  do 3 (case_match; [by injection Hc as _ Hc; destruct (Hsame (eq_sym Hc))|]). unfold handle_receipt_claim in Hc. rewrite Hzk in Hc.
  case_match; [by injection Hc as _ Hc; destruct (Hsame (eq_sym Hc))|]. destruct (from_hex rc _) as [bytes|?|]; [|by injection Hc as _ Hc; destruct (Hsame (eq_sym Hc))|done].
  destruct (verify_claim_sig _ _ _ _); [|by injection Hc as _ Hc; destruct (Hsame (eq_sym Hc))|done]. rewrite Hp in Hc.
  do 2 (case_match; [by injection Hc as _ Hc; destruct (Hsame (eq_sym Hc))|]). destruct (receipt_claim_gate _ _) as [[] claimed]; [|by injection Hc as _ Hc; destruct (Hsame (eq_sym Hc))].
  destruct (verify_claim _ _ _ _ _ _) as [[j2|?|] t] eqn:Hv; [|done..]. injection Hc as _ <-. simpl in Hp'. injection Hp' as <-.
  exact (verify_claim_proven _ _ _ _ _ _ _ _ _ _ Hsp Hsound Hg Hv Hn Hd).
Qed.
End Receipts.
