(* ===== verification/Sp1Demo.v ===== *)
(** * Executions of the SP1 tier

    A zkVM that executes the emulator guest as its source says, whose proofs are the inputs
    of the guest, with the judge and the verifier as the processes of a coordinator. *)

From S2P Require Import Prelude Text Mem Cpu Interp InterpFacts Run Chain Elf JobFmt ContentStore Wire Quorum Ledger Dispute ZkJudge.
From S2P Require Import Server Serve ServeFacts DispatchFacts Worker EndToEnd NetDemo EndDemo Sp1 Sp1Facts.

#[local] Existing Instances toy_blake3 toy_sha256 toy_ed25519 toy_os toy_net toy_tmp toy_sink toy_signer toy_wos.

(** ** Codecs *)

(** One symbol per value. *)
Definition symbol_codec A `{Countable A} : codec A := {|
  enc a := [Z.pos (encode a)];
  dec l := match l with Z.pos p :: t => (fun a => (a, t)) <$> decode p | _ => None end |}.

Lemma symbol_back A `{Countable A} typed : reads_back (symbol_codec A) typed.
Proof. intros a rest _. simpl. by rewrite decode_encode. Qed.

#[local] Instance toy_bincode : Bincode := {|
  c_ids := symbol_codec _; c_id := symbol_codec _; c_u32 := symbol_codec _; c_u64 := symbol_codec _;
  c_hashes := symbol_codec _; c_bytes := symbol_codec _; c_words := symbol_codec _ |}.

#[local] Instance toy_bincode_laws : BincodeLaws.
Proof. constructor; apply symbol_back. Qed.

(** Manifests with a number out of its width do not decode. *)
#[local] Instance s1 : Json JobManifest := {|
  to_vec := @to_vec _ (toy_json JobManifest);
  to_vec_pretty := @to_vec_pretty _ (toy_json JobManifest);
  from_slice l :=
    m ← @from_slice _ (toy_json JobManifest) l;
    if bool_decide (is_u64 (m_max_instructions m)) then Ok m else Err "number out of range"%string |}.

#[local] Instance s1_typed : ManifestTyped.
Proof.
  constructor. intros b m Hm. simpl in Hm. apply obind_ok in Hm as (m' & _ & Hm). case_bool_decide as Hb; [|done].
  by injection Hm as <-.
Qed.

#[local] Instance s2 : Json JobDescriptor := toy_json _.
#[local] Instance s8 : Json ClientToServer := tight_json _.
#[local] Instance s9 : Json ServerToClient := tight_json _.
#[local] Instance s10 : Json PeerToPeer := tight_json _.
#[local] Instance s11 : Json string := tight_json _.
#[local] Instance s12 : Json (list string) := tight_json _.
#[local] Instance s13 : Json (option string) := tight_json _.

(** ** The zkVM *)

Definition emu_elf : list Z := [1; 2; 3].

#[local] Instance bytes_dec (l : list (list Z)) : base.Decision (typed_stdin l).
Proof. unfold typed_stdin, is_byte. apply _. Defined.

Definition run_emu (elf_bytes : list Z) (stdin : list (list Z)) : outcome string (list Z) :=
  if bool_decide (elf_bytes = emu_elf /\ typed_stdin stdin) then
    match guest_run guest_emu stdin with Ok pv => Ok pv | _ => Err "guest failed"%string end
  else Err "no such guest"%string.

(** A proof is the input it is about. *)
#[local] Instance toy_sp1 : Sp1 := {|
  proving_key := list Z; sp1_proof := list (list Z);
  sp1_execute elf_bytes stdin := pv ← run_emu elf_bytes stdin; mret (pv, 100);
  sp1_setup := Ok;
  sp1_prove pk stdin := _ ← run_emu pk stdin; mret stdin;
  sp1_verify proof pk := _ ← run_emu pk proof; mret tt;
  public_values proof := default [] (ok (run_emu emu_elf proof));
  proof_bytes := @to_vec _ (toy_json (list (list Z)));
  proof_load := @from_slice _ (toy_json (list (list Z))) |}.

Lemma run_emu_ok elf_bytes stdin pv :
  run_emu elf_bytes stdin = Ok pv -> elf_bytes = emu_elf /\ typed_stdin stdin /\ guest_run guest_emu stdin = Ok pv.
Proof. unfold run_emu. case_bool_decide as Hd; [|done]. destruct (guest_run _ _); [|done..]. intros [= ->]. by destruct Hd. Qed.

Lemma toy_executes : executes emu_elf guest_emu.
Proof. intros stdin pv n _ (pv' & Hr & [= -> _])%obind_ok. by apply run_emu_ok in Hr as (_ & _ & Hr). Qed.

Lemma toy_proves : proves emu_elf guest_emu.
Proof.
  intros pk proof [= <-] (pv & Hr & _)%obind_ok. exists proof. simpl. rewrite Hr.
  by apply run_emu_ok in Hr as (_ & Ht & Hr).
Qed.

(** ** The two builds of the worker *)

Definition sp1_job : Job := {|
  manifest := demo_manifest; dir := job_path (worker_cfg "w1") job_desc; job_elf := demo_job_elf; job_input := [] |}.

Definition prepared : Daemon := (prepare_job (worker_cfg "w1") job_desc idle_worker).2.

Lemma demo_executes : exists pv, sp1_execute emu_elf [demo_mb; demo_job_elf; []] = Ok (pv, 100).
Proof.
  assert (bool_decide (is_Some (ok (run_emu emu_elf [demo_mb; demo_job_elf; []]))) = true) as Hok by (vm_compute; reflexivity).
  apply bool_decide_eq_true in Hok as [pv Hpv]. exists pv. unfold sp1_execute, toy_sp1.
  destruct (run_emu emu_elf _); [|done..]. injection Hpv as ->. reflexivity.
Qed.

Lemma prepared_ok : prepare_job (worker_cfg "w1") job_desc idle_worker = (Ok sp1_job, prepared).
Proof. unfold prepared. apply ok_pair. vm_compute. reflexivity. Qed.

Lemma prepared_manifest : fs_read (default ∅ (scratch prepared !! dir sp1_job)) "job.json" = Ok demo_mb.
Proof. apply (bool_decide_unpack _). vm_compute. exact I. Qed.

Lemma demo_typed : typed_stdin [demo_mb; demo_job_elf; []].
Proof. apply (bool_decide_unpack _). vm_compute. exact I. Qed.

Lemma demo_native : execute_job sp1_job = Ok job_out /\ forall t, status job_out <> Trapped t.
Proof. split; [vm_compute; reflexivity|vm_compute; discriminate]. Qed.

Lemma sp1_build_agrees_witness :
  execute_assignment_sp1 emu_elf (worker_cfg "w1") demo_key job_desc idle_worker =
  execute_assignment (worker_cfg "w1") demo_key job_desc idle_worker.
Proof.
  destruct demo_executes as [pv Hpv].
  apply (sp1_build_agrees emu_elf (worker_cfg "w1") demo_key job_desc idle_worker sp1_job prepared demo_mb pv 100 job_out).
  - exact toy_executes.
  - exact prepared_ok.
  - reflexivity.
  - exact prepared_manifest.
  - exact demo_typed.
  - exact Hpv.
  - exact (proj1 demo_native).
  - exact (proj2 demo_native).
Defined.

(** ** The processes *)

Definition judge_dir : string := "p2pc-zkjudge-demo".

(** What the judge finds on the disk. *)
Definition judge_rd (path : string) : outcome string (list Z) :=
  if bool_decide (path = "p2pc-zkjudge-demo/job.json"%string) then Ok demo_mb
  else if bool_decide (path = "p2pc-zkjudge-demo/program.elf"%string) then Ok demo_job_elf
  else if bool_decide (path = "p2pc-zkjudge-demo/input.bin"%string) then Ok []
  else if bool_decide (path = "emu.elf"%string) then Ok emu_elf
  else Err "No such file"%string.

Definition judge_args : list string := [judge_dir; "10000"; "emu.elf"]%string.
Definition judge_files : Dir := default ∅ (ok (fresh_dir job_desc job_store)).

Definition judge_proc : proc_run := zk_judge_process judge_rd "1.5" judge_args.

Definition line_of {A} (d : A) (r : outcome string (A * Dir)) : A := match r with Ok (l, _) => l | _ => d end.

Definition judge_line : JudgeLine :=
  line_of (mkLine 9 9 "" 9 "" [] false None) (judge_run judge_rd "1.5" judge_dir "10000" "emu.elf" None).

(** A reader that knows one text. *)
Definition one_text {A} (text : list Z) (a : A) : Json A := {|
  to_vec _ := []; to_vec_pretty _ := [];
  from_slice l := if bool_decide (l = text) then Ok a else Err "bad json"%string |}.

Lemma one_text_read {A} text (a : A) : @from_slice _ (one_text text a) text = Ok a.
Proof. unfold from_slice, one_text. by rewrite bool_decide_true. Qed.

#[local] Instance s3 : Json JudgeVerdict := one_text (text_of (p_stdout judge_proc)) (verdict_of judge_line).

(** A receipt for the job, the verifier's arguments and files, and what it prints. *)
Definition demo_receipt : list Z := proof_bytes [demo_mb; demo_job_elf; []].
Definition receipt_path : string := receipt_name 0.
Definition verifier_args : list string :=
  verify_args "emu.elf" receipt_path [blake3 demo_mb; blake3 demo_job_elf; blake3 []] false.
Definition verifier_files : Dir := <[receipt_path := demo_receipt]> (tmp_files tmp0).

Definition verifier_rd (path : string) : outcome string (list Z) :=
  if bool_decide (path = tmp_path receipt_path) then Ok demo_receipt
  else if bool_decide (path = "emu.elf"%string) then Ok emu_elf
  else Err "No such file"%string.

Definition verifier_proc : proc_run := zk_verify_process verifier_rd verifier_args.

Definition verifier_line : VerifyLine :=
  default (mkVerifyLine 9 9 [] "")
    (ok (verify_run verifier_rd "emu.elf" (tmp_path receipt_path) (Some (drop 2 verifier_args)) false)).

Lemma verifier_line_of l :
  verify_run verifier_rd "emu.elf" (tmp_path receipt_path) (Some (drop 2 verifier_args)) false = Ok l -> l = verifier_line.
Proof. intros Hr. unfold verifier_line. rewrite Hr. reflexivity. Qed.

#[local] Instance s4 : Json RVerdict := one_text (text_of (p_stdout verifier_proc)) (rverdict_of verifier_line).

#[local] Instance sp1_procs : Procs := {|
  spawn cmd args files :=
    if bool_decide (cmd = "zk-judge"%string /\ args = judge_args /\ files = judge_files) then Ok judge_proc
    else if bool_decide (cmd = "zk-verify"%string /\ args = verifier_args /\ files = verifier_files) then Ok verifier_proc
    else Err "no such program"%string |}.

Lemma same_file (a b : option (list Z)) : bool_decide (a = b) = true -> a = b.
Proof. apply bool_decide_eq_true_1. Qed.

Lemma judge_files_read name x : judge_rd (judge_dir +:+ "/" +:+ name)%string = Ok x -> resolves judge_files name x /\ Forall is_byte x.
Proof.
  pose proof demo_typed as [Hb [He _]%Forall_cons]%Forall_cons.
  unfold judge_rd. case_bool_decide as Hn; [|clear Hn; case_bool_decide as Hn; [|clear Hn; case_bool_decide as Hn;
    [|clear Hn; case_bool_decide as Hn; [|done]]]]; intros [= <-].
  - assert (name = "job.json"%string) as -> by (injection Hn; intros E; exact E). split; [|exact Hb].
    unfold resolves. rewrite decide_True by apply plain_job_json. apply same_file. vm_compute. reflexivity.
  - assert (name = "program.elf"%string) as -> by (injection Hn; intros E; exact E). split; [|exact He].
    unfold resolves. rewrite decide_True by (apply (bool_decide_unpack _); vm_compute; exact I).
    apply same_file. vm_compute. reflexivity.
  - assert (name = "input.bin"%string) as -> by (injection Hn; intros E; exact E). split; [|constructor].
    unfold resolves. rewrite decide_True by (apply (bool_decide_unpack _); vm_compute; exact I).
    apply same_file. vm_compute. reflexivity.
  - cbn in Hn. discriminate Hn.
Qed.

Lemma ok_inj {E A} (a b : A) : Ok (E := E) a = Ok b -> a = b.
Proof. by intros [= ->]. Qed.

Lemma demo_judge_spawned : judge_spawned "zk-judge".
Proof.
  intros args files p shown Hs _. unfold spawn, sp1_procs in Hs. case_bool_decide as Hd; [|by case_bool_decide as Hd'; [destruct Hd'|]].
  destruct Hd as (_ & -> & ->). apply ok_inj in Hs as <-. exists judge_rd, "1.5"%string. split; [done|].
  intros jd mt g rout l fs Hargs. unfold judge_args in Hargs. destruct rout as [r|]; [discriminate Hargs|].
  injection Hargs as <- <- <-. split; [exact judge_files_read|]. intros Hr.
  assert (l = judge_line) as -> by (unfold judge_line; rewrite Hr; reflexivity). apply one_text_read.
Qed.

Definition zk_cfg : ServeConfig := {|
  per_job_deadline := 1000; ledger_path := None; require_identity := true; zk := Some ("zk-verify", "emu.elf")%string;
  zk_judge := Some {| z_cmd := "zk-judge"; z_guest_elf := "emu.elf"; max_vm_cycles := 10000; z_timeout := "1800s";
                      receipt_dir := None; verify_cmd := None |};
  zk_prover := None; accept_submissions := true; results_dir := None; identity_pow_bits := 0;
  cfg_pool := Some 3%nat; max_jobs := None; round1_size := None; round1_ids := None |}.

Lemma demo_judged :
  (zk_judge_network zk_cfg job_store disputed_job ∅).1 = Ok (Accept job_truth (Some ""%string) ["w1"%string] true).
Proof. vm_compute. reflexivity. Qed.

Lemma demo_legacy d mb m :
  fresh_dir job_desc job_store = Ok d -> fs_read d "job.json" = Ok mb -> from_slice mb = Ok m -> is_sp1_v2 m = false.
Proof.
  intros Hd Hmb Hm. assert (d = judge_files) as -> by (unfold judge_files; rewrite Hd; reflexivity).
  apply fs_read_inv in Hmb as [_ Hmb].
  assert (judge_files !! "job.json"%string = Some demo_mb) as Hj by (apply same_file; vm_compute; reflexivity).
  rewrite Hj in Hmb. injection Hmb as <-.
  assert (bool_decide (ok (from_slice (A := JobManifest) demo_mb) = Some demo_manifest) = true) as Hx%bool_decide_eq_true_1
    by (vm_compute; reflexivity).
  rewrite Hm in Hx. by injection Hx as ->.
Qed.

Lemma demo_keeps : keeps_manifest job_store job_desc.
Proof.
  intros mb m (mid & Hid & Hmb & Hm).
  assert (bool_decide ((mid ← ok (cid_from_hex (d_manifest job_desc)); mb ← ok (get_blob job_store mid);
    ok (from_slice (A := JobManifest) mb)) = Some demo_manifest) = true) as Hx%bool_decide_eq_true_1 by (vm_compute; reflexivity).
  rewrite Hid in Hx. cbn [ok mbind option_bind] in Hx. rewrite Hmb in Hx. cbn [ok mbind option_bind] in Hx. rewrite Hm in Hx.
  injection Hx as ->. split; discriminate.
Qed.

Lemma any_ok_pair {S E A} (p : outcome E A * S) a : p.1 = Ok a -> p = (Ok a, p.2).
Proof. intros <-. apply surjective_pairing. Qed.

Lemma zk_judged_is_true_run_witness :
  exists o, runs_to job_desc o /\ job_truth = out_digest o /\ Some ""%string = Some (hex (default [] (Run.output o))).
Proof.
  destruct (zk_judged_is_true_run zk_cfg {| z_cmd := "zk-judge"; z_guest_elf := "emu.elf"; max_vm_cycles := 10000;
      z_timeout := "1800s"; receipt_dir := None; verify_cmd := None |} job_store disputed_job ∅
      job_truth (Some ""%string) ["w1"%string] (zk_judge_network zk_cfg job_store disputed_job ∅).2)
    as (o & Hr & _ & Hh & Ho & _).
  - reflexivity.
  - exact demo_judge_spawned.
  - exact toy_faithful.
  - intros d mb m Hd Hmb Hm. exact (demo_legacy d mb m Hd Hmb Hm).
  - exact demo_keeps.
  - exact (any_ok_pair _ _ demo_judged).
  - exists o. split; [exact Hr|]. split; [exact Hh|exact Ho].
Defined.

Lemma demo_verify_spawned : verify_spawned "zk-verify" "emu.elf" emu_elf.
Proof.
  intros args files p shown Hs _. unfold spawn, sp1_procs in Hs. case_bool_decide as Hd'; [by destruct Hd'|clear Hd'].
  case_bool_decide as Hd; [|done]. destruct Hd as (_ & -> & _). apply ok_inj in Hs as <-.
  exists verifier_rd. split; [done|]. split.
  - intros x Hx. unfold verifier_rd in Hx. case_bool_decide as Hp; [by exfalso; vm_compute in Hp|clear Hp].
    rewrite bool_decide_true in Hx by done. by apply ok_inj in Hx as <-.
  - intros receipt ids l Hargs Hr. unfold verifier_args, verify_args in Hargs. injection Hargs as <- <-.
    assert (l = verifier_line) as -> by exact (verifier_line_of l Hr). apply one_text_read.
Qed.

(** A worker with the receipt, on the job dispatched to it. *)
Definition claim_job : PendingJob := mkJob job_desc None "demo.desc.json" true false ["w1"%string] [] [] 0 None [] [].

Definition claim_server : Server :=
  set_pending (Some claim_job)
    (set_conns (insert 1 (mkConn [] (Some (key_of 1)) None "w1" true None "10.0.0.1" "worker" 0))
       (init_server job_store ∅ ∅ NotFound tmp0 ∅)).

Definition claimed_server : Server :=
  (on_receipt_claim zk_cfg 1 "w1" "demo" (key_of 1) good_sig (hex demo_receipt) claim_server).2.

Definition chain_tip : string := default ""%string (last (vl_chain verifier_line)).

Lemma demo_claimed :
  (on_receipt_claim zk_cfg 1 "w1" "demo" (key_of 1) good_sig (hex demo_receipt) claim_server).1 = Ok tt /\
  (pending claimed_server ≫= zk_accept) = Some (Accept chain_tip (Some ""%string) ["w1"%string] true).
Proof. split; vm_compute; reflexivity. Qed.

Lemma receipt_claim_proves_run_witness :
  exists em ee ei chain oh n, from_hex (d_manifest job_desc) 32 = Ok em /\
    from_hex (d_elf job_desc) 32 = Ok ee /\ from_hex (d_input job_desc) 32 = Ok ei /\ proven_run [em; ee; ei] 0 n chain oh /\
    Accept chain_tip (Some ""%string) ["w1"%string] true = Accept (default ""%string (last chain)) (Some oh) ["w1"%string] true.
Proof.
  destruct demo_claimed as [Hok Hacc]. destruct (pending claimed_server) as [j'|] eqn:Hp; [|discriminate Hacc].
  apply (receipt_claim_proves_run zk_cfg "zk-verify" "emu.elf" emu_elf 1 "w1" "demo" (key_of 1) good_sig (hex demo_receipt)
    claim_server tt claimed_server claim_job j').
  - reflexivity.
  - exact demo_verify_spawned.
  - exact toy_proves.
  - discriminate.
  - exact (any_ok_pair _ _ Hok).
  - reflexivity.
  - reflexivity.
  - exact Hp.
  - exact Hacc.
Defined.

(** ** What the code does *)

(** A receipt accepts the job under the last link of its hash chain, a quorum and both judges
    under the digest of its journal: one job, two hashes. *)
Lemma receipt_hash_is_not_the_digest :
  (pending claimed_server ≫= zk_accept) = Some (Accept chain_tip (Some ""%string) ["w1"%string] true) /\
  (zk_judge_network zk_cfg job_store disputed_job ∅).1 = Ok (Accept job_truth (Some ""%string) ["w1"%string] true) /\
  chain_tip <> job_truth.
Proof. split; [apply demo_claimed|]. split; [apply demo_judged|]. vm_compute. discriminate. Qed.

(** ** The V2 demo job *)

Definition v2_manifest : JobManifest := {|
  schema := 1; m_id := "v2"; m_name := "v2"; isa := "rv64imc"; format := Some "sp1-v2"%string;
  toolchain := "t"; m_chunk_size := 2; m_max_instructions := 100; verification_class := "a";
  elf := "program.elf"; input := "input.bin" |}.

Definition v2_job : Job := {| manifest := v2_manifest; dir := "v2"; job_elf := [9; 9]; job_input := [1; 2; 3] |}.

(** A zkVM that knows the V2 demo guest. *)
Definition run_v2 (elf_bytes : list Z) (stdin : list (list Z)) : outcome string (list Z) :=
  if bool_decide (elf_bytes = [9; 9]) then guest_run guest_v2 stdin else Err "no such guest"%string.

Definition v2_sp1 : Sp1 := {|
  proving_key := list Z; sp1_proof := list (list Z);
  sp1_execute elf_bytes stdin := pv ← run_v2 elf_bytes stdin; mret (pv, 777);
  sp1_setup := Ok;
  sp1_prove pk stdin := _ ← run_v2 pk stdin; mret stdin;
  sp1_verify proof pk := _ ← run_v2 pk proof; mret tt;
  public_values proof := default [] (ok (run_v2 [9; 9] proof));
  proof_bytes := @to_vec _ (toy_json (list (list Z)));
  proof_load := @from_slice _ (toy_json (list (list Z))) |}.

Definition v2_rd (path : string) : outcome string (list Z) :=
  if bool_decide (path = "v2/job.json"%string) then Ok (to_vec v2_manifest)
  else if bool_decide (path = "v2/program.elf"%string) then Ok [9; 9]
  else if bool_decide (path = "v2/input.bin"%string) then Ok [1; 2; 3]
  else Err "No such file"%string.

Definition v2_line : JudgeLine :=
  mkLine 0 0 (hex (v2_fold [1; 2; 3])) 777 "1.5" [hex (blake3 [1; 2; 3])] true None.

Definition v2_result : WorkerResult :=
  default (honest_vote "w1" 1) (ok (@sp1_v2_result _ _ _ v2_sp1 (worker_cfg "w1") v2_job)).

Lemma v2_judged :
  @judge_run _ _ v2_sp1 _ _ v2_rd "1.5" "v2" "1000" "none" None = Ok (v2_line, ∅) /\
  @load_job _ v2_rd "v2" = Ok (mkZkJob (to_vec v2_manifest) [9; 9] [1; 2; 3] (m_chunk_size v2_manifest) (m_max_instructions v2_manifest) true) /\
  @sp1_v2_result _ _ _ v2_sp1 (worker_cfg "w1") v2_job = Ok v2_result.
Proof. split; [vm_compute; reflexivity|]. split; vm_compute; reflexivity. Qed.

Lemma v2_worker_judge_agree_witness :
  exists out, jl_status v2_line = 0 /\ r_status v2_result = "halted"%string /\ jl_output_hex v2_line = hex out /\
    output_hex v2_result = Some (hex out) /\ result_hash v2_result = hex (journal_digest (jl_instructions v2_line) out) /\
    r_chunk_hashes v2_result = [result_hash v2_result] /\ jl_binding v2_line = [hex (blake3 [1; 2; 3])].
Proof.
  destruct v2_judged as (Hj & Hl & Hr).
  apply (@v2_worker_judge_agree _ _ _ v2_sp1 _ _ v2_rd "1.5" "v2" "1000" "none" None v2_line ∅ _ (worker_cfg "w1") v2_job v2_result Hj Hl).
  - reflexivity.
  - reflexivity.
  - reflexivity.
  - exact Hr.
Defined.
