(* ===== verification/Jobkit.v ===== *)
(** * The job owner's tool (crates/jobkit/src/main.rs)

    [jobkit build], [submit], [evidence] and [verify].  [Err] is a message on standard error
    and exit code 1, [Panic] a panic; the commands that are run, the connection and the files
    outside the job directory are parameters.  [jobkit new], which copies templates, is in
    [Scaffold]. *)

From S2P Require Import Prelude Text Mem Cpu Interp Run Elf JobFmt ContentStore Wire Quorum Dispute ZkJudge.
From S2P Require Import Server Serve Worker.

(** ** Building *)

(** Running a command in a directory: whether it exits with success. *)
Class Commands : Type := {
  cmd_status : string -> string -> list string -> outcome string bool;
}.

(** An entry of a directory listing: its name, whether it is a file and its length, and what
    reading it gives. *)
Record Entry : Type := mkEntry {
  en_name : string;
  en_meta : option (bool * Z);
  en_read : outcome string (list Z);
}.

Definition built_elf (e : Entry) : bool :=
  match extension (en_name e) with None | Some [] => true | Some _ => false end &&
  match en_meta e with Some (is_file, len) => is_file && (4 <? len) | None => false end.

(** The surroundings of a build: the listing of the release directory, and for the SP1
    pipeline whether the guest crate is there, the outcome of creating and resolving its
    directories (the three mounted paths), the path of the checked-in Dockerfile and the root. *)
Record BuildEnv : Type := mkBuildEnv {
  release_dir : outcome string (list Entry);
  guest_crate : bool;
  guest_dirs : outcome string (string * string * string);
  dockerfile : string;
  repo_root : string;
}.

Definition TOOLCHAIN_IMAGE : string := "provework/sp1-toolchain:v2".

(** [strip_prefix] of the extended-length prefix of Windows *)
Definition docker_path (p : string) : string :=
  let l := as_bytes p in
  if bool_decide (take 4 l = [92; 92; 63; 92]) then from_bytes (drop 4 l) else p.

Section Build.
Context `{Blake3} `{Os} `{Commands} `{Json JobManifest}.

Definition succeeds (r : outcome string bool) : bool := match r with Ok b => b | _ => false end.

Definition docker_available : bool := succeeds (cmd_status "" "docker" ["info"%string]).

Definition ensure_toolchain_image (env : BuildEnv) : outcome string unit :=
  if succeeds (cmd_status "" "docker" ["image"; "inspect"; TOOLCHAIN_IMAGE]%string) then Ok tt
  else
    st ← expect (cmd_status "" "docker" ["build"; "-f"; dockerfile env; "-t"; TOOLCHAIN_IMAGE; repo_root env]%string);
    if st : bool then Ok tt else Err "error: toolchain image build failed"%string.

(** The arguments of the containerised build. *)
Definition docker_args (guest target cache : string) : list string :=
  ["run"; "--rm"; "-v"; docker_path guest +:+ ":/build/job"; "-v"; docker_path cache +:+ ":/build/cargo-home";
   "-v"; docker_path target +:+ ":/build/target"; "-e"; "CARGO_HOME=/build/cargo-home";
   "-e"; "CARGO_TARGET_DIR=/build/target"; "-w"; "/build/job"; TOOLCHAIN_IMAGE; "cargo"; "prove"; "build"]%string.

(** The first entry of the release directory that can be the program. *)
Definition find_built (env : BuildEnv) (elf_dir : string) : outcome string (list Z) :=
  entries ← expect (release_dir env);
  match list_find (fun e => built_elf e = true) entries with
  | Some (_, e) => expect (en_read e)
  | None => Err ("error: built ELF not found in " +:+ os_debug elf_dir)%string
  end.

(** [std::fs::copy(&built, dir.join("program.elf")).expect(..)] *)
Definition install_elf (bytes : list Z) : M Dir string unit := fun d =>
  let '(r, d') := fs_write "program.elf" bytes d in (expect r, d').

(** The local SP1 toolchain when there is one, the container otherwise. *)
Definition prove_build (env : BuildEnv) (crate guest target cache : string) : outcome string bool :=
  if succeeds (cmd_status "" "cargo" ["prove"; "--version"]%string) then
    expect (cmd_status crate "cargo" ["prove"; "build"]%string)
  else if negb docker_available then
    Err "error: Docker daemon not found. Install Docker or run on Linux with the SP1 toolchain in PATH to build SP1 V2 ELFs."%string
  else
    _ ← ensure_toolchain_image env;
    expect (cmd_status "" "docker" (docker_args guest target cache)).

(** The printed content id of the guest. *)
Definition build_v2 (env : BuildEnv) (dir : string) : M Dir string (list Z) :=
  let crate := (dir +:+ "/guest")%string in
  if negb (guest_crate env) then
    Prelude.mfail ("error: no guest crate at " +:+ crate +:+ " (is this a V2 job?)")%string
  else
    '(guest, target, cache) ← lift (expect (guest_dirs env));
    st ← lift (prove_build env crate guest target cache);
    if negb st then Prelude.mfail "error: V2 guest build failed"%string
    else
      bytes ← lift (find_built env (crate +:+ "/target/elf-compilation/riscv64im-succinct-zkvm-elf/release"));
      _ ← install_elf bytes;
      mret (blake3 bytes).

(** The emulator pipeline: the image is validated before it is installed. *)
Definition build_legacy (env : BuildEnv) (dir : string) : M Dir string unit :=
  st ← lift (expect (cmd_status dir "cargo" ["build"; "--release"]%string));
  if negb st then Prelude.mfail "error: build failed"%string
  else
    bytes ← lift (find_built env (dir +:+ "/target/riscv64imac-unknown-none-elf/release"));
    _ ← lift (map_err (fun e => "error: built ELF rejected by the loader contract: " +:+ e)%string (parse bytes));
    install_elf bytes.

(** The manifest selects the pipeline; one that cannot be read or parsed selects the
    emulator's.  The content id is what the SP1 pipeline prints. *)
Definition build_job (env : BuildEnv) (dir : string) : M Dir string (option (list Z)) := fun d =>
  let v2 := match (b ← fs_read d "job.json"; from_slice (A := JobManifest) b) with
            | Ok m => is_sp1_v2 m
            | _ => false
            end in
  if v2 then (id ← build_v2 env dir; mret (Some id)) d
  else (_ ← build_legacy env dir; mret None) d.
End Build.

(** ** Submitting *)

(** [k_in], [k_out] and [k_said] are the connection as in the worker's [Daemon]; [k_lines] is
    what has been printed. *)
Record Kit : Type := mkKit {
  k_in : stream;
  k_out : list Z;
  k_said : list ClientToServer;
  k_store : Store;
  k_disk : gmap string (list Z);
  k_lines : list string;
}.

Definition set_k_in (es : stream) (s : Kit) : Kit :=
  mkKit es (k_out s) (k_said s) (k_store s) (k_disk s) (k_lines s).
Definition set_k_out (b : list Z) (l : list ClientToServer) (s : Kit) : Kit :=
  mkKit (k_in s) b l (k_store s) (k_disk s) (k_lines s).
Definition set_k_store (st : Store) (s : Kit) : Kit :=
  mkKit (k_in s) (k_out s) (k_said s) st (k_disk s) (k_lines s).
Definition set_k_disk (d : gmap string (list Z)) (s : Kit) : Kit :=
  mkKit (k_in s) (k_out s) (k_said s) (k_store s) d (k_lines s).
Definition add_line (l : string) (s : Kit) : Kit :=
  mkKit (k_in s) (k_out s) (k_said s) (k_store s) (k_disk s) (k_lines s ++ [l]).

(** Opening the store, connecting (with or without TLS), and the random seed of a new
    identity. *)
Record KitEnv : Type := mkKitEnv {
  ke_open : outcome string unit;
  ke_connect : outcome string stream;
  ke_seed : list Z;
}.

Section Submit.
Context `{Blake3} `{Ed25519} `{!Signer} `{Os}.
Context `{Json JobManifest} `{Json JobDescriptor} `{Json ClientToServer} `{Json ServerToClient}.
Context `{link : Sink}.

Definition println (l : string) : M Kit string unit := mmodify (add_line l).

(** [wire::send(..).unwrap()] *)
Definition k_send (msg : ClientToServer) : M Kit string unit := fun s =>
  match send msg (k_out s) with
  | (Ok _, b) => (Ok tt, set_k_out b (k_said s ++ [msg]) s)
  | (_, b) => (Panic, set_k_out b (k_said s) s)
  end.

(** [wire::receive(..)]; the caller says what an error is. *)
Definition k_receive {A} (ok_ : ServerToClient -> M Kit string A) (err : WireError -> M Kit string A) : M Kit string A := fun s =>
  match receive (k_in s) with
  | (Ok msg, es) => ok_ msg (set_k_in es s)
  | (Err e, es) => err e (set_k_in es s)
  | (Panic, es) => (Panic, set_k_in es s)
  end.

(** [wire::receive(..).expect(..)] *)
Definition k_expect {A} (ok_ : ServerToClient -> M Kit string A) : M Kit string A :=
  k_receive ok_ (fun _ => mpanic).

(** The slice of the seed panics on a shorter file. *)
Definition kit_identity (path : string) (seed : list Z) : M Kit string skey := fun s =>
  match k_disk s !! path with
  | Some old =>
      if (length old <? 32)%nat then (Panic, s) else (Ok (skey_from_seed (take 32 old)), s)
  | None =>
      match os_write path seed with
      | Ok stored => (Ok (skey_from_seed seed), set_k_disk (<[path := stored]> (k_disk s)) s)
      | _ => (Panic, set_k_disk (failed_write path path seed (k_disk s)) s)
      end
  end.

Definition pubkey_of (k : skey) : string := hex (vk_bytes k).

Definition kit_publish (rd : string -> outcome string (list Z)) : M Kit string JobDescriptor := fun s =>
  let '(r, st) := publish rd (k_store s) in (expect r, set_k_store st s).

(** The job's files are there; the identity; the descriptor and its id.  [rd] reads a path
    relative to the job directory. *)
Definition submit_prepare (rd : string -> outcome string (list Z)) (env : KitEnv) (identity : string) :
    M Kit string (skey * JobDescriptor * list Z) :=
  mb ← lift (expect (rd "job.json"%string));
  m ← lift (expect (from_slice (A := JobManifest) mb));
  _ ← lift (expect (rd (elf m)));
  _ ← lift (expect (rd (input m)));
  key ← kit_identity identity (ke_seed env);
  _ ← println ("submitter identity: " +:+ pubkey_of key);
  _ ← lift (expect (ke_open env));
  desc ← kit_publish rd;
  id ← lift (expect (descriptor_id desc));
  _ ← println ("published " +:+ d_job_id desc +:+ " — descriptor " +:+ to_hex id);
  mret (key, desc, id).

(** Connect and greet: the nonce and the difficulty. *)
Definition submit_greet (env : KitEnv) (key : skey) : M Kit string (list Z * Z) :=
  es ← lift (expect (ke_connect env));
  _ ← mmodify (fun s => set_k_out [] (k_said s) (set_k_in es s));
  short ← lift (str_slice (pubkey_of key) 0 8);
  _ ← k_send (Hello (pubkey_of key) ("submitter-" +:+ short) None "submitter");
  k_expect (fun msg =>
    match msg with
    | Nonce h bits =>
        nonce ← lift (match from_hex h (str_len h / 2) with Ok b => Ok b | _ => Panic end);
        mret (nonce, bits)
    | AuthFailed reason => Prelude.mfail ("auth failed: " +:+ reason)%string
    | _ => mpanic
    end).

Definition submit_auth (key : skey) (nonce : list Z) (bits counter : Z) : M Kit string unit :=
  _ ← println ("admission PoW mined: " +:+ pretty bits +:+ " bits");
  _ ← k_send (NonceSignature (Some (hex (ed_sign key nonce))) counter);
  k_expect (fun msg =>
    match msg with
    | AuthOk wid => println ("authenticated as " +:+ wid)
    | AuthFailed reason => Prelude.mfail ("auth failed: " +:+ reason)%string
    | _ => mpanic
    end).

(** One blob; the limit is the coordinator's. *)
Definition upload (label id_hex : string) : M Kit string unit :=
  id ← lift (expect (cid_from_hex id_hex));
  bytes ← look (fun s => expect (get_blob (k_store s) id));
  if Server.MAX_BLOB_BYTES <? Z.of_nat (length bytes) then
    Prelude.mfail ("error: " +:+ label +:+ " is " +:+ pretty (Z.of_nat (length bytes)) +:+ " bytes — over the "
      +:+ pretty Server.MAX_BLOB_BYTES +:+ "-byte upload limit")%string
  else
    _ ← k_send (BlobUpload id_hex (hex bytes));
    k_expect (fun msg =>
      match msg with
      | BlobAck _ accepted reason =>
          if accepted then mret tt
          else Prelude.mfail ("error: coordinator rejected " +:+ label +:+ " upload: " +:+ default "?" reason)%string
      | _ => mpanic
      end).

Definition submit_blobs (desc : JobDescriptor) : M Kit string unit :=
  _ ← upload "manifest" (d_manifest desc);
  _ ← upload "elf" (d_elf desc);
  _ ← upload "input" (d_input desc);
  println "blobs uploaded (3) — hash-verified by the coordinator".

Definition submission (key : skey) (desc : JobDescriptor) (id : list Z) (require_zk : bool) : ClientToServer :=
  JobSubmission (d_job_id desc) desc (pubkey_of key)
    (hex (ed_sign key (submission_message (d_job_id desc) id))) require_zk.

(** [agreed.join(", ")] *)
Definition join_comma (l : list string) : string := String.concat ", " l.

Definition outcome_lines (jid hash : string) (agreed : list string) (out : option string) (zk : bool)
    (why : option string) : list string :=
  ["job " +:+ jid +:+ " finished"; "  result hash: " +:+ hash; "  vindicated:  " +:+ join_comma agreed]%string
  ++ match out with Some o => ["  output:      " +:+ o]%string | None => [] end
  ++ (if zk then ["  decided by:  zk receipt"%string] else [])
  ++ match why with Some r => ["  note: " +:+ r]%string | None => [] end.

(** One turn of the wait for the outcome: whether it goes on. *)
Definition wait_turn : M Kit string bool :=
  k_receive (fun msg =>
    match msg with
    | SubmissionAck jid accepted reason proving =>
        if accepted then
          _ ← println (if proving : bool then "submitted " +:+ jid +:+ " — queued for zk proving"
                       else "submitted " +:+ jid +:+ " — queued for execution");
          mret true
        else Prelude.mfail ("submission rejected: " +:+ default "unspecified" reason)%string
    | JobOutcome jid hash agreed out zk why =>
        _ ← mmodify (fun s => foldl (flip add_line) s (outcome_lines jid hash agreed out zk why));
        mret false
    | ShutDown reason => _ ← println ("session over: " +:+ reason); mret false
    | _ => mret true
    end)
    (fun e => Prelude.mfail ("connection lost while waiting for the outcome: " +:+ show_wire_error e)%string).

Fixpoint wait_loop (fuel : nat) (s : Kit) : option (outcome string unit * Kit) :=
  match fuel with
  | O => None
  | S fuel' =>
      match wait_turn s with
      | (Ok true, s') => wait_loop fuel' s'
      | (Ok false, s') => Some (Ok tt, s')
      | (Err e, s') => Some (Err e, s')
      | (Panic, s') => Some (Panic, s')
      end
  end.

(** After the miner: authenticate, upload, submit. *)
Definition submit_job (key : skey) (desc : JobDescriptor) (id nonce : list Z) (bits counter : Z) (require_zk : bool) :
    M Kit string unit :=
  _ ← submit_auth key nonce bits counter;
  _ ← submit_blobs desc;
  k_send (submission key desc id require_zk).

(** [jobkit submit]; [None] when no counter solves the challenge, so that the miner returns none. *)
Definition submit (rd : string -> outcome string (list Z)) (env : KitEnv) (identity : string) (require_zk : bool)
    (s : Kit) : option (outcome string unit * Kit) :=
  match ('(key, desc, id) ← submit_prepare rd env identity; ch ← submit_greet env key; mret (key, desc, id, ch)) s with
  | (Err e, s1) => Some (Err e, s1)
  | (Panic, s1) => Some (Panic, s1)
  | (Ok (key, desc, id, (nonce, bits)), s1) =>
      counter ← mine_pow nonce bits;
      match submit_job key desc id nonce bits counter require_zk s1 with
      | (Ok _, s2) => wait_loop (S (stream_size (k_in s2))) s2
      | (Err e, s2) => Some (Err e, s2)
      | (Panic, s2) => Some (Panic, s2)
      end
  end.
End Submit.

(** ** Evidence bundles *)

Section Evidence.
Context `{Os} `{NetOs}.

(** A copy into the bundle directory; a failure panics. *)
Definition copy_in (src : outcome string (list Z)) (name : string) : M Dir string unit := fun d =>
  match src with
  | Ok bytes => let '(r, d') := fs_write name bytes d in (expect r, d')
  | _ => (Panic, d)
  end.

(** [jobkit evidence]: [rd] reads and [ex] tests a path relative to the results directory. *)
Definition evidence (rd : string -> outcome string (list Z)) (ex : string -> bool) (jid out : string) : M Dir string unit :=
  _ ← lift (expect (os_mkdir out));
  _ ← copy_in (rd (jid +:+ ".json")) "outcome.json";
  let receipt := (jid +:+ ".receipt.bin")%string in
  if ex receipt then copy_in (rd receipt) "receipt.bin" else mret tt.
End Evidence.

(** ** Offline verification *)

(** [serde_json::Value], a number by its text *)
#[warnings="-register-all"]
Inductive Value : Type :=
  | VNull
  | VBool (b : bool)
  | VNumber (text : string)
  | VString (s : string)
  | VArray (l : list Value)
  | VObject (fields : list (string * Value)).

(** [v[key]]: null when it is no object or has no such field *)
Definition vindex (v : Value) (key : string) : Value :=
  match v with
  | VObject fields => default VNull (snd <$> (snd <$> list_find (fun f => f.1 = key) fields))
  | _ => VNull
  end.

Definition as_str (v : Value) : option string := match v with VString s => Some s | _ => None end.
Definition is_true (v : Value) : bool := match v with VBool true => true | _ => false end.

Section Verify.
Context `{Os} `{Procs} `{Json JobDescriptor} `{Json Value}.

(** The seconds of a value that is a number, with one decimal. *)
Context (as_secs : Value -> option string).

(** A value as it is displayed: its compact JSON. *)
Definition show_value (v : Value) : string := from_bytes (to_vec v).

(** The arguments of zk-verify. *)
Definition kit_args (guest receipt : string) (v2 : bool) (desc : option JobDescriptor) : list string :=
  [guest; receipt] ++ (if v2 then ["--v2"%string] else []) ++
  match desc with Some d => [d_manifest d; d_elf d; d_input d] | None => [] end.

(** The verdict is the trimmed standard output; the exit code is not looked at. *)
Definition kit_verdict (p : proc_run) : outcome string Value :=
  match p_end p with
  | WaitFailed _ => Panic
  | _ => expect (from_slice (text_of (p_stdout p)))
  end.

Definition verified_lines (v : Value) : list string :=
  ["RECEIPT VERIFIED"; "  status:       " +:+ show_value (vindex v "status");
   "  instructions: " +:+ show_value (vindex v "instructions")]%string
  ++ match as_str (vindex v "output_hex") with Some o => ["  output:       " +:+ o]%string | None => [] end
  ++ match as_secs (vindex v "proving_secs") with
     | Some secs => ["  proved in:    " +:+ secs +:+ "s (vm cycles: " +:+ show_value (vindex v "vm_cycles") +:+ ")"]%string
     | None => []
     end.

(** [jobkit verify] on the bundle directory at path [bundle]: the lines printed.  [desc] is
    the bytes of the file given with [--desc]. *)
Definition verify (bundle : string) (files : Dir) (zk_verify guest : string)
    (desc : option (outcome string (list Z))) (v2 : bool) : outcome string (list string) :=
  if negb (bool_decide (is_Some (files !! "receipt.bin"%string))) then
    Err ("no receipt.bin in bundle " +:+ bundle +:+ " — nothing to verify")%string
  else
    d ← match desc with
        | Some r => b ← expect r; d ← expect (from_slice (A := JobDescriptor) b); mret (Some d)
        | None => mret None
        end;
    p ← expect (spawn zk_verify (kit_args guest (bundle +:+ "/receipt.bin") v2 d) files);
    v ← kit_verdict p;
    if negb (is_true (vindex v "ok")) then
      Err ("RECEIPT REJECTED: " +:+ default "?" (as_str (vindex v "error")))%string
    else mret (verified_lines v).
End Verify.
