(* ===== verification/JobkitFacts.v ===== *)
(** * The job owner against the coordinator

    [jobkit submit] composed with the coordinator's handlers, the wait for the outcome, what
    [jobkit build] installs, and what [jobkit verify] establishes when the verifier it runs is
    zk-verify. *)

From S2P Require Import Prelude Text Mem Cpu Interp Run Elf JobFmt ContentStore Wire Quorum Ledger Dispute ZkJudge.
From S2P Require Import Server Serve ServeFacts DispatchFacts Worker EndToEnd Sp1 Sp1Facts Jobkit.

(** ** Texts *)

Lemma hex_prefix {E} l n :
  Forall is_byte l -> 0 <= n <= str_len (hex l) ->
  str_slice (E := E) (hex l) 0 n = Ok (from_bytes (take (Z.to_nat n) (as_bytes (hex l)))).
Proof.
  intros Hl Hn. unfold str_slice, slice_get.
  assert (Forall (fun c => 48 <= c < 103) (as_bytes (hex l))) as Ha by (rewrite as_bytes_hex by done; by apply hex_bytes_ascii).
  assert (str_len (hex l) = Z.of_nat (length (as_bytes (hex l)))) as Hlen by done.
  rewrite !ascii_boundary by (done || lia). simpl.
  rewrite !(proj2 (Z.leb_le _ _)) by lia. simpl. by rewrite Z.sub_0_r.
Qed.

(** A plain job id makes a plain descriptor name. *)
Lemma plain_submitted jid : plain_name jid -> plain_name ("submitted-" +:+ jid +:+ ".desc.json").
Proof.
  intros (_ & _ & _ & Hs & Hb). unfold plain_name. cbv zeta. rewrite !as_bytes_app.
  assert (forall c, c ∉ as_bytes "submitted-" -> c ∉ as_bytes jid -> c ∉ as_bytes ".desc.json" ->
    c ∉ as_bytes "submitted-" ++ as_bytes jid ++ as_bytes ".desc.json") as Hno by (intros c ? ? ?; rewrite !elem_of_app; tauto).
  split_and!; try done; apply Hno; try done; apply (bool_decide_unpack _); vm_compute; exact I.
Qed.

(** ** The coordinator's side *)

Section Coordinator.
Context `{Blake3} `{Sha256} `{Ed25519} `{!Signer} `{Os} `{NetOs} `{TmpOs} `{Procs}.
Context `{Json JobManifest} `{Json JobDescriptor} `{Json RVerdict} `{Json JudgeVerdict} `{Json ProveMeta}.
Context `{Json Ledger} `{Json Evidence} `{Json ClientToServer} `{Json ServerToClient}.

(** The messages of one connection, each handled in the environment of its turn. *)
Fixpoint deliver (cfg : ServeConfig) (conn : Z) (l : list (Env * ClientToServer)) : M Server string unit :=
  match l with
  | [] => mret tt
  | (e, msg) :: rest => _ ← on_event cfg e (session_event conn msg); deliver cfg conn rest
  end.

#[export] Instance same_jobs_trans : Transitive same_jobs.
Proof. unfold same_jobs. intros ???. intuition congruence. Qed.

(** An uploaded blob is acknowledged and stored. *)
Lemma upload_stored cfg e conn bytes sv c st' :
  conns sv !! conn = Some c -> authed c = true -> uploads c < MAX_UPLOADS_PER_CONN ->
  Forall is_byte bytes -> Z.of_nat (length bytes) <= MAX_BLOB_BYTES ->
  put_blob bytes (sv_store sv) = (Ok (from_data bytes), st') ->
  let id := to_hex (from_data bytes) in
  exists sv' c', on_event cfg e (session_event conn (BlobUpload id (hex bytes))) sv = (Ok tt, sv') /\
    conns sv' !! conn = Some c' /\ authed c' = true /\ c_pubkey c' = c_pubkey c /\ uploads c' = uploads c + 1 /\
    outbound c' = outbound c ++ [BlobAck id true None] /\ sv_store sv' = st' /\ same_jobs sv sv'.
Proof.
  intros Hc Ha Hu Hb Hlen Hput id. simpl. unfold handle_blob_upload. rewrite Hc, Ha. simpl.
  rewrite (proj2 (Z.leb_gt _ _)) by done. unfold store_upload.
  rewrite str_len_hex by done. rewrite (proj2 (Z.ltb_ge _ _)) by lia.
  replace (2 * Z.of_nat (length bytes) / 2) with (Z.of_nat (length bytes)) by (rewrite Z.mul_comm, Z.div_mul; lia).
  unfold from_hex_tag. rewrite from_hex_hex by (done || lia). simpl.
  unfold id, to_hex. rewrite from_hex_hex by (apply blake3_byte || (unfold from_data; by rewrite blake3_len)). simpl.
  rewrite bool_decide_true by done. simpl. rewrite Hput. unfold prefix12.
  rewrite hex_prefix by (apply blake3_byte || (split; [unfold str_len|]; lia)).
  do 2 eexists. split; [reflexivity|]. simpl. rewrite !lookup_alter_eq, Hc. by split_and!.
Qed.

(** Where an accepted submission goes. *)
Definition takes (cfg : ServeConfig) (sv : Server) (jid : string) (require_zk : bool) : Prop :=
  if require_zk then is_Some (zk_prover cfg) /\ prover_up sv = true
  else jobs_dir sv !! ("submitted-" +:+ jid +:+ ".desc.json")%string = None.

Definition taken (now conn : Z) (desc : JobDescriptor) (require_zk : bool) (sv sv' : Server) : Prop :=
  if require_zk then prove_queue sv' = prove_queue sv ++ [proving_job desc now conn]
  else
    jobs_dir sv' = <[("submitted-" +:+ d_job_id desc +:+ ".desc.json")%string := to_vec desc]> (jobs_dir sv) /\
    submitter_subs sv' = subscribe (d_job_id desc) conn (submitter_subs sv).

Lemma missing_none st l :
  Forall (fun b => exists d, b.2 = to_hex (from_data d) /\ is_Some (st !! blob_path (from_data d))) l ->
  missing_blob st l = Ok None.
Proof.
  induction 1 as [|[label id] l (d & Hid & Hd) _ IH]; [done|]. simpl in *. rewrite Hid, from_data_cid. simpl.
  by rewrite bool_decide_true by done.
Qed.

Lemma submission_taken cfg e conn k m mb el i rz sv c :
  let desc := descriptor_of m mb el i in
  conns sv !! conn = Some c -> authed c = true -> c_pubkey c = Some (pubkey_of k) -> accept_submissions cfg = true ->
  plain_name (m_id m) -> (forall name d, os_write name d = Ok d) ->
  is_Some (sv_store sv !! blob_path (from_data mb)) -> is_Some (sv_store sv !! blob_path (from_data el)) ->
  is_Some (sv_store sv !! blob_path (from_data i)) -> takes cfg sv (m_id m) rz ->
  exists sv' c', on_event cfg e (session_event conn (submission k desc (from_data (to_vec desc)) rz)) sv = (Ok tt, sv') /\
    conns sv' !! conn = Some c' /\ outbound c' = outbound c ++ [SubmissionAck (m_id m) true None rz] /\
    sv_store sv' = sv_store sv /\ taken (now e) conn desc rz sv sv'.
Proof.
  intros desc Hc Ha Hpk Hacc Hn Hw Hm He Hi Ht. unfold submission. cbn [session_event on_event d_job_id desc descriptor_of].
  unfold handle_job_submission. rewrite Hacc, Hc. cbn [negb d_job_id descriptor_of].
  assert (submission_signed c desc (pubkey_of k) (hex (ed_sign k (submission_message (m_id m) (from_data (to_vec desc))))) = Ok tt) as ->.
  { unfold submission_signed. rewrite Ha, Hpk. simpl. rewrite bool_decide_true by done. simpl.
    change (check_sig id id (pubkey_of k) ?x ?msg) with (verify_nonce (pubkey_of k) msg x). unfold pubkey_of, from_data.
    rewrite verify_nonce_signed. simpl. by rewrite confined_name_complete. }
  rewrite missing_none by (repeat (constructor; [by eexists|]); constructor).
  unfold accept_submission. destruct rz; simpl in Ht |- *.
  - destruct Ht as [[p ->] ->]. simpl. do 2 eexists. split; [reflexivity|]. simpl. rewrite lookup_alter_eq, Hc. by split_and!.
  - unfold queue_submission. simpl. rewrite Ht. rewrite fs_write_plain by (by apply plain_submitted || apply Hw).
    do 2 eexists. split; [reflexivity|]. simpl. rewrite lookup_alter_eq, Hc. by split_and!.
Qed.
End Coordinator.

(** ** The owner's side *)

Section Owner.
Context `{Blake3} `{Ed25519} `{!Signer} `{Os}.
Context `{Json JobManifest} `{Json JobDescriptor} `{Json ClientToServer} `{JsonLaws ServerToClient}.
Context `{link : Sink}.

(** The connection will deliver [msgs] and then [rest]. *)
Definition delivers (es : stream) (msgs : list ServerToClient) (rest : list Z) : Prop :=
  blocking es /\ stream_bytes es = concat (Wire.frame <$> msgs) ++ rest /\ Forall fits msgs.

Definition hears (s : Kit) (msgs : list ServerToClient) (rest : list Z) : Prop := delivers (k_in s) msgs rest.

(** Only messages and lines were added. *)
Definition talked (s s' : Kit) (sent : list ClientToServer) : Prop :=
  k_said s' = k_said s ++ sent /\ k_store s' = k_store s /\ k_disk s' = k_disk s.

Lemma talked_trans s1 s2 s3 l1 l2 : talked s1 s2 l1 -> talked s2 s3 l2 -> talked s1 s3 (l1 ++ l2).
Proof. unfold talked. intros (-> & -> & ->) (-> & -> & ->). by rewrite app_assoc. Qed.

Lemma talked_in es s : talked s (set_k_in es s) [].
Proof. unfold talked. by rewrite app_nil_r. Qed.

Lemma k_receive_frame {A} (f : ServerToClient -> M Kit string A) g s msg ms rest :
  hears s (msg :: ms) rest ->
  exists es, k_receive f g s = f msg (set_k_in es s) /\ hears (set_k_in es s) ms rest.
Proof.
  intros (Hb & Hs & [Hf Hfs]%Forall_cons). rewrite fmap_cons, concat_cons, <- app_assoc in Hs.
  destruct (receive_frame msg (k_in s) _ Hf Hb Hs) as (es & Hr & Hb' & Hs').
  exists es. unfold k_receive. by rewrite Hr.
Qed.

(** A message is sent, its reply is heard, and the reply is handled. *)
Lemma exchange {A} (f : ServerToClient -> M Kit string A) msg reply s ms rest :
  open_sink -> fits msg -> hears s (reply :: ms) rest ->
  exists s', (_ ← k_send msg; k_expect f) s = f reply s' /\ talked s s' [msg] /\ hears s' ms rest.
Proof.
  intros Ho Hf Hh. unfold mbind, M_bind, k_send. rewrite send_ok by done.
  destruct (k_receive_frame f (fun _ => mpanic) (set_k_out (k_out s ++ Wire.frame msg) (k_said s ++ [msg]) s) reply ms rest)
    as (es & Hr & Hh'); [done|]. unfold k_expect. rewrite Hr. by eexists.
Qed.

Lemma submit_auth_ok key nonce bits counter wid s ms rest :
  let reply := NonceSignature (Some (hex (ed_sign key nonce))) counter in
  open_sink -> fits reply -> hears s (AuthOk wid :: ms) rest ->
  exists s', submit_auth key nonce bits counter s = (Ok tt, s') /\ talked s s' [reply] /\ hears s' ms rest.
Proof.
  intros reply Ho Hf Hh. unfold submit_auth. erewrite bind_eq by reflexivity.
  match goal with |- context [k_expect ?f] => destruct (exchange f reply (AuthOk wid) (add_line ("admission PoW mined: " +:+ pretty bits +:+ " bits") s) ms rest)
    as (s' & Heq & Ht & Hh'); [done..|] end.
  eexists. split; [exact Heq|]. done.
Qed.

Lemma upload_ok label bytes s ms rest :
  let id := to_hex (from_data bytes) in
  open_sink -> fits (BlobUpload id (hex bytes)) -> store_ok (k_store s) ->
  k_store s !! blob_path (from_data bytes) = Some bytes -> Z.of_nat (length bytes) <= MAX_BLOB_BYTES ->
  hears s (BlobAck id true None :: ms) rest ->
  exists s', upload label id s = (Ok tt, s') /\ talked s s' [BlobUpload id (hex bytes)] /\ hears s' ms rest.
Proof.
  intros id Ho Hf Hok Hb Hlen Hh. unfold upload.
  rewrite (bind_eq _ _ _ (from_data bytes) s) by (unfold lift, id; by rewrite from_data_cid).
  rewrite (bind_eq _ _ _ bytes s) by (unfold look; by rewrite (get_blob_stored _ _ bytes) by (done || apply blake3_byte)).
  rewrite (proj2 (Z.ltb_ge _ _)) by done.
  match goal with |- context [k_expect ?f] => destruct (exchange f (BlobUpload id (hex bytes)) (BlobAck id true None) s ms rest)
    as (s' & Heq & Ht & Hh'); [done..|] end.
  eexists. split; [exact Heq|]. done.
Qed.

(** The blobs of the job are in the owner's store, within the limits. *)
Definition uploadable (st : Store) (bytes : list Z) : Prop :=
  st !! blob_path (from_data bytes) = Some bytes /\ Z.of_nat (length bytes) <= MAX_BLOB_BYTES /\
  fits (BlobUpload (to_hex (from_data bytes)) (hex bytes)).

Definition blob_msg (bytes : list Z) : ClientToServer := BlobUpload (to_hex (from_data bytes)) (hex bytes).
Definition blob_ack (bytes : list Z) : ServerToClient := BlobAck (to_hex (from_data bytes)) true None.

Lemma submit_blobs_ok m mb el i s ms rest :
  open_sink -> store_ok (k_store s) -> Forall (uploadable (k_store s)) [mb; el; i] ->
  hears s (blob_ack mb :: blob_ack el :: blob_ack i :: ms) rest ->
  exists s', submit_blobs (descriptor_of m mb el i) s = (Ok tt, s') /\
    talked s s' [blob_msg mb; blob_msg el; blob_msg i] /\ hears s' ms rest.
Proof.
  intros Ho Hok [(Hm & Lm & Fm) [(He & Le & Fe) [(Hi & Li & Fi) _]%Forall_cons]%Forall_cons]%Forall_cons Hh.
  destruct (upload_ok "manifest" mb s _ rest Ho Fm Hok Hm Lm Hh) as (s1 & U1 & T1 & H1h).
  pose proof T1 as (_ & St1 & _). rewrite <- St1 in Hok, He, Hi.
  destruct (upload_ok "elf" el s1 _ rest Ho Fe Hok He Le H1h) as (s2 & U2 & T2 & H2h).
  pose proof T2 as (_ & St2 & _). rewrite <- St2 in Hok, Hi.
  destruct (upload_ok "input" i s2 _ rest Ho Fi Hok Hi Li H2h) as (s3 & U3 & T3 & H3h).
  unfold submit_blobs. rewrite (bind_eq _ _ _ _ _ U1), (bind_eq _ _ _ _ _ U2), (bind_eq _ _ _ _ _ U3).
  eexists. split; [reflexivity|]. split; [|done].
  exact (talked_trans _ _ _ _ _ T1 (talked_trans _ _ _ _ _ T2 T3)).
Qed.

(** ** Waiting *)

(** Messages the wait goes over. *)
Definition passing (msg : ServerToClient) : Prop :=
  match msg with
  | SubmissionAck _ accepted _ _ => accepted = true
  | JobOutcome _ _ _ _ _ _ | ShutDown _ => False
  | _ => True
  end.

Lemma wait_turn_size s b s' : wait_turn s = (Ok b, s') -> (stream_size (k_in s') < stream_size (k_in s))%nat.
Proof.
  unfold wait_turn, k_receive. pose proof (receive_size (A := ServerToClient) (k_in s)) as Hsz.
  destruct (receive (k_in s)) as [[msg|e|] es]; [|done..]. simpl in Hsz.
  assert (forall l st, k_in (foldl (flip add_line) st l) = k_in st) as Hl by (induction l as [|x l IH]; intros st; [done|]; simpl; by rewrite IH).
  destruct msg as [| | | | | |reason|jid hash agreed out zk why| |jid [] why pr]; simpl; try done;
    unfold mbind, M_bind, println, mmodify; intros [= _ <-]; rewrite ?Hl; done.
Qed.

(** The wait returns, whatever comes. *)
Lemma wait_loop_total fuel s : (stream_size (k_in s) < fuel)%nat -> is_Some (wait_loop fuel s).
Proof.
  revert s. induction fuel as [|fuel IH]; intros s Hf; [lia|]. cbn [wait_loop].
  destruct (wait_turn s) as [[[]|e|] s'] eqn:Ht; try by eexists.
  apply IH. apply wait_turn_size in Ht. lia.
Qed.

Lemma wait_turn_passing s msg ms rest :
  passing msg -> hears s (msg :: ms) rest ->
  exists s', wait_turn s = (Ok true, s') /\ talked s s' [] /\ hears s' ms rest.
Proof.
  intros Hp Hh. unfold wait_turn.
  match goal with |- context [k_receive ?f ?g] => destruct (k_receive_frame f g s msg ms rest Hh) as (es & -> & Hh') end.
  pose proof (talked_in es s) as Ht.
  destruct msg as [| | | | | |reason|jid hash agreed out zk why| |jid [] why pr]; try done; by eexists.
Qed.

Lemma wait_outcome ms jid hash agreed out zk why fuel s more rest :
  Forall passing ms -> hears s (ms ++ JobOutcome jid hash agreed out zk why :: more) rest ->
  (stream_size (k_in s) < fuel)%nat ->
  exists s', wait_loop fuel s = Some (Ok tt, s') /\ talked s s' [] /\
    exists l, k_lines s' = l ++ outcome_lines jid hash agreed out zk why.
Proof.
  intros Hp. revert s fuel. induction Hp as [|msg ms Hm _ IH]; intros s [|fuel] Hh Hf; try lia; cbn [wait_loop app] in *.
  - unfold wait_turn.
    match goal with |- context [k_receive ?f ?g] => destruct (k_receive_frame f g s _ _ _ Hh) as (es & -> & _) end.
    assert (forall l st, talked st (foldl (flip add_line) st l) [] /\ k_lines (foldl (flip add_line) st l) = k_lines st ++ l) as Hl.
    { induction l as [|x l IH]; intros st; [split; [unfold talked|]; simpl; by rewrite app_nil_r|]. simpl. destruct (IH (add_line x st)) as [? ->].
      split; [done|]. simpl. by rewrite <- app_assoc. }
    destruct (Hl (outcome_lines jid hash agreed out zk why) (set_k_in es s)) as [Ht Hls].
    unfold mbind, M_bind, mmodify. cbn [fst snd]. eexists. split; [reflexivity|]. split; [exact Ht|].
    rewrite Hls. by eexists.
  - destruct (wait_turn_passing s msg _ rest Hm Hh) as (s1 & Hw & Ht & Hh1). rewrite Hw.
    pose proof (wait_turn_size _ _ _ Hw). destruct (IH s1 fuel Hh1) as (s2 & -> & Ht2 & Hl); [lia|].
    exists s2. split; [done|]. split; [|done]. exact (talked_trans _ _ _ _ _ Ht Ht2).
Qed.

(** ** The whole submission *)

(** The identity: the file's seed, or the fresh one that is written. *)
Definition owner_key (path : string) (env : KitEnv) (s : Kit) (k : skey) : Prop :=
  match k_disk s !! path with
  | Some old => (32 <= length old)%nat /\ k = skey_from_seed (take 32 old)
  | None => k = skey_from_seed (ke_seed env)
  end.

Definition owner_id (k : skey) : string := "submitter-" +:+ from_bytes (take 8 (as_bytes (pubkey_of k))).

(** A job directory that can be submitted: its files, its names and its sizes. *)
Record ready (rd : string -> outcome string (list Z)) (m : JobManifest) (mb el i : list Z) : Prop := mkReady {
  rd_manifest : rd "job.json"%string = Ok mb;
  rd_parses : from_slice mb = Ok m;
  rd_elf : rd (elf m) = Ok el;
  rd_input : rd (input m) = Ok i;
  rd_names : names_ok m /\ plain_name (m_id m);
  rd_kind : schema m = SCHEMA /\ isa m = ISA;
  rd_sizes : Forall (fun b => Forall is_byte b /\ Z.of_nat (length b) <= MAX_BLOB_BYTES) [mb; el; i];
}.

(** What the owner sends and what it is answered. *)
Definition owner_messages (k : skey) (n : list Z) (c : Z) (m : JobManifest) (mb el i : list Z) (rz : bool) :
    list ClientToServer :=
  let desc := descriptor_of m mb el i in
  [Hello (pubkey_of k) (owner_id k) None "submitter"; NonceSignature (Some (hex (ed_sign k n))) c;
   blob_msg mb; blob_msg el; blob_msg i; submission k desc (from_data (to_vec desc)) rz].

Definition owner_replies (k : skey) (n : list Z) (bits : Z) (m : JobManifest) (mb el i : list Z) (rz : bool) :
    list ServerToClient :=
  [Nonce (hex n) bits; AuthOk (owner_id k); blob_ack mb; blob_ack el; blob_ack i;
   SubmissionAck (m_id m) true None rz].

Lemma submit_prepare_ok rd env path s k m mb el i Bs :
  (forall name d, os_write name d = Ok d) -> owner_key path env s k -> ke_open env = Ok tt ->
  ready rd m mb el i -> store_ok (k_store s) -> inj_on Bs -> mb ∈ Bs -> el ∈ Bs -> i ∈ Bs ->
  (forall p d, k_store s !! p = Some d -> d ∈ Bs) ->
  let desc := descriptor_of m mb el i in
  exists s', submit_prepare rd env path s = (Ok (k, desc, from_data (to_vec desc)), s') /\
    k_said s' = k_said s /\ store_ok (k_store s') /\ Forall (fun b => k_store s' !! blob_path (from_data b) = Some b) [mb; el; i].
Proof.
  intros Hw Hk Ho [Rm Rp Re Ri _ _ _] Hok Hinj Hmb Hel Hi Hst desc.
  destruct (publish_ok rd (k_store s) m mb el i Bs) as (st' & Hp & Hok' & Lm & Le & Li); [done..|].
  assert (exists d, kit_identity path (ke_seed env) s = (Ok k, set_k_disk d s)) as [d Hid].
  { unfold kit_identity. unfold owner_key in Hk. destruct (k_disk s !! path) as [old|] eqn:Hd.
    - destruct Hk as [Hl ->]. rewrite (proj2 (Nat.ltb_ge _ _)) by done. exists (k_disk s). by destruct s.
    - rewrite Hw, Hk. by eexists. }
  unfold submit_prepare.
  rewrite (bind_eq _ _ _ mb s) by (unfold lift; by rewrite Rm).
  rewrite (bind_eq _ _ _ m s) by (unfold lift; by rewrite Rp).
  rewrite (bind_eq _ _ _ el s) by (unfold lift; by rewrite Re).
  rewrite (bind_eq _ _ _ i s) by (unfold lift; by rewrite Ri).
  rewrite (bind_eq _ _ _ _ _ Hid). erewrite bind_eq by reflexivity.
  erewrite (bind_eq _ _ _ tt) by (unfold lift; by rewrite Ho).
  erewrite (bind_eq _ _ _ desc) by (unfold kit_publish; simpl k_store; by rewrite Hp).
  erewrite bind_eq by reflexivity. erewrite bind_eq by reflexivity.
  eexists. split; [reflexivity|]. split_and!; [done|done|]. by repeat (constructor; [done|]).
Qed.

Lemma submit_greet_ok env k s es n bits ms rest :
  let hello := Hello (pubkey_of k) (owner_id k) None "submitter" in
  ke_connect env = Ok es -> delivers es (Nonce (hex n) bits :: ms) rest -> Forall is_byte n ->
  open_sink -> fits hello ->
  exists s', submit_greet env k s = (Ok (n, bits), s') /\ talked s s' [hello] /\ hears s' ms rest.
Proof.
  intros hello Hc Hd Hn Ho Hf. unfold submit_greet. rewrite (bind_eq _ _ _ es s) by (unfold lift; by rewrite Hc).
  erewrite bind_eq by reflexivity. destruct (vk_bytes_ok k) as [Hvl Hvb].
  erewrite bind_eq by (unfold lift, pubkey_of; rewrite hex_prefix by (done || rewrite str_len_hex, Hvl by done; lia); reflexivity).
  match goal with |- context [k_expect ?f] =>
    destruct (exchange f hello (Nonce (hex n) bits) (set_k_out [] (k_said s) (set_k_in es s)) ms rest) as (s' & Heq & Ht & Hh); [done..|] end.
  exists s'. split; [|done]. etrans; [exact Heq|]. cbv beta iota. unfold mbind, M_bind, lift.
  rewrite str_len_hex, from_hex_hex by (done || (rewrite Z.mul_comm, Z.div_mul; lia)). done.
Qed.

(** The owner's side of a submission whose replies are those of a coordinator that takes it. *)
Lemma submit_ok rd env path s k m mb el i Bs es n bits rz jid hash agreed out zk why noise rest :
  (forall name d, os_write name d = Ok d) -> owner_key path env s k -> ke_open env = Ok tt ->
  ready rd m mb el i -> store_ok (k_store s) -> inj_on Bs -> mb ∈ Bs -> el ∈ Bs -> i ∈ Bs ->
  (forall p d, k_store s !! p = Some d -> d ∈ Bs) ->
  ke_connect env = Ok es -> Forall is_byte n -> open_sink -> Forall passing noise ->
  (forall c, is_u64 c -> Forall fits (owner_messages k n c m mb el i rz)) ->
  delivers es (owner_replies k n bits m mb el i rz ++ noise ++ [JobOutcome jid hash agreed out zk why]) rest ->
  (exists c, is_u64 c /\ verify_pow n c bits = true) ->
  exists c s', verify_pow n c bits = true /\ submit rd env path rz s = Some (Ok tt, s') /\
    k_said s' = k_said s ++ owner_messages k n c m mb el i rz /\
    exists l, k_lines s' = l ++ outcome_lines jid hash agreed out zk why.
Proof.
  intros Hw Hk Hop Hr Hok Hinj Hmb Hel Hi Hst Hc Hn Ho Hnoise Hfit Hd (c0 & Hc0 & Hv0).
  destruct (mine_pow_ends n bits c0 Hc0 Hv0) as (c & Hm & Hu & Hv). specialize (Hfit c Hu). unfold owner_messages in Hfit.
  apply Forall_cons in Hfit as [Fh [Fn [Fm [Fe [Fi [Fs _]%Forall_cons]%Forall_cons]%Forall_cons]%Forall_cons]%Forall_cons].
  destruct (submit_prepare_ok rd env path s k m mb el i Bs) as (s1 & P1 & Sd1 & Ok1 & L1); [done..|].
  set (tail_ := SubmissionAck (m_id m) true None rz :: noise ++ [JobOutcome jid hash agreed out zk why]).
  destruct (submit_greet_ok env k s1 es n bits (AuthOk (owner_id k) :: blob_ack mb :: blob_ack el :: blob_ack i :: tail_) rest Hc Hd Hn Ho Fh) as (s2 & P2 & T2 & H2h).
  destruct (submit_auth_ok k n bits c (owner_id k) s2 (blob_ack mb :: blob_ack el :: blob_ack i :: tail_) rest Ho Fn H2h) as (s3 & P3 & T3 & H3h).
  pose proof (talked_trans _ _ _ _ _ T2 T3) as T23. pose proof T23 as (_ & St3 & _). rewrite <- St3 in Ok1, L1.
  destruct (submit_blobs_ok m mb el i s3 tail_ rest Ho Ok1) as (s4 & P4 & T4 & H4h); [|exact H3h|].
  { destruct Hr as [_ _ _ _ _ _ Hs]. apply Forall_cons in L1 as [Lm [Le [Li _]%Forall_cons]%Forall_cons].
    apply Forall_cons in Hs as [[_ Sm] [[_ Se] [[_ Si] _]%Forall_cons]%Forall_cons]. by repeat (constructor; [by split_and!|]). }
  pose proof (talked_trans _ _ _ _ _ T23 T4) as (Sd4 & _). set (desc := descriptor_of m mb el i) in *.
  set (s5 := set_k_out (k_out s4 ++ Wire.frame (submission k desc (from_data (to_vec desc)) rz))
    (k_said s4 ++ [submission k desc (from_data (to_vec desc)) rz]) s4).
  destruct (wait_outcome (SubmissionAck (m_id m) true None rz :: noise) jid hash agreed out zk why
    (S (stream_size (k_in s5))) s5 [] rest) as (s6 & P6 & (Sd6 & _) & Hl); [by constructor|exact H4h|lia|].
  exists c, s6. split; [done|]. split.
  - unfold submit. rewrite (bind_eq _ _ _ _ _ P1). cbv beta iota. rewrite (bind_eq _ _ _ _ _ P2).
    unfold mret, M_ret. rewrite Hm. cbn [mbind option_bind]. unfold submit_job.
    rewrite (bind_eq _ _ _ _ _ P3), (bind_eq _ _ _ _ _ P4). unfold k_send. rewrite send_ok by done. exact P6.
  - split; [|exact Hl]. rewrite Sd6, app_nil_r. unfold s5. simpl k_said. rewrite Sd4, Sd1, <- app_assoc. done.
Qed.
End Owner.

(** ** The owner and the coordinator *)

Section Together.
Context `{Blake3} `{Sha256} `{Ed25519} `{!Signer} `{Os} `{NetOs} `{TmpOs} `{Procs}.
Context `{Json JobManifest} `{Json JobDescriptor} `{Json RVerdict} `{Json JudgeVerdict} `{Json ProveMeta}.
Context `{Json Ledger} `{Json Evidence} `{Json ClientToServer} `{JsonLaws ServerToClient}.
Context `{link : Sink}.

(** The coordinator's side: the owner's messages on a fresh connection are answered as the
    owner expects, and the job is taken with its blobs. *)
Lemma owner_served cfg e1 e2 e3 e4 e5 e6 conn ip sv k c m mb el i rz rd Bs :
  (forall name d, os_write name d = Ok d) -> ready rd m mb el i ->
  store_ok (sv_store sv) -> inj_on Bs -> mb ∈ Bs -> el ∈ Bs -> i ∈ Bs -> (forall p d, sv_store sv !! p = Some d -> d ∈ Bs) ->
  conns sv !! conn = Some (new_conn conn ip) -> accept_submissions cfg = true -> takes cfg sv (m_id m) rz ->
  verify_pow (nonce e1) c (identity_pow_bits cfg) = true ->
  exists sv' c', deliver cfg conn (zip [e1; e2; e3; e4; e5; e6] (owner_messages k (nonce e1) c m mb el i rz)) sv = (Ok tt, sv') /\
    conns sv' !! conn = Some c' /\
    outbound c' = owner_replies k (nonce e1) (identity_pow_bits cfg) m mb el i rz /\
    store_ok (sv_store sv') /\ Forall (fun b => sv_store sv' !! blob_path (from_data b) = Some b) [mb; el; i] /\
    taken (now e6) conn (descriptor_of m mb el i) rz sv sv'.
Proof.
  intros Hw Hr Hok Hinj Hmb Hel Hi Hst Hconn Hacc Ht Hv.
  destruct (put_three mb el i (sv_store sv) Bs) as (st1 & st2 & st3 & P1 & P2 & P3 & Hok3 & L1 & L2 & L3); [done..|].
  pose proof Hr as [_ _ _ _ [_ Hid] _ Hs].
  apply Forall_cons in Hs as [[Bm Sm] [[Be Se] [[Bi Si] _]%Forall_cons]%Forall_cons].
  destruct (admitted cfg e1 e2 sv conn _ k (owner_id k) None "submitter" c Hconn) as
    (sv1 & sv2 & c2 & E1 & E2 & C2 & A2 & K2 & U2 & O2 & S2 & J2 & B2); [done..|].
  assert (same_jobs sv sv2) as F2 by done. rewrite <- S2 in P1.
  destruct (upload_stored cfg e3 conn mb sv2 c2 st1) as (sv3 & c3 & E3 & C3 & A3 & K3 & U3 & O3 & S3 & F3); try done; [by rewrite U2|].
  rewrite <- S3 in P2.
  destruct (upload_stored cfg e4 conn el sv3 c3 st2) as (sv4 & c4 & E4 & C4 & A4 & K4 & U4 & O4 & S4 & F4); try done; [by rewrite U3, U2|].
  rewrite <- S4 in P3.
  destruct (upload_stored cfg e5 conn i sv4 c4 st3) as (sv5 & c5 & E5 & C5 & A5 & K5 & U5 & O5 & S5 & F5); try done; [by rewrite U4, U3, U2|].
  assert (same_jobs sv sv5) as (J5 & B5 & V5 & Q5) by (etrans; [exact F2|etrans; [exact F3|etrans; [exact F4|exact F5]]]).
  destruct (submission_taken cfg e6 conn k m mb el i rz sv5 c5) as (sv6 & c6 & E6 & C6 & O6 & S6 & T6); try done.
  { by rewrite K5, K4, K3, K2. }
  1-3: rewrite S5; by eexists.
  { unfold takes in *. by rewrite J5, V5. }
  exists sv6, c6. split_and!; [|done|..].
  - unfold owner_messages. cbn [zip zip_with deliver].
    rewrite (bind_eq _ _ _ _ _ E1), (bind_eq _ _ _ _ _ E2), (bind_eq _ _ _ _ _ E3), (bind_eq _ _ _ _ _ E4),
      (bind_eq _ _ _ _ _ E5), (bind_eq _ _ _ _ _ E6). done.
  - rewrite O6, O5, O4, O3, O2. done.
  - by rewrite S6, S5.
  - rewrite S6, S5. by repeat (constructor; [done|]).
  - unfold taken in *. by rewrite Q5, J5, B5 in T6.
Qed.

(** C9. Submission end to end: [jobkit submit] on a job directory with a usable identity, whose
    connection delivers what the coordinator answers it and then, after any messages it goes
    over, the outcome, sends its six messages and ends by printing that outcome; and those six
    messages, as events of a fresh connection of a coordinator that takes submissions, in the
    environments of any six turns, are answered with exactly those replies, and leave the job
    queued under its descriptor (or in the proving queue) with its three blobs in the
    coordinator's store, from where it materialises as the submitted job. *)
Theorem submission_accepted rd env path s k m mb el i Bs es rz jid hash agreed out zk why noise rest
    cfg e1 e2 e3 e4 e5 e6 conn ip sv :
  (forall name d, os_write name d = Ok d) -> ready rd m mb el i ->
  inj_on Bs -> mb ∈ Bs -> el ∈ Bs -> i ∈ Bs ->
  store_ok (k_store s) -> (forall p d, k_store s !! p = Some d -> d ∈ Bs) ->
  store_ok (sv_store sv) -> (forall p d, sv_store sv !! p = Some d -> d ∈ Bs) ->
  owner_key path env s k -> ke_open env = Ok tt -> ke_connect env = Ok es ->
  Forall is_byte (nonce e1) -> open_sink -> Forall passing noise ->
  (forall c, is_u64 c -> Forall fits (owner_messages k (nonce e1) c m mb el i rz)) ->
  delivers es (owner_replies k (nonce e1) (identity_pow_bits cfg) m mb el i rz ++ noise ++
    [JobOutcome jid hash agreed out zk why]) rest ->
  (exists c, is_u64 c /\ verify_pow (nonce e1) c (identity_pow_bits cfg) = true) ->
  conns sv !! conn = Some (new_conn conn ip) -> accept_submissions cfg = true -> takes cfg sv (m_id m) rz ->
  exists c s' sv' c' files, let desc := descriptor_of m mb el i in
    submit rd env path rz s = Some (Ok tt, s') /\
    k_said s' = k_said s ++ owner_messages k (nonce e1) c m mb el i rz /\
    (exists l, k_lines s' = l ++ outcome_lines jid hash agreed out zk why) /\
    deliver cfg conn (zip [e1; e2; e3; e4; e5; e6] (owner_messages k (nonce e1) c m mb el i rz)) sv = (Ok tt, sv') /\
    conns sv' !! conn = Some c' /\
    outbound c' = owner_replies k (nonce e1) (identity_pow_bits cfg) m mb el i rz /\
    taken (now e6) conn desc rz sv sv' /\
    materialize desc (sv_store sv') ∅ = (Ok tt, files) /\
    forall at_, load_dir at_ files = Ok {| manifest := m; dir := at_; job_elf := el; job_input := i |}.
Proof.
  intros Hw Hr Hinj Hmb Hel Hi Hks Hki Hcs Hci Hk Hop Hc Hn Ho Hnoise Hfit Hd Hpow Hconn Hacc Ht.
  destruct (submit_ok rd env path s k m mb el i Bs es (nonce e1) (identity_pow_bits cfg) rz jid hash agreed out zk why noise rest)
    as (c & s' & Hv & Hs & Hsaid & Hl); [done..|].
  destruct (owner_served cfg e1 e2 e3 e4 e5 e6 conn ip sv k c m mb el i rz rd Bs)
    as (sv' & c' & Hdel & Hc' & Hout & Hok' & [L1 [L2 [L3 _]%Forall_cons]%Forall_cons]%Forall_cons & Htk); [done..|].
  pose proof Hr as [_ Hm _ _ [Hnames _] [Hsch Hisa] _]. pose proof Hnames as (_ & _ & N1 & N2 & N3).
  exists c, s', sv', c'. eexists. split_and!; try done.
  - by eapply materialize_ok.
  - intros at_. apply (load_dir_bytes at_ _ m mb el i); try done; simplify_map_eq; done.
Qed.
End Together.

(** ** A submission ends *)

(** [jobkit submit] returns, with success, an error message or a panic, for every behaviour of
    the coordinator, the connection and the disk, except exactly when no 64-bit counter solves
    the challenge it receives. *)
Theorem submit_ends `{Blake3} `{Ed25519} `{!Signer} `{Os} `{Json JobManifest} `{Json JobDescriptor}
    `{Json ClientToServer} `{Json ServerToClient} `{link : Sink} rd env path rz s :
  submit rd env path rz s = None <->
  exists key desc id n bits s1 s2, submit_prepare rd env path s = (Ok (key, desc, id), s1) /\
    submit_greet env key s1 = (Ok (n, bits), s2) /\ forall c, is_u64 c -> verify_pow n c bits = false.
Proof.
  unfold submit, mbind at 1, M_bind at 1.
  destruct (submit_prepare rd env path s) as [[[[key desc] id]|e|] s1]; [|split; [done|by intros (? & ? & ? & ? & ? & ? & ? & ? & _)]..].
  unfold mbind at 1, M_bind at 1. destruct (submit_greet env key s1) as [[[n bits]|e|] s2] eqn:Hg.
  2,3: split; [done|]; intros (? & ? & ? & ? & ? & ? & ? & [= <- <- <- <-] & Hg' & _); congruence.
  unfold mret, M_ret. pose proof (mine_pow_spec n bits) as Hm. destruct (mine_pow n bits) as [c|]; cbn [mbind option_bind].
  - destruct Hm as (Hc & Hv & _). split.
    + destruct (submit_job key desc id n bits c rz s2) as [[[]|e|] s3]; [|done..]. intros Hn.
      destruct (wait_loop_total (S (stream_size (k_in s3))) s3) as [r Hr]; [lia|congruence].
    + intros (? & ? & ? & ? & ? & ? & ? & [= <- <- <- <-] & Hg' & Hno). rewrite Hg in Hg'. injection Hg' as <- <- _.
      by rewrite Hno in Hv.
  - split; [|done]. intros _. by exists key, desc, id, n, bits, s1, s2.
Qed.

(** ** What a build installs *)

Section Built.
Context `{Blake3} `{Os} `{Commands} `{Json JobManifest}.

Lemma install_elf_inv bytes d u d' :
  install_elf bytes d = (Ok u, d') -> exists stored, os_write "program.elf" bytes = Ok stored /\ d' = <["program.elf"%string := stored]> d.
Proof.
  unfold install_elf, fs_write. rewrite decide_True by (apply (bool_decide_unpack _); vm_compute; exact I).
  destruct (os_write _ _) as [stored|?|]; [|done..]. intros [= _ <-]. by exists stored.
Qed.

(** From the build to the descriptor: when [jobkit build] succeeds on a job whose manifest
    names program.elf, on a working disk, what a later publication addresses as the program is
    exactly what was built; the SP1 pipeline printed its content id, and the emulator pipeline
    installed it only after the loader had accepted it. *)
Theorem built_is_published env dir d r d' m mb st desc st' :
  (forall name x, os_write name x = Ok x) ->
  d !! "job.json"%string = Some mb -> from_slice mb = Ok m -> elf m = "program.elf"%string ->
  build_job env dir d = (Ok r, d') -> publish (fs_read d') st = (Ok desc, st') ->
  exists bytes, d' = <["program.elf"%string := bytes]> d /\ d_elf desc = to_hex (from_data bytes) /\
    match r with
    | Some id => is_sp1_v2 m = true /\ id = from_data bytes
    | None => is_sp1_v2 m = false /\ exists image, parse bytes = Ok image
    end.
Proof.
  intros Hw Hj Hm Helf Hb Hp.
  assert (exists bytes, d' = <["program.elf"%string := bytes]> d /\
    match r with Some id => is_sp1_v2 m = true /\ id = from_data bytes
    | None => is_sp1_v2 m = false /\ exists image, parse bytes = Ok image end) as (bytes & Hd & Hr).
  { unfold build_job in Hb. rewrite fs_read_plain, Hj in Hb by apply plain_job_json. simpl in Hb. rewrite Hm in Hb.
    destruct (is_sp1_v2 m).
    - apply bind_ok in Hb as (id & d1 & Hb & [= <- <-]). unfold build_v2 in Hb. case_match; [done|].
      apply bind_ok in Hb as ([[guest target] cache] & s1 & [_ ->]%lift_ok & Hb).
      apply bind_ok in Hb as (ok_ & s2 & [_ ->]%lift_ok & Hb). case_match; [done|].
      apply bind_ok in Hb as (bytes & s3 & [_ ->]%lift_ok & Hb).
      apply bind_ok in Hb as ([] & s4 & (stored & Hs & ->)%install_elf_inv & [= <- <-]).
      rewrite Hw in Hs. injection Hs as <-. by exists bytes.
    - apply bind_ok in Hb as (u & d1 & Hb & [= <- <-]). unfold build_legacy in Hb.
      apply bind_ok in Hb as (ok_ & s2 & [_ ->]%lift_ok & Hb). case_match; [done|].
      apply bind_ok in Hb as (bytes & s3 & [_ ->]%lift_ok & Hb).
      apply bind_ok in Hb as (image & s4 & [Hi%map_err_ok ->]%lift_ok & (stored & Hs & ->)%install_elf_inv).
      rewrite Hw in Hs. injection Hs as <-. exists bytes. split_and!; try done. by exists image. }
  exists bytes. split_and!; [done| |done]. subst d'.
  unfold publish in Hp. apply bind_ok in Hp as (mb' & s1 & [Hmb%map_err_ok ->]%lift_ok & Hp).
  rewrite fs_read_plain, lookup_insert_ne, Hj in Hmb by (done || apply plain_job_json). injection Hmb as <-.
  apply bind_ok in Hp as (m' & s2 & [Hm'%map_err_ok ->]%lift_ok & Hp). rewrite Hm in Hm'. injection Hm' as <-.
  apply bind_ok in Hp as (e & s3 & [He%map_err_ok ->]%lift_ok & Hp).
  rewrite Helf, fs_read_plain, lookup_insert_eq in He by (apply (bool_decide_unpack _); vm_compute; exact I). injection He as <-.
  apply bind_ok in Hp as (i & s4 & [_ ->]%lift_ok & Hp). apply bind_ok in Hp as (mid & s5 & _ & Hp).
  apply bind_ok in Hp as (eid & s6 & (-> & _)%put_blob_ok & Hp). apply bind_ok in Hp as (iid & s7 & _ & Hp).
  injection Hp as <- _. done.
Qed.
End Built.

(** ** Offline verification *)

Section Offline.
Context `{Blake3} `{Os} `{NetOs} `{Procs} `{Bincode} `{!BincodeLaws} `{!Sp1} `{Json JobManifest} `{!ManifestTyped}.
Context `{Json JobDescriptor} `{Json Value} `{Json string} `{Json (list string)}.
Context (as_secs : Value -> option string).

(** The value a line of zk-verify is. *)
Definition value_of (l : VerifyLine) : Value :=
  VObject [("ok", VBool true); ("status", VNumber (pretty (vl_status l)));
    ("instructions", VNumber (pretty (vl_instructions l))); ("chain", VArray (VString <$> vl_chain l));
    ("output_hex", VString (vl_output_hex l))]%string.

(** The command is zk-verify with the compiled guest [gb] at [guest]; its line is read as the
    value it is, and no other output of it is read as a success. *)
Definition kit_spawned (cmd guest : string) (gb : list Z) : Prop :=
  forall args files p, spawn cmd args files = Ok p ->
  exists rd, p = zk_verify_process rd args /\ (forall x, rd guest = Ok x -> x = gb) /\
    forall receipt ids, args = guest :: receipt :: ids -> length ids = 3%nat -> "--v2"%string ∉ args ->
      match verify_run rd guest receipt (Some ids) false with
      | Ok l => from_slice (text_of (p_stdout p)) = Ok (value_of l)
      | _ => forall v, from_slice (text_of (p_stdout p)) = Ok v -> is_true (vindex v "ok") = false
      end.

Lemma decode_ids_three a b c eb :
  decode_ids [a; b; c] = Ok eb ->
  exists x y z, eb = [x; y; z] /\ from_hex a 32 = Ok x /\ from_hex b 32 = Ok y /\ from_hex c 32 = Ok z.
Proof.
  unfold decode_ids. cbn [mapM].
  intros (x & [_ Hx]%from_hex_tag_digest & (l & (y & [_ Hy]%from_hex_tag_digest & (l' & (z & [_ Hz]%from_hex_tag_digest & (n & [= <-] & [= <-])%obind_ok)%obind_ok & [= <-])%obind_ok)%obind_ok & [= <-])%obind_ok)%obind_ok.
  by exists x, y, z.
Qed.

(** C16. The client's check closes the loop without the coordinator, for jobs of the emulator's
    format: when [jobkit verify] with a descriptor and without [--v2] accepts a bundle, its
    verifier is zk-verify on the compiled emulator guest and the proof system is sound for that
    guest, then the printed status, instruction count and output are those of executing a job
    with exactly the content ids of that descriptor, whatever the bundle holds.  What zk-verify
    reports with [--v2], where it compares the input id only, is [verify_run_v2_proven]. *)
Theorem offline_verify_proves_run bundle files cmd guest gb db desc lines :
  kit_spawned cmd guest gb -> proves gb guest_emu -> as_secs VNull = None ->
  from_slice db = Ok desc -> "--v2"%string ∉ [d_manifest desc; d_elf desc; d_input desc] -> guest <> "--v2"%string ->
  verify as_secs bundle files cmd guest (Some (Ok db)) false = Ok lines ->
  exists em ee ei st n chain oh, from_hex (d_manifest desc) 32 = Ok em /\ from_hex (d_elf desc) 32 = Ok ee /\
    from_hex (d_input desc) 32 = Ok ei /\ proven_run [em; ee; ei] st n chain oh /\
    lines = ["RECEIPT VERIFIED"; "  status:       " +:+ show_value (VNumber (pretty st));
      "  instructions: " +:+ show_value (VNumber (pretty n)); "  output:       " +:+ oh]%string.
Proof.
  intros Hsp Hsound Hsecs Hdb Hids Hg. unfold verify. case_match; [done|]. simpl. rewrite Hdb. simpl.
  intros (p & Hp%expect_ok & (v & Hv & Hl)%obind_ok)%obind_ok.
  destruct (Hsp _ _ _ Hp) as (rd & -> & Hgb & Hread).
  assert ("--v2"%string ∉ kit_args guest (bundle +:+ "/receipt.bin") false (Some desc)) as Hno.
  { unfold kit_args. simpl. rewrite !not_elem_of_cons in *. split_and!; try (tauto || congruence).
    intros Heq. apply (f_equal String.length) in Heq. rewrite string_length_app in Heq. simpl in Heq. lia. }
  specialize (Hread _ [d_manifest desc; d_elf desc; d_input desc] eq_refl eq_refl Hno).
  assert (from_slice (text_of (p_stdout (zk_verify_process rd (kit_args guest (bundle +:+ "/receipt.bin") false (Some desc))))) = Ok v) as Hv'.
  { unfold kit_verdict in Hv. by destruct (p_end _); first [apply expect_ok in Hv|done]. }
  destruct (verify_run rd guest (bundle +:+ "/receipt.bin") _ false) as [l|e|] eqn:Hr.
  2,3: by rewrite (Hread _ Hv') in Hl.
  rewrite Hread in Hv'. injection Hv' as <-. simpl in Hl.
  unfold verified_lines in Hl. simpl in Hl. rewrite Hsecs in Hl. injection Hl as <-.
  pose proof Hr as Hr'. unfold verify_run in Hr'. apply obind_ok in Hr' as (ex & (eb & Heb & _)%obind_ok & _).
  destruct (decode_ids_three _ _ _ _ Heb) as (em & ee & ei & -> & Hem & Hee & Hei).
  exists em, ee, ei, (vl_status l), (vl_instructions l), (vl_chain l), (vl_output_hex l). split_and!; try done.
  by eapply verify_run_proven.
Qed.
End Offline.
