(* ===== verification/JobkitDemo.v ===== *)
(** * Executions of jobkit

    Concrete submissions, builds and verifications at which the theorems of [JobkitFacts] are
    applied, and executions that show what the code does not prevent. *)

From S2P Require Import Prelude Text Mem Cpu Interp Run Elf JobFmt ContentStore Wire Quorum Ledger Dispute ZkJudge.
From S2P Require Import Server Serve ServeFacts DispatchFacts Worker EndToEnd NetDemo EndDemo Sp1 Sp1Facts Sp1Demo Jobkit JobkitFacts.

#[local] Existing Instances toy_blake3 toy_sha256 toy_ed25519 toy_os toy_net toy_tmp toy_sink toy_signer.
#[local] Existing Instances toy_bincode toy_bincode_laws toy_sp1.
#[local] Existing Instances s1 s1_typed.
#[local] Instance j2 : Json JobDescriptor := tight_json _.
#[local] Instance j3 : Json RVerdict := toy_json _.
#[local] Instance j4 : Json JudgeVerdict := no_json _.
#[local] Instance j5 : Json ProveMeta := no_json _.
#[local] Instance j6 : Json Ledger := no_json _.
#[local] Instance j7 : Json Evidence := no_json _.
#[local] Instance j8 : Json ClientToServer := tight_json _.
#[local] Instance j9 : Json ServerToClient := tight_json _.
#[local] Instance j9_laws : JsonLaws ServerToClient := tight_json_laws _.
#[local] Instance j11 : Json string := tight_json _.
#[local] Instance j12 : Json (list string) := tight_json _.

(** ** A submission *)

#[local] Instance no_procs : Procs := {| spawn := fun _ _ _ => Err "no such program"%string |}.

(** The job directory of [demo_manifest], as of the [ContentStore] demo. *)
Definition kit0 : Kit := {|
  k_in := []; k_out := []; k_said := []; k_store := ∅; k_disk := {[ "submitter.key"%string := replicate 33 4 ]}; k_lines := [] |}.

Definition kit_replies : list ServerToClient :=
  owner_replies (skey_from_seed (replicate 32 4)) (replicate 32 5) 0 demo_manifest demo_mb [1; 2] [3] false.

Definition kit_outcome : ServerToClient := JobOutcome "demo" "00" ["w1"; "w2"]%string (Some "2a"%string) false None.

Definition kit_env (msgs : list ServerToClient) : KitEnv := {|
  ke_open := Ok tt; ke_connect := Ok [Data (concat (Wire.frame <$> msgs))]; ke_seed := replicate 32 9 |}.

Lemma tight_fits {A} `{Countable A} (a : A) : @fits A (tight_json A) a.
Proof. unfold fits, MAX_FRAME. simpl. lia. Qed.

Lemma demo_ready : ready demo_rd demo_manifest demo_mb [1; 2] [3].
Proof.
  constructor; try reflexivity.
  - split; [|apply (bool_decide_unpack _); vm_compute; exact I].
    unfold names_ok. split_and!; try discriminate; apply (bool_decide_unpack _); vm_compute; exact I.
  - split; reflexivity.
  - pose proof demo_typed as [Hb _]%Forall_cons. constructor; [split; [exact Hb|apply (bool_decide_unpack _); vm_compute; exact I]|].
    repeat (constructor; [split; [apply (bool_decide_unpack _); vm_compute; exact I|vm_compute; discriminate]|]). constructor.
Qed.

Lemma demo_inj : inj_on [demo_mb; [1; 2]; [3]].
Proof.
  intros x y Hx Hy Heq. set_unfold.
  destruct Hx as [->|[->|[->|[]]]], Hy as [->|[->|[->|[]]]]; try reflexivity; vm_compute in Heq; discriminate Heq.
Qed.

Lemma submission_accepted_witness :
  exists c s' sv' c' files, let desc := descriptor_of demo_manifest demo_mb [1; 2] [3] in
    let msgs := owner_messages (skey_from_seed (replicate 32 4)) (replicate 32 5) c demo_manifest demo_mb [1; 2] [3] false in
    submit demo_rd (kit_env (kit_replies ++ [BetweenJobs; kit_outcome])) "submitter.key" false kit0 = Some (Ok tt, s') /\
    k_said s' = k_said kit0 ++ msgs /\
    (exists l, k_lines s' = l ++ outcome_lines "demo" "00" ["w1"; "w2"]%string (Some "2a"%string) false None) /\
    deliver net_cfg 1 (zip (replicate 6 (net_env 0 [])) msgs) empty_server = (Ok tt, sv') /\
    conns sv' !! 1 = Some c' /\ outbound c' = kit_replies /\ taken 0 1 desc false empty_server sv' /\
    materialize desc (sv_store sv') ∅ = (Ok tt, files) /\
    forall at_, load_dir at_ files = Ok {| manifest := demo_manifest; dir := at_; job_elf := [1; 2]; job_input := [3] |}.
Proof.
  apply (submission_accepted demo_rd (kit_env (kit_replies ++ [BetweenJobs; kit_outcome])) "submitter.key" kit0
    (skey_from_seed (replicate 32 4)) demo_manifest demo_mb [1; 2] [3] [demo_mb; [1; 2]; [3]]
    [Data (concat (Wire.frame <$> (kit_replies ++ [BetweenJobs; kit_outcome])))] false
    "demo" "00" ["w1"; "w2"]%string (Some "2a"%string) false None [BetweenJobs] [] net_cfg
    (net_env 0 []) (net_env 0 []) (net_env 0 []) (net_env 0 []) (net_env 0 []) (net_env 0 []) 1 "10.0.0.1" empty_server).
  - reflexivity.
  - exact demo_ready.
  - exact demo_inj.
  - by left.
  - by right; left.
  - by right; right; left.
  - intros p d Hd. discriminate Hd.
  - intros p d Hd. discriminate Hd.
  - intros p d Hd. discriminate Hd.
  - intros p d Hd. discriminate Hd.
  - split; [simpl; lia|reflexivity].
  - reflexivity.
  - reflexivity.
  - by apply Forall_replicate.
  - split; intros; reflexivity.
  - by constructor.
  - intros c _. unfold owner_messages. repeat (constructor; [apply tight_fits|]). constructor.
  - split; [|split; [reflexivity|apply Forall_forall; intros x _; apply tight_fits]].
    repeat constructor; intros; discriminate.
  - exists 0. split; [split; lia|]. vm_compute. reflexivity.
  - reflexivity.
  - reflexivity.
  - reflexivity.
Defined.

(** ** A build *)

#[local] Instance toy_commands : Commands := {| cmd_status := fun _ _ _ => Ok true |}.

Definition demo_build : BuildEnv := {|
  release_dir := Ok [mkEntry "demo.d" (Some (true, 90)) (Ok [0]); mkEntry "build" (Some (false, 4096)) (Err "is a directory"%string);
                     mkEntry "demo" (Some (true, 200)) (Ok demo_job_elf)];
  guest_crate := false; guest_dirs := Err "No such file"%string; dockerfile := ""; repo_root := "" |}.

Definition source_dir : Dir := {[ "job.json"%string := demo_mb; "input.bin"%string := [3] ]}.
Definition built_dir : Dir := <["program.elf"%string := demo_job_elf]> source_dir.

Lemma demo_built : build_job demo_build "demo" source_dir = (Ok None, built_dir).
Proof. apply (bool_decide_unpack _). vm_compute. exact I. Qed.

Definition built_desc : JobDescriptor := descriptor_of demo_manifest demo_mb demo_job_elf [3].

Lemma demo_published : (publish (fs_read built_dir) ∅).1 = Ok built_desc.
Proof. apply (bool_decide_unpack _). vm_compute. exact I. Qed.

Lemma built_is_published_witness :
  exists bytes, built_dir = <["program.elf"%string := bytes]> source_dir /\ d_elf built_desc = to_hex (from_data bytes) /\
    is_sp1_v2 demo_manifest = false /\ exists image, parse bytes = Ok image.
Proof.
  apply (built_is_published demo_build "demo" source_dir None built_dir demo_manifest demo_mb ∅ built_desc
    (publish (fs_read built_dir) ∅).2).
  - reflexivity.
  - apply same_file. vm_compute. reflexivity.
  - reflexivity.
  - reflexivity.
  - exact demo_built.
  - exact (any_ok_pair _ _ demo_published).
Defined.

(** ** A verification *)

Definition bundle_files : Dir := {[ "receipt.bin"%string := demo_receipt ]}.
Definition kit_verify_args : list string := kit_args "emu.elf" "bundle/receipt.bin" false (Some job_desc).

Definition kit_rd (path : string) : outcome string (list Z) :=
  if bool_decide (path = "bundle/receipt.bin"%string) then Ok demo_receipt
  else if bool_decide (path = "emu.elf"%string) then Ok emu_elf
  else Err "No such file"%string.

Definition kit_proc : proc_run := zk_verify_process kit_rd kit_verify_args.

Definition kit_line : VerifyLine :=
  default (mkVerifyLine 9 9 [] "")
    (ok (verify_run kit_rd "emu.elf" "bundle/receipt.bin" (Some [d_manifest job_desc; d_elf job_desc; d_input job_desc]) false)).

#[local] Instance kit_value : Json Value := one_text (text_of (p_stdout kit_proc)) (value_of kit_line).

#[local] Instance kit_procs : Procs := {|
  spawn cmd args files :=
    if bool_decide (cmd = "zk-verify"%string /\ args = kit_verify_args /\ files = bundle_files) then Ok kit_proc
    else Err "no such program"%string |}.

Lemma kit_line_ok :
  bool_decide (is_Some (ok (verify_run kit_rd "emu.elf" "bundle/receipt.bin"
    (Some [d_manifest job_desc; d_elf job_desc; d_input job_desc]) false))) = true.
Proof. vm_compute. reflexivity. Qed.

Lemma demo_kit_spawned : kit_spawned "zk-verify" "emu.elf" emu_elf.
Proof.
  intros args files p Hs. unfold spawn, kit_procs in Hs. case_bool_decide as Hd; [|done].
  destruct Hd as (_ & -> & _). apply ok_inj in Hs as <-. exists kit_rd. split; [done|]. split.
  - intros x Hx. unfold kit_rd in Hx. rewrite bool_decide_false, bool_decide_true in Hx by done. by apply ok_inj in Hx as <-.
  - intros receipt ids Hargs _ _. unfold kit_verify_args, kit_args in Hargs. injection Hargs as <- <-.
    pose proof kit_line_ok as [l Hl]%bool_decide_eq_true_1. unfold kit_value, kit_line.
    destruct (verify_run kit_rd "emu.elf" _ _ false) as [l'|e|]; [|discriminate Hl..]. apply one_text_read.
Qed.

Definition no_secs (v : Value) : option string := match v with VNumber t => Some t | _ => None end.

Lemma demo_verified :
  bool_decide (is_Some (ok (verify no_secs "bundle" bundle_files "zk-verify" "emu.elf" (Some (Ok (to_vec job_desc))) false))) = true.
Proof. vm_compute. reflexivity. Qed.

Lemma offline_verify_proves_run_witness :
  exists lines, verify no_secs "bundle" bundle_files "zk-verify" "emu.elf" (Some (Ok (to_vec job_desc))) false = Ok lines /\
  exists em ee ei st n chain oh, from_hex (d_manifest job_desc) 32 = Ok em /\ from_hex (d_elf job_desc) 32 = Ok ee /\
    from_hex (d_input job_desc) 32 = Ok ei /\ proven_run [em; ee; ei] st n chain oh /\
    lines = ["RECEIPT VERIFIED"; "  status:       " +:+ show_value (VNumber (pretty st));
      "  instructions: " +:+ show_value (VNumber (pretty n)); "  output:       " +:+ oh]%string.
Proof.
  pose proof demo_verified as [lines Hl]%bool_decide_eq_true_1. exists lines.
  destruct (verify no_secs _ _ _ _ _ _) as [l|e|] eqn:Hv; [|discriminate Hl..]. injection Hl as ->. split; [reflexivity|].
  apply (offline_verify_proves_run no_secs "bundle" bundle_files "zk-verify" "emu.elf" emu_elf (to_vec job_desc) job_desc lines).
  - exact demo_kit_spawned.
  - exact toy_proves.
  - reflexivity.
  - apply (bool_decide_unpack _). vm_compute. exact I.
  - apply (bool_decide_unpack _). vm_compute. exact I.
  - discriminate.
  - exact Hv.
Defined.

(** ** What the code does not prevent *)

(** The end of any other job is announced to submitters too, and jobkit takes the message for
    the answer to its upload. *)
Lemma between_jobs_panics_submit :
  (forall sv c, conns sv !! 1 = Some c -> conns (broadcast BetweenJobs sv) !! 1 = Some (push_msg BetweenJobs c)) /\
  fst <$> submit demo_rd (kit_env (take 3 kit_replies ++ BetweenJobs :: drop 3 kit_replies)) "submitter.key" false kit0 = Some Panic.
Proof.
  split; [|vm_compute; reflexivity]. intros sv c Hc. unfold broadcast. simpl. by rewrite lookup_fmap, Hc.
Qed.

(** An identity file of 31 bytes: a panic, where the worker creates a new identity. *)
Lemma short_identity_panics :
  (kit_identity "submitter.key" (replicate 32 9)
     {| k_in := []; k_out := []; k_said := []; k_store := ∅; k_disk := {[ "submitter.key"%string := replicate 31 4 ]}; k_lines := [] |}).1 = Panic.
Proof. reflexivity. Qed.

(** Evidence of a job without a receipt, assembled where a bundle of another job is: the other
    job's receipt is in the bundle. *)
Lemma stale_receipt_in_bundle :
  let old : Dir := {[ "outcome.json"%string := [1]; "receipt.bin"%string := [7] ]} in
  let rd name := if bool_decide (name = "b.json"%string) then Ok [2] else Err "No such file"%string in
  evidence rd (fun _ => false) "b" "evidence-bundle" old =
    (Ok tt, {[ "outcome.json"%string := [2]; "receipt.bin"%string := [7] ]}).
Proof. apply (bool_decide_unpack _). vm_compute. exact I. Qed.

(** A refused submission is not always answered: with submissions disabled the coordinator
    admits the owner, takes its blobs and then says nothing. *)
Lemma disabled_submission_is_silent :
  let cfg := {| per_job_deadline := 1000; ledger_path := None; require_identity := true; zk := None; zk_judge := None;
    zk_prover := None; accept_submissions := false; results_dir := None; identity_pow_bits := 0;
    cfg_pool := Some 3%nat; max_jobs := None; round1_size := None; round1_ids := None |} in
  let msgs := owner_messages (skey_from_seed (replicate 32 4)) (replicate 32 5) 0 demo_manifest demo_mb [1; 2] [3] false in
  let r := deliver cfg 1 (zip (replicate 6 (net_env 0 [])) msgs) empty_server in
  r.1 = Ok tt /\ outbound <$> conns r.2 !! 1 = Some (take 5 kit_replies).
Proof. split; [vm_compute; reflexivity|apply (bool_decide_unpack _); vm_compute; exact I]. Qed.
