(* ===== verification/Isa.v ===== *)
(** * RV64IMC, the instruction set the emulator promises (the [isa] field "rv64imc" of a job)

    A reference for the emulator, written from the RISC-V unprivileged manual and not
    from interp.rs: instructions as syntax, their encodings as sums of shifted fields,
    their effect on a machine that is a function from register numbers, a pc and a
    function from addresses to bytes.  Compressed instructions have their own encodings
    and the manual's expansion into a base instruction.  [IsaFacts] proves that a step of
    the emulator implements this machine. *)

From S2P Require Import Prelude Mem Interp.

(** ** Syntax *)

Inductive r_op := ADD | SUB | SLL | SLT | SLTU | XOR | SRL | SRA | OR | AND
  | MUL | MULH | MULHSU | MULHU | DIV | DIVU | REM | REMU.
Inductive rw_op := ADDW | SUBW | SLLW | SRLW | SRAW | MULW | DIVW | DIVUW | REMW | REMUW.
Inductive i_op := ADDI | SLTI | SLTIU | XORI | ORI | ANDI.
Inductive sh_op := SLLI | SRLI | SRAI.
Inductive b_op := BEQ | BNE | BLT | BGE | BLTU | BGEU.
Inductive l_op := LB | LH | LW | LD | LBU | LHU | LWU.
Inductive s_op := SB | SH | SW | SD.

(** Immediates are signed numbers, except the 20-bit field of LUI and AUIPC.  The immediate of
    FENCE holds the mode and the predecessor and successor sets; that of FENCE.I, and the
    registers of both, are reserved fields that an implementation ignores. *)
Inductive instr :=
  | LUI (rd imm : Z)
  | AUIPC (rd imm : Z)
  | JAL (rd imm : Z)
  | JALR (rd rs1 imm : Z)
  | Branch (op : b_op) (rs1 rs2 imm : Z)
  | Load (op : l_op) (rd rs1 imm : Z)
  | Store (op : s_op) (rs1 rs2 imm : Z)
  | OpImm (op : i_op) (rd rs1 imm : Z)
  | ShImm (op : sh_op) (rd rs1 shamt : Z)
  | ADDIW (rd rs1 imm : Z)
  | ShImmW (op : sh_op) (rd rs1 shamt : Z)
  | Op (op : r_op) (rd rs1 rs2 : Z)
  | OpW (op : rw_op) (rd rs1 rs2 : Z)
  | FENCE (rd rs1 imm : Z)
  | FENCE_I (rd rs1 imm : Z)
  | ECALL
  | EBREAK.

(** ** Encodings of the base instructions *)

(** Bits [lo .. lo + n - 1] of an immediate. *)
Definition bits (imm lo n : Z) : Z := (imm / 2 ^ lo) mod 2 ^ n.

Definition enc_r (op f3 f7 rd rs1 rs2 : Z) : Z :=
  op + rd * 2 ^ 7 + f3 * 2 ^ 12 + rs1 * 2 ^ 15 + rs2 * 2 ^ 20 + f7 * 2 ^ 25.
Definition enc_i (op f3 rd rs1 imm : Z) : Z :=
  op + rd * 2 ^ 7 + f3 * 2 ^ 12 + rs1 * 2 ^ 15 + bits imm 0 12 * 2 ^ 20.
(** The shifts of RV64: a six-bit amount under a six-bit function code. *)
Definition enc_sh (op f3 f6 rd rs1 shamt : Z) : Z :=
  op + rd * 2 ^ 7 + f3 * 2 ^ 12 + rs1 * 2 ^ 15 + shamt * 2 ^ 20 + f6 * 2 ^ 26.
Definition enc_s (op f3 rs1 rs2 imm : Z) : Z :=
  op + bits imm 0 5 * 2 ^ 7 + f3 * 2 ^ 12 + rs1 * 2 ^ 15 + rs2 * 2 ^ 20 + bits imm 5 7 * 2 ^ 25.
Definition enc_b (op f3 rs1 rs2 imm : Z) : Z :=
  op + bits imm 11 1 * 2 ^ 7 + bits imm 1 4 * 2 ^ 8 + f3 * 2 ^ 12 + rs1 * 2 ^ 15 + rs2 * 2 ^ 20
  + bits imm 5 6 * 2 ^ 25 + bits imm 12 1 * 2 ^ 31.
Definition enc_u (op rd imm : Z) : Z := op + rd * 2 ^ 7 + imm * 2 ^ 12.
Definition enc_j (op rd imm : Z) : Z :=
  op + rd * 2 ^ 7 + bits imm 12 8 * 2 ^ 12 + bits imm 11 1 * 2 ^ 20 + bits imm 1 10 * 2 ^ 21
  + bits imm 20 1 * 2 ^ 31.

Definition r_code (op : r_op) : Z * Z :=
  match op with
  | ADD => (0, 0) | SUB => (0, 32) | SLL => (1, 0) | SLT => (2, 0) | SLTU => (3, 0)
  | XOR => (4, 0) | SRL => (5, 0) | SRA => (5, 32) | OR => (6, 0) | AND => (7, 0)
  | MUL => (0, 1) | MULH => (1, 1) | MULHSU => (2, 1) | MULHU => (3, 1)
  | DIV => (4, 1) | DIVU => (5, 1) | REM => (6, 1) | REMU => (7, 1)
  end.
Definition rw_code (op : rw_op) : Z * Z :=
  match op with
  | ADDW => (0, 0) | SUBW => (0, 32) | SLLW => (1, 0) | SRLW => (5, 0) | SRAW => (5, 32)
  | MULW => (0, 1) | DIVW => (4, 1) | DIVUW => (5, 1) | REMW => (6, 1) | REMUW => (7, 1)
  end.
Definition i_code (op : i_op) : Z :=
  match op with ADDI => 0 | SLTI => 2 | SLTIU => 3 | XORI => 4 | ORI => 6 | ANDI => 7 end.
Definition sh_code (op : sh_op) : Z * Z :=
  match op with SLLI => (1, 0) | SRLI => (5, 0) | SRAI => (5, 16) end.
Definition b_code (op : b_op) : Z :=
  match op with BEQ => 0 | BNE => 1 | BLT => 4 | BGE => 5 | BLTU => 6 | BGEU => 7 end.
Definition l_code (op : l_op) : Z :=
  match op with LB => 0 | LH => 1 | LW => 2 | LD => 3 | LBU => 4 | LHU => 5 | LWU => 6 end.
Definition s_code (op : s_op) : Z := match op with SB => 0 | SH => 1 | SW => 2 | SD => 3 end.

Definition encode (i : instr) : Z :=
  match i with
  | LUI rd imm => enc_u 0x37 rd imm
  | AUIPC rd imm => enc_u 0x17 rd imm
  | JAL rd imm => enc_j 0x6f rd imm
  | JALR rd rs1 imm => enc_i 0x67 0 rd rs1 imm
  | Branch op rs1 rs2 imm => enc_b 0x63 (b_code op) rs1 rs2 imm
  | Load op rd rs1 imm => enc_i 0x03 (l_code op) rd rs1 imm
  | Store op rs1 rs2 imm => enc_s 0x23 (s_code op) rs1 rs2 imm
  | OpImm op rd rs1 imm => enc_i 0x13 (i_code op) rd rs1 imm
  | ShImm op rd rs1 sh => let '(f3, f6) := sh_code op in enc_sh 0x13 f3 f6 rd rs1 sh
  | ADDIW rd rs1 imm => enc_i 0x1b 0 rd rs1 imm
  | ShImmW op rd rs1 sh => let '(f3, f6) := sh_code op in enc_sh 0x1b f3 f6 rd rs1 sh
  | Op op rd rs1 rs2 => let '(f3, f7) := r_code op in enc_r 0x33 f3 f7 rd rs1 rs2
  | OpW op rd rs1 rs2 => let '(f3, f7) := rw_code op in enc_r 0x3b f3 f7 rd rs1 rs2
  | FENCE rd rs1 imm => enc_i 0x0f 0 rd rs1 imm
  | FENCE_I rd rs1 imm => enc_i 0x0f 1 rd rs1 imm
  | ECALL => enc_i 0x73 0 0 0 0
  | EBREAK => enc_i 0x73 0 0 0 1
  end.

(** Operands in range: register numbers, signed immediates of [n] bits, even offsets. *)
Definition reg_ok (r : Z) : Prop := 0 <= r < 32.
Definition simm (n imm : Z) : Prop := - 2 ^ (n - 1) <= imm < 2 ^ (n - 1).

Definition instr_ok (i : instr) : Prop :=
  match i with
  | LUI rd imm | AUIPC rd imm => reg_ok rd /\ is_u 20 imm
  | JAL rd imm => reg_ok rd /\ simm 21 imm /\ imm mod 2 = 0
  | JALR rd rs1 imm | ADDIW rd rs1 imm | Load _ rd rs1 imm | OpImm _ rd rs1 imm
  | FENCE rd rs1 imm | FENCE_I rd rs1 imm =>
      reg_ok rd /\ reg_ok rs1 /\ simm 12 imm
  | Branch _ rs1 rs2 imm => reg_ok rs1 /\ reg_ok rs2 /\ simm 13 imm /\ imm mod 2 = 0
  | Store _ rs1 rs2 imm => reg_ok rs1 /\ reg_ok rs2 /\ simm 12 imm
  | ShImm _ rd rs1 sh => reg_ok rd /\ reg_ok rs1 /\ 0 <= sh < 64
  | ShImmW _ rd rs1 sh => reg_ok rd /\ reg_ok rs1 /\ 0 <= sh < 32
  | Op _ rd rs1 rs2 | OpW _ rd rs1 rs2 => reg_ok rd /\ reg_ok rs1 /\ reg_ok rs2
  | ECALL | EBREAK => True
  end.

(** ** The machine *)

Record isa : Type := mkIsa {
  regs : Z -> Z;
  ipc : Z;
  imem : Z -> Z;
}.

Definition reg (σ : isa) (r : Z) : Z := if r =? 0 then 0 else regs σ r.

(** Write [rd] and continue at [next]. *)
Definition retire (σ : isa) (rd v next : Z) : isa :=
  {| regs := fun r => if r =? rd then v else regs σ r; ipc := next mod 2 ^ 64; imem := imem σ |}.
Definition jump (σ : isa) (next : Z) : isa :=
  {| regs := regs σ; ipc := next mod 2 ^ 64; imem := imem σ |}.

(** Little-endian memory accesses of [n] bytes. *)
Definition load_bytes (σ : isa) (a n : Z) : Z := le_val (imem σ <$> seqZ a n).
Definition store_bytes (σ : isa) (a n v : Z) : isa :=
  {| regs := regs σ; ipc := ipc σ;
     imem := fun a' => if (a <=? a') && (a' <? a + n) then (v / 256 ^ (a' - a)) mod 256 else imem σ a' |}.

Inductive isa_out : Type :=
  | Next (σ : isa)
  | Halt (σ : isa)
  | Fault (t : Trap).

(** ** Values of the computational instructions

    [u64] reduces a result to the register width, [s64] and [s32] read a register as a
    signed number, [sx32] is the sign extension of a word result. *)

Definition u64 (z : Z) : Z := z mod 2 ^ 64.
Definition u32 (z : Z) : Z := z mod 2 ^ 32.
Definition s64 (z : Z) : Z := sint 64 z.
Definition s32 (z : Z) : Z := sint 32 z.
Definition sx32 (z : Z) : Z := u64 (s32 z).
Definition of_bool (b : bool) : Z := if b then 1 else 0.

Definition r_val (op : r_op) (a b : Z) : Z :=
  match op with
  | ADD => u64 (a + b)
  | SUB => u64 (a - b)
  | SLL => u64 (a * 2 ^ (b mod 64))
  | SLT => of_bool (s64 a <? s64 b)
  | SLTU => of_bool (a <? b)
  | XOR => Z.lxor a b
  | SRL => a / 2 ^ (b mod 64)
  | SRA => u64 (s64 a / 2 ^ (b mod 64))
  | OR => Z.lor a b
  | AND => Z.land a b
  | MUL => u64 (a * b)
  | MULH => u64 (s64 a * s64 b / 2 ^ 64)
  | MULHSU => u64 (s64 a * b / 2 ^ 64)
  | MULHU => a * b / 2 ^ 64
  | DIV => if b =? 0 then u64 (-1) else u64 (Z.quot (s64 a) (s64 b))
  | DIVU => if b =? 0 then u64 (-1) else a / b
  | REM => if b =? 0 then a else u64 (Z.rem (s64 a) (s64 b))
  | REMU => if b =? 0 then a else a mod b
  end.

Definition rw_val (op : rw_op) (a b : Z) : Z :=
  match op with
  | ADDW => sx32 (a + b)
  | SUBW => sx32 (a - b)
  | SLLW => sx32 (a * 2 ^ (b mod 32))
  | SRLW => sx32 (u32 a / 2 ^ (b mod 32))
  | SRAW => u64 (s32 a / 2 ^ (b mod 32))
  | MULW => sx32 (a * b)
  | DIVW => if u32 b =? 0 then u64 (-1) else sx32 (Z.quot (s32 a) (s32 b))
  | DIVUW => if u32 b =? 0 then u64 (-1) else sx32 (u32 a / u32 b)
  | REMW => if u32 b =? 0 then sx32 a else sx32 (Z.rem (s32 a) (s32 b))
  | REMUW => if u32 b =? 0 then sx32 a else sx32 (u32 a mod u32 b)
  end.

Definition i_val (op : i_op) (a imm : Z) : Z :=
  match op with
  | ADDI => u64 (a + imm)
  | SLTI => of_bool (s64 a <? imm)
  | SLTIU => of_bool (a <? u64 imm)
  | XORI => Z.lxor a (u64 imm)
  | ORI => Z.lor a (u64 imm)
  | ANDI => Z.land a (u64 imm)
  end.

Definition sh_val (op : sh_op) (a sh : Z) : Z :=
  match op with
  | SLLI => u64 (a * 2 ^ sh)
  | SRLI => a / 2 ^ sh
  | SRAI => u64 (s64 a / 2 ^ sh)
  end.

Definition shw_val (op : sh_op) (a sh : Z) : Z :=
  match op with
  | SLLI => sx32 (a * 2 ^ sh)
  | SRLI => sx32 (u32 a / 2 ^ sh)
  | SRAI => u64 (s32 a / 2 ^ sh)
  end.

Definition b_taken (op : b_op) (a b : Z) : bool :=
  match op with
  | BEQ => a =? b
  | BNE => negb (a =? b)
  | BLT => s64 a <? s64 b
  | BGE => s64 b <=? s64 a
  | BLTU => a <? b
  | BGEU => b <=? a
  end.

(** Bytes of an access, and the register value of the loaded number. *)
Definition l_size (op : l_op) : Z :=
  match op with LB | LBU => 1 | LH | LHU => 2 | LW | LWU => 4 | LD => 8 end.
Definition l_val (op : l_op) (v : Z) : Z :=
  match op with
  | LB => u64 (sint 8 v) | LH => u64 (sint 16 v) | LW => sx32 v
  | LD | LBU | LHU | LWU => v
  end.
Definition s_size (op : s_op) : Z := match op with SB => 1 | SH => 2 | SW => 4 | SD => 8 end.

(** ** Execution of an instruction that occupies [len] bytes at the pc

    The address space of a job is [ADDR_SPACE] bytes: an access that leaves it faults. *)
Definition isa_exec (len : Z) (i : instr) (σ : isa) : isa_out :=
  let next := ipc σ + len in
  match i with
  | LUI rd imm => Next (retire σ rd (sx32 (imm * 2 ^ 12)) next)
  | AUIPC rd imm => Next (retire σ rd (u64 (ipc σ + s32 (imm * 2 ^ 12))) next)
  | JAL rd imm => Next (retire σ rd (u64 next) (ipc σ + imm))
  | JALR rd rs1 imm => Next (retire σ rd (u64 next) (2 * (u64 (reg σ rs1 + imm) / 2)))
  | Branch op rs1 rs2 imm =>
      Next (jump σ (if b_taken op (reg σ rs1) (reg σ rs2) then ipc σ + imm else next))
  | Load op rd rs1 imm =>
      let a := u64 (reg σ rs1 + imm) in
      if a + l_size op <=? ADDR_SPACE
      then Next (retire σ rd (l_val op (load_bytes σ a (l_size op))) next)
      else Fault (LoadOutOfRange a)
  | Store op rs1 rs2 imm =>
      let a := u64 (reg σ rs1 + imm) in
      if a + s_size op <=? ADDR_SPACE
      then Next (jump (store_bytes σ a (s_size op) (reg σ rs2)) next)
      else Fault (StoreOutOfRange a)
  | OpImm op rd rs1 imm => Next (retire σ rd (i_val op (reg σ rs1) imm) next)
  | ShImm op rd rs1 sh => Next (retire σ rd (sh_val op (reg σ rs1) sh) next)
  | ADDIW rd rs1 imm => Next (retire σ rd (sx32 (reg σ rs1 + imm)) next)
  | ShImmW op rd rs1 sh => Next (retire σ rd (shw_val op (reg σ rs1) sh) next)
  | Op op rd rs1 rs2 => Next (retire σ rd (r_val op (reg σ rs1) (reg σ rs2)) next)
  | OpW op rd rs1 rs2 => Next (retire σ rd (rw_val op (reg σ rs1) (reg σ rs2)) next)
  | FENCE _ _ _ | FENCE_I _ _ _ => Next (jump σ next)
  | ECALL => Fault Ecall
  | EBREAK => Halt σ
  end.

(** ** Compressed instructions

    [rd'], [rs1'] and [rs2'] are the three-bit numbers of x8..x15; immediates are the
    byte offsets and values the assembler shows. *)

Inductive ca_op := CSUB | CXOR | COR | CAND | CSUBW | CADDW.

Inductive cinstr :=
  | CADDI4SPN (rd' imm : Z)
  | CLW (rd' rs1' imm : Z)
  | CLD (rd' rs1' imm : Z)
  | CSW (rs2' rs1' imm : Z)
  | CSD (rs2' rs1' imm : Z)
  | CADDI (rd imm : Z)
  | CADDIW (rd imm : Z)
  | CLI (rd imm : Z)
  | CADDI16SP (imm : Z)
  | CLUI (rd imm : Z)
  | CSRLI (rd' shamt : Z)
  | CSRAI (rd' shamt : Z)
  | CANDI (rd' imm : Z)
  | CArith (op : ca_op) (rd' rs2' : Z)
  | CJ (imm : Z)
  | CBEQZ (rs1' imm : Z)
  | CBNEZ (rs1' imm : Z)
  | CSLLI (rd shamt : Z)
  | CLWSP (rd imm : Z)
  | CLDSP (rd imm : Z)
  | CJR (rs1 : Z)
  | CMV (rd rs2 : Z)
  | CEBREAK
  | CJALR (rs1 : Z)
  | CADD (rd rs2 : Z)
  | CSWSP (rs2 imm : Z)
  | CSDSP (rs2 imm : Z).

(** The three quadrants: funct3 in bits 13..15, bit 12, bits 7..11 and 2..6. *)
Definition cenc (q f3 b12 mid low : Z) : Z :=
  q + low * 2 ^ 2 + mid * 2 ^ 7 + b12 * 2 ^ 12 + f3 * 2 ^ 13.
(** Bits 10..12, a register at 7..9, bits 5..6 and a register at 2..4. *)
Definition cenc_mem (f3 up rs1' mid r' : Z) : Z :=
  r' * 2 ^ 2 + mid * 2 ^ 5 + rs1' * 2 ^ 7 + up * 2 ^ 10 + f3 * 2 ^ 13.
(** Quadrant 1 with a register at 7..9 and bits 10..11 above it. *)
Definition cenc_reg (f3 b12 sel r' low : Z) : Z := cenc 1 f3 b12 (r' + sel * 2 ^ 3) low.

Definition ca_code (op : ca_op) : Z * Z :=
  match op with
  | CSUB => (0, 0) | CXOR => (0, 1) | COR => (0, 2) | CAND => (0, 3)
  | CSUBW => (1, 0) | CADDW => (1, 1)
  end.

Definition cencode (c : cinstr) : Z :=
  match c with
  | CADDI4SPN rd' i =>
      rd' * 2 ^ 2 + bits i 3 1 * 2 ^ 5 + bits i 2 1 * 2 ^ 6 + bits i 6 4 * 2 ^ 7 + bits i 4 2 * 2 ^ 11
  | CLW rd' rs1' i => cenc_mem 2 (bits i 3 3) rs1' (bits i 6 1 + bits i 2 1 * 2) rd'
  | CLD rd' rs1' i => cenc_mem 3 (bits i 3 3) rs1' (bits i 6 2) rd'
  | CSW rs2' rs1' i => cenc_mem 6 (bits i 3 3) rs1' (bits i 6 1 + bits i 2 1 * 2) rs2'
  | CSD rs2' rs1' i => cenc_mem 7 (bits i 3 3) rs1' (bits i 6 2) rs2'
  | CADDI rd i => cenc 1 0 (bits i 5 1) rd (bits i 0 5)
  | CADDIW rd i => cenc 1 1 (bits i 5 1) rd (bits i 0 5)
  | CLI rd i => cenc 1 2 (bits i 5 1) rd (bits i 0 5)
  | CADDI16SP i =>
      cenc 1 3 (bits i 9 1) 2 (bits i 5 1 + bits i 7 2 * 2 + bits i 6 1 * 2 ^ 3 + bits i 4 1 * 2 ^ 4)
  | CLUI rd i => cenc 1 3 (bits i 5 1) rd (bits i 0 5)
  | CSRLI rd' sh => cenc_reg 4 (bits sh 5 1) 0 rd' (bits sh 0 5)
  | CSRAI rd' sh => cenc_reg 4 (bits sh 5 1) 1 rd' (bits sh 0 5)
  | CANDI rd' i => cenc_reg 4 (bits i 5 1) 2 rd' (bits i 0 5)
  | CArith op rd' rs2' => let '(b12, f2) := ca_code op in cenc_reg 4 b12 3 rd' (rs2' + f2 * 2 ^ 3)
  | CJ i =>
      1 + bits i 5 1 * 2 ^ 2 + bits i 1 3 * 2 ^ 3 + bits i 7 1 * 2 ^ 6 + bits i 6 1 * 2 ^ 7
      + bits i 10 1 * 2 ^ 8 + bits i 8 2 * 2 ^ 9 + bits i 4 1 * 2 ^ 11 + bits i 11 1 * 2 ^ 12 + 5 * 2 ^ 13
  | CBEQZ rs1' i =>
      cenc_reg 6 (bits i 8 1) (bits i 3 2) rs1' (bits i 5 1 + bits i 1 2 * 2 + bits i 6 2 * 2 ^ 3)
  | CBNEZ rs1' i =>
      cenc_reg 7 (bits i 8 1) (bits i 3 2) rs1' (bits i 5 1 + bits i 1 2 * 2 + bits i 6 2 * 2 ^ 3)
  | CSLLI rd sh => cenc 2 0 (bits sh 5 1) rd (bits sh 0 5)
  | CLWSP rd i => cenc 2 2 (bits i 5 1) rd (bits i 6 2 + bits i 2 3 * 2 ^ 2)
  | CLDSP rd i => cenc 2 3 (bits i 5 1) rd (bits i 6 3 + bits i 3 2 * 2 ^ 3)
  | CJR rs1 => cenc 2 4 0 rs1 0
  | CMV rd rs2 => cenc 2 4 0 rd rs2
  | CEBREAK => cenc 2 4 1 0 0
  | CJALR rs1 => cenc 2 4 1 rs1 0
  | CADD rd rs2 => cenc 2 4 1 rd rs2
  | CSWSP rs2 i => 2 + rs2 * 2 ^ 2 + bits i 6 2 * 2 ^ 7 + bits i 2 4 * 2 ^ 9 + 6 * 2 ^ 13
  | CSDSP rs2 i => 2 + rs2 * 2 ^ 2 + bits i 6 3 * 2 ^ 7 + bits i 3 3 * 2 ^ 10 + 7 * 2 ^ 13
  end.

(** The base instruction each one abbreviates. *)
Definition expand (c : cinstr) : instr :=
  match c with
  | CADDI4SPN rd' i => OpImm ADDI (8 + rd') 2 i
  | CLW rd' rs1' i => Load LW (8 + rd') (8 + rs1') i
  | CLD rd' rs1' i => Load LD (8 + rd') (8 + rs1') i
  | CSW rs2' rs1' i => Store SW (8 + rs1') (8 + rs2') i
  | CSD rs2' rs1' i => Store SD (8 + rs1') (8 + rs2') i
  | CADDI rd i => OpImm ADDI rd rd i
  | CADDIW rd i => ADDIW rd rd i
  | CLI rd i => OpImm ADDI rd 0 i
  | CADDI16SP i => OpImm ADDI 2 2 i
  | CLUI rd i => LUI rd (bits i 0 20)
  | CSRLI rd' sh => ShImm SRLI (8 + rd') (8 + rd') sh
  | CSRAI rd' sh => ShImm SRAI (8 + rd') (8 + rd') sh
  | CANDI rd' i => OpImm ANDI (8 + rd') (8 + rd') i
  | CArith CSUB rd' rs2' => Op SUB (8 + rd') (8 + rd') (8 + rs2')
  | CArith CXOR rd' rs2' => Op XOR (8 + rd') (8 + rd') (8 + rs2')
  | CArith COR rd' rs2' => Op OR (8 + rd') (8 + rd') (8 + rs2')
  | CArith CAND rd' rs2' => Op AND (8 + rd') (8 + rd') (8 + rs2')
  | CArith CSUBW rd' rs2' => OpW SUBW (8 + rd') (8 + rd') (8 + rs2')
  | CArith CADDW rd' rs2' => OpW ADDW (8 + rd') (8 + rd') (8 + rs2')
  | CJ i => JAL 0 i
  | CBEQZ rs1' i => Branch BEQ (8 + rs1') 0 i
  | CBNEZ rs1' i => Branch BNE (8 + rs1') 0 i
  | CSLLI rd sh => ShImm SLLI rd rd sh
  | CLWSP rd i => Load LW rd 2 i
  | CLDSP rd i => Load LD rd 2 i
  | CJR rs1 => JALR 0 rs1 0
  | CMV rd rs2 => Op ADD rd 0 rs2
  | CEBREAK => EBREAK
  | CJALR rs1 => JALR 1 rs1 0
  | CADD rd rs2 => Op ADD rd rd rs2
  | CSWSP rs2 i => Store SW 2 rs2 i
  | CSDSP rs2 i => Store SD 2 rs2 i
  end.

(** Operands the manual allows: scaled unsigned offsets, nonzero immediates and registers
    where the encoding is reserved, and shift amounts of RV64.  The hint encodings of
    C.SRLI and C.SRAI (a zero amount) are left out: the emulator refuses them. *)
Definition creg_ok (r : Z) : Prop := 0 <= r < 8.
Definition nz_reg (r : Z) : Prop := 0 < r < 32.
Definition uoff (n scale imm : Z) : Prop := is_u n imm /\ imm mod scale = 0.

Definition cinstr_ok (c : cinstr) : Prop :=
  match c with
  | CADDI4SPN rd' i => creg_ok rd' /\ uoff 10 4 i /\ i <> 0
  | CLW r' rs1' i | CSW r' rs1' i => creg_ok r' /\ creg_ok rs1' /\ uoff 7 4 i
  | CLD r' rs1' i | CSD r' rs1' i => creg_ok r' /\ creg_ok rs1' /\ uoff 8 8 i
  | CADDI rd i | CLI rd i => reg_ok rd /\ simm 6 i
  | CADDIW rd i => nz_reg rd /\ simm 6 i
  | CADDI16SP i => simm 10 i /\ i mod 16 = 0 /\ i <> 0
  | CLUI rd i => nz_reg rd /\ rd <> 2 /\ simm 6 i /\ i <> 0
  | CSRLI rd' sh | CSRAI rd' sh => creg_ok rd' /\ 0 < sh < 64
  | CANDI rd' i => creg_ok rd' /\ simm 6 i
  | CArith _ rd' rs2' => creg_ok rd' /\ creg_ok rs2'
  | CJ i => simm 12 i /\ i mod 2 = 0
  | CBEQZ rs1' i | CBNEZ rs1' i => creg_ok rs1' /\ simm 9 i /\ i mod 2 = 0
  | CSLLI rd sh => reg_ok rd /\ 0 <= sh < 64
  | CLWSP rd i => nz_reg rd /\ uoff 8 4 i
  | CLDSP rd i => nz_reg rd /\ uoff 9 8 i
  | CJR rs1 | CJALR rs1 => nz_reg rs1
  | CMV rd rs2 | CADD rd rs2 => reg_ok rd /\ nz_reg rs2
  | CEBREAK => True
  | CSWSP rs2 i => reg_ok rs2 /\ uoff 8 4 i
  | CSDSP rs2 i => reg_ok rs2 /\ uoff 9 8 i
  end.

(** ** Code in memory *)

Inductive code : Type :=
  | Full (i : instr)
  | Short (c : cinstr).

Definition word (k : code) : Z := match k with Full i => encode i | Short c => cencode c end.
Definition len (k : code) : Z := match k with Full _ => 4 | Short _ => 2 end.
Definition meaning (k : code) : instr := match k with Full i => i | Short c => expand c end.
Definition code_ok (k : code) : Prop :=
  match k with Full i => instr_ok i | Short c => cinstr_ok c end.

(** The pc is even and its bytes, inside the space, are those of [k]. *)
Definition placed (σ : isa) (k : code) : Prop :=
  ipc σ mod 2 = 0 /\ 0 <= ipc σ /\ ipc σ + len k <= ADDR_SPACE /\
  load_bytes σ (ipc σ) (len k) = word k.
