(* ===== verification/IsaFacts.v ===== *)
(** * A step of the emulator implements RV64IMC

    The machine of [Isa] against [Interp.step]: the fields the interpreter extracts from
    an encoded word are the operands, the values it computes are the manual's, and a step
    at a pc whose bytes encode an instruction has that instruction's effect. *)

From S2P Require Import Prelude Mem Cpu Interp InterpFacts Isa.

(** ** Truncating division of signed numbers *)

Lemma quot_signed n a b :
  0 < n -> - 2 ^ (n - 1) <= a < 2 ^ (n - 1) -> b <> 0 -> ~ (a = - 2 ^ (n - 1) /\ b = -1) ->
  - 2 ^ (n - 1) <= Z.quot a b < 2 ^ (n - 1).
Proof.
  intros Hn. generalize (2 ^ (n - 1)). intros M Ha Hb Ho.
  destruct (decide (b = 1)) as [->|]; [by rewrite Z.quot_1_r|].
  destruct (decide (b = -1)) as [->|].
  - change (-1) with (- (1)). rewrite Z.quot_opp_r, Z.quot_1_r by lia. lia.
  - assert (Z.abs (Z.quot a b) <= Z.abs a / 2) as Hq.
    { rewrite <- Z.quot_abs, Z.quot_div_nonneg by lia. apply Z.div_le_compat_l; lia. }
    pose proof (Z.mul_div_le (Z.abs a) 2). lia.
Qed.

Lemma rem_signed n a b :
  0 < n -> - 2 ^ (n - 1) <= a < 2 ^ (n - 1) -> b <> 0 -> - 2 ^ (n - 1) <= Z.rem a b < 2 ^ (n - 1).
Proof.
  intros Hn. generalize (2 ^ (n - 1)). intros M Ha Hb.
  assert (Z.abs (Z.rem a b) <= Z.abs a) by (rewrite <- Z.rem_abs by done; apply Z.rem_le; lia).
  pose proof (Z.rem_sign_nz a b Hb) as Hs. destruct (decide (Z.rem a b = 0)); [lia|].
  specialize (Hs ltac:(done)). lia.
Qed.

Ltac Zify.zify_post_hook ::= Z.to_euclidean_division_equations.

(** ** Bit fields as arithmetic

    [Fits v m]: the bits of [v] are among those of the mask [m].  Masks are computed by
    instance search, so that an [or] of fields with disjoint masks becomes a sum. *)

Class Fits (v m : Z) : Prop := fits : v .& m = v.

#[export] Instance fits_land x m : Fits (x .& m) m.
Proof. unfold Fits. by rewrite <- Z.land_assoc, Z.land_diag. Qed.

#[export] Instance fits_shiftl v m n : Fits v m -> Fits (v .<< n) (m .<< n).
Proof. unfold Fits. intros Hv. by rewrite <- Z.shiftl_land, Hv. Qed.

#[export] Instance fits_lor a b ma mb : Fits a ma -> Fits b mb -> Fits (a .| b) (ma .| mb).
Proof.
  unfold Fits. intros Ha Hb. rewrite Z.land_lor_distr_l, !Z.land_lor_distr_r, Ha, Hb.
  apply Z.bits_inj'. intros i _. rewrite !Z.lor_spec, !Z.land_spec.
  by destruct (Z.testbit a i), (Z.testbit b i), (Z.testbit ma i), (Z.testbit mb i).
Qed.

Lemma lor_add a b {ma mb} `{Fits a ma, Fits b mb} : ma .& mb = 0 -> a .| b = a + b.
Proof.
  intros Hm. assert (a .& b = 0) as Hab.
  { rewrite <- (fits (v := a) (m := ma)), <- (fits (v := b) (m := mb)).
    rewrite <- Z.land_assoc, (Z.land_comm ma), <- Z.land_assoc, (Z.land_comm mb), Hm.
    by rewrite !Z.land_0_r. }
  by rewrite <- Z.lxor_lor, Z.add_nocarry_lxor.
Qed.

Lemma land_mask n x m : 0 <= n -> m = Z.ones n -> x .& m = x mod 2 ^ n.
Proof. intros ? ->. by apply Z.land_ones. Qed.

Lemma shr_div x n : 0 <= n -> x .>> n = x / 2 ^ n.
Proof. apply Z.shiftr_div_pow2. Qed.
Lemma shl_mul x n : 0 <= n -> x .<< n = x * 2 ^ n.
Proof. apply Z.shiftl_mul_pow2. Qed.

(** Disjoint fields to sums, masks to remainders, shifts to quotients and products. *)
Ltac arith_masks :=
  rewrite ?(land_mask 1 _ 0x1), ?(land_mask 2 _ 0x3), ?(land_mask 3 _ 0x7), ?(land_mask 4 _ 0xf),
    ?(land_mask 5 _ 0x1f), ?(land_mask 6 _ 0x3f), ?(land_mask 7 _ 0x7f), ?(land_mask 8 _ 0xff),
    ?(land_mask 10 _ 0x3ff) by first [lia | reflexivity].
Ltac arith_fields :=
  repeat (erewrite lor_add by (first [typeclasses eauto | reflexivity]));
  arith_masks; rewrite ?shr_div, ?shl_mul by lia.

Lemma bits_range imm lo n : 0 <= n -> 0 <= bits imm lo n < 2 ^ n.
Proof. intros. by apply Z.mod_pos_bound, Z.pow_pos_nonneg. Qed.

Lemma bits_split imm lo n k :
  0 <= lo -> 0 <= n -> 0 <= k -> bits imm lo (n + k) = bits imm lo n + 2 ^ n * bits imm (lo + n) k.
Proof.
  intros. unfold bits. rewrite !Z.pow_add_r, <- Z.div_div by lia. apply Z.rem_mul_r; lia.
Qed.

Ltac split_bits :=
  rewrite !bits_split by lia;
  repeat match goal with
         | |- context [bits _ (?a + ?b) _] => let v := eval compute in (a + b) in change (a + b) with v
         end.

(** Prove an equation between a field of an encoded word and an operand; the bit ranges
    of an immediate are opaque numbers of their width. *)
Ltac unfold_enc :=
  unfold enc_r, enc_i, enc_sh, enc_s, enc_b, enc_u, enc_j, cenc_reg, cenc, cenc_mem in *.
Ltac opaque_bits :=
  repeat match goal with
         | |- context [bits ?i ?l ?n] =>
             let H := fresh "Hb" in pose proof (bits_range i l n ltac:(lia)) as H;
             generalize dependent (bits i l n); intros
         end.
Ltac field :=
  unfold_enc; opaque_bits; unfold reg_ok, creg_ok, nz_reg, simm, uoff, is_u in *; arith_fields; lia.

Lemma sint_signed n z : 0 < n -> - 2 ^ (n - 1) <= z < 2 ^ (n - 1) -> sint n z = z.
Proof.
  intros Hn Hz. assert (2 ^ n = 2 * 2 ^ (n - 1)) as E.
  { rewrite <- Z.pow_succ_r by lia. f_equal. lia. }
  unfold sint, wrap. destruct (decide (0 <= z)).
  - rewrite Z.mod_small by lia. destruct (Z.ltb_spec z (2 ^ (n - 1))); lia.
  - rewrite <- (Z.mod_unique z (2 ^ n) (-1) (z + 2 ^ n)) by lia.
    destruct (Z.ltb_spec (z + 2 ^ n) (2 ^ (n - 1))); lia.
Qed.

(** The value of a sign-extended immediate in the top bits of a word. *)
Lemma sext_bits w n imm low :
  0 < n <= w -> simm n imm -> 0 <= low < 2 ^ (w - n) ->
  sint w (low + bits imm 0 n * 2 ^ (w - n)) / 2 ^ (w - n) = imm.
Proof.
  intros Hn Hi Hl. unfold simm in Hi.
  assert (2 ^ w = 2 ^ n * 2 ^ (w - n)) as Ew by (rewrite <- Z.pow_add_r by lia; f_equal; lia).
  assert (2 ^ (w - 1) = 2 ^ (n - 1) * 2 ^ (w - n)) as E1 by (rewrite <- Z.pow_add_r by lia; f_equal; lia).
  assert (2 ^ n = 2 * 2 ^ (n - 1)) as En by (rewrite <- Z.pow_succ_r by lia; f_equal; lia).
  unfold bits. rewrite Z.div_1_r.
  transitivity (sint w (low + imm * 2 ^ (w - n)) / 2 ^ (w - n)).
  - f_equal. unfold sint, wrap. rewrite <- Z.mul_mod_distr_r, <- Ew, Z.add_mod_idemp_r by lia. done.
  - rewrite sint_signed by nia. rewrite Z.div_add by lia. rewrite Z.div_small; lia.
Qed.

(** The same for an even immediate, given by its bits from 1. *)
Lemma sext_even w n imm v :
  1 < n <= w -> simm n imm -> imm mod 2 = 0 -> v = 2 * bits imm 1 (n - 1) ->
  sint w (v * 2 ^ (w - n)) / 2 ^ (w - n) = imm.
Proof.
  intros Hn Hi He ->. rewrite <- (sext_bits w n imm 0) at 2; [|lia|done|].
  - do 2 f_equal. rewrite Z.add_0_l. f_equal. replace n with (1 + (n - 1)) at 2 by lia.
    rewrite bits_split by lia. unfold bits at 2. rewrite Z.div_1_r. change (2 ^ 1) with 2. rewrite He. done.
  - pose proof (Z.pow_pos_nonneg 2 (w - n)). lia.
Qed.

#[export] Instance fits_bits imm lo n : TCEq (0 <=? n) true -> Fits (bits imm lo n) (Z.ones n).
Proof.
  intros Hn%TCEq_eq%Z.leb_le. unfold Fits. rewrite Z.land_ones by done.
  apply Z.mod_small, bits_range. done.
Qed.

Section rformat.
Context (op f3 f7 rd rs1 rs2 : Z).
Context (Hop : 0 <= op < 128) (H3 : 0 <= f3 < 8) (H7 : 0 <= f7 < 128).
Context (Hd : reg_ok rd) (H1 : reg_ok rs1) (H2 : reg_ok rs2).

Lemma r_fields :
  let w := enc_r op f3 f7 rd rs1 rs2 in
  f_opcode w = op /\ f_rd w = rd /\ f_f3 w = f3 /\ f_rs1 w = rs1 /\ f_rs2 w = rs2 /\ f_f7 w = f7.
Proof. unfold f_opcode, f_rd, f_f3, f_rs1, f_rs2, f_f7. cbv zeta. split_and!; field. Qed.
End rformat.

Section iformat.
Context (op f3 rd rs1 imm : Z).
Context (Hop : 0 <= op < 128) (H3 : 0 <= f3 < 8) (Hd : reg_ok rd) (H1 : reg_ok rs1) (Hi : simm 12 imm).

Lemma i_fields :
  let w := enc_i op f3 rd rs1 imm in
  f_opcode w = op /\ f_rd w = rd /\ f_f3 w = f3 /\ f_rs1 w = rs1 /\ imm_i w = imm.
Proof.
  unfold f_opcode, f_rd, f_f3, f_rs1, imm_i. cbv zeta. split_and!; [field..|].
  rewrite shr_div by lia. apply (sext_bits 32 12); [lia|done|]. field.
Qed.
End iformat.

Section shformat.
Context (op f3 f6 rd rs1 sh : Z).
Context (Hop : 0 <= op < 128) (H3 : 0 <= f3 < 8) (H6 : 0 <= f6 < 64).
Context (Hd : reg_ok rd) (H1 : reg_ok rs1) (Hs : 0 <= sh < 64).

Lemma sh_fields :
  let w := enc_sh op f3 f6 rd rs1 sh in
  f_opcode w = op /\ f_rd w = rd /\ f_f3 w = f3 /\ f_rs1 w = rs1 /\
  (w .>> 26) .& 0x3f = f6 /\ (w .>> 20) .& 63 = sh.
Proof. unfold f_opcode, f_rd, f_f3, f_rs1. cbv zeta. split_and!; field. Qed.

Lemma shw_fields :
  let w := enc_sh op f3 f6 rd rs1 sh in
  sh < 32 -> f_f7 w = 2 * f6 /\ (w .>> 20) .& 31 = sh.
Proof. unfold f_f7. cbv zeta. intros. split_and!; field. Qed.
End shformat.

(** Replacing the low five bits. *)
Lemma ldiff_low x y n : 0 <= n -> 0 <= y < 2 ^ n -> (x .& Z.lnot (Z.ones n)) .| y = x / 2 ^ n * 2 ^ n + y.
Proof.
  intros Hn Hy. rewrite <- Z.ldiff_land, Z.ldiff_ones_r, Z.shiftr_div_pow2 by lia.
  rewrite <- (Z.mod_small y (2 ^ n)), <- Z.land_ones by lia.
  assert (Fits (x / 2 ^ n) (-1)) by apply Z.land_m1_r.
  erewrite lor_add; [by rewrite shl_mul by lia|typeclasses eauto..|].
  rewrite Z.land_ones, shl_mul by lia. apply Z.mod_mul. lia.
Qed.

Lemma land_high x m n : 0 <= n -> x .& (m .<< n) = ((x .>> n) .& m) .<< n.
Proof.
  intros Hn. apply Z.bits_inj'. intros i Hi. rewrite Z.land_spec, !Z.shiftl_spec by lia.
  destruct (decide (i < n)).
  - by rewrite !(Z.testbit_neg_r _ (i - n)), andb_false_r by lia.
  - rewrite Z.land_spec, Z.shiftr_spec by lia. do 2 f_equal. lia.
Qed.

Section sbformat.
Context (op f3 rs1 rs2 imm : Z).
Context (Hop : 0 <= op < 128) (H3 : 0 <= f3 < 8) (H1 : reg_ok rs1) (H2 : reg_ok rs2).

Lemma s_fields :
  let w := enc_s op f3 rs1 rs2 imm in
  simm 12 imm ->
  f_opcode w = op /\ f_f3 w = f3 /\ f_rs1 w = rs1 /\ f_rs2 w = rs2 /\ imm_s w = imm.
Proof.
  cbv zeta. intros Hi. unfold f_opcode, f_f3, f_rs1, f_rs2, imm_s. split_and!; [field..|].
  change 0x1f with (Z.ones 5) at 1. rewrite ldiff_low by field.
  rewrite shr_div, Z.div_div, <- Z.pow_add_r by lia.
  assert (sint 32 (enc_s op f3 rs1 rs2 imm) / 2 ^ (20 + 5) = imm / 2 ^ 5) as ->.
  { unfold enc_s. replace (bits imm 5 7) with (bits (imm / 2 ^ 5) 0 7) by (unfold bits; by rewrite Z.div_1_r).
    apply (sext_bits 32 7 (imm / 2 ^ 5)); [lia|unfold simm in *; lia|].
    field. }
  assert ((enc_s op f3 rs1 rs2 imm .>> 7) .& 0x1f = bits imm 0 5) as -> by field.
  unfold bits. lia.
Qed.

Lemma b_fields :
  let w := enc_b op f3 rs1 rs2 imm in
  simm 13 imm -> imm mod 2 = 0 ->
  f_opcode w = op /\ f_f3 w = f3 /\ f_rs1 w = rs1 /\ f_rs2 w = rs2 /\ imm_b w = imm.
Proof.
  cbv zeta. intros Hi Hev. unfold f_opcode, f_f3, f_rs1, f_rs2, imm_b. split_and!; [field..|].
  rewrite (shl_mul _ 19), (shr_div _ 19) by lia.
  apply (sext_even 32 13); [lia|done..|]. change (13 - 1) with (4 + (6 + (1 + 1))). split_bits.
  assert ((enc_b op f3 rs1 rs2 imm .>> 31) .& 1 = bits imm 12 1) as -> by field.
  assert ((enc_b op f3 rs1 rs2 imm .>> 7) .& 1 = bits imm 11 1) as -> by field.
  assert ((enc_b op f3 rs1 rs2 imm .>> 25) .& 0x3f = bits imm 5 6) as -> by field.
  assert ((enc_b op f3 rs1 rs2 imm .>> 8) .& 0xf = bits imm 1 4) as -> by field.
  arith_fields. lia.
Qed.
End sbformat.

Lemma u_fields op rd imm (w := enc_u op rd imm) :
  0 <= op < 128 -> reg_ok rd -> is_u 20 imm ->
  f_opcode w = op /\ f_rd w = rd /\ imm_u w = u64 (s32 (imm * 2 ^ 12)).
Proof.
  subst w. intros. unfold f_opcode, f_rd, imm_u. split_and!; [field..|]. unfold u64, s32, wrap at 1. f_equal. f_equal.
  change 0xfffff000 with (Z.ones 20 .<< 12).
  rewrite land_high, Z.land_ones, shr_div, shl_mul by lia. f_equal. field.
Qed.

Lemma j_fields op rd imm (w := enc_j op rd imm) :
  0 <= op < 128 -> reg_ok rd -> simm 21 imm -> imm mod 2 = 0 ->
  f_opcode w = op /\ f_rd w = rd /\ imm_j w = imm.
Proof.
  subst w. intros. unfold f_opcode, f_rd, imm_j. split_and!; [field..|].
  rewrite (shl_mul _ 11), (shr_div _ 11) by lia. apply (sext_even 32 21); [lia|done..|].
  change (21 - 1) with (10 + (1 + (8 + 1))). split_bits.
  assert ((enc_j op rd imm .>> 31) .& 1 = bits imm 20 1) as -> by field.
  assert ((enc_j op rd imm .>> 12) .& 0xff = bits imm 12 8) as -> by field.
  assert ((enc_j op rd imm .>> 20) .& 1 = bits imm 11 1) as -> by field.
  assert ((enc_j op rd imm .>> 21) .& 0x3ff = bits imm 1 10) as -> by field.
  arith_fields. lia.
Qed.

(** ** The computed values are the manual's *)

Lemma wrap_u64 z : wrap 64 z = u64 z.
Proof. done. Qed.

Lemma u64_idem a b : u64 (a + wrap 64 b) = u64 (a + b).
Proof. unfold u64, wrap. by rewrite Z.add_mod_idemp_r. Qed.

(** A signed reading depends on the low bits only. *)
Lemma sint_mod w z : 0 <= w -> sint w (z mod 2 ^ w) = sint w z.
Proof. intros. unfold sint, wrap. by rewrite Z.mod_mod by (pose proof (pow2_pos w); lia). Qed.

Lemma sint_ext w a b : a mod 2 ^ w = b mod 2 ^ w -> sint w a = sint w b.
Proof. intros E. unfold sint, wrap. by rewrite E. Qed.

Lemma sx32_ext a b : u32 a = u32 b -> sx32 a = sx32 b.
Proof. intros E. unfold sx32, s32. f_equal. by apply sint_ext. Qed.

Lemma sx32_signed z : - 2 ^ 31 <= z < 2 ^ 31 -> sx32 z = u64 z.
Proof. intros. unfold sx32, s32. f_equal. by apply sint_signed. Qed.

Lemma sint_zero w z : 0 < w -> sint w z = 0 <-> z mod 2 ^ w = 0.
Proof.
  intros. unfold sint, wrap. pose proof (Z.mod_pos_bound z (2 ^ w) (pow2_pos w ltac:(lia))).
  assert (0 < 2 ^ (w - 1)) by (apply Z.pow_pos_nonneg; lia). case_match; bools; lia.
Qed.

Lemma div_val_spec a b : is_u64 a -> is_u64 b -> div_val a b = r_val DIV a b.
Proof.
  intros Ha Hb. unfold div_val, r_val, checked_div, s64. pose proof (sint_zero 64 b ltac:(lia)) as Hz.
  rewrite (Z.mod_small b) in Hz by done.
  destruct (Z.eqb_spec (sint 64 b) 0) as [E|E]; destruct (Z.eqb_spec b 0) as [Eb|Eb]; try tauto.
  destruct (Z.eqb_spec (sint 64 a) (- 2 ^ (64 - 1))) as [->|]; [|reflexivity].
  by destruct (Z.eqb_spec (sint 64 b) (-1)) as [->|].
Qed.

Lemma rem_val_spec a b : is_u64 a -> is_u64 b -> rem_val a b = r_val REM a b.
Proof.
  intros Ha Hb. unfold rem_val, r_val, checked_rem, s64. pose proof (sint_zero 64 b ltac:(lia)) as Hz.
  rewrite (Z.mod_small b) in Hz by done.
  destruct (Z.eqb_spec (sint 64 b) 0) as [E|E]; destruct (Z.eqb_spec b 0) as [Eb|Eb]; try tauto.
  destruct (Z.eqb_spec (sint 64 a) (- 2 ^ (64 - 1))) as [->|]; [|reflexivity].
  by destruct (Z.eqb_spec (sint 64 b) (-1)) as [->|].
Qed.

Lemma mulhsu_spec a b : is_u64 b -> wrap 64 (sint 128 (sint 64 a * b) .>> 64) = r_val MULHSU a b.
Proof.
  intros [Hb1 Hb2]. pose proof (sint_range 64 a ltac:(lia)). rewrite sint_signed, shr_div by nia. done.
Qed.

Lemma shift_amount b n m : 0 <= n -> m = Z.ones n -> 0 <= b .& m.
Proof. intros ? ->. rewrite Z.land_ones by done. apply Z.mod_pos_bound, Z.pow_pos_nonneg; lia. Qed.

Lemma op_val_spec op a b :
  is_u64 a -> is_u64 b ->
  op_val (r_code op).2 (r_code op).1 a b = Some (r_val op a b).
Proof.
  intros Ha Hb. destruct op; cbn [r_code fst snd]; unfold op_val; cbn; f_equal;
    unfold wrapping_add, wrapping_sub, wrapping_mul, shl, shr, of_bool, s64, u64, wrap;
    rewrite ?(land_mask 6 b 63) by first [lia | done];
    rewrite ?shr_div, ?shl_mul by (try apply Z.mod_pos_bound; lia); try done.
  - pose proof (sint_range 64 a ltac:(lia)). destruct Hb. rewrite (sint_signed 128) by nia. done.
  - apply Z.mod_small. destruct Ha, Hb. split; [apply Z.div_pos; nia|]. apply Z.div_lt_upper_bound; nia.
  - by apply div_val_spec.
  - by apply rem_val_spec.
Qed.

(** The word divisions follow the manual unless the divisor is nonzero with a zero low
    word: the interpreter tests the whole register. *)
Definition regular_divisor (b : Z) : Prop := u32 b = 0 -> b = 0.

Definition word_division (op : rw_op) : bool :=
  match op with DIVW | DIVUW | REMW | REMUW => true | _ => false end.

Lemma zero_word b : regular_divisor b -> is_u64 b -> (u32 b =? 0) = (b =? 0).
Proof.
  intros Hr Hb. destruct (Z.eqb_spec (u32 b) 0) as [E|E].
  - symmetry. apply Z.eqb_eq. auto.
  - symmetry. apply Z.eqb_neq. by intros ->.
Qed.

Lemma divw_val_spec a b : regular_divisor b -> is_u64 b -> divw_val a b = rw_val DIVW a b.
Proof.
  intros Hr Hb. unfold divw_val, rw_val, checked_div, s32. rewrite zero_word by done.
  pose proof (sint_zero 32 b ltac:(lia)) as Hz. fold (u32 b) in Hz.
  destruct (Z.eqb_spec b 0) as [->|Eb]; [reflexivity|].
  destruct (Z.eqb_spec (sint 32 b) 0) as [E|E]; [by destruct Eb; apply Hr, Hz|].
  pose proof (quot_signed 32 (sint 32 a) (sint 32 b) ltac:(lia) (sint_range 32 a ltac:(lia)) E) as Hq.
  destruct (Z.eqb_spec (sint 32 a) (- 2 ^ (32 - 1))) as [Ea|], (Z.eqb_spec (sint 32 b) (-1)) as [Eb1|];
    cbn [andb]; [by rewrite Ea, Eb1|rewrite sx32_signed; [done|apply Hq; tauto]..].
Qed.

Lemma remw_val_spec a b : regular_divisor b -> is_u64 b -> remw_val a b = rw_val REMW a b.
Proof.
  intros Hr Hb. unfold remw_val, rw_val, checked_rem, s32. rewrite zero_word by done.
  pose proof (sint_zero 32 b ltac:(lia)) as Hz. fold (u32 b) in Hz.
  destruct (Z.eqb_spec b 0) as [->|Eb]; [reflexivity|].
  destruct (Z.eqb_spec (sint 32 b) 0) as [E|E]; [by destruct Eb; apply Hr, Hz|].
  pose proof (rem_signed 32 (sint 32 a) (sint 32 b) ltac:(lia) (sint_range 32 a ltac:(lia)) E) as Hq.
  rewrite sx32_signed by done.
  destruct (Z.eqb_spec (sint 32 a) (- 2 ^ (32 - 1))) as [->|]; simpl; [|done].
  by destruct (Z.eqb_spec (sint 32 b) (-1)) as [->|].
Qed.

(** Reductions modulo 2^32 inside a word result. *)
Lemma sx32_wrap z : sext 32 (wrap 32 z) = sx32 z.
Proof. unfold sext, sx32, s32, u64, wrap. by rewrite sint_mod. Qed.

Lemma divuw_val_spec a b : regular_divisor b -> is_u64 b -> divuw_val a b = Ok (rw_val DIVUW a b).
Proof.
  intros Hr Hb. unfold divuw_val, rw_val. change (wrap 32) with u32.
  rewrite <- (zero_word b) by done. by destruct (u32 b =? 0).
Qed.

Lemma remuw_val_spec a b : regular_divisor b -> is_u64 b -> remuw_val a b = Ok (rw_val REMUW a b).
Proof.
  intros Hr Hb. unfold remuw_val, rw_val. rewrite sx32_wrap. change (wrap 32) with u32.
  rewrite <- (zero_word b) by done. by destruct (u32 b =? 0).
Qed.

Lemma op32_val_spec op a b :
  is_u64 a -> is_u64 b -> (word_division op = true -> regular_divisor b) ->
  op32_val (rw_code op).2 (rw_code op).1 a b = Some (Ok (rw_val op a b)).
Proof.
  intros Ha Hb Hr. destruct op; cbn [rw_code fst snd]; unfold op32_val; cbn; do 2 f_equal;
    unfold wrapping_add, wrapping_sub, shl, shr;
    rewrite ?(land_mask 5 b 31) by first [lia | done];
    rewrite ?shr_div, ?shl_mul by (try apply Z.mod_pos_bound; lia); rewrite ?sx32_wrap;
    try apply sx32_ext; unfold u32, wrap; try done.
  - by rewrite <- Z.add_mod.
  - by rewrite <- Zminus_mod.
  - by rewrite Z.mul_mod_idemp_l.
  - rewrite (Z.mul_mod (sint 32 a)) by done.
    change (wrap 32 (wrap 32 (sint 32 a) * wrap 32 (sint 32 b)) = (a * b) mod 2 ^ 32).
    rewrite !wrap_sint by lia. unfold wrap. by rewrite <- Z.mul_mod.
  - by apply divw_val_spec; [apply Hr|].
  - by apply divuw_val_spec; [apply Hr|].
  - by apply remw_val_spec; [apply Hr|].
  - by apply remuw_val_spec; [apply Hr|].
Qed.

Lemma op_imm_val_spec op rd rs1 imm a (w := enc_i 0x13 (i_code op) rd rs1 imm) :
  f_f3 w = i_code op -> imm_i w = imm -> is_u64 a -> op_imm_val w a = Some (i_val op a imm).
Proof.
  intros H3 Hi Ha. unfold op_imm_val. rewrite H3, Hi. destruct op; cbn; f_equal; try done.
  apply u64_idem.
Qed.

Lemma op_sh_val_spec op rd rs1 sh a (w := let '(f3, f6) := sh_code op in enc_sh 0x13 f3 f6 rd rs1 sh) :
  0 <= sh -> f_f3 w = (sh_code op).1 -> (w .>> 26) .& 0x3f = (sh_code op).2 -> (w .>> 20) .& 63 = sh ->
  op_imm_val w a = Some (sh_val op a sh).
Proof.
  intros Hsh H3 H6 Hs. unfold op_imm_val. rewrite H3, H6, Hs. destruct op; cbn; f_equal;
    unfold shl, shr; rewrite ?shl_mul, ?shr_div by lia; done.
Qed.

Lemma op_shw_val_spec op rd rs1 sh a (w := let '(f3, f6) := sh_code op in enc_sh 0x1b f3 f6 rd rs1 sh) :
  0 <= sh -> f_f3 w = (sh_code op).1 -> f_f7 w = 2 * (sh_code op).2 -> (w .>> 20) .& 31 = sh ->
  op_imm32_val w a = Some (shw_val op a sh).
Proof.
  intros Hsh H3 H7 Hs. unfold op_imm32_val. rewrite H3, H7, Hs. destruct op; cbn; f_equal;
    unfold shl, shr; rewrite ?shl_mul, ?shr_div, ?sx32_wrap by lia; try done.
  - apply sx32_ext. unfold u32, wrap. by rewrite Z.mul_mod_idemp_l.
Qed.

Lemma addiw_val imm a : sext 32 (wrapping_add 32 (wrap 32 a) (wrap 32 imm)) = sx32 (a + imm).
Proof. unfold wrapping_add. rewrite sx32_wrap. apply sx32_ext. unfold u32, wrap. by rewrite <- Z.add_mod. Qed.

(** ** The simulation relation *)

(** The emulator state [s] implements [σ]: same registers, pc and bytes, well formed. *)
Record models (s : machine) (σ : isa) : Prop := {
  m_regs : forall r, reg_ok r -> reg σ r = get s.1 r;
  m_pc : ipc σ = pc s.1;
  m_mem : forall a, imem σ a = abyte (abs s.2) a;
  m_cpu : cpu_wf s.1;
  m_wf : mem_wf s.2;
}.

(** [k] run in [s] has the outcome [o]. *)
Definition implements (k : Step bool) (s : machine) (σ : isa) (o : isa_out) : Prop :=
  match o with
  | Next σ' => exists s', k s = (Ok false, s') /\ models s' σ'
  | Halt σ' => exists s', k s = (Ok true, s') /\ models s' σ'
  | Fault t => exists s', k s = (Err t, s') /\ models s' σ
  end.

Lemma models_reg s σ r : models s σ -> reg_ok r -> get s.1 r = reg σ r /\ is_u64 (reg σ r).
Proof.
  intros Hm Hr. rewrite (m_regs _ _ Hm r Hr). split; [done|]. apply get_range, (m_cpu _ _ Hm).
Qed.

Lemma reg_set c rd v r :
  cpu_wf c -> reg_ok rd -> reg_ok r ->
  get (set c rd v) r = if r =? 0 then 0 else if r =? rd then v else get c r.
Proof.
  intros Hc Hd Hr. pose proof (get_zero c Hc) as H0. unfold reg_ok in *. unfold set.
  destruct (Z.eqb_spec rd 0) as [Ed|Ed], (Z.eqb_spec r 0) as [Er|Er], (Z.eqb_spec r rd) as [E|E]; simpl;
    try lia; subst; try done; unfold get; simpl.
  - rewrite list_lookup_insert_ne by lia. done.
  - rewrite list_lookup_insert_eq; [done|]. rewrite (wf_len _ Hc). lia.
  - rewrite list_lookup_insert_ne by lia. done.
Qed.

Lemma models_retire s σ rd v v' n n' :
  models s σ -> reg_ok rd -> is_u64 v -> v = v' -> n = n' mod 2 ^ 64 ->
  models (with_pc (set s.1 rd v) n, s.2) (retire σ rd v' n').
Proof.
  intros [Hr Hp Hm Hc Hw] Hd Hv <- ->. constructor; simpl; try done.
  - intros r Hok. unfold reg, retire. simpl. change (get _ r) with (get (set s.1 rd v) r).
    rewrite reg_set by done. rewrite <- (Hr r Hok). unfold reg.
    by destruct (Z.eqb_spec r 0), (Z.eqb_spec r rd).
  - apply with_pc_wf; [apply set_wf; [done|unfold reg_ok in *; lia|done]|]. by apply wrap_range.
Qed.

Lemma models_jump s σ n n' :
  models s σ -> n = n' mod 2 ^ 64 -> models (with_pc s.1 n, s.2) (jump σ n').
Proof.
  intros [Hr Hp Hm Hc Hw] ->. constructor; simpl; try done.
  apply with_pc_wf; [done|]. by apply wrap_range.
Qed.

Lemma impl_set_next s σ rd v v' n n' :
  models s σ -> reg_ok rd -> is_u64 v -> v = v' -> n = n' mod 2 ^ 64 ->
  implements (set_next rd v n) s σ (Next (retire σ rd v' n')).
Proof. intros. eexists. split; [reflexivity|]. by apply models_retire. Qed.

Lemma impl_goto s σ n n' :
  models s σ -> n = n' mod 2 ^ 64 -> implements (goto n) s σ (Next (jump σ n')).
Proof. intros. eexists. split; [reflexivity|]. by apply models_jump. Qed.

Lemma impl_bind {A} (k : Step A) f s σ a s' o :
  k s = (Ok a, s') -> implements (f a) s' σ o -> implements (x ← k; f x) s σ o.
Proof. intros Hk. unfold implements, mbind, M_bind. by rewrite Hk. Qed.

Lemma impl_err {A} (k : Step A) f s σ t :
  k s = (Err t, s) -> models s σ -> implements (x ← k; f x) s σ (Fault t).
Proof. intros Hk Hm. unfold implements, mbind, M_bind. rewrite Hk. eauto. Qed.

Lemma mem_read_eq f (s : machine) a n r m' : read s.2 a n = (r, m') -> mem_read f a n s = (map_err f r, (s.1, m')).
Proof. intros E. unfold mem_read. by rewrite E. Qed.
Lemma mem_write_eq f (s : machine) a bs r m' : write s.2 a bs = (r, m') -> mem_write f a bs s = (map_err f r, (s.1, m')).
Proof. intros E. unfold mem_write. by rewrite E. Qed.

(** ** Memory accesses *)

Lemma bytes_eq s σ a n : models s σ -> load_bytes σ a n = le_val (abyte (abs s.2) <$> seqZ a n).
Proof.
  intros Hm. unfold load_bytes. f_equal. apply list_fmap_ext. intros ? x _. by apply (m_mem _ _ Hm).
Qed.

Lemma models_mem_equiv s σ m' : models s σ -> mem_equiv s.2 m' -> models (s.1, m') σ.
Proof.
  intros [Hr Hp Hm Hc Hw] He. constructor; simpl; try done; [|by eapply mem_equiv_wf_r].
  intros a. rewrite Hm. destruct He as (_ & _ & E & _). by rewrite E.
Qed.

Lemma impl_load f s σ a n rd next next' (g h : Z -> Z) :
  models s σ -> is_u64 a -> valid_len n -> reg_ok rd -> next = next' mod 2 ^ 64 ->
  (forall x, is_u (8 * n) x -> g x = h x /\ is_u64 (g x)) ->
  implements (x ← mem_read f a n; set_next rd (g x) next) s σ
    (if a + n <=? ADDR_SPACE then Next (retire σ rd (h (load_bytes σ a n)) next') else Fault (f OutOfRange)).
Proof.
  intros Hm Ha Hn Hd Hnx Hg.
  destruct (Z.leb_spec (a + n) ADDR_SPACE) as [Hb|Hb].
  - destruct (read_ok s.2 a n) as (m' & E & He); [apply (m_wf _ _ Hm)|done..|].
    eapply impl_bind; [exact (mem_read_eq f s a n _ _ E)|].
    destruct (Hg (load_bytes σ a n)) as [<- Hu].
    { rewrite (bytes_eq s) by done.
      replace (8 * n) with (8 * Z.of_nat (length (abyte (abs s.2) <$> seqZ a n))).
      - apply le_val_range, Forall_fmap, Forall_true. intros x. apply abyte_range, (m_wf _ _ Hm).
      - rewrite length_fmap, length_seqZ. unfold valid_len in Hn. lia. }
    rewrite <- (bytes_eq s σ) by done. apply (impl_set_next (s.1, m')); try done. by apply models_mem_equiv.
  - apply impl_err; [|done]. destruct s. rewrite (mem_read_eq f _ a n (Err OutOfRange) m); [done|].
    apply read_err; [done|unfold valid_len in Hn; lia|lia].
Qed.

Lemma le_bytes_lookup n v i : (i < n)%nat -> le_bytes n v !! i = Some ((v / 256 ^ Z.of_nat i) mod 256).
Proof.
  revert v i. induction n as [|n IH]; intros v i Hi; [lia|]. destruct i as [|i]; simpl.
  - by rewrite Z.div_1_r.
  - rewrite IH by lia. do 2 f_equal. rewrite Z.div_div by lia. f_equal.
    rewrite <- Z.pow_succ_r by lia. f_equal. lia.
Qed.

Lemma impl_store f s σ a n v next next' :
  models s σ -> is_u64 a -> valid_len n -> next = next' mod 2 ^ 64 ->
  implements (_ ← mem_write f a (take (Z.to_nat n) (le_bytes 8 v)); goto next) s σ
    (if a + n <=? ADDR_SPACE then Next (jump (store_bytes σ a n v) next') else Fault (f OutOfRange)).
Proof.
  intros Hm Ha Hn ->. assert (0 < n <= 8) as Hn8 by (unfold valid_len in Hn; lia).
  pose proof (length_le_bytes 8 v) as Hl8. pose proof (le_bytes_range 8 v) as Hbs.
  pose proof (le_bytes_lookup 8 v) as Hlk. generalize dependent (le_bytes 8 v). intros bs Hl8 Hbs Hlk.
  assert (length (take (Z.to_nat n) bs) = Z.to_nat n) as Hl by (rewrite length_take; lia).
  destruct (Z.leb_spec (a + n) ADDR_SPACE) as [Hb|Hb].
  - destruct (write_ok s.2 a (take (Z.to_nat n) bs)) as (m' & E & W' & Habs & _);
      [apply (m_wf _ _ Hm)|done|rewrite Hl; lia|by apply Forall_take|].
    eapply impl_bind; [exact (mem_write_eq f s a _ _ _ E)|]. eexists. split; [reflexivity|].
    apply (models_jump (s.1, m')); [|done]. destruct Hm as [Hr Hp Hm Hc Hw]. constructor; simpl; try done.
    intros a'. rewrite Habs, abyte_awrite, Hl, Z2Nat.id by
      first [lia | by apply abs_pages_ok | by apply Forall_take].
    destruct (decide (a <= a' < a + n)) as [Hin|Hin].
    + rewrite (proj2 (Z.leb_le a a')), (proj2 (Z.ltb_lt a' (a + n))) by lia. simpl.
      rewrite lookup_take_lt, Hlk by lia. simpl. by rewrite Z2Nat.id by lia.
    + rewrite Hm. destruct (Z.leb_spec a a'), (Z.ltb_spec a' (a + n)); simpl; try done. lia.
  - apply impl_err; [|done]. destruct s. rewrite (mem_write_eq f _ a _ (Err OutOfRange) m); [done|].
    apply write_err; [done|rewrite Hl; lia].
Qed.

(** [& !1] clears the lowest bit. *)
Lemma clear_bit0 a b : 0 <= a -> a = b -> a .& Z.lnot 1 = 2 * (b / 2).
Proof.
  intros Ha <-. rewrite <- Z.ldiff_land. change 1 with (Z.ones 1) at 1.
  rewrite Z.ldiff_ones_r, Z.shiftr_div_pow2, Z.shiftl_mul_pow2 by lia. change (2 ^ 1) with 2. lia.
Qed.

(** ** The base instructions *)

(** The divisor of a word division is regular. *)
Definition division_ok (i : instr) (σ : isa) : Prop :=
  match i with
  | OpW op _ _ rs2 => word_division op = true -> regular_divisor (reg σ rs2)
  | _ => True
  end.

Lemma r_code_range op : 0 <= (r_code op).1 < 8 /\ 0 <= (r_code op).2 < 128.
Proof. destruct op; simpl; lia. Qed.
Lemma rw_code_range op : 0 <= (rw_code op).1 < 8 /\ 0 <= (rw_code op).2 < 128.
Proof. destruct op; simpl; lia. Qed.
Lemma sh_code_range op : 0 <= (sh_code op).1 < 8 /\ 0 <= (sh_code op).2 < 64.
Proof. destruct op; simpl; lia. Qed.

Section exec32.
Context (s : machine) (σ : isa) (Hm : models s σ).
Let p := ipc σ.

(** Read the registers, select the instruction. *)
Ltac enter :=
  unfold exec32; eapply impl_bind; [reflexivity|]; cbv beta zeta.

Lemma exec_lui rd imm :
  reg_ok rd -> is_u 20 imm ->
  implements (exec32 false None p (encode (LUI rd imm))) s σ (isa_exec 4 (LUI rd imm) σ).
Proof.
  intros Hd Hi. enter. cbn [encode].
  destruct (u_fields 0x37 rd imm) as (-> & -> & ->); [lia|done..|]. cbn [Z.eqb Pos.eqb].
  apply impl_set_next; try done. by apply wrap_range.
Qed.
Lemma exec_auipc rd imm :
  reg_ok rd -> is_u 20 imm ->
  implements (exec32 false None p (encode (AUIPC rd imm))) s σ (isa_exec 4 (AUIPC rd imm) σ).
Proof.
  intros Hd Hi. enter. cbn [encode].
  destruct (u_fields 0x17 rd imm) as (-> & -> & ->); [lia|done..|]. cbn [Z.eqb Pos.eqb].
  apply impl_set_next; try done; [by apply wrap_range|]. apply u64_idem.
Qed.

Lemma exec_jal rd imm :
  instr_ok (JAL rd imm) ->
  implements (exec32 false None p (encode (JAL rd imm))) s σ (isa_exec 4 (JAL rd imm) σ).
Proof.
  intros (Hd & Hi & He). enter. cbn [encode].
  destruct (j_fields 0x6f rd imm) as (-> & -> & ->); [lia|done..|]. cbn [Z.eqb Pos.eqb].
  apply impl_set_next; try done; [by apply wrap_range|]. apply u64_idem.
Qed.

Lemma exec_jalr rd rs1 imm :
  instr_ok (JALR rd rs1 imm) ->
  implements (exec32 false None p (encode (JALR rd rs1 imm))) s σ (isa_exec 4 (JALR rd rs1 imm) σ).
Proof.
  intros (Hd & H1 & Hi). enter. cbn [encode].
  destruct (i_fields 0x67 0 rd rs1 imm) as (-> & -> & -> & -> & ->); [lia|lia|done..|]. cbn [Z.eqb Pos.eqb negb].
  destruct (models_reg s σ rs1 Hm H1) as [-> Hr].
  apply impl_set_next; try done; [by apply wrap_range|].
  rewrite (clear_bit0 _ (u64 (reg σ rs1 + imm))); [|by apply wrap_range|apply u64_idem].
  symmetry. apply Z.mod_small. pose proof (wrap_range 64 (reg σ rs1 + imm)) as Hw.
  unfold is_u, wrap, u64 in *. lia.
Qed.

Lemma exec_branch op rs1 rs2 imm :
  instr_ok (Branch op rs1 rs2 imm) ->
  implements (exec32 false None p (encode (Branch op rs1 rs2 imm))) s σ (isa_exec 4 (Branch op rs1 rs2 imm) σ).
Proof.
  intros (H1 & H2 & Hi & He). enter. cbn [encode].
  destruct (b_fields 0x63 (b_code op) rs1 rs2 imm) as (-> & -> & -> & -> & ->);
    [lia|destruct op; simpl; lia|done..|]. cbn [Z.eqb Pos.eqb].
  destruct (models_reg s σ rs1 Hm H1) as [-> Hr1], (models_reg s σ rs2 Hm H2) as [-> Hr2].
  assert (branch_taken (b_code op) (reg σ rs1) (reg σ rs2) = Some (b_taken op (reg σ rs1) (reg σ rs2)))
    as -> by by destruct op.
  apply impl_goto; [done|]. case_match; [|done]. apply u64_idem.
Qed.

Lemma exec_loads op rd rs1 imm :
  instr_ok (Load op rd rs1 imm) ->
  implements (exec32 false None p (encode (Load op rd rs1 imm))) s σ (isa_exec 4 (Load op rd rs1 imm) σ).
Proof.
  intros (Hd & H1 & Hi). enter. cbn [encode].
  destruct (i_fields 0x03 (l_code op) rd rs1 imm) as (E & Erd & E3 & E1 & Ei);
    [lia|destruct op; simpl; lia|done..|]. rewrite E, E1. cbn [Z.eqb Pos.eqb].
  destruct (models_reg s σ rs1 Hm H1) as [-> Hr]. unfold exec_load. rewrite E3, Erd, Ei.
  change (wrapping_add 64 ?a (wrap 64 imm)) with (u64 (a + wrap 64 imm)). rewrite u64_idem.
  assert (load_kind (l_code op) = Some (l_size op, match op with LB | LH | LW => true | _ => false end))
    as -> by by destruct op.
  apply (impl_load (fun e => trap_load e _)); try done; [by apply wrap_range|destruct op; simpl; unfold valid_len; lia|].
  intros v Hv. destruct op; (split; [done|]); try (by apply wrap_range); try done;
    apply (is_u_weaken _ 64) in Hv; done.
Qed.

Lemma exec_stores op rs1 rs2 imm :
  instr_ok (Store op rs1 rs2 imm) ->
  implements (exec32 false None p (encode (Store op rs1 rs2 imm))) s σ (isa_exec 4 (Store op rs1 rs2 imm) σ).
Proof.
  intros (H1 & H2 & Hi). enter. cbn [encode].
  destruct (s_fields 0x23 (s_code op) rs1 rs2 imm) as (E & E3 & E1 & E2 & Ei);
    [lia|destruct op; simpl; lia|done..|]. rewrite E, E1, E2. cbn [Z.eqb Pos.eqb].
  destruct (models_reg s σ rs1 Hm H1) as [-> Hr1], (models_reg s σ rs2 Hm H2) as [-> Hr2].
  unfold exec_store. rewrite E3, Ei.
  change (wrapping_add 64 ?a (wrap 64 imm)) with (u64 (a + wrap 64 imm)). rewrite u64_idem.
  assert (store_len (s_code op) = Some (s_size op)) as -> by by destruct op.
  eapply impl_bind; [reflexivity|].
  apply (impl_store (fun e => trap_store e _)); try done; [by apply wrap_range|].
  destruct op; simpl; unfold valid_len; lia.
Qed.

Lemma exec_op_imm op rd rs1 imm :
  instr_ok (OpImm op rd rs1 imm) ->
  implements (exec32 false None p (encode (OpImm op rd rs1 imm))) s σ (isa_exec 4 (OpImm op rd rs1 imm) σ).
Proof.
  intros (Hd & H1 & Hi). enter. cbn [encode].
  destruct (i_fields 0x13 (i_code op) rd rs1 imm) as (E & Erd & E3 & E1 & Ei);
    [lia|destruct op; simpl; lia|done..|]. rewrite E, E1, Erd. cbn [Z.eqb Pos.eqb].
  destruct (models_reg s σ rs1 Hm H1) as [-> Hr].
  pose proof (op_imm_val_spec op rd rs1 imm (reg σ rs1) E3 Ei Hr) as Ev. rewrite Ev.
  apply impl_set_next; try done. exact (op_imm_val_u64 _ _ _ Hr Ev).
Qed.

Lemma exec_sh_imm op rd rs1 sh :
  instr_ok (ShImm op rd rs1 sh) ->
  implements (exec32 false None p (encode (ShImm op rd rs1 sh))) s σ (isa_exec 4 (ShImm op rd rs1 sh) σ).
Proof.
  intros (Hd & H1 & Hs). enter. pose proof (sh_code_range op) as [R3 R6].
  pose proof (op_sh_val_spec op rd rs1 sh (reg σ rs1) ltac:(lia)) as Ev. cbn [encode].
  destruct (sh_code op) as [f3 f6]. cbn [fst snd] in *.
  destruct (sh_fields 0x13 f3 f6 rd rs1 sh) as (E & Erd & E3 & E1 & E6 & Es); [lia|done..|].
  specialize (Ev E3 E6 Es). rewrite E, E1, Erd. cbn [Z.eqb Pos.eqb].
  destruct (models_reg s σ rs1 Hm H1) as [-> Hr]. rewrite Ev.
  apply impl_set_next; try done. exact (op_imm_val_u64 _ _ _ Hr Ev).
Qed.

Lemma exec_addiw rd rs1 imm :
  instr_ok (ADDIW rd rs1 imm) ->
  implements (exec32 false None p (encode (ADDIW rd rs1 imm))) s σ (isa_exec 4 (ADDIW rd rs1 imm) σ).
Proof.
  intros (Hd & H1 & Hi). enter. cbn [encode].
  destruct (i_fields 0x1b 0 rd rs1 imm) as (E & Erd & E3 & E1 & Ei); [lia|lia|done..|].
  rewrite E, E1, Erd. cbn [Z.eqb Pos.eqb].
  destruct (models_reg s σ rs1 Hm H1) as [-> Hr]. unfold op_imm32_val. rewrite E3, Ei. cbn [Z.eqb].
  apply impl_set_next; try done; [by apply wrap_range|apply addiw_val].
Qed.

Lemma exec_shw_imm op rd rs1 sh :
  instr_ok (ShImmW op rd rs1 sh) ->
  implements (exec32 false None p (encode (ShImmW op rd rs1 sh))) s σ (isa_exec 4 (ShImmW op rd rs1 sh) σ).
Proof.
  intros (Hd & H1 & Hs). enter. pose proof (sh_code_range op) as [R3 R6].
  pose proof (op_shw_val_spec op rd rs1 sh (reg σ rs1) ltac:(lia)) as Ev. cbn [encode].
  destruct (sh_code op) as [f3 f6]. cbn [fst snd] in *.
  destruct (sh_fields 0x1b f3 f6 rd rs1 sh) as (E & Erd & E3 & E1 & _); [lia|done|done|done|done|lia|].
  destruct (shw_fields 0x1b f3 f6 rd rs1 sh) as (E7 & Es); [lia|done|done|done|done|lia|lia|].
  specialize (Ev E3 E7 Es). rewrite E, E1, Erd. cbn [Z.eqb Pos.eqb].
  destruct (models_reg s σ rs1 Hm H1) as [-> Hr]. rewrite Ev.
  apply impl_set_next; try done. exact (op_imm32_val_u64 _ _ _ Ev).
Qed.

Lemma exec_op op rd rs1 rs2 :
  instr_ok (Op op rd rs1 rs2) ->
  implements (exec32 false None p (encode (Op op rd rs1 rs2))) s σ (isa_exec 4 (Op op rd rs1 rs2) σ).
Proof.
  intros (Hd & H1 & H2). enter. pose proof (r_code_range op) as [R3 R7].
  destruct (models_reg s σ rs1 Hm H1) as [Eg1 Hr1], (models_reg s σ rs2 Hm H2) as [Eg2 Hr2].
  pose proof (op_val_spec op (reg σ rs1) (reg σ rs2) Hr1 Hr2) as Ev. cbn [encode].
  destruct (r_code op) as [f3 f7]. cbn [fst snd] in *.
  destruct (r_fields 0x33 f3 f7 rd rs1 rs2) as (-> & -> & -> & -> & -> & ->); [lia|done..|].
  rewrite Eg1, Eg2. cbn [Z.eqb Pos.eqb]. rewrite Ev.
  apply impl_set_next; try done. exact (op_val_u64 _ _ _ _ _ Hr1 Hr2 Ev).
Qed.

Lemma exec_opw op rd rs1 rs2 :
  instr_ok (OpW op rd rs1 rs2) -> division_ok (OpW op rd rs1 rs2) σ ->
  implements (exec32 false None p (encode (OpW op rd rs1 rs2))) s σ (isa_exec 4 (OpW op rd rs1 rs2) σ).
Proof.
  intros (Hd & H1 & H2) Hdiv. enter. pose proof (rw_code_range op) as [R3 R7].
  destruct (models_reg s σ rs1 Hm H1) as [Eg1 Hr1], (models_reg s σ rs2 Hm H2) as [Eg2 Hr2].
  pose proof (op32_val_spec op (reg σ rs1) (reg σ rs2) Hr1 Hr2 Hdiv) as Ev. cbn [encode].
  destruct (rw_code op) as [f3 f7]. cbn [fst snd] in *.
  destruct (r_fields 0x3b f3 f7 rd rs1 rs2) as (-> & -> & -> & -> & -> & ->); [lia|done..|].
  rewrite Eg1, Eg2. cbn [Z.eqb Pos.eqb]. rewrite Ev.
  apply impl_set_next; try done. exact (op32_val_u64 _ _ _ _ _ Ev).
Qed.

Lemma exec_fence rd rs1 imm :
  instr_ok (FENCE rd rs1 imm) ->
  implements (exec32 false None p (encode (FENCE rd rs1 imm))) s σ (isa_exec 4 (FENCE rd rs1 imm) σ).
Proof.
  intros (Hd & H1 & Hi). enter. cbn [encode]. destruct (i_fields 0x0f 0 rd rs1 imm) as (-> & -> & -> & -> & _); [lia|done..|].
  cbn [Z.eqb Pos.eqb orb]. by apply impl_goto.
Qed.

Lemma exec_fence_i rd rs1 imm :
  instr_ok (FENCE_I rd rs1 imm) ->
  implements (exec32 false None p (encode (FENCE_I rd rs1 imm))) s σ (isa_exec 4 (FENCE_I rd rs1 imm) σ).
Proof.
  intros (Hd & H1 & Hi). enter. cbn [encode]. destruct (i_fields 0x0f 1 rd rs1 imm) as (-> & -> & -> & -> & _); [lia|done..|].
  cbn [Z.eqb Pos.eqb orb]. by apply impl_goto.
Qed.

Lemma exec_ecall : implements (exec32 false None p (encode ECALL)) s σ (isa_exec 4 ECALL σ).
Proof.
  enter. replace (encode ECALL) with 0x73 by by vm_compute.
  change (f_opcode 0x73) with 0x73. cbn [Z.eqb Pos.eqb]. unfold exec_system.
  change (f_f3 0x73) with 0. change (0x73 .>> 20) with 0. cbn [Z.eqb]. by exists s.
Qed.

Lemma exec_ebreak : implements (exec32 false None p (encode EBREAK)) s σ (isa_exec 4 EBREAK σ).
Proof.
  enter. replace (encode EBREAK) with 0x100073 by by vm_compute.
  change (f_opcode 0x100073) with 0x73. cbn [Z.eqb Pos.eqb]. unfold exec_system.
  change (f_f3 0x100073) with 0. change (0x100073 .>> 20) with 1. cbn [Z.eqb]. by exists s.
Qed.

Lemma exec32_refines i :
  instr_ok i -> division_ok i σ ->
  implements (exec32 false None p (encode i)) s σ (isa_exec 4 i σ).
Proof.
  intros Hi Hdiv. destruct i.
  - by apply exec_lui; destruct Hi.
  - by apply exec_auipc; destruct Hi.
  - by apply exec_jal.
  - by apply exec_jalr.
  - by apply exec_branch.
  - by apply exec_loads.
  - by apply exec_stores.
  - by apply exec_op_imm.
  - by apply exec_sh_imm.
  - by apply exec_addiw.
  - by apply exec_shw_imm.
  - by apply exec_op.
  - by apply exec_opw.
  - by apply exec_fence.
  - by apply exec_fence_i.
  - apply exec_ecall.
  - apply exec_ebreak.
Qed.
End exec32.
