(* ===== verification/IsaShort.v ===== *)
(** * The compressed instructions and the step theorem

    Every compressed encoding has the effect of the base instruction it expands to, and
    a step of the emulator at placed code, full or compressed, is the instruction's
    execution. *)

From S2P Require Import Prelude Mem Cpu Interp InterpFacts Isa IsaFacts.

Ltac Zify.zify_post_hook ::= Z.to_euclidean_division_equations.

(** ** Fields of the compressed formats *)

Section cfields.
Context (q f3 b12 mid low : Z).
Context (Hq : 0 <= q < 3) (H3 : 0 <= f3 < 8) (H12 : 0 <= b12 < 2) (Hmid : 0 <= mid < 32) (Hlow : 0 <= low < 32).
Let w := cenc q f3 b12 mid low.

Lemma cenc_fields :
  w .& 3 = q /\ (w .>> 13) .& 7 = f3 /\ (w .>> 12) .& 0x1 = b12 /\
  (w .>> 7) .& 0x1f = mid /\ (w .>> 2) .& 0x1f = low.
Proof. subst w. split_and!; field. Qed.

(** Parts of the middle and low fields. *)
Lemma cenc_parts :
  (w .>> 7) .& 7 = mid mod 8 /\ (w .>> 10) .& 3 = mid / 8 /\
  (w .>> 2) .& 7 = low mod 8 /\ (w .>> 5) .& 3 = low / 8 /\
  (w .>> 2) .& 0x1 = low mod 2 /\ (w .>> 3) .& 0x3 = (low / 2) mod 4 /\ (w .>> 4) .& 0x7 = (low / 4) /\
  (w .>> 5) .& 0x1 = (low / 8) mod 2 /\ (w .>> 6) .& 0x1 = low / 16 /\ (w .>> 2) .& 0x3 = low mod 4.
Proof. subst w. split_and!; field. Qed.
End cfields.

Section cmem_fields.
Context (f3 up rs1 mid r : Z).
Context (H3 : 0 <= f3 < 8) (Hup : 0 <= up < 8) (H1 : creg_ok rs1) (Hmid : 0 <= mid < 4) (Hr : creg_ok r).
Let w := cenc_mem f3 up rs1 mid r.

Lemma cenc_mem_fields :
  w .& 3 = 0 /\ (w .>> 13) .& 7 = f3 /\ (w .>> 10) .& 0x7 = up /\ (w .>> 7) .& 7 = rs1 /\
  (w .>> 5) .& 0x3 = mid /\ (w .>> 5) .& 0x1 = mid mod 2 /\ (w .>> 6) .& 0x1 = mid / 2 /\ (w .>> 2) .& 7 = r.
Proof. subst w. split_and!; field. Qed.
End cmem_fields.

(** ** Immediates *)

Lemma imm6_bits i b12 low w :
  simm 6 i -> (w .>> 12) .& 0x1 = b12 -> (w .>> 2) .& 0x1f = low -> b12 = bits i 5 1 -> low = bits i 0 5 ->
  imm6 w = u64 i.
Proof.
  intros Hi E1 E2 -> ->. unfold imm6. rewrite E1, E2. unfold u64, wrap. f_equal.
  unfold bits, simm in *. lia.
Qed.

Lemma shamt_bits sh w :
  0 <= sh < 64 -> (w .>> 12) .& 0x1 = bits sh 5 1 -> (w .>> 2) .& 0x1f = bits sh 0 5 -> c_shamt w = sh.
Proof. intros Hs E1 E2. unfold c_shamt. rewrite E1, E2. arith_fields. unfold bits. lia. Qed.

Lemma mod_pow2_mod z n k : 0 <= n <= k -> (z mod 2 ^ k) mod 2 ^ n = z mod 2 ^ n.
Proof.
  intros H. replace k with (n + (k - n)) by lia. rewrite Z.pow_add_r, Z.rem_mul_r by lia.
  rewrite Z.mul_comm, Z.mod_add by lia. apply Z.mod_mod. lia.
Qed.

Section cexec.
Context (s : machine) (σ : isa) (Hm : models s σ).
Let p := ipc σ.

Ltac enter := eapply impl_bind; [reflexivity|]; cbv beta zeta.
(** Name the encoded halfword; a field of it is [v]. *)
Ltac quadrant w c := unfold step_c; set (w := cencode c); cbv zeta.
Ltac part w n m v :=
  replace ((w .>> n) .& m) with v by (subst w; cbn [cencode]; field).

Definition short_ok (c : cinstr) : Prop :=
  implements (step_c p (cencode c)) s σ (isa_exec 2 (expand c) σ).

Lemma short_addi4spn rd i : cinstr_ok (CADDI4SPN rd i) -> short_ok (CADDI4SPN rd i).
Proof.
  intros (Hd & (Hi & Hi4) & Hnz). unfold short_ok. quadrant w (CADDI4SPN rd i).
  replace (w .& 3) with 0 by (subst w; cbn [cencode]; field). cbn [Z.eqb]. unfold step_c_q0. enter.
  part w 13 7 0. part w 2 7 rd. part w 11 3 (bits i 4 2). part w 7 0xf (bits i 6 4).
  part w 6 1 (bits i 2 1). part w 5 1 (bits i 3 1). cbn [Z.eqb].
  match goal with |- context [?v =? 0] => assert (v = i) as -> end.
  { arith_fields. unfold bits, is_u in *. lia. }
  destruct (Z.eqb_spec i 0); [done|].
  destruct (models_reg s σ 2 Hm) as [-> Hr]; [done|].
  apply impl_set_next; try done; [unfold creg_ok, creg, reg_ok in *; lia|by apply wrap_range].
Qed.

Lemma cregs r : creg_ok r -> reg_ok (creg r).
Proof. unfold creg_ok, reg_ok, creg. lia. Qed.

(** Quadrant 0: the offsets of the word and doubleword accesses. *)
Lemma clw_imm_bits f3 rs1 r i (w := cenc_mem f3 (bits i 3 3) rs1 (bits i 6 1 + bits i 2 1 * 2) r) :
  0 <= f3 < 8 -> creg_ok rs1 -> creg_ok r -> uoff 7 4 i -> clw_imm w = i.
Proof.
  intros H3 H1 Hr [Hi Hi4]. pose proof (bits_range i 6 1). pose proof (bits_range i 2 1).
  destruct (cenc_mem_fields f3 (bits i 3 3) rs1 (bits i 6 1 + bits i 2 1 * 2) r)
    as (_ & _ & Eu & _ & _ & E5 & E6 & _); [done|by apply bits_range|done|lia|done|].
  unfold clw_imm. subst w. rewrite Eu, E5, E6.
  replace ((bits i 6 1 + bits i 2 1 * 2) mod 2) with (bits i 6 1) by lia.
  replace ((bits i 6 1 + bits i 2 1 * 2) / 2) with (bits i 2 1) by lia.
  arith_fields. unfold bits, is_u in *. lia.
Qed.

Lemma cld_imm_bits f3 rs1 r i (w := cenc_mem f3 (bits i 3 3) rs1 (bits i 6 2) r) :
  0 <= f3 < 8 -> creg_ok rs1 -> creg_ok r -> uoff 8 8 i -> cld_imm w = i.
Proof.
  intros H3 H1 Hr [Hi Hi8].
  destruct (cenc_mem_fields f3 (bits i 3 3) rs1 (bits i 6 2) r)
    as (_ & _ & Eu & _ & E5 & _); [done|by apply bits_range|done|by apply bits_range|done|].
  unfold cld_imm. subst w. rewrite Eu, E5. arith_fields. unfold bits, is_u in *. lia.
Qed.

(** A compressed load or store at [rs1 + i], as the base instruction. *)
Lemma c_load_spec op rd rs1 i sx n :
  (op = LW /\ sx = true \/ op = LD /\ sx = false) -> n = l_size op -> reg_ok rd -> reg_ok rs1 ->
  implements (c_load rd (wrapping_add 64 (get s.1 rs1) i) n sx (wrap 64 (p + 2))) s σ
    (isa_exec 2 (Load op rd rs1 i) σ).
Proof.
  intros Hop -> Hd H1. destruct (models_reg s σ rs1 Hm H1) as [-> Hr]. unfold c_load.
  apply (impl_load (fun e => trap_load e _)); try done.
  - by apply wrap_range.
  - destruct Hop as [[-> _]|[-> _]]; unfold valid_len; simpl; lia.
  - intros v Hv. destruct Hop as [[-> ->]|[-> ->]]; simpl; split; try done. by apply wrap_range.
Qed.

Lemma c_store_spec op rs1 rs2 i n :
  n = s_size op -> reg_ok rs1 -> reg_ok rs2 ->
  implements (c_store (get s.1 rs2) (wrapping_add 64 (get s.1 rs1) i) n (wrap 64 (p + 2))) s σ
    (isa_exec 2 (Store op rs1 rs2 i) σ).
Proof.
  intros -> H1 H2. destruct (models_reg s σ rs1 Hm H1) as [-> Hr1], (models_reg s σ rs2 Hm H2) as [-> Hr2].
  unfold c_store. apply (impl_store (fun e => trap_store e _)); try done; [by apply wrap_range|].
  destruct op; simpl; unfold valid_len; lia.
Qed.

(** The fields of a quadrant 0 access, with the range goals discharged. *)
Ltac mem_fields f3 i rs1 mid r :=
  pose proof (bits_range i 6 1); pose proof (bits_range i 2 1); pose proof (bits_range i 6 2);
  destruct (cenc_mem_fields f3 (bits i 3 3) rs1 mid r) as (Equad & E3 & _ & E1 & _ & _ & _ & Er);
    [lia|by apply bits_range|done|lia|done|].
Ltac q0 := unfold short_ok, step_c; cbn [cencode expand]; cbv zeta; intros.

Lemma short_lw rd rs1 i : cinstr_ok (CLW rd rs1 i) -> short_ok (CLW rd rs1 i).
Proof.
  intros (Hd & H1 & Hi). mem_fields 2 i rs1 (bits i 6 1 + bits i 2 1 * 2) rd.
  q0. rewrite Equad. cbn [Z.eqb]. unfold step_c_q0. enter. rewrite E3, E1, Er, clw_imm_bits by first [lia | done].
  apply (c_load_spec LW); [by left|done|by apply cregs..].
Qed.

Lemma short_ld rd rs1 i : cinstr_ok (CLD rd rs1 i) -> short_ok (CLD rd rs1 i).
Proof.
  intros (Hd & H1 & Hi). mem_fields 3 i rs1 (bits i 6 2) rd.
  q0. rewrite Equad. cbn [Z.eqb]. unfold step_c_q0. enter. rewrite E3, E1, Er, cld_imm_bits by first [lia | done].
  apply (c_load_spec LD); [by right|done|by apply cregs..].
Qed.

Lemma short_sw r rs1 i : cinstr_ok (CSW r rs1 i) -> short_ok (CSW r rs1 i).
Proof.
  intros (Hd & H1 & Hi). mem_fields 6 i rs1 (bits i 6 1 + bits i 2 1 * 2) r.
  q0. rewrite Equad. cbn [Z.eqb]. unfold step_c_q0. enter. rewrite E3, E1, Er, clw_imm_bits by first [lia | done].
  apply (c_store_spec SW); [done|by apply cregs..].
Qed.

Lemma short_sd r rs1 i : cinstr_ok (CSD r rs1 i) -> short_ok (CSD r rs1 i).
Proof.
  intros (Hd & H1 & Hi). mem_fields 7 i rs1 (bits i 6 2) r.
  q0. rewrite Equad. cbn [Z.eqb]. unfold step_c_q0. enter. rewrite E3, E1, Er, cld_imm_bits by first [lia | done].
  apply (c_store_spec SD); [done|by apply cregs..].
Qed.

(** ** Quadrants 1 and 2 *)

Ltac c_fields q f3 b12 mid low :=
  destruct (cenc_fields q f3 b12 mid low) as (Equad & E3 & E12 & Emid & Elow);
    [lia|lia|try (by apply bits_range); lia|lia|try (by apply bits_range); lia|].
Ltac q12 := unfold short_ok, step_c; cbn [cencode expand]; cbv zeta; match goal with H : _ .& 3 = _ |- _ => rewrite H end; cbn [Z.eqb Pos.eqb].
Ltac regs := unfold creg_ok, reg_ok, nz_reg, creg in *; lia.

(** An addition of an immediate to [rs1], whatever way the interpreter skips [x0]. *)
Lemma add_imm rd rs1 i v :
  reg_ok rd -> reg_ok rs1 -> v = u64 (get s.1 rs1 + i) ->
  implements (set_next rd v (wrap 64 (p + 2))) s σ (isa_exec 2 (OpImm ADDI rd rs1 i) σ).
Proof.
  intros Hd H1 ->. destruct (models_reg s σ rs1 Hm H1) as [-> Hr].
  apply impl_set_next; try done. by apply wrap_range.
Qed.

(** A write to [x0] only moves the pc. *)
Lemma skip_x0 v n n' : n = n' mod 2 ^ 64 -> implements (goto n) s σ (Next (retire σ 0 v n')).
Proof.
  intros ->. eexists. split; [reflexivity|]. destruct (models_jump s σ _ n' Hm eq_refl) as [Hr Hp Hme Hc Hw].
  constructor; try done. intros r Hok. rewrite <- Hr by done. unfold reg, retire, jump. simpl.
  by destruct (Z.eqb_spec r 0).
Qed.

Lemma short_addi rd i : cinstr_ok (CADDI rd i) -> short_ok (CADDI rd i).
Proof.
  intros (Hd & Hi). unfold reg_ok in Hd. c_fields 1 0 (bits i 5 1) rd (bits i 0 5). q12.
  unfold step_c_q1. enter. rewrite E3, Emid. cbn [Z.eqb Pos.eqb orb].
  destruct (Z.eqb_spec rd 0) as [->|]; cbn [negb]; [by apply skip_x0|].
  erewrite imm6_bits by done. apply add_imm; [done..|]. apply u64_idem.
Qed.

Lemma short_li rd i : cinstr_ok (CLI rd i) -> short_ok (CLI rd i).
Proof.
  intros (Hd & Hi). unfold reg_ok in Hd. c_fields 1 2 (bits i 5 1) rd (bits i 0 5). q12.
  unfold step_c_q1. enter. rewrite E3, Emid. cbn [Z.eqb Pos.eqb orb].
  erewrite imm6_bits by done. apply add_imm; [done|done|].
  rewrite get_zero by apply (m_cpu _ _ Hm). done.
Qed.

Lemma short_addiw rd i : cinstr_ok (CADDIW rd i) -> short_ok (CADDIW rd i).
Proof.
  intros (Hd & Hi). unfold nz_reg in Hd. c_fields 1 1 (bits i 5 1) rd (bits i 0 5). q12.
  unfold step_c_q1. enter. rewrite E3, Emid. cbn [Z.eqb Pos.eqb orb].
  destruct (Z.eqb_spec rd 0); [lia|]. erewrite imm6_bits by done.
  destruct (models_reg s σ rd Hm) as [-> Hr]; [regs|].
  apply impl_set_next; try done; [regs|by apply wrap_range|].
  rewrite addiw_val. apply sx32_ext. unfold u32, u64. rewrite <- Z.add_mod_idemp_r, mod_pow2_mod by lia.
  by rewrite Z.add_mod_idemp_r.
Qed.

Lemma addi16sp_bits i :
  i mod 16 = 0 ->
  bits i 9 1 .<< 9 .| bits i 4 1 .<< 4 .| bits i 6 1 .<< 6 .| bits i 7 2 .<< 7 .| bits i 5 1 .<< 5
    = 2 * bits i 1 9.
Proof.
  intros H16. change 9 with (3 + (1 + (1 + (1 + (2 + 1))))) at 3. split_bits. arith_fields.
  replace (bits i 1 3) with 0 by (unfold bits; lia). lia.
Qed.

Lemma addi16sp_imm_bits i (w := cencode (CADDI16SP i)) :
  cinstr_ok (CADDI16SP i) -> c_addi16sp_imm w = i.
Proof.
  intros (Hi & H16 & _). unfold c_addi16sp_imm. cbv zeta.
  part w 12 1 (bits i 9 1). part w 6 1 (bits i 4 1). part w 5 1 (bits i 6 1). part w 3 3 (bits i 7 2).
  part w 2 1 (bits i 5 1). rewrite (shl_mul _ 54), (shr_div _ 54) by lia.
  apply (sext_even 64 10); [lia|done|lia|]. by apply addi16sp_bits.
Qed.

Lemma addi16sp_fields i (w := cencode (CADDI16SP i)) :
  w .& 3 = 1 /\ (w .>> 13) .& 7 = 3 /\ (w .>> 7) .& 0x1f = 2.
Proof. subst w. cbn [cencode]. split_and!; field. Qed.

Lemma q1_addi16sp w i :
  (w .>> 13) .& 7 = 3 -> (w .>> 7) .& 0x1f = 2 -> c_addi16sp_imm w = i -> i <> 0 ->
  implements (step_c_q1 p w) s σ (isa_exec 2 (OpImm ADDI 2 2 i) σ).
Proof.
  intros E3 Emid Ei Hnz. unfold step_c_q1. enter. rewrite E3, Emid. cbn [Z.eqb Pos.eqb]. rewrite Ei.
  destruct (Z.eqb_spec i 0); [done|]. apply add_imm; [done..|]. apply u64_idem.
Qed.

Lemma short_addi16sp i : cinstr_ok (CADDI16SP i) -> short_ok (CADDI16SP i).
Proof.
  intros Hok. pose proof (addi16sp_imm_bits i Hok) as Ei. destruct Hok as (Hi & H16 & Hnz).
  destruct (addi16sp_fields i) as (Equad & E3 & Emid).
  unfold short_ok, step_c. cbv zeta. rewrite Equad. by apply q1_addi16sp.
Qed.

Lemma lui_imm_bits rd i (w := cencode (CLUI rd i)) :
  reg_ok rd -> simm 6 i -> c_lui_imm w = i * 2 ^ 12.
Proof.
  intros Hd Hi. unfold c_lui_imm. cbv zeta. part w 12 1 (bits i 5 1). part w 2 0x1f (bits i 0 5).
  rewrite (shl_mul _ 46), (shr_div _ 46) by lia.
  rewrite <- (sext_bits 64 18 (i * 2 ^ 12) 0) by first [lia | unfold simm in *; lia].
  do 2 f_equal. rewrite Z.add_0_l. f_equal. arith_fields. unfold bits, simm in *. lia.
Qed.

Lemma short_lui rd i : cinstr_ok (CLUI rd i) -> short_ok (CLUI rd i).
Proof.
  intros (Hd & H2 & Hi & Hnz). pose proof (lui_imm_bits rd i) as Ei. unfold nz_reg in Hd.
  c_fields 1 3 (bits i 5 1) rd (bits i 0 5). q12.
  unfold step_c_q1. enter. rewrite E3, Emid. cbn [Z.eqb Pos.eqb].
  destruct (Z.eqb_spec rd 2), (Z.eqb_spec rd 0); try lia. cbn [cencode] in Ei. rewrite Ei by (try done; regs).
  destruct (Z.eqb_spec (i * 2 ^ 12) 0); [lia|].
  apply impl_set_next; try done; [regs|by apply wrap_range|].
  unfold sx32, u64, wrap, s32. f_equal. rewrite <- (sint_signed 32 (i * 2 ^ 12)) by (unfold simm in *; lia).
  apply sint_ext. unfold bits, simm in *. lia.
Qed.

(** Arithmetic on the compressed registers: the selector, the register, the operand. *)
Ltac reg_fields b12 sel rd low :=
  let mid := constr:(rd + sel * 2 ^ 3) in
  destruct (cenc_fields 1 4 b12 mid low) as (Equad & E3 & E12 & Emid & Elow);
    [lia|lia|try (by apply bits_range); lia|lia|try (by apply bits_range); lia|];
  destruct (cenc_parts 1 4 b12 mid low) as (E7 & E10 & E2 & E5 & _);
    [lia|lia|try (by apply bits_range); lia|lia|try (by apply bits_range); lia|];
  replace (mid mod 8) with rd in E7 by lia; replace (mid / 8) with sel in E10 by lia;
  change (cenc 1 4 b12 mid low) with (cenc_reg 4 b12 sel rd low) in *.

Section arith.
Context (w rd : Z) (E3 : (w .>> 13) .& 7 = 4) (E7 : (w .>> 7) .& 7 = rd) (Hd : creg_ok rd).
Let a := reg σ (8 + rd).

(** Enter the arithmetic group with the destination read. *)
Ltac arith :=
  unfold step_c_q1; enter; rewrite E3; cbn [Z.eqb Pos.eqb]; unfold step_c_arith; enter; rewrite E7;
  let Hr := fresh "Hr" in
  destruct (models_reg s σ (creg rd) Hm (cregs rd Hd)) as [-> Hr].

Lemma q1_shift sh (arithmetic : bool) :
  (w .>> 10) .& 3 = (if arithmetic then 1 else 0) -> c_shamt w = sh -> 0 < sh < 64 ->
  implements (step_c_q1 p w) s σ
    (isa_exec 2 (ShImm (if arithmetic then SRAI else SRLI) (8 + rd) (8 + rd) sh) σ).
Proof.
  intros E10 Es Hs. arith. rewrite E10, Es.
  replace ((_ =? 0) || (_ =? 1)) with true by by destruct arithmetic. destruct (Z.eqb_spec sh 0); [lia|].
  destruct arithmetic; cbn [Z.eqb]; unfold shr; rewrite shr_div by lia;
    (apply impl_set_next; try done; [by apply cregs|]); [by apply wrap_range|].
  rewrite <- shr_div by lia. by apply shr_u64; [|lia].
Qed.

Lemma q1_andi i :
  (w .>> 10) .& 3 = 2 -> imm6 w = u64 i ->
  implements (step_c_q1 p w) s σ (isa_exec 2 (OpImm ANDI (8 + rd) (8 + rd) i) σ).
Proof.
  intros E10 Ei. arith. rewrite E10, Ei. cbn [Z.eqb Pos.eqb orb].
  apply impl_set_next; try done; [by apply cregs|]. by apply land_range.
Qed.

Lemma q1_arith op rs2 :
  (w .>> 10) .& 3 = 3 -> (w .>> 2) .& 7 = rs2 -> (w .>> 12) .& 0x1 = (ca_code op).1 ->
  (w .>> 5) .& 3 = (ca_code op).2 -> creg_ok rs2 ->
  implements (step_c_q1 p w) s σ (isa_exec 2 (expand (CArith op rd rs2)) σ).
Proof.
  intros E10 E2 E12 E5 H2. arith. rewrite E10, E2, E12, E5.
  destruct (models_reg s σ (creg rs2) Hm (cregs rs2 H2)) as [-> Hr2].
  destruct op; cbn [Z.eqb Pos.eqb orb ca_code fst snd expand]; (apply impl_set_next; try done);
    try (by apply cregs); try (by apply wrap_range).
  - by apply lxor_range.
  - by apply lor_range.
  - by apply land_range.
  - unfold wrapping_sub. rewrite sx32_wrap. apply sx32_ext. unfold u32, wrap. by rewrite <- Zminus_mod.
  - unfold wrapping_add. rewrite sx32_wrap. apply sx32_ext. unfold u32, wrap. by rewrite <- Z.add_mod.
Qed.
End arith.

(** Into quadrant 1 or 2. *)
Lemma into_q1 w o : w .& 3 = 1 -> implements (step_c_q1 p w) s σ o -> implements (step_c p w) s σ o.
Proof. intros E. unfold step_c. by rewrite E. Qed.
Lemma into_q2 w o : w .& 3 = 2 -> implements (step_c_q2 p w) s σ o -> implements (step_c p w) s σ o.
Proof. intros E. unfold step_c. by rewrite E. Qed.

Lemma short_srli rd sh : cinstr_ok (CSRLI rd sh) -> short_ok (CSRLI rd sh).
Proof.
  intros (Hd & Hs). pose proof Hd as Hd'. unfold creg_ok in Hd'. reg_fields (bits sh 5 1) 0 rd (bits sh 0 5).
  apply into_q1; [done|]. apply (q1_shift _ rd E3 E7 Hd sh false); [done|by apply shamt_bits; [lia|..]|done].
Qed.

Lemma short_srai rd sh : cinstr_ok (CSRAI rd sh) -> short_ok (CSRAI rd sh).
Proof.
  intros (Hd & Hs). pose proof Hd as Hd'. unfold creg_ok in Hd'. reg_fields (bits sh 5 1) 1 rd (bits sh 0 5).
  apply into_q1; [done|]. apply (q1_shift _ rd E3 E7 Hd sh true); [done|by apply shamt_bits; [lia|..]|done].
Qed.

Lemma short_andi rd i : cinstr_ok (CANDI rd i) -> short_ok (CANDI rd i).
Proof.
  intros (Hd & Hi). pose proof Hd as Hd'. unfold creg_ok in Hd'. reg_fields (bits i 5 1) 2 rd (bits i 0 5).
  apply into_q1; [done|]. apply (q1_andi _ rd E3 E7 Hd); [done|]. by eapply imm6_bits.
Qed.

Lemma short_arith op rd rs2 : cinstr_ok (CArith op rd rs2) -> short_ok (CArith op rd rs2).
Proof.
  intros (Hd & H2). pose proof Hd as Hd'. pose proof H2 as H2'. unfold creg_ok in Hd', H2'.
  unfold short_ok. cbn [cencode].
  assert (0 <= (ca_code op).1 < 2 /\ 0 <= (ca_code op).2 < 4) as [R1 R2] by (destruct op; simpl; lia).
  pose proof (fun w E3 E7 => q1_arith w rd E3 E7 Hd op rs2) as Hq.
  destruct (ca_code op) as [b12 f2]. cbn [fst snd] in *.
  reg_fields b12 3 rd (rs2 + f2 * 2 ^ 3). apply into_q1; [done|].
  apply Hq; try done; [rewrite E2|rewrite E5]; lia.
Qed.

(** ** Jumps and branches *)

Lemma cj_bits i :
  bits i 11 1 .<< 11 .| bits i 10 1 .<< 10 .| bits i 8 2 .<< 8 .| bits i 7 1 .<< 7 .| bits i 6 1 .<< 6
    .| bits i 5 1 .<< 5 .| bits i 4 1 .<< 4 .| bits i 1 3 .<< 1 = 2 * bits i 1 11.
Proof.
  change (2 * bits i 1 11) with (2 * bits i 1 (3 + (1 + (1 + (1 + (1 + (2 + (1 + 1)))))))).
  split_bits. arith_fields. lia.
Qed.

Lemma cj_fields i (w := cencode (CJ i)) :
  w .& 3 = 1 /\ (w .>> 13) .& 7 = 5 /\ (cinstr_ok (CJ i) -> cj_imm w = i).
Proof.
  split_and!; [subst w; cbn [cencode]; field..|]. intros (Hi & He). unfold cj_imm. cbv zeta.
  part w 12 1 (bits i 11 1). part w 8 1 (bits i 10 1). part w 9 3 (bits i 8 2). part w 6 1 (bits i 7 1).
  part w 7 1 (bits i 6 1). part w 2 1 (bits i 5 1). part w 11 1 (bits i 4 1). part w 3 7 (bits i 1 3).
  rewrite (shl_mul _ 52), (shr_div _ 52) by lia. apply (sext_even 64 12); [lia|done..|]. apply cj_bits.
Qed.

Lemma q1_j w i :
  (w .>> 13) .& 7 = 5 -> cj_imm w = i -> implements (step_c_q1 p w) s σ (isa_exec 2 (JAL 0 i) σ).
Proof.
  intros E3 Ei. unfold step_c_q1. enter. rewrite E3, Ei. cbn [Z.eqb Pos.eqb].
  apply skip_x0. apply u64_idem.
Qed.

Lemma short_j i : cinstr_ok (CJ i) -> short_ok (CJ i).
Proof. intros Hok. destruct (cj_fields i) as (? & ? & Ei). apply into_q1; [done|]. apply q1_j; auto. Qed.

Lemma cb_bits i :
  bits i 8 1 .<< 8 .| bits i 6 2 .<< 6 .| bits i 5 1 .<< 5 .| bits i 3 2 .<< 3 .| bits i 1 2 .<< 1
    = 2 * bits i 1 8.
Proof.
  change (2 * bits i 1 8) with (2 * bits i 1 (2 + (2 + (1 + (2 + 1))))). split_bits. arith_fields. lia.
Qed.

Lemma cb_fields f3 rs1 i
    (w := cenc_reg f3 (bits i 8 1) (bits i 3 2) rs1 (bits i 5 1 + bits i 1 2 * 2 + bits i 6 2 * 2 ^ 3)) :
  0 <= f3 < 8 -> creg_ok rs1 ->
  w .& 3 = 1 /\ (w .>> 13) .& 7 = f3 /\ (w .>> 7) .& 7 = rs1 /\
  (simm 9 i -> i mod 2 = 0 -> cb_imm w = i).
Proof.
  intros H3 H1. split_and!; [subst w; field..|]. intros Hi He. unfold cb_imm. cbv zeta.
  part w 12 1 (bits i 8 1). part w 5 3 (bits i 6 2). part w 2 1 (bits i 5 1). part w 10 3 (bits i 3 2).
  part w 3 3 (bits i 1 2).
  rewrite (shl_mul _ 55), (shr_div _ 55) by lia. apply (sext_even 64 9); [lia|done..|]. apply cb_bits.
Qed.

Lemma q1_branch w (ne : bool) rs1 i :
  (w .>> 13) .& 7 = (if ne then 7 else 6) -> (w .>> 7) .& 7 = rs1 -> cb_imm w = i -> creg_ok rs1 ->
  implements (step_c_q1 p w) s σ (isa_exec 2 (Branch (if ne then BNE else BEQ) (8 + rs1) 0 i) σ).
Proof.
  intros E3 E1 Ei H1. unfold step_c_q1. enter. rewrite E3, E1, Ei.
  destruct (models_reg s σ (creg rs1) Hm (cregs rs1 H1)) as [-> Hr].
  destruct ne; cbn [Z.eqb Pos.eqb orb]; (apply impl_goto; [done|]); cbn [b_taken];
    change (reg σ 0) with 0; change (8 + rs1) with (creg rs1); (case_match; [apply u64_idem|done]).
Qed.

Lemma short_beqz rs1 i : cinstr_ok (CBEQZ rs1 i) -> short_ok (CBEQZ rs1 i).
Proof.
  intros (H1 & Hi & He). destruct (cb_fields 6 rs1 i) as (? & ? & ? & Ei); [lia|done|].
  apply into_q1; [done|]. by apply (q1_branch _ false); auto.
Qed.

Lemma short_bnez rs1 i : cinstr_ok (CBNEZ rs1 i) -> short_ok (CBNEZ rs1 i).
Proof.
  intros (H1 & Hi & He). destruct (cb_fields 7 rs1 i) as (? & ? & ? & Ei); [lia|done|].
  apply into_q1; [done|]. by apply (q1_branch _ true); auto.
Qed.

(** ** Quadrant 2 *)

Lemma q2_slli w rd sh :
  (w .>> 13) .& 7 = 0 -> (w .>> 7) .& 0x1f = rd -> c_shamt w = sh -> reg_ok rd -> 0 <= sh ->
  implements (step_c_q2 p w) s σ (isa_exec 2 (ShImm SLLI rd rd sh) σ).
Proof.
  intros E3 Ed Es Hd Hs. unfold step_c_q2. enter. rewrite E3, Ed, Es. cbn [Z.eqb].
  destruct (Z.eqb_spec rd 0) as [->|]; cbn [negb]; [by apply skip_x0|].
  destruct (models_reg s σ rd Hm Hd) as [-> Hr]. unfold shl. rewrite shl_mul by lia.
  apply impl_set_next; try done. by apply wrap_range.
Qed.

Lemma short_slli rd sh : cinstr_ok (CSLLI rd sh) -> short_ok (CSLLI rd sh).
Proof.
  intros (Hd & Hs). pose proof Hd as Hd'. unfold reg_ok in Hd'. c_fields 2 0 (bits sh 5 1) rd (bits sh 0 5).
  apply into_q2; [done|]. apply q2_slli; [done..| |done|lia]. by apply shamt_bits.
Qed.

Ltac have E H :=
  assert E as H by (match goal with w := _ : Z |- _ => subst w end; cbn [cencode]; field).

(** The stack-relative offsets. *)
Lemma lwsp_imm i : uoff 8 4 i -> bits i 5 1 .<< 5 .| bits i 2 3 .<< 2 .| bits i 6 2 .<< 6 = i.
Proof. intros [Hi H4]. arith_fields. unfold bits, is_u in *. lia. Qed.
Lemma ldsp_imm i : uoff 9 8 i -> bits i 5 1 .<< 5 .| bits i 3 2 .<< 3 .| bits i 6 3 .<< 6 = i.
Proof. intros [Hi H8]. arith_fields. unfold bits, is_u in *. lia. Qed.
Lemma swsp_imm i : uoff 8 4 i -> bits i 2 4 .<< 2 .| bits i 6 2 .<< 6 = i.
Proof. intros [Hi H4]. arith_fields. unfold bits, is_u in *. lia. Qed.
Lemma sdsp_imm i : uoff 9 8 i -> bits i 3 3 .<< 3 .| bits i 6 3 .<< 6 = i.
Proof. intros [Hi H8]. arith_fields. unfold bits, is_u in *. lia. Qed.

Lemma short_lwsp rd i : cinstr_ok (CLWSP rd i) -> short_ok (CLWSP rd i).
Proof.
  intros (Hd & Hi). unfold short_ok. set (w := cencode (CLWSP rd i)).
  have (w .& 3 = 2) Equad. have ((w .>> 13) .& 7 = 2) E3.
  have ((w .>> 7) .& 0x1f = rd) Ed. have ((w .>> 12) .& 1 = bits i 5 1) E12.
  have ((w .>> 4) .& 7 = bits i 2 3) E4. have ((w .>> 2) .& 3 = bits i 6 2) E2.
  clearbody w. apply into_q2; [done|]. unfold step_c_q2. enter. rewrite E3, Ed, E12, E4, E2, lwsp_imm by done.
  cbn [Z.eqb Pos.eqb]. destruct (Z.eqb_spec rd 0); [regs|]. apply (c_load_spec LW); [by left|done|regs|done].
Qed.

Lemma short_ldsp rd i : cinstr_ok (CLDSP rd i) -> short_ok (CLDSP rd i).
Proof.
  intros (Hd & Hi). unfold short_ok. set (w := cencode (CLDSP rd i)).
  have (w .& 3 = 2) Equad. have ((w .>> 13) .& 7 = 3) E3.
  have ((w .>> 7) .& 0x1f = rd) Ed. have ((w .>> 12) .& 1 = bits i 5 1) E12.
  have ((w .>> 5) .& 3 = bits i 3 2) E5. have ((w .>> 2) .& 7 = bits i 6 3) E2.
  clearbody w. apply into_q2; [done|]. unfold step_c_q2. enter. rewrite E3, Ed, E12, E5, E2, ldsp_imm by done.
  cbn [Z.eqb Pos.eqb]. destruct (Z.eqb_spec rd 0); [regs|]. apply (c_load_spec LD); [by right|done|regs|done].
Qed.

Lemma short_swsp rs2 i : cinstr_ok (CSWSP rs2 i) -> short_ok (CSWSP rs2 i).
Proof.
  intros (Hd & Hi). unfold short_ok. set (w := cencode (CSWSP rs2 i)).
  have (w .& 3 = 2) Equad. have ((w .>> 13) .& 7 = 6) E3.
  have ((w .>> 2) .& 0x1f = rs2) Ed. have ((w .>> 9) .& 0xf = bits i 2 4) E9.
  have ((w .>> 7) .& 3 = bits i 6 2) E7.
  clearbody w. apply into_q2; [done|]. unfold step_c_q2. enter. rewrite E3, Ed, E9, E7, swsp_imm by done.
  by apply (c_store_spec SW).
Qed.

Lemma short_sdsp rs2 i : cinstr_ok (CSDSP rs2 i) -> short_ok (CSDSP rs2 i).
Proof.
  intros (Hd & Hi). unfold short_ok. set (w := cencode (CSDSP rs2 i)).
  have (w .& 3 = 2) Equad. have ((w .>> 13) .& 7 = 7) E3.
  have ((w .>> 2) .& 0x1f = rs2) Ed. have ((w .>> 10) .& 7 = bits i 3 3) E10.
  have ((w .>> 7) .& 7 = bits i 6 3) E7.
  clearbody w. apply into_q2; [done|]. unfold step_c_q2. enter. rewrite E3, Ed, E10, E7, sdsp_imm by done.
  by apply (c_store_spec SD).
Qed.

(** Jumps through a register, moves and additions: bit 12, both register fields. *)
Section cr.
Context (w b12 rd rs2 : Z).
Context (E3 : (w .>> 13) .& 7 = 4) (E12 : (w .>> 12) .& 0x1 = b12).
Context (Ed : (w .>> 7) .& 0x1f = rd) (E2 : (w .>> 2) .& 0x1f = rs2).

Ltac cr := unfold step_c_q2; enter; rewrite E3, E12, Ed, E2; cbn [Z.eqb Pos.eqb].

Lemma jump_target r : reg_ok r -> get s.1 r .& Z.lnot 1 = (2 * (u64 (reg σ r + 0) / 2)) mod 2 ^ 64.
Proof.
  intros Hr. destruct (models_reg s σ r Hm Hr) as [-> [Hu1 Hu2]]. rewrite Z.add_0_r. unfold u64.
  rewrite (Z.mod_small (reg σ r)) by done. rewrite (clear_bit0 _ (reg σ r)) by done.
  symmetry. apply Z.mod_small. lia.
Qed.

Lemma q2_jr : b12 = 0 -> rs2 = 0 -> nz_reg rd ->
  implements (step_c_q2 p w) s σ (isa_exec 2 (JALR 0 rd 0) σ).
Proof.
  intros -> -> Hr. cr. destruct (Z.eqb_spec rd 0); [regs|]. apply skip_x0, jump_target. regs.
Qed.

Lemma q2_jalr : b12 = 1 -> rs2 = 0 -> nz_reg rd ->
  implements (step_c_q2 p w) s σ (isa_exec 2 (JALR 1 rd 0) σ).
Proof.
  intros -> -> Hr. cr. destruct (Z.eqb_spec rd 0); [regs|].
  apply impl_set_next; try done; [by apply wrap_range|]. apply jump_target. regs.
Qed.

Lemma q2_mv : b12 = 0 -> reg_ok rd -> nz_reg rs2 ->
  implements (step_c_q2 p w) s σ (isa_exec 2 (Op ADD rd 0 rs2) σ).
Proof.
  intros -> Hr Hnz. cr. destruct (Z.eqb_spec rs2 0); [regs|].
  destruct (Z.eqb_spec rd 0) as [->|]; cbn [negb]; [by apply skip_x0|].
  destruct (models_reg s σ rs2 Hm) as [-> Hu]; [regs|].
  apply impl_set_next; try done. cbn [r_val]. change (reg σ 0) with 0. rewrite Z.add_0_l.
  symmetry. by apply Z.mod_small.
Qed.

Lemma q2_add : b12 = 1 -> reg_ok rd -> nz_reg rs2 ->
  implements (step_c_q2 p w) s σ (isa_exec 2 (Op ADD rd rd rs2) σ).
Proof.
  intros -> Hr Hnz. cr. destruct (Z.eqb_spec rs2 0); [regs|].
  destruct (Z.eqb_spec rd 0) as [->|]; cbn [negb]; [by apply skip_x0|].
  destruct (models_reg s σ rs2 Hm) as [-> Hu]; [regs|]. destruct (models_reg s σ rd Hm Hr) as [-> Hu2].
  apply impl_set_next; try done. by apply wrap_range.
Qed.

Lemma q2_ebreak : b12 = 1 -> rs2 = 0 -> rd = 0 ->
  implements (step_c_q2 p w) s σ (isa_exec 2 EBREAK σ).
Proof. intros -> -> ->. cr. by exists s. Qed.
End cr.

Lemma short_refines c : cinstr_ok c -> short_ok c.
Proof.
  intros Hok. destruct c.
  - by apply short_addi4spn.
  - by apply short_lw.
  - by apply short_ld.
  - by apply short_sw.
  - by apply short_sd.
  - by apply short_addi.
  - by apply short_addiw.
  - by apply short_li.
  - by apply short_addi16sp.
  - by apply short_lui.
  - by apply short_srli.
  - by apply short_srai.
  - by apply short_andi.
  - by apply short_arith.
  - by apply short_j.
  - by apply short_beqz.
  - by apply short_bnez.
  - by apply short_slli.
  - by apply short_lwsp.
  - by apply short_ldsp.
  - simpl in Hok. unfold nz_reg in Hok. c_fields 2 4 0 rs1 0. apply into_q2; [done|]. by eapply q2_jr.
  - destruct Hok as [H1 H2]. unfold reg_ok, nz_reg in *. c_fields 2 4 0 rd rs2.
    apply into_q2; [done|]. by eapply q2_mv.
  - c_fields 2 4 1 0 0. apply into_q2; [done|]. by eapply q2_ebreak.
  - simpl in Hok. unfold nz_reg in Hok. c_fields 2 4 1 rs1 0. apply into_q2; [done|]. by eapply q2_jalr.
  - destruct Hok as [H1 H2]. unfold reg_ok, nz_reg in *. c_fields 2 4 1 rd rs2.
    apply into_q2; [done|]. by eapply q2_add.
  - by apply short_swsp.
  - by apply short_sdsp.
Qed.
End cexec.

(** ** Fetch *)

Lemma le_val_app l k : le_val (l ++ k) = le_val l + 256 ^ Z.of_nat (length l) * le_val k.
Proof.
  induction l as [|b l IH]; cbn [app le_val length]; [rewrite Z.mul_1_l; lia|]. rewrite IH.
  rewrite Nat2Z.inj_succ, Z.pow_succ_r by lia. lia.
Qed.

(** Four bytes are the low and the high halfword. *)
Lemma load_halves σ a : load_bytes σ a 4 = load_bytes σ a 2 + 2 ^ 16 * load_bytes σ (a + 2) 2.
Proof.
  unfold load_bytes. change 4 with (2 + 2). rewrite seqZ_app, fmap_app, le_val_app by lia.
  by rewrite length_fmap, length_seqZ.
Qed.

Section fetch.
Context (s : machine) (σ : isa) (Hm : models s σ).

(** Reading a halfword of code keeps the state related. *)
Lemma fetch_half f a :
  is_u64 a -> a + 2 <= ADDR_SPACE ->
  exists s', mem_read f a 2 s = (Ok (load_bytes σ a 2), s') /\ models s' σ.
Proof.
  intros Ha Hb. destruct (read_ok s.2 a 2) as (m' & E & He); [apply (m_wf _ _ Hm)|done|unfold valid_len; lia|done|].
  eexists. rewrite (mem_read_eq f s a 2 _ _ E). rewrite (bytes_eq s) by done. split; [done|].
  by apply models_mem_equiv.
Qed.

Lemma half_range a : 0 <= load_bytes σ a 2 < 2 ^ 16.
Proof.
  rewrite (bytes_eq s) by done.
  pose proof (le_val_range (abyte (abs s.2) <$> seqZ a 2)) as Hr. rewrite length_fmap, length_seqZ in Hr.
  apply Hr, Forall_fmap, Forall_true. intros x. apply abyte_range, (m_wf _ _ Hm).
Qed.
End fetch.

(** A base instruction is a 32-bit word with both low bits set, a compressed one a
    halfword without. *)
Lemma encode_low i : instr_ok i -> encode i mod 4 = 3 /\ 0 <= encode i < 2 ^ 32.
Proof.
  pose proof r_code_range as Rr. pose proof rw_code_range as Rw. pose proof sh_code_range as Rs.
  assert (forall op, 0 <= b_code op < 8) as Rb by (destruct op; simpl; lia).
  assert (forall op, 0 <= l_code op < 8) as Rl by (destruct op; simpl; lia).
  assert (forall op, 0 <= s_code op < 8) as Rst by (destruct op; simpl; lia).
  assert (forall op, 0 <= i_code op < 8) as Ri by (destruct op; simpl; lia).
  intros Hi. destruct i; cbn [encode]; unfold instr_ok in Hi;
    try specialize (Rr op); try specialize (Rw op); try specialize (Rs op); try specialize (Rb op);
    try specialize (Rl op); try specialize (Rst op); try specialize (Ri op);
    try destruct (r_code op); try destruct (rw_code op); try destruct (sh_code op); cbn [fst snd] in *;
    field.
Qed.

Lemma cencode_low c : cinstr_ok c -> cencode c mod 4 <> 3 /\ 0 <= cencode c < 2 ^ 16.
Proof.
  assert (forall op, 0 <= (ca_code op).1 < 2 /\ 0 <= (ca_code op).2 < 4) as R by (destruct op; simpl; lia).
  intros Hi. destruct c; cbn [cencode]; unfold cinstr_ok in Hi;
    try specialize (R op); try destruct (ca_code op); cbn [fst snd] in *; field.
Qed.

(** ** The step *)

Lemma join_halves lo hi : 0 <= lo < 2 ^ 16 -> 0 <= hi < 2 ^ 16 -> shl 32 (wrap 32 hi) 16 .| lo = lo + 2 ^ 16 * hi.
Proof.
  intros Hlo Hhi. unfold shl, wrap. rewrite (Z.mod_small hi), shl_mul by lia. rewrite Z.mod_small by lia.
  rewrite <- (Z.mod_small lo (2 ^ 16)), <- Z.land_ones, <- shl_mul by lia.
  assert (Fits hi (-1)) by apply Z.land_m1_r. erewrite lor_add; [rewrite shl_mul by lia; lia|typeclasses eauto..|done].
Qed.

(** The states before and after the fetch implement the same machine. *)
Lemma implements_step s σ s' (k : Step bool) o :
  step s = k s' -> implements k s' σ o -> implements step s σ o.
Proof. intros E. unfold implements. by rewrite E. Qed.

Section step.
Context (s : machine) (σ : isa) (Hm : models s σ).
Context (Hev : ipc σ mod 2 = 0) (Hp0 : 0 <= ipc σ).

Lemma step_fetch :
  ipc σ + 2 <= ADDR_SPACE ->
  exists s1, models s1 σ /\
    step s = (if negb (load_bytes σ (ipc σ) 2 .& 3 =? 3) then step_c (ipc σ) (load_bytes σ (ipc σ) 2)
              else hi ← mem_read (fun _ => FetchOutOfRange) (ipc σ + 2) 2;
                   exec32 false None (ipc σ) (shl 32 (wrap 32 hi) 16 .| load_bytes σ (ipc σ) 2)) s1.
Proof.
  intros Hsp. unfold ADDR_SPACE in Hsp. destruct (fetch_half s σ Hm (fun _ => FetchOutOfRange) (ipc σ)) as (s1 & E & Hm1);
    [split; lia|done|]. exists s1. split; [done|].
  unfold step, step_mode. unfold mbind at 1, M_bind. simpl. rewrite <- (m_pc _ _ Hm).
  rewrite (proj2 (Z.leb_gt _ _)) by (unfold ADDR_SPACE; lia). rewrite Hev. cbn [Z.eqb negb].
  rewrite (bind_eq _ _ s _ s1 E). cbv zeta.
  by rewrite (wrap_small 16 (load_bytes σ (ipc σ) 2)) by by apply (half_range s).
Qed.
End step.

(** One step, base or compressed. *)
Lemma step_refines s σ k :
  models s σ -> code_ok k -> placed σ k -> division_ok (meaning k) σ ->
  implements step s σ (isa_exec (len k) (meaning k) σ).
Proof.
  intros Hm Hok (Hev & Hp0 & Hsp & Hw) Hdiv. destruct k as [i|c]; cbn [len word meaning] in *.
  - destruct (step_fetch s σ Hm Hev Hp0) as (s1 & Hm1 & E); [lia|].
    rewrite load_halves in Hw. pose proof (half_range s σ Hm (ipc σ)) as Hlo.
    pose proof (half_range s σ Hm (ipc σ + 2)) as Hhi. destruct (encode_low i Hok) as [Hl _].
    rewrite (land_mask 2 _ 3) in E by done. replace (load_bytes σ (ipc σ) 2 mod 2 ^ 2) with 3 in E by lia.
    cbn [Z.eqb Pos.eqb negb] in E. eapply implements_step; [exact E|].
    unfold ADDR_SPACE in *. destruct (fetch_half s1 σ Hm1 (fun _ => FetchOutOfRange) (ipc σ + 2)) as (s2 & E2 & Hm2);
      [split; lia|unfold ADDR_SPACE; lia|].
    eapply impl_bind; [exact E2|]. rewrite join_halves, Hw by done. by apply exec32_refines.
  - destruct (step_fetch s σ Hm Hev Hp0) as (s1 & Hm1 & E); [lia|]. rewrite Hw in E.
    destruct (cencode_low c Hok) as [Hl _]. rewrite (land_mask 2 _ 3) in E by done.
    destruct (Z.eqb_spec (cencode c mod 2 ^ 2) 3); [done|]. eapply implements_step; [exact E|].
    by apply short_refines.
Qed.

(** C8. The emulator implements RV64IMC: at a pc whose bytes are the encoding of an
    instruction, base or compressed, a step has the effect the manual gives it. *)
Theorem step_refines_isa s σ k :
  models s σ -> code_ok k -> placed σ k -> division_ok (meaning k) σ ->
  implements step s σ (isa_exec (len k) (meaning k) σ).
Proof. apply step_refines. Qed.
