(* ===== verification/IsaRun.v ===== *)
(** * Jobs run as RV64IMC programs

    The machine of [Isa] started the way the job ABI prescribes, run to its EBREAK, and
    the emulator's [run]: same instruction count, and the output region the machine
    leaves in memory.  The concrete programs at the end instantiate the theorems. *)

From S2P Require Import Prelude Mem Cpu Interp InterpFacts Snapshot Run Isa IsaFacts IsaShort.

(** [executes σ n σ']: from [σ], [n] placed instructions run and the last one halts in [σ']. *)
Inductive executes : isa -> Z -> isa -> Prop :=
  | ex_halt σ k σ' :
      code_ok k -> placed σ k -> isa_exec (len k) (meaning k) σ = Halt σ' -> executes σ 1 σ'
  | ex_next σ k σ1 n σ' :
      code_ok k -> placed σ k -> division_ok (meaning k) σ ->
      isa_exec (len k) (meaning k) σ = Next σ1 -> executes σ1 n σ' -> executes σ (n + 1) σ'.

(** The start of a job: the stack pointer and the pc, and over the image [img] the input's
    length and bytes at their addresses. *)
Definition job_start (img : Z -> Z) (entry : Z) (input : list Z) : isa :=
  {| regs := fun r => if r =? 2 then STACK_TOP else 0;
     ipc := entry;
     imem := fun a =>
       if (INPUT_DATA_ADDR <=? a) && (a <? INPUT_DATA_ADDR + Z.of_nat (length input))
       then default 0 (input !! Z.to_nat (a - INPUT_DATA_ADDR))
       else if (INPUT_LEN_ADDR <=? a) && (a <? INPUT_LEN_ADDR + 8)
       then (Z.of_nat (length input) / 256 ^ (a - INPUT_LEN_ADDR)) mod 256
       else img a |}.

(** The output region of a halted machine. *)
Definition job_output_len (σ : isa) : Z := load_bytes σ OUTPUT_LEN_ADDR 8.
Definition job_output (σ : isa) : list Z := imem σ <$> seqZ OUTPUT_DATA_ADDR (job_output_len σ).

Lemma executes_pos σ n σ' : executes σ n σ' -> 0 < n.
Proof. induction 1; lia. Qed.

(** A halting instruction is no division. *)
Lemma halt_division i l σ σ' : isa_exec l i σ = Halt σ' -> division_ok i σ.
Proof. destruct i; simpl; try done. Qed.

(** A successful write, byte by byte. *)
Lemma write_abs m addr bytes m' :
  mem_wf m -> is_u64 addr -> Forall is_byte bytes -> write m addr bytes = (Ok tt, m') ->
  mem_wf m' /\ forall a, abyte (abs m') a =
    if decide (addr <= a < addr + Z.of_nat (length bytes))
    then default 0 (bytes !! Z.to_nat (a - addr)) else abyte (abs m) a.
Proof.
  intros W Ha Hb E. destruct (decide (addr + Z.of_nat (length bytes) <= ADDR_SPACE)).
  - destruct (write_ok m addr bytes) as (m1 & E1 & W1 & A1 & _); [done..|]. rewrite E1 in E. injection E as ->.
    split; [done|]. intros a. rewrite A1. apply abyte_awrite; [by apply abs_pages_ok|done].
  - rewrite write_err in E by (try done; lia). done.
Qed.

Section runs.
Context `{Blake3} (cfg : Config) (Hj : job_config cfg).

Lemma run_loop_executes σ n σ' : executes σ n σ' -> forall fuel s,
  models (r_cpu s, r_mem s) σ -> r_n s + n <= max_instructions cfg -> n <= Z.of_nat fuel ->
  exists s', run_loop fuel cfg s = Some (Ok (s', Halted)) /\ r_n s' = r_n s + n /\
    models (r_cpu s', r_mem s') σ'.
Proof.
  induction 1 as [σ k σ' Hk Hp E|σ k σ1 n σ' Hk Hp Hd E Hx IH]; intros fuel s Hm Hmax Hf.
  - destruct fuel as [|fuel]; [lia|]. cbn [run_loop].
    pose proof (step_refines _ σ k Hm Hk Hp (halt_division _ _ _ _ E)) as Hi. rewrite E in Hi.
    destruct Hi as ([c m] & Hs & Hm'). destruct (run_iter_job cfg s _ c m Hj ltac:(lia) Hs) as (files & ->).
    eexists. split; [reflexivity|]. done.
  - pose proof (executes_pos _ _ _ Hx). destruct fuel as [|fuel]; [lia|]. cbn [run_loop].
    pose proof (step_refines _ σ k Hm Hk Hp Hd) as Hi. rewrite E in Hi.
    destruct Hi as ([c m] & Hs & Hm'). destruct (run_iter_job cfg s _ c m Hj ltac:(lia) Hs) as (files & ->).
    destruct (r_in_chunk s + 1 =? chunk_size cfg); cbv iota beta.
    + destruct (IH fuel (reset_chunk (push_hash (with_machine s c m (r_n s + 1) (r_in_chunk s + 1) files))))
        as (s' & -> & Hn & Hms); [done|simpl; lia|lia|]. exists s'. split; [done|]. split; [|done]. simpl in Hn. lia.
    + destruct (IH fuel (with_machine s c m (r_n s + 1) (r_in_chunk s + 1) (r_files s)))
        as (s' & -> & Hn & Hms); [done|simpl; lia|lia|]. exists s'. split; [done|]. split; [|done]. simpl in Hn. lia.
Qed.

Lemma install_ok m input :
  mem_wf m -> Forall is_byte input -> INPUT_DATA_ADDR + Z.of_nat (length input) <= ADDR_SPACE ->
  is_Some (install m input).
Proof.
  intros Wm Hb Hin. unfold install.
  destruct (write_ok m INPUT_LEN_ADDR (le_bytes 8 (Z.of_nat (length input)))) as (m1 & -> & W1 & _);
    [done|done|rewrite length_le_bytes; done|apply le_bytes_range|].
  destruct (write_ok m1 INPUT_DATA_ADDR input) as (m2 & -> & _); [done..|]. by eexists.
Qed.

(** The initial memory of a run is the job's. *)
Lemma job_start_models m m' entry input :
  mem_wf m -> is_u64 entry -> Forall is_byte input -> install m input = Some m' ->
  models (cpu_new entry STACK_TOP, m') (job_start (abyte (abs m)) entry input).
Proof.
  intros Wm He Hb Hi. unfold install in Hi.
  destruct (write m INPUT_LEN_ADDR _) as [[[]| |] m1] eqn:E1; try done.
  destruct (write m1 INPUT_DATA_ADDR input) as [[[]| |] m2] eqn:E2; try done. injection Hi as ->.
  destruct (write_abs m INPUT_LEN_ADDR _ m1 Wm ltac:(done) (le_bytes_range 8 _) E1) as [W1 A1].
  destruct (write_abs m1 INPUT_DATA_ADDR input m' W1 ltac:(done) Hb E2) as [W2 A2].
  constructor; cbn [fst snd]; [|done| |by apply cpu_new_wf|done].
  - intros r Hr. unfold reg_ok in Hr. unfold reg, get, job_start, cpu_new. cbn [x regs].
    destruct (Z.eqb_spec r 0) as [->|]; [done|]. destruct (Z.eqb_spec r 2) as [->|]; [done|].
    rewrite list_lookup_insert_ne by lia.
    by rewrite lookup_replicate_2 by lia.
  - intros a. rewrite A2, A1, length_le_bytes. cbn [imem job_start]. change (Z.of_nat 8) with 8.
    destruct (decide (INPUT_DATA_ADDR <= a < INPUT_DATA_ADDR + Z.of_nat (length input))) as [D|D],
      (Z.leb_spec INPUT_DATA_ADDR a), (Z.ltb_spec a (INPUT_DATA_ADDR + Z.of_nat (length input)));
      cbn [andb]; try lia; try done;
      destruct (decide (INPUT_LEN_ADDR <= a < INPUT_LEN_ADDR + 8)) as [D2|D2],
        (Z.leb_spec INPUT_LEN_ADDR a), (Z.ltb_spec a (INPUT_LEN_ADDR + 8)); cbn [andb]; try lia; try done;
      rewrite le_bytes_lookup by lia; cbn [default from_option id]; by rewrite Z2Nat.id by lia.
Qed.

Lemma run_refines m entry input n σ' :
  mem_wf m -> is_u64 entry -> Forall is_byte input ->
  INPUT_DATA_ADDR + Z.of_nat (length input) <= ADDR_SPACE ->
  executes (job_start (abyte (abs m)) entry input) n σ' -> n <= max_instructions cfg ->
  exists out, run m entry input cfg = Some (Ok out) /\ instructions out = n /\
    if job_output_len σ' <=? OUTPUT_MAX
    then status out = Halted /\ output out = Some (job_output σ')
    else status out = Trapped OutputTooLarge /\ output out = None.
Proof.
  intros Wm He Hb Hin Hx Hn. destruct (install_ok m input Wm Hb Hin) as [m' Hi]. pose proof (executes_pos _ _ _ Hx).
  destruct (run_loop_executes _ _ _ Hx (run_fuel cfg) (init_run m' entry)) as (s & Hl & Hs & Hm).
  - by apply (job_start_models m).
  - done.
  - unfold run_fuel. lia.
  - unfold run. rewrite Hi, Hl. eexists. split; [done|]. simpl in Hs.
    destruct (read_ok (r_mem s) OUTPUT_LEN_ADDR 8) as (m2 & Er & Em); [apply (m_wf _ _ Hm)|done|unfold valid_len; lia|done|].
    pose proof (models_mem_equiv _ _ m2 Hm Em) as Hm2.
    assert (le_val (abyte (abs (r_mem s)) <$> seqZ OUTPUT_LEN_ADDR 8) = job_output_len σ') as Elen
      by (symmetry; by apply (bytes_eq (r_cpu s, r_mem s))).
    assert (0 <= job_output_len σ').
    { rewrite <- Elen. apply le_val_range, Forall_fmap, Forall_true. intros a. apply abyte_range, (m_wf _ _ Hm). }
    unfold finish. rewrite bool_decide_true, Er by done. cbn [fst snd ok default from_option id].
    rewrite Elen, Z.leb_antisym. destruct (Z.ltb_spec OUTPUT_MAX (job_output_len σ')); cbn [negb]; [done|].
    split; [done|]. split; [done|]. simpl.
    rewrite read_region_spec by first [apply (m_wf _ _ Hm2) | done].
    rewrite (proj2 (Z.leb_le _ _)) by (change OUTPUT_MAX with 1048576 in *; unfold OUTPUT_DATA_ADDR, ADDR_SPACE; lia).
    simpl. f_equal. apply list_fmap_ext. intros ? a _. symmetry. apply (m_mem _ _ Hm2).
Qed.

(** C7. The emulator runs RV64IMC.  Started as the job ABI prescribes, if the reference
    machine runs the loaded program for [n] instructions to an EBREAK within the
    budget, then [run] ends Halted after exactly [n] instructions, and its output is
    the machine's output region; an output length over the limit is a trap. *)
Theorem run_refines_isa m entry input n σ' :
  mem_wf m -> is_u64 entry -> Forall is_byte input ->
  INPUT_DATA_ADDR + Z.of_nat (length input) <= ADDR_SPACE ->
  executes (job_start (abyte (abs m)) entry input) n σ' -> n <= max_instructions cfg ->
  exists out, run m entry input cfg = Some (Ok out) /\ instructions out = n /\
    if job_output_len σ' <=? OUTPUT_MAX
    then status out = Halted /\ output out = Some (job_output σ')
    else status out = Trapped OutputTooLarge /\ output out = None.
Proof. apply run_refines. Qed.
End runs.

(** ** Where the emulator leaves the manual *)

(** A word division whose divisor has a zero low word and a nonzero high word: the manual
    gives -1, the interpreter the least word or a panic of the host. *)
Lemma word_division_gap :
  rw_val DIVW 5 (2 ^ 32) = u64 (-1) /\ divw_val 5 (2 ^ 32) = u64 (- 2 ^ 31) /\
  rw_val DIVUW 5 (2 ^ 32) = u64 (-1) /\ divuw_val 5 (2 ^ 32) = Panic.
Proof. by vm_compute. Qed.

(** The hint encoding of C.SRLI, a shift by zero, is refused as illegal. *)
Lemma shift_hint_refused c m :
  (step_c 0x1000 (cencode (CSRLI 0 0)) (c, m)).1 = Err (IllegalInstruction 0x1000 (cencode (CSRLI 0 0))).
Proof. done. Qed.

(** ** A program, run both ways *)

(** Write the byte 5 as a one-byte output: c.li a0, 5; lui t0, 0x20000; c.li a1, 1;
    sd a1, 0(t0); sb a0, 8(t0); c.ebreak. *)
Definition five : list code :=
  [Short (CLI 10 5); Full (LUI 5 0x20000); Short (CLI 11 1); Full (Store SD 5 11 0);
   Full (Store SB 5 10 8); Short CEBREAK].

Definition code_bytes (k : code) : list Z := le_bytes (Z.to_nat (len k)) (word k).
Definition five_mem : Mem := (write new 0x1000 (concat (code_bytes <$> five))).2.

Lemma five_mem_wf : mem_wf five_mem.
Proof. apply write_wf; [apply new_wf|done|done|]. by repeat constructor. Qed.

Definition five_start : isa := job_start (abyte (abs five_mem)) 0x1000 [].

(** Running straight-line code, with the checks that make it an execution. *)
Fixpoint run_codes (ks : list code) (σ : isa) : isa :=
  match ks with
  | [] => σ
  | k :: ks' =>
      match isa_exec (len k) (meaning k) σ with
      | Next σ1 => run_codes ks' σ1
      | Halt σ1 => σ1
      | Fault _ => σ
      end
  end.

Fixpoint straight (ks : list code) (σ : isa) : Prop :=
  match ks with
  | [] => False
  | k :: ks' =>
      code_ok k /\ placed σ k /\ division_ok (meaning k) σ /\
      match isa_exec (len k) (meaning k) σ with
      | Next σ1 => straight ks' σ1
      | Halt _ => ks' = []
      | Fault _ => False
      end
  end.

Lemma straight_executes ks σ : straight ks σ -> executes σ (Z.of_nat (length ks)) (run_codes ks σ).
Proof.
  revert σ. induction ks as [|k ks IH]; intros σ; [done|]. cbn [straight run_codes]. intros (Hk & Hp & Hd & Hr).
  destruct (isa_exec (len k) (meaning k) σ) as [σ1|σ1|] eqn:E; [|subst ks; by eapply ex_halt|done].
  cbn [length]. rewrite Nat2Z.inj_succ. eapply ex_next; [done..|]. by apply IH.
Qed.

Lemma straight_next k ks σ σ1 :
  code_ok k -> placed σ k -> division_ok (meaning k) σ ->
  isa_exec (len k) (meaning k) σ = Next σ1 -> straight ks σ1 -> straight (k :: ks) σ.
Proof. intros. cbn [straight]. split_and!; [done..|]. by case_match; simplify_eq. Qed.

Lemma five_straight : straight five five_start.
Proof.
  do 5 (eapply straight_next; [by vm_compute|by vm_compute|done|reflexivity|]).
  split_and!; by vm_compute.
Qed.

(** What a step to a known next state leaves in the pc and a register. *)
Lemma implements_next k s σ o σ' n r v :
  implements k s σ o -> o = Next σ' -> ipc σ' = n -> reg σ' r = v -> reg_ok r ->
  exists s', k s = (Ok false, s') /\ pc s'.1 = n /\ get s'.1 r = v.
Proof.
  intros Hi -> <- <- Hr. destruct Hi as (s' & Hs & Hm). exists s'.
  by rewrite <- (m_pc _ _ Hm), <- (m_regs _ _ Hm).
Qed.

Lemma step_refines_isa_witness :
  exists s', step (cpu_new 0x1000 STACK_TOP, default five_mem (install five_mem [])) = (Ok false, s') /\
    pc s'.1 = 0x1002 /\ get s'.1 10 = 5.
Proof.
  assert (code_ok (Short (CLI 10 5))) as Hk by by vm_compute.
  assert (placed five_start (Short (CLI 10 5))) as Hp by by vm_compute.
  assert (is_u64 0x1000) as He by done. assert (reg_ok 10) as Hr by done.
  destruct (install_ok five_mem [] five_mem_wf ltac:(constructor) ltac:(done)) as [m' Hi]. rewrite Hi.
  pose proof (job_start_models five_mem m' 0x1000 [] five_mem_wf He ltac:(constructor) Hi) as Hm. clear Hi.
  apply (implements_next _ _ five_start (isa_exec 2 (OpImm ADDI 10 0 5) five_start)
           (retire five_start 10 5 0x1002) 0x1002 10 5); [|reflexivity..|exact Hr].
  exact (step_refines_isa _ five_start (Short (CLI 10 5)) Hm Hk Hp I).
Defined.

Lemma run_refines_isa_witness :
  exists out, @run toy_blake3 five_mem 0x1000 [] demo_cfg = Some (Ok out) /\
    instructions out = 6 /\ status out = Halted /\ output out = Some [5].
Proof.
  destruct (@run_refines_isa toy_blake3 demo_cfg ltac:(done) five_mem 0x1000 [] 6 (run_codes five five_start))
    as (out & Hr & Hn & Ho);
    [exact five_mem_wf|done|constructor|done|exact (straight_executes five five_start five_straight)|done|].
  exists out. split_and!; [done..| |].
  - revert Ho. replace (job_output_len _ <=? OUTPUT_MAX) with true by by vm_compute. by intros [? _].
  - revert Ho. replace (job_output_len _ <=? OUTPUT_MAX) with true by by vm_compute.
    intros [_ ->]. by vm_compute.
Defined.
