(* ===== verification/Conformance.v ===== *)
(** * The conformance program (jobs/conformance/job/src/main.rs)

    The program is a list of inline-assembly blocks with fixed inputs; each pushes a case
    number and a register.  Here every block is the list of its instructions, encoded by
    [Isa], placed in memory and run by the emulator; the values of the manual are the table
    [manual_values], to which the output is compared.  The driver that runs an ELF in the system-call mode is in
    [ConformanceCmd]. *)

From S2P Require Import Prelude Text Mem Cpu Interp InterpFacts Snapshot Run Elf Isa.

(** ** Inline assembly *)

(** [b_ins]: the registers set on entry; [b_body]: the instructions; [b_push]: the case
    numbers pushed after it and the registers they take. *)
Record block : Type := mkBlock {
  b_ins : list (Z * Z);
  b_body : list code;
  b_push : list (Z * Z);
}.

(** Registers the assembly names, and those left to the compiler ([reg] operands). *)
Definition ra : Z := 1.
Definition sp : Z := 2.
Definition t0 : Z := 5.
Definition t1 : Z := 6.
Definition t2 : Z := 7.
Definition s1 : Z := 9.
Definition a0 : Z := 10.
Definition a2 : Z := 12.
Definition a3 : Z := 13.
Definition a4 : Z := 14.
Definition a7 : Z := 17.
Definition xv : Z := 28.
Definition xw : Z := 29.
Definition xy : Z := 30.
Definition xz : Z := 31.

(** Pseudo-instructions; [la] is the pair AUIPC, ADDI to a label [off] bytes ahead. *)
Definition li (rd imm : Z) : code := Full (OpImm ADDI rd 0 imm).
Definition mv (rd rs : Z) : code := Full (OpImm ADDI rd rs 0).
Definition nop : code := Full (OpImm ADDI 0 0 0).
Definition la (rd off : Z) : list code := [Full (AUIPC rd 0); Full (OpImm ADDI rd rd off)].

(** A block of one register instruction on t0 and t1, pushed as [id]. *)
Definition op2 (id : Z) (op : r_op) (x y : Z) : block :=
  mkBlock [(t0, u64 x); (t1, u64 y)] [Full (Op op xv t0 t1)] [(id, xv)].
Definition op2w (id : Z) (op : rw_op) (x y : Z) : block :=
  mkBlock [(t0, u64 x); (t1, u64 y)] [Full (OpW op xv t0 t1)] [(id, xv)].

(** The macro [pair!]: two instructions on the same operands. *)
Definition pair_block (a b : r_op) (id1 id2 : Z) : block :=
  mkBlock [(xy, 0x8000000000000000); (xz, 2)] [Full (Op a xv xy xz); Full (Op b xw xy xz)] [(id1, xv); (id2, xw)].

Definition alu_blocks : list block :=
  [op2 1 ADD 0x7fffffffffffffff 1;
   mkBlock [(t0, 1)] [Full (Op SUB xv 0 t0)] [(2, xv)];
   op2 3 XOR 0x0f0f 0x00ff;
   op2 4 OR 0x0f0f 0x00ff;
   op2 5 AND 0x0f0f 0x00ff;
   pair_block SLL SRL 6 7;
   op2 8 SLL 1 63;
   op2 9 SLL 1 32;
   op2 10 SRA 0x8000000000000000 63;
   op2 11 SRL 0x8000000000000000 63;
   op2 12 SLT (-1) 1;
   op2 13 SLTU (-1) 1;
   mkBlock [(t0, 0)] [Full (OpImm SLTIU xv t0 (-1))] [(14, xv)];
   mkBlock [(t0, 0x7fffffff)] [Full (ADDIW xv t0 1)] [(15, xv)];
   mkBlock [(t0, 0x80000000)] [Full (ShImmW SLLI xv t0 1)] [(16, xv)];
   mkBlock [(t0, sx32 0x80000000)] [Full (ShImmW SRAI xv t0 1)] [(17, xv)];
   mkBlock [(t0, 0x80000000)] [Full (ShImmW SRLI xv t0 1)] [(18, xv)]].

Definition mul_blocks : list block :=
  [op2 20 MUL 0x123456789a 0x9abcdef01;
   op2 21 MULH (-1) (-1);
   op2 22 MULHSU (-1) (-1);
   op2 23 MULHU (-1) (-1);
   op2 24 DIV (- 2 ^ 63) (-1);
   op2 25 DIV 5 0;
   op2 26 REM 5 0;
   op2 27 DIVU (-1) 2;
   op2w 28 DIVW (2 ^ 31) (-1);
   op2w 29 REMW (2 ^ 31) (-1);
   op2w 30 DIVUW (-1) 2;
   op2w 31 REMW (-5) 0].

(** [scratch] is the address of SCRATCH. *)
Definition mem_blocks (scratch : Z) : list block :=
  let at_ body ids := mkBlock [(xw, scratch)] body ids in
  [mkBlock [] [Full (LUI xv 0xDEADB)] [(32, xv)];
   mkBlock [] [Full (AUIPC xv 0)] [(33, xv)];
   mkBlock [(xw, scratch); (t0, u64 (-1))] [Full (Store SD xw t0 0)] [];
   at_ [Full (Load LD xv xw 0)] [(40, xv)];
   mkBlock [(xw, scratch); (t0, 0x80)] [Full (Store SB xw t0 9)] [];
   at_ [Full (Load LB xv xw 9)] [(41, xv)];
   at_ [Full (Load LBU xv xw 9)] [(42, xv)];
   mkBlock [(xw, scratch); (t0, 0x8000)] [Full (Store SH xw t0 16)] [];
   at_ [Full (Load LH xv xw 16)] [(43, xv)];
   at_ [Full (Load LHU xv xw 16)] [(44, xv)];
   mkBlock [(xw, scratch); (t0, 0x80000000)] [Full (Store SW xw t0 24)] [];
   at_ [Full (Load LW xv xw 24)] [(45, xv)];
   at_ [Full (Load LWU xv xw 24)] [(46, xv)]].

Definition jump_blocks : list block :=
  [mkBlock [(t0, 5); (t1, 5)] [li xv 0; Full (Branch BEQ t0 t1 8); Full (OpImm ADDI xv xv 1)] [(48, xv)];
   mkBlock [(t0, u64 (-1)); (t1, 1)] [li xv 0; Full (Branch BLTU t0 t1 8); Full (OpImm ADDI xv xv 1)] [(49, xv)];
   mkBlock [] [Full (JAL xv 8); nop] [(50, xv)];
   mkBlock [] (la t0 20 ++ [Full (OpImm ORI t0 t0 1); Full (JALR xv t0 0); nop]) [(51, xv)]].

(** The large constants of [li] are set on entry: the assembler's sequence for them is not
    written in the source. *)
Definition sp_blocks : list block :=
  [mkBlock [] [Short (CLI xv (-1))] [(60, xv)];
   mkBlock [(xv, 0x7fffffffffffffe2)] [Short (CADDI xv 31)] [(61, xv)];
   mkBlock [] [Short (CLUI xv (-1))] [(62, xv)];
   mkBlock [(xy, 0)]
     [mv xy sp; Short (CADDI4SPN (a0 - 8) 16); Full (Op SUB xv a0 xy); Short (CADDI16SP 496);
      Full (Op SUB xw sp xy); Short (CADDI16SP (-496)); Full (Op SUB xz sp xy)]
     [(63, xv); (64, xw); (65, xz)];
   mkBlock [(t2, 0x123456789abcdef0); (a7, 0x0badc0dedeadf00d)]
     [Short (CSWSP t2 252); Short (CLWSP t0 252); Short (CSDSP a7 480); Short (CLDSP t1 480)]
     [(66, t0); (67, t1)]].

(** [junk]: what the compiler left in the output register of case 76, which the block adds to. *)
Definition c_blocks (junk : Z) : list block :=
  let r' x := x - 8 in
  [mkBlock []
     [Short (CLI a2 16); Short (CLI a3 15); Short (CArith CSUB (r' a2) (r' a3)); mv xv a2;
      Short (CLI a2 16); Short (CArith CXOR (r' a2) (r' a3)); mv xw a2] [(67, xv); (68, xw)];
   mkBlock []
     [Short (CLI a2 (-16)); Short (CLI a3 3); Short (CArith COR (r' a2) (r' a3)); mv xv a2;
      Short (CLI a2 (-16)); Short (CArith CAND (r' a2) (r' a3)); mv xw a2] [(69, xv); (70, xw)];
   mkBlock [] [Short (CLI a2 16); Short (CSRLI (r' a2) 4); mv xv a2] [(71, xv)];
   mkBlock [] [Short (CLI a2 (-16)); Short (CSRAI (r' a2) 2); mv xv a2] [(72, xv)];
   mkBlock [] [Short (CLI a2 1); Short (CSLLI a2 33); mv xv a2] [(73, xv)];
   mkBlock [] [Short (CLI a2 31); Short (CANDI (r' a2) (-16)); mv xv a2] [(74, xv)];
   mkBlock [] [Short (CLI a4 31); Short (CMV xv a4)] [(75, xv)];
   mkBlock [(xv, junk)] [Short (CLI a4 31); Short (CADD xv a4)] [(76, xv)];
   mkBlock [] [Full (LUI a4 8); Full (ADDIW a4 a4 (-1)); Short (CADDIW a4 1); mv xv a4] [(77, xv)];
   mkBlock [(t0, 0)] [Short (CLI xv 0); Short (CLI s1 0); Short (CBEQZ (r' s1) 6); Full (OpImm ADDI xv xv 1)] [(78, xv)];
   mkBlock [(t0, 1)] [Short (CLI xv 0); Short (CLI s1 1); Short (CBNEZ (r' s1) 6); Full (OpImm ADDI xv xv 1)] [(79, xv)];
   mkBlock [] (la t0 18 ++ [Full (OpImm ORI t0 t0 1); Short (CJALR t0); nop]) [(80, ra)]].

Definition conformance_blocks (scratch junk : Z) : list block :=
  alu_blocks ++ mul_blocks ++ mem_blocks scratch ++ jump_blocks ++ sp_blocks ++ c_blocks junk.

(** ** Running the program *)

Definition code_size (ks : list code) : Z := foldr (fun k n => len k + n) 0 ks.
Definition assemble (ks : list code) : list Z := concat ((fun k => le_bytes (Z.to_nat (len k)) (word k)) <$> ks).

(** Step until the pc reaches [stop]. *)
Fixpoint run_until (fuel : nat) (stop : Z) (s : machine) : option machine :=
  if pc s.1 =? stop then Some s
  else
    match fuel with
    | O => None
    | S fuel' =>
        match step_mode true None s with
        | (Ok false, s') => run_until fuel' stop s'
        | _ => None
        end
    end.

(** Enter a block: its inputs in their registers, its code at [base]. *)
Definition enter_block (base : Z) (ins : list (Z * Z)) (body : list code) (s : machine) : machine :=
  (with_pc (foldl (fun c '(r, x) => set c r x) s.1 ins) base, (write s.2 base (assemble body)).2).

Definition run_block (base : Z) (b : block) (s : machine) : option machine :=
  run_until (length (b_body b)) (base + code_size (b_body b)) (enter_block base (b_ins b) (b_body b) s).

(** The size of OUT_BUF. *)
Definition OUT_WORDS : nat := 512.

(** [push]: the pair at [OUT_N]; an index past the buffer panics. *)
Definition push (id x : Z) (out : list Z) : outcome string (list Z) :=
  if (S (length out) <? OUT_WORDS)%nat then Ok (out ++ [id; x]) else Panic.

Fixpoint push_all (ps : list (Z * Z)) (c : Cpu) (out : list Z) : outcome string (list Z) :=
  match ps with
  | [] => Ok out
  | (id, r) :: ps' => out' ← push id (get c r) out; push_all ps' c out'
  end.

(** The blocks in order; [None] is a block that does not reach its end. *)
Fixpoint run_blocks (base : Z) (bs : list block) (s : machine) (out : list Z) :
    option (machine * outcome string (list Z)) :=
  match bs with
  | [] => Some (s, Ok out)
  | b :: bs' =>
      s' ← run_block base b s;
      match push_all (b_push b) s'.1 out with
      | Ok out' => run_blocks base bs' s' out'
      | r => Some (s', r)
      end
  end.

(** [sys_write] of [n] bytes at [buf]. *)
Definition sys_write (base buf n : Z) (s : machine) : option machine :=
  run_block base (mkBlock [(a7, 64); (a0, 1); (11, buf); (a2, n)] [Full ECALL] []) s.

(** [sys_exit]: the step that ends the program. *)
Definition sys_exit (base c : Z) (s : machine) : option bool :=
  ok (step_mode true None (enter_block base [(a7, 93); (a0, c)] [Full ECALL] s)).1.

(** [_start]: the blocks, the buffer written out, the exit; the result is the output. *)
Definition conformance_main (base scratch out_buf junk : Z) (s : machine) : option (list Z) :=
  '(s1, r) ← run_blocks base (conformance_blocks scratch junk) s [];
  out ← ok r;
  let bytes := concat (le_bytes 8 <$> out) in
  s2 ← sys_write base out_buf (Z.of_nat (length bytes)) (s1.1, (write s1.2 out_buf bytes).2);
  stop ← sys_exit base 0 s2;
  if stop : bool then Some (syscall_log s2.2) else None.

(** ** The values of the manual

    What each block leaves according to the RISC-V manual.  It is the value the comment gives
    except at case 70, commented -16 where the block leaves 0 (-16 and 3 have no bit in
    common), and at case 76, commented 0x66, which adds 31 to a register the block never sets:
    its value is that of [junk] plus 31.  Case 67 is pushed twice. *)
Definition manual_values (base junk : Z) : list (Z * Z) :=
  [(1, 2 ^ 63); (2, u64 (-1)); (3, 0x0ff0); (4, 0x0fff); (5, 0x000f);
   (6, 0); (7, 2 ^ 61); (8, 2 ^ 63); (9, 2 ^ 32); (10, u64 (-1)); (11, 1);
   (12, 1); (13, 0); (14, 1);
   (15, sx32 0x80000000); (16, 0); (17, sx32 0xC0000000); (18, sx32 0x40000000);
   (20, u64 (0x123456789a * 0x9abcdef01)); (21, 0); (22, u64 (-1)); (23, 2 ^ 64 - 2);
   (24, 2 ^ 63); (25, u64 (-1)); (26, 5); (27, 0x7fffffffffffffff);
   (28, sx32 (2 ^ 31)); (29, 0); (30, 0x7fffffff); (31, u64 (-5));
   (32, 0xFFFFFFFFDEADB000); (33, base);
   (40, u64 (-1)); (41, u64 (-0x80)); (42, 0x80); (43, u64 (-0x8000)); (44, 0x8000);
   (45, sx32 0x80000000); (46, 0x80000000);
   (48, 0); (49, 1); (50, base + 4); (51, base + 16);
   (60, u64 (-1)); (61, 2 ^ 63 + 1); (62, u64 (- 2 ^ 12));
   (63, 16); (64, 496); (65, 0); (66, sx32 0x9abcdef0); (67, 0x0badc0dedeadf00d);
   (67, 1); (68, 31); (69, u64 (-13)); (70, 0);
   (71, 1); (72, u64 (-4)); (73, 2 ^ 33); (74, 16); (75, 31); (76, u64 (junk + 31)); (77, 0x8000);
   (78, 0); (79, 0); (80, base + 14)].

Definition manual_log (base junk : Z) : list Z :=
  concat ((fun '(id, x) => le_bytes 8 id ++ le_bytes 8 x) <$> manual_values base junk).

(** A machine ready to run the program: an empty memory and a stack. *)
Definition ready : machine := (cpu_new 0x80000000 (STACK_TOP - 4096), new).

(** A check of the definitions above: the program run block by block on the emulator, with its
    output emitted through the write system call and its end through the exit call, pushes the
    values of the manual. *)
Example conformance_run :
  conformance_main 0x80000000 0x80002000 0x80003000 0 ready = Some (manual_log 0x80000000 0).
Proof. vm_compute. reflexivity. Qed.
