(* ===== verification/ConformanceCmd.v ===== *)
(** * The conformance driver (crates/conformance/src/main.rs)

    [emu] runs an ELF in the system-call mode and writes its output, [compare] compares two
    outputs, [arch] tallies the riscv-tests of a directory through the tohost device.  The
    result of a command is its exit code with what it prints of the comparison. *)

From S2P Require Import Prelude Text Mem Cpu Interp InterpFacts Snapshot Run Elf JobFmt.

Section Conformance.
Context `{Blake3} `{Os}.

(** The files of the machine, by path. *)
Abbreviation Files := (gmap string (list Z)).

Definition conformance_config (sys : bool) (th : option Z) : Config :=
  {| chunk_size := chunk_size default_config; max_instructions := 10000000; syscalls := sys;
     snapshot_dir := snapshot_dir default_config; tohost_addr := th |}.

(** [run_elf]: the messages of the errors keep their prefix. *)
Definition run_elf (fs : Files) (elf : string) (sys : bool) : outcome string RunOutcome :=
  bytes ← map_err (fun e => "read: " +:+ e)%string (ok_or (fs !! elf) os_missing);
  image ← map_err (fun e => "elf: " +:+ e)%string (parse bytes);
  match load new image with
  | (Ok _, m) =>
      match run m (entry image) [] (conformance_config sys (elf_tohost_addr image)) with
      | Some (Ok out) => Ok out
      | _ => Panic
      end
  | (Err e, _) => Err ("load: " +:+ e)%string
  | (Panic, _) => Panic
  end.

(** [emu]: 2 for an ELF that cannot be run, 3 for a trap, else the output is written. *)
Definition cmd_emu (elf out : string) : M Files string Z := fun fs =>
  match run_elf fs elf true with
  | Err _ => (Ok 2, fs)
  | Panic => (Panic, fs)
  | Ok o =>
      match status o with
      | Trapped _ => (Ok 3, fs)
      | Halted | Tohost _ | InstructionLimit =>
          match os_write out (out_log o) with
          | Ok stored => (Ok 0, <[out := stored]> fs)
          | _ => (Panic, failed_write out out (out_log o) fs)
          end
      end
  end.

(** The first position where two outputs differ, within the shorter. *)
Fixpoint first_difference (i : Z) (a b : list Z) : option (Z * Z * Z) :=
  match a, b with
  | x :: a', y :: b' => if x =? y then first_difference (i + 1) a' b' else Some (i, x, y)
  | _, _ => None
  end.

(** [compare]: the exit code and the reported difference. *)
Definition cmd_compare (a b : string) (fs : Files) : outcome string (Z * option (Z * Z * Z)) :=
  x ← expect (ok_or (fs !! a) os_missing);
  y ← expect (ok_or (fs !! b) os_missing);
  if bool_decide (x = y) then Ok (0, None) else Ok (1, first_difference 0 x y).

(** ** riscv-tests *)

Inductive Failure : Type :=
  | FailCode (x : Z)
  | FailStatus (st : ExitStatus)
  | FailError (e : string).

(** Byte order of names, as [sort] on paths of one directory. *)
Fixpoint bytes_leb (a b : list Z) : bool :=
  match a, b with
  | [], _ => true
  | _, [] => false
  | x :: a', y :: b' => (x <? y) || ((x =? y) && bytes_leb a' b')
  end.
Definition name_le (a b : string) : Prop := Is_true (bytes_leb (as_bytes a) (as_bytes b)).
#[local] Instance name_le_dec : RelDecision name_le := fun a b => _.

Definition ELF_EXT : list Z := [0x65; 0x6c; 0x66].

(** The names of a listing with the extension, in order. *)
Definition arch_elfs (listing : list string) : list string :=
  merge_sort name_le (filter (fun n => extension n = Some ELF_EXT) listing).

(** One ELF, of the directory [dir]: [None] is a pass. *)
Definition arch_one (fs : Files) (dir name : string) : outcome string (option Failure) :=
  match run_elf fs (dir +:+ "/" +:+ name) false with
  | Ok o =>
      match status o with
      | Tohost x => Ok (if x =? 1 then None else Some (FailCode x))
      | st => Ok (Some (FailStatus st))
      end
  | Err e => Ok (Some (FailError e))
  | Panic => Panic
  end.

(** The loop: passes counted, failures listed by stem. *)
Fixpoint arch_loop (fs : Files) (dir : string) (elfs : list string) (pass : nat) (fails : list (string * Failure)) :
    outcome string (nat * list (string * Failure)) :=
  match elfs with
  | [] => Ok (pass, fails)
  | n :: rest =>
      r ← arch_one fs dir n;
      match r with
      | None => arch_loop fs dir rest (S pass) fails
      | Some f => arch_loop fs dir rest pass (fails ++ [(file_stem n, f)])
      end
  end.

(** [arch]: the exit code, the passes, the number of tests and the failures. *)
Definition cmd_arch (fs : Files) (dir : string) (listing : outcome string (list string)) :
    outcome string (Z * nat * nat * list (string * Failure)) :=
  names ← expect listing;
  let elfs := arch_elfs names in
  '(pass, fails) ← arch_loop fs dir elfs 0%nat [];
  mret (if (pass =? length elfs)%nat then 0 else 1, pass, length elfs, fails).

(** ** Facts *)

(** A test passes when it reports 1 through tohost. *)
Definition passes (fs : Files) (dir name : string) : Prop := arch_one fs dir name = Ok None.

(** The loop's counters: every test is a pass or a listed failure, and only passing tests
    are not listed. *)
Lemma arch_loop_spec fs dir elfs pass fails p f :
  arch_loop fs dir elfs pass fails = Ok (p, f) ->
  exists bad, f = fails ++ bad /\ (p + length bad = pass + length elfs)%nat /\
    (bad = [] <-> Forall (passes fs dir) elfs) /\
    (forall n x, n ∈ elfs -> arch_one fs dir n = Ok (Some x) -> (file_stem n, x) ∈ bad).
Proof.
  revert pass fails. induction elfs as [|n elfs IH]; intros pass fails Hl.
  - injection Hl as <- <-. exists []. rewrite app_nil_r. split_and!; [done|simpl; lia|done|].
    intros n x Hn. by apply not_elem_of_nil in Hn.
  - cbn [arch_loop] in Hl. apply obind_ok in Hl as (r & Hr & Hl).
    destruct r as [x|]; apply IH in Hl as (bad & -> & Hlen & Hall & Hin).
    + exists ((file_stem n, x) :: bad). split_and!.
      * by rewrite <- app_assoc.
      * simpl in *. lia.
      * split; [done|]. intros Hf. apply Forall_cons in Hf as [Hp _]. unfold passes in Hp. congruence.
      * intros n' x' [->|Hn']%elem_of_cons Hx; [|right; by apply Hin]. rewrite Hr in Hx. injection Hx as ->. left.
    + exists bad. split_and!; [done|simpl in *; lia| |].
      * rewrite Hall, Forall_cons. by split; [|intros [_ ?]].
      * intros n' x' [->|Hn']%elem_of_cons Hx; [congruence|by apply (Hin n')].
Qed.

(** The tally of riscv-tests: the exit code is 0 exactly when every ELF of the listing
    reports 1 through tohost, passes and failures add up to the tests, and the failure of
    every other test is listed. *)
Theorem arch_spec fs dir names code p total f :
  cmd_arch fs dir (Ok names) = Ok (code, p, total, f) ->
  (code = 0 <-> Forall (passes fs dir) (arch_elfs names)) /\ (p + length f = total)%nat /\
  total = length (filter (fun n => extension n = Some ELF_EXT) names) /\
  (forall n x, n ∈ names -> extension n = Some ELF_EXT -> arch_one fs dir n = Ok (Some x) ->
     (file_stem n, x) ∈ f).
Proof.
  unfold cmd_arch. simpl. intros Hc. apply obind_ok in Hc as ([p' f'] & Hl & [= <- <- <- <-]).
  apply arch_loop_spec in Hl as (bad & -> & Hlen & Hall & Hin). cbn [app] in *. split_and!.
  - rewrite <- Hall. destruct (Nat.eqb_spec p' (length (arch_elfs names))); (split; [|done || intros ->]).
    + intros _. destruct bad; [done|]. simpl in Hlen. lia.
    + done.
    + simpl in Hlen. lia.
  - lia.
  - unfold arch_elfs. by rewrite merge_sort_Permutation.
  - intros n x Hn He. apply Hin. unfold arch_elfs. rewrite merge_sort_Permutation. by apply list_elem_of_filter.
Qed.

(** The reported difference is the first: the outputs agree before it and differ there; none
    is reported when one output is a proper prefix of the other. *)
Lemma first_difference_spec i a b :
  match first_difference i a b with
  | Some (j, x, y) => exists p u t, a = p ++ x :: u /\ b = p ++ y :: t /\ x <> y /\ j = i + Z.of_nat (length p)
  | None => a `prefix_of` b \/ b `prefix_of` a
  end.
Proof.
  revert i b. induction a as [|x a IH]; intros i [|y b]; simpl; try (by left; apply prefix_nil).
  - right. apply prefix_nil.
  - destruct (Z.eqb_spec x y) as [->|Hxy].
    + specialize (IH (i + 1) b). destruct (first_difference (i + 1) a b) as [[[j x'] y']|].
      * destruct IH as (p & u & t & -> & -> & Hne & ->). exists (y :: p), u, t.
        split_and!; [done..|]. cbn [length]. lia.
      * destruct IH as [Hp|Hp]; [left|right]; by apply prefix_cons.
    + exists [], a, b. split_and!; [done..|]. simpl. lia.
Qed.

Theorem compare_spec a b fs x y code d :
  fs !! a = Some x -> fs !! b = Some y -> cmd_compare a b fs = Ok (code, d) ->
  (code = 0 <-> x = y) /\
  match d with
  | Some (j, u, t) => exists p k l, x = p ++ u :: k /\ y = p ++ t :: l /\ u <> t /\ j = Z.of_nat (length p)
  | None => x `prefix_of` y \/ y `prefix_of` x
  end.
Proof.
  intros Ha Hb. unfold cmd_compare. rewrite Ha, Hb. simpl. case_bool_decide as E; intros [= <- <-].
  - split; [done|]. subst. by left.
  - split; [done|]. apply (first_difference_spec 0 x y).
Qed.

(** Two runs of the emulator on the same ELF, wherever it lies and however the memory was
    used before, compare as identical. *)
Theorem emu_differential elf out1 out2 fs fs1 fs2 c :
  (forall p d, os_write p d = Ok d) ->
  cmd_emu elf out1 fs = (Ok 0, fs1) -> elf <> out1 -> out1 <> out2 ->
  cmd_emu elf out2 fs1 = (c, fs2) ->
  c = Ok 0 /\ cmd_compare out1 out2 fs2 = Ok (0, None).
Proof.
  intros Hw H1 Hne Hne2 H2. unfold cmd_emu in H1, H2.
  destruct (run_elf fs elf true) as [o| |] eqn:E; try done.
  rewrite Hw in H1. assert (fs1 = <[out1 := out_log o]> fs) as -> by (repeat case_match; by simplify_eq).
  assert (run_elf (<[out1 := out_log o]> fs) elf true = Ok o) as E2.
  { rewrite <- E. unfold run_elf. by rewrite lookup_insert_ne. }
  rewrite E2, Hw in H2. unfold cmd_compare.
  destruct (status o); simplify_eq; rewrite (lookup_insert_ne _ out2 out1), !lookup_insert_eq by congruence; simpl;
    by rewrite bool_decide_true.
Qed.
End Conformance.
