(* ===== verification/Tls.v ===== *)
(** * TLS with a pinned certificate (crates/wire/src/tls.rs and its callers)

    The client's verifier accepts one fingerprint; every client role drives a handshake with
    it; [coordinator serve --tls] keeps its certificate in files; the acceptor registers a
    connection before its handshake.  rustls and rcgen are parameters. *)

From S2P Require Import Prelude Text JobFmt ContentStore Wire Quorum Server Serve Worker.

(** ** rustls *)

(** What a certificate verifier decides: the server's certificate, and the signatures of the
    handshake over a message under a certificate. *)
Record Verifier : Type := mkVerifier {
  vf_cert : list Z -> outcome string unit;
  vf_tls12 : list Z -> list Z -> list Z -> outcome string unit;
  vf_tls13 : list Z -> list Z -> list Z -> outcome string unit;
}.

(** The calls of rustls: names, client connections and their handshake over what the reads of
    the socket find, the certificate of the peer, the decrypted stream, signature checks of
    the ring provider, and server configurations. *)
Class Rustls : Type := {
  server_name : Type;
  name_try_from : string -> outcome string server_name;
  client_conn : Type;
  client_new : Verifier -> server_name -> outcome string client_conn;
  is_handshaking : client_conn -> bool;
  complete_io : client_conn -> stream -> outcome string (client_conn * stream);
  peer_certificate : client_conn -> option (list Z);
  stream_owned : client_conn -> stream -> stream;
  ring_verify_tls12 : list Z -> list Z -> list Z -> outcome string unit;
  server_cfg : Type;
  with_single_cert : list Z -> list Z -> outcome string server_cfg;
  server_handshake : server_cfg -> stream -> outcome string stream;
}.

(** A connection after some rounds of its handshake. *)
Inductive progress `{Rustls} : client_conn -> client_conn -> Prop :=
  | progress_refl c : progress c c
  | progress_io c st c' st' c2 : complete_io c st = Ok (c', st') -> progress c' c2 -> progress c c2.

(** The contract of a completed client handshake: the server presented a certificate the
    verifier accepted, and a signature under it that the verifier accepted. *)
Class RustlsSound `{Rustls} : Prop :=
  handshake_verified : forall vf n c0 c,
    client_new vf n = Ok c0 -> progress c0 c -> is_handshaking c = false ->
    exists cert msg dss, peer_certificate c = Some cert /\ vf_cert vf cert = Ok tt /\
      (vf_tls12 vf msg cert dss = Ok tt \/ vf_tls13 vf msg cert dss = Ok tt).

(** [rcgen]: a key pair and the certificate it signs, as DER. *)
Class Rcgen : Type := { self_signed : list string -> outcome string (list Z * list Z) }.

Section Tls.
Context `{Blake3} `{Rustls} `{Rcgen}.

Definition generate_self_signed : outcome string (list Z * list Z) := self_signed ["p2pc-coordinator"%string].

Definition fingerprint (cert : list Z) : list Z := blake3 cert.

Definition verify_server_cert (pinned cert : list Z) : outcome string unit :=
  if bool_decide (fingerprint cert = pinned) then Ok tt
  else Err "server certificate fingerprint does not match the pinned coordinator key"%string.

Definition verify_with_provider (message cert dss : list Z) : outcome string unit :=
  ring_verify_tls12 message cert dss.

(** [PinnedFingerprintVerifier] *)
Definition pinned_verifier (pinned : list Z) : Verifier :=
  {| vf_cert := verify_server_cert pinned; vf_tls12 := verify_with_provider; vf_tls13 := verify_with_provider |}.

Definition server_config (cert key : list Z) : outcome string server_cfg :=
  map_err (fun e => "tls server config: " +:+ e)%string (with_single_cert cert key).

Definition client_config_pinned (cert : list Z) : outcome string Verifier := Ok (pinned_verifier (fingerprint cert)).

(** [addr.split(':').next().unwrap_or("localhost")]: a split always has a first part. *)
Definition host_part (addr : string) : string := from_bytes (default [] (head (split_on 58 (as_bytes addr) []))).

(** The loop of the handshake; [None] while it needs more rounds than [fuel]. *)
Fixpoint drive (fuel : nat) (c : client_conn) (st : stream) : option (outcome string (client_conn * stream)) :=
  if is_handshaking c then
    match fuel with
    | O => None
    | S fuel' =>
        match complete_io c st with
        | Ok (c', st') => drive fuel' c' st'
        | Err e => Some (Err ("tls handshake failed: " +:+ e)%string)
        | Panic => Some Panic
        end
    end
  else Some (Ok (c, st)).

Definition client_stream_pinned (fuel : nat) (tcp : stream) (cert : list Z) (server_addr : string) :
    option (outcome string (client_conn * stream)) :=
  match (vf ← client_config_pinned cert;
         n ← map_err (fun e => "server name: " +:+ e)%string (name_try_from (host_part server_addr));
         map_err (fun e => "tls: " +:+ e)%string (client_new vf n)) with
  | Ok c => drive fuel c tcp
  | Err e => Some (Err e)
  | Panic => Some Panic
  end.

(** The stream of a completed session. *)
Definition session_stream (r : outcome string (client_conn * stream)) : outcome string stream :=
  match r with Ok (c, st) => Ok (stream_owned c st) | Err e => Err e | Panic => Panic end.

(** The connection of the worker daemon, given the outcome of parsing its address and
    connecting: its own copy of the client session. *)
Definition daemon_connect (fuel : nat) (tls : option (list Z)) (server : string) (tcp : outcome string stream) :
    option (outcome string stream) :=
  match tcp with
  | Ok tcp =>
      match tls with
      | Some cert =>
          match (vf ← client_config_pinned cert;
                 n ← map_err (fun e => "server name: " +:+ e)%string (name_try_from (host_part server));
                 map_err (fun e => "tls: " +:+ e)%string (client_new vf n)) with
          | Ok c => session_stream <$> drive fuel c tcp
          | Err e => Some (Err e)
          | Panic => Some Panic
          end
      | None => Some (Ok tcp)
      end
  | Err e => Some (Err e)
  | Panic => Some Panic
  end.

(** The connection of [jobkit submit]: both failures panic. *)
Definition submit_connect (fuel : nat) (cert : option (list Z)) (server : string) (tcp : outcome string stream) :
    option (outcome string stream) :=
  match tcp, cert with
  | Ok tcp, Some cert =>
      (fun r => expect (session_stream r)) <$> client_stream_pinned fuel tcp cert server
  | Ok tcp, None => Some (Ok tcp)
  | _, _ => Some Panic
  end.

(** ** The coordinator *)

Definition CERT_FILE : string := "coordinator-cert.der".
Definition KEY_FILE : string := "coordinator-key.der".

Context `{Os}.

(** [fingerprint_of_file] *)
Definition fingerprint_of_file (d : Dir) (name : string) : outcome string string :=
  der ← map_err (fun e => "cert: " +:+ e)%string (ok_or (d !! name) os_missing);
  mret (hex (fingerprint der)).

(** The certificate and key of [cmd_serve] over the files of the store directory: read when
    both exist, else generated and written; every failure is an [expect]. *)
Definition cert_and_key (d : Dir) : outcome string (list Z * list Z) * Dir :=
  match d !! CERT_FILE, d !! KEY_FILE with
  | Some cert, Some key => (Ok (cert, key), d)
  | _, _ =>
      match generate_self_signed with
      | Ok (cert, key) =>
          match os_write CERT_FILE cert with
          | Ok stored =>
              let d1 := <[CERT_FILE := stored]> d in
              match os_write KEY_FILE key with
              | Ok kstored => (Ok (cert, key), <[KEY_FILE := kstored]> d1)
              | _ => (Panic, failed_write KEY_FILE KEY_FILE key d1)
              end
          | _ => (Panic, failed_write CERT_FILE CERT_FILE cert d)
          end
      | _ => (Panic, d)
      end
  end.

(** With [--tls]: the pair given to the server and the fingerprint printed. *)
Definition tls_files (tls : bool) (d : Dir) : outcome string (option (list Z * list Z * string)) * Dir :=
  if tls then
    let '(r, d1) := cert_and_key d in
    (('(cert, key) ← r; fp ← expect (fingerprint_of_file d1 CERT_FILE); mret (Some (cert, key, fp))), d1)
  else (Ok None, d).

(** One connection of the acceptor: it is registered, and its own thread completes the
    handshake; [None] when the thread gives up. *)
Definition accept_one (cfg : option server_cfg) (id : Z) (ip : string) (tcp : stream) (s : Server) :
    outcome string (option stream) * Server :=
  let s' := set_conns (insert id (new_conn id ip)) s in
  match cfg with
  | Some c =>
      match server_handshake c tcp with
      | Ok st => (Ok (Some st), s')
      | Err _ => (Ok None, s')
      | Panic => (Panic, s')
      end
  | None => (Ok (Some tcp), s')
  end.

(** ** Facts *)

Lemma drive_progress fuel c st c' st' :
  drive fuel c st = Some (Ok (c', st')) -> progress c c' /\ is_handshaking c' = false.
Proof.
  revert c st. induction fuel as [|fuel IH]; intros c st; cbn [drive];
    destruct (is_handshaking c) eqn:E; try done; [intros [= <- <-]; by split; [constructor|]| |].
  - destruct (complete_io c st) as [[c1 st1]| |] eqn:Ei; try done. intros Hd. apply IH in Hd as [Hp Hh].
    split; [|done]. by eapply progress_io.
  - intros [= <- <-]. by split; [constructor|].
Qed.

Lemma verify_server_cert_spec pinned cert : verify_server_cert pinned cert = Ok tt <-> fingerprint cert = pinned.
Proof. unfold verify_server_cert. by case_bool_decide. Qed.

Lemma client_authentic `{!RustlsSound} fuel tcp cert addr c st :
  client_stream_pinned fuel tcp cert addr = Some (Ok (c, st)) ->
  exists shown msg dss, peer_certificate c = Some shown /\ ring_verify_tls12 msg shown dss = Ok tt /\
    (shown = cert \/ collision blake3 shown cert).
Proof.
  unfold client_stream_pinned. intros Hc.
  destruct (client_config_pinned cert ≫= _) as [c0| |] eqn:E; try done.
  apply obind_ok in E as (vf & [= <-] & E). apply obind_ok in E as (n & _ & E). apply map_err_ok in E.
  apply drive_progress in Hc as [Hp Hh].
  destruct (handshake_verified _ _ _ _ E Hp Hh) as (shown & msg & dss & Hs & Hv & Hd).
  apply verify_server_cert_spec in Hv. exists shown, msg, dss. split_and!; [done|by destruct Hd|].
  destruct (decide (shown = cert)); [by left|]. right. by split.
Qed.

(** The daemon's copy of the client session is the shared one. *)
Lemma daemon_connect_pinned fuel cert server tcp :
  daemon_connect fuel (Some cert) server (Ok tcp) =
    session_stream <$> client_stream_pinned fuel tcp cert server.
Proof.
  unfold daemon_connect, client_stream_pinned. by destruct (client_config_pinned cert ≫= _).
Qed.

(** C15. A completed pinned session is with the pinned certificate: whatever the network does,
    when the worker daemon or jobkit submit gets a stream, the server presented the very
    certificate the client was given and a signature of the handshake under it, or the two
    certificates are a BLAKE3 collision. *)
Theorem pinned_session_authentic `{!RustlsSound} fuel tcp cert server st :
  daemon_connect fuel (Some cert) server (Ok tcp) = Some (Ok st) \/
  submit_connect fuel (Some cert) server (Ok tcp) = Some (Ok st) ->
  exists c raw shown msg dss, st = stream_owned c raw /\ peer_certificate c = Some shown /\
    ring_verify_tls12 msg shown dss = Ok tt /\ (shown = cert \/ collision blake3 shown cert).
Proof.
  intros Hs. assert (exists r, client_stream_pinned fuel tcp cert server = Some r /\ session_stream r = Ok st)
    as (r & Hc & Hr).
  { rewrite daemon_connect_pinned in Hs. unfold submit_connect in Hs.
    destruct (client_stream_pinned fuel tcp cert server) as [r|]; [|by destruct Hs].
    exists r. split; [done|]. destruct Hs as [[= Hs]|[= Hs]]; [done|]. by apply expect_ok. }
  destruct r as [[c raw]| |]; try done. injection Hr as <-.
  destruct (client_authentic _ _ _ _ _ _ Hc) as (shown & msg & dss & ? & ? & ?).
  by exists c, raw, shown, msg, dss.
Qed.

Lemma cert_and_key_kept d cert key d1 :
  cert_and_key d = (Ok (cert, key), d1) -> (forall p b, os_write p b = Ok b) ->
  d1 !! CERT_FILE = Some cert /\ d1 !! KEY_FILE = Some key.
Proof.
  intros E Hw. unfold cert_and_key in E.
  destruct (d !! CERT_FILE) as [c0|] eqn:E1, (d !! KEY_FILE) as [k0|] eqn:E2; [by simplify_eq|..];
    destruct generate_self_signed as [[c1 k1]| |]; try done; rewrite !Hw in E; simplify_eq; by simplify_map_eq.
Qed.

(** The certificate files of a coordinator: a start with both files serves them unchanged and
    prints the fingerprint clients pin; a first start on a working disk creates both, and the
    next start serves the same certificate and key. *)
Theorem tls_files_stable d cert key fp d1 :
  tls_files true d = (Ok (Some (cert, key, fp)), d1) ->
  (forall p b, os_write p b = Ok b) ->
  d1 !! CERT_FILE = Some cert /\ fp = hex (fingerprint cert) /\
  tls_files true d1 = (Ok (Some (cert, key, fp)), d1).
Proof.
  intros Ht Hw. unfold tls_files in Ht. destruct (cert_and_key d) as [r d0] eqn:E. injection Ht as Ht ->.
  apply obind_ok in Ht as ([c k] & -> & Ht). apply obind_ok in Ht as (fp' & Hfp & [= -> -> ->]).
  destruct (cert_and_key_kept d cert key d1 E Hw) as [Hc Hk].
  apply expect_ok in Hfp. unfold fingerprint_of_file in Hfp. rewrite Hc in Hfp. injection Hfp as <-.
  split_and!; [done..|]. unfold tls_files, cert_and_key. rewrite Hc, Hk. unfold fingerprint_of_file. by rewrite Hc.
Qed.

(** A handshake that fails leaves its connection in the table: no thread owns it, and nothing
    the code does for a session removes it. *)
Lemma failed_handshake_stays c id ip tcp s e :
  server_handshake c tcp = Err e ->
  (accept_one (Some c) id ip tcp s).1 = Ok None /\
  conns (accept_one (Some c) id ip tcp s).2 !! id = Some (new_conn id ip).
Proof. intros E. unfold accept_one. rewrite E. split; [done|]. apply lookup_insert_eq. Qed.
End Tls.

(** The host part of an IPv6 address is not a host. *)
Lemma host_part_ipv6 : host_part "[::1]:7777" = "["%string /\ host_part "10.0.0.1:7777" = "10.0.0.1"%string.
Proof. by vm_compute. Qed.

(** ** The daemon's command line *)

(** The options of [worker daemon]; the store directory is the daemon's store. *)
Record DaemonArgs : Type := mkDaemonArgs {
  da_server : string;
  da_id : string;
  da_identity : string;
  da_corrupt : bool;
  da_corrupt_byte : option Z;
  da_receipt_file : option string;
  da_listen_port : option Z;
  da_server_cert : option string;
}.

Definition daemon_config (a : DaemonArgs) : DaemonConfig := {|
  dc_worker_id := da_id a;
  identity_path := Some (da_identity a);
  dc_listen_port := da_listen_port a;
  corrupt := da_corrupt a;
  corrupt_byte := da_corrupt_byte a;
  extra_submits := 0;
  receipt_file := da_receipt_file a |}.

Section DaemonMain.
Context `{Blake3} `{Sha256} `{Ed25519} `{!Signer} `{Os} `{WorkerOs} `{Rustls}.
Context `{Json JobManifest} `{Json ClientToServer} `{Json ServerToClient} `{Json PeerToPeer}.
Context `{link : Sink}.

(** The pinned certificate; a file that cannot be read panics. *)
Definition daemon_cert (a : DaemonArgs) (disk : Dir) : outcome string (option (list Z)) :=
  match da_server_cert a with
  | None => Ok None
  | Some p => match disk !! p with Some cert => Ok (Some cert) | None => Panic end
  end.

(** The surroundings of a session over the daemon's connection, given what connecting to the
    server finds; [None] while a handshake needs more rounds. *)
Definition dial_session (fuel : nat) (a : DaemonArgs) (cert : option (list Z)) (tcp : outcome string stream)
    (env : SessionEnv) : option SessionEnv :=
  d ← daemon_connect fuel cert (da_server a) tcp;
  mret (mkSessionEnv (bind_port env) d (seed env) (open_store env)).

(** [worker daemon]: the exit code. *)
Definition daemon_main (fuel : nat) (a : DaemonArgs) (disk : Dir) (tcps : list (outcome string stream * SessionEnv))
    (s : Daemon) : option (outcome string Z * Daemon) :=
  match daemon_cert a disk with
  | Ok cert =>
      envs ← mapM (fun '(tcp, env) => dial_session fuel a cert tcp env) tcps;
      '(r, _, s') ← run_daemon envs (daemon_config a) 1 [] s;
      Some (match r with Ok _ => Ok 0 | Err _ => Ok 1 | Panic => Panic end, s')
  | _ => Some (Panic, s)
  end.
End DaemonMain.

(** ** A toy rustls *)

(** Two rounds: the certificate arrives and is checked, then its signature.  A connection is
    the verifier, the rounds left and the certificate shown. *)
Record toy_conn : Type := mkToy { tc_vf : Verifier; tc_left : nat; tc_cert : option (list Z) }.

Definition toy_io (shown : list Z) (c : toy_conn) (st : stream) : outcome string (toy_conn * stream) :=
  match tc_left c with
  | 2%nat => _ ← vf_cert (tc_vf c) shown; mret (mkToy (tc_vf c) 1 (Some shown), st)
  | 1%nat =>
      match tc_cert c with
      | Some cert => _ ← vf_tls13 (tc_vf c) [] cert []; mret (mkToy (tc_vf c) 0 (Some cert), st)
      | None => Err "no certificate"%string
      end
  | _ => Err "done"%string
  end.

(** The server shows [shown]; its key signs. *)
Definition toy_rustls (shown : list Z) : Rustls :=
  {| server_name := string;
     name_try_from := fun n => if bool_decide (n = "["%string) then Err "invalid dns name"%string else Ok n;
     client_conn := toy_conn;
     client_new := fun vf _ => Ok (mkToy vf 2 None);
     is_handshaking := fun c => negb (tc_left c =? 0)%nat;
     complete_io := toy_io shown;
     peer_certificate := tc_cert;
     stream_owned := fun _ st => st;
     ring_verify_tls12 := fun _ _ _ => Ok tt;
     server_cfg := list Z * list Z;
     with_single_cert := fun c k => Ok (c, k);
     server_handshake := fun _ st => match st with [] => Err "eof"%string | _ => Ok st end |}.

(** The rounds a connection has made checked what it holds. *)
Definition toy_checked (c : toy_conn) : Prop :=
  match tc_left c with
  | 2%nat => tc_cert c = None
  | 1%nat => exists cert, tc_cert c = Some cert /\ vf_cert (tc_vf c) cert = Ok tt
  | O => exists cert, tc_cert c = Some cert /\ vf_cert (tc_vf c) cert = Ok tt /\ vf_tls13 (tc_vf c) [] cert [] = Ok tt
  | _ => False
  end.

Lemma toy_progress shown c c' :
  @progress (toy_rustls shown) c c' -> toy_checked c -> tc_vf c' = tc_vf c /\ toy_checked c'.
Proof.
  induction 1 as [c|c st c' st' c2 E Hp IH]; [done|]. intros Hc. simpl in E. unfold toy_io in E.
  assert (tc_vf c' = tc_vf c /\ toy_checked c') as [Ev Hc'].
  { unfold toy_checked in Hc. destruct (tc_left c) as [|[|[|]]] eqn:El; try done.
    - destruct Hc as (cert & Ecert & Hv). rewrite Ecert in E. apply obind_ok in E as ([] & Hs & [= <- <-]).
      split; [done|]. by exists cert.
    - apply obind_ok in E as ([] & Hs & [= <- <-]). split; [done|]. by exists shown. }
  destruct (IH Hc') as [Ev' Hc2]. split; [congruence|done].
Qed.

#[export] Instance toy_rustls_sound shown : @RustlsSound (toy_rustls shown).
Proof.
  intros vf n c0 c [= <-] Hp Hh. destruct (toy_progress _ _ _ Hp) as [Ev Hc]; [done|]. simpl in *.
  unfold toy_checked in Hc. destruct (tc_left c); [|done]. destruct Hc as (cert & Ec & Hv & Hs).
  rewrite Ev in *. exists cert, [], []. split_and!; [done..|]. by right.
Qed.

(** A session with the coordinator of certificate [1; 2], and one refused. *)
Lemma pinned_session_authentic_witness :
  exists c raw shown msg dss, [Data [7]] = @stream_owned (toy_rustls [1; 2]) c raw /\
    @peer_certificate (toy_rustls [1; 2]) c = Some shown /\
    @ring_verify_tls12 (toy_rustls [1; 2]) msg shown dss = Ok tt /\
    (shown = [1; 2] \/ collision (@blake3 toy_blake3) shown [1; 2]).
Proof.
  apply (@pinned_session_authentic toy_blake3 (toy_rustls [1; 2]) _ 3 [Data [7]] [1; 2] "10.0.0.1:7777").
  left. vm_compute. reflexivity.
Defined.

(** A server with another certificate is refused, and so is an IPv6 address. *)
Lemma wrong_certificate_refused :
  @daemon_connect toy_blake3 (toy_rustls [9]) 3 (Some [1; 2]) "10.0.0.1:7777" (Ok []) =
    Some (Err "tls handshake failed: server certificate fingerprint does not match the pinned coordinator key"%string) /\
  @daemon_connect toy_blake3 (toy_rustls [1; 2]) 3 (Some [1; 2]) "[::1]:7777" (Ok []) =
    Some (Err "server name: invalid dns name"%string).
Proof. by vm_compute. Qed.

Definition toy_rcgen : Rcgen := {| self_signed := fun _ => Ok ([1; 2], [3]) |}.

Lemma tls_files_stable_witness :
  let d1 : Dir := <[KEY_FILE := [3]]> (<[CERT_FILE := [1; 2]]> ∅) in
  d1 !! CERT_FILE = Some [1; 2] /\ hex (toy_digest [1; 2]) = hex (@fingerprint toy_blake3 [1; 2]) /\
  @tls_files toy_blake3 toy_rcgen toy_os true d1 = (Ok (Some ([1; 2], [3], hex (toy_digest [1; 2]))), d1).
Proof.
  apply (@tls_files_stable toy_blake3 toy_rcgen toy_os ∅ [1; 2] [3] (hex (toy_digest [1; 2])));
    [vm_compute; reflexivity|done].
Defined.
