(* ===== verification/Difftest.v ===== *)
(** * The differential determinism harness (crates/difftest/src/main.rs)

    The same job through two builds of the worker, optionally a third in a container, and the
    comparison of their results.  cargo, docker and the spawned workers are commands over the
    files of the machine; the theorems instantiate the workers with the modelled one. *)

From S2P Require Import Prelude Text Mem Cpu Interp Run Chain Elf JobFmt ContentStore Wire Quorum Ledger Dispute Worker Local.

Record DiffArgs : Type := mkDiffArgs {
  df_job_dir : string;
  df_docker : option string;
  df_out_prefix : string;
}.

(** [p.join(q)] for a relative [q] *)
Definition path_join (p q : string) : string := (p +:+ "/" +:+ q)%string.
(** [p.is_absolute()] *)
Definition is_absolute (p : string) : bool := bool_decide (head (as_bytes p) = Some 47).
(** [s.replace('\\', "/")] *)
Definition slashes (s : string) : string := from_bytes ((fun c => if c =? 92 then 47 else c) <$> as_bytes s).

(** [compare]: the verdict, without the printed differences. *)
Definition compare (a b : WorkerResult) : bool :=
  bool_decide (r_status a = r_status b) && (r_instructions a =? r_instructions b) &&
  bool_decide (result_hash a = result_hash b) && bool_decide (r_chunk_hashes a = r_chunk_hashes b) &&
  bool_decide (output_hex a = output_hex b).

(** The first chunk reported: only chains of the same length are searched. *)
Fixpoint divergent_chunk (i : nat) (a b : list string) : option (nat * string * string) :=
  match a, b with
  | x :: a', y :: b' => if bool_decide (x = y) then divergent_chunk (S i) a' b' else Some (i, x, y)
  | _, _ => None
  end.
Definition reported_chunk (a b : WorkerResult) : option (nat * string * string) :=
  if (length (r_chunk_hashes a) =? length (r_chunk_hashes b))%nat
  then divergent_chunk 0 (r_chunk_hashes a) (r_chunk_hashes b) else None.

(** The command the container runs, after [cargo run --release -p worker --]. *)
Definition docker_argv (job_dir : string) : list string :=
  [slashes job_dir; "--out"; "target-docker/difftest-docker.json"; "--id"; "docker-linux"]%string.

Section Difftest.
Context `{Blake3} `{Ed25519} `{!Signer} `{Os} `{WorkerOs} `{Json JobManifest} `{Json WorkerResult}.
(** The workspace root; cargo in a directory; a worker binary; docker on an image and the
    worker's arguments inside it. *)
Context (root : string) (cargo : string -> list string -> M Disk string bool).
Context (spawn : string -> list string -> M Disk string bool).
Context (docker : string -> list string -> M Disk string bool).

(** [run_worker] of the harness; every failure panics. *)
Definition diff_worker (worker job_dir id out : string) : M Disk string WorkerResult :=
  st ← expect_m (spawn worker ["run"; job_dir; "--out"; out; "--id"; id]%string);
  if st : bool then load_result out else mpanic.

Definition JOB_BINARY : string := "target/riscv64imac-unknown-none-elf/release/demo-hash".

Definition copy_built (job_dir elf : string) : M Disk string unit := fun d =>
  match d !! path_join (path_join job_dir "job") JOB_BINARY with
  | Some bytes => expect_m (write_file elf bytes) d
  | None => (Panic, d)
  end.

Definition build_job_crate (job_dir elf : string) : M Disk string unit :=
  st ← expect_m (cargo (path_join job_dir "job") ["build"; "--release"]%string);
  if st : bool then copy_built job_dir elf else mpanic.

Definition ensure_job_built (job_dir : string) : M Disk string unit := fun d =>
  let elf := path_join job_dir "program.elf" in
  if bool_decide (is_Some (d !! elf)) then (Ok tt, d) else build_job_crate job_dir elf d.

(** The builds of both profiles. *)
Definition build_worker (release : bool) : M Disk string unit :=
  st ← expect_m (cargo root (["build"; "-p"; "worker"]%string ++ if release then ["--release"%string] else []));
  if st : bool then mret tt else mpanic.

(** The container run: its result is compared with the release build's. *)
Definition docker_differential (args : DiffArgs) (b : WorkerResult) : M Disk string bool :=
  match df_docker args with
  | None => mret true
  | Some image =>
      st ← expect_m (docker image (docker_argv (df_job_dir args)));
      if st : bool then
        c ← load_result (path_join root "target-docker/difftest-docker.json");
        mret (compare b c)
      else mpanic
  end.

(** [main]: the exit code. *)
Definition diff_main (args : DiffArgs) : M Disk string Z :=
  let job_dir := if is_absolute (df_job_dir args) then df_job_dir args else path_join root (df_job_dir args) in
  let target := path_join root "target" in
  _ ← ensure_job_built job_dir;
  _ ← build_worker false;
  _ ← build_worker true;
  a ← diff_worker (path_join target "debug/worker") job_dir "debug"
        (path_join target (df_out_prefix args +:+ "-debug.json"));
  b ← diff_worker (path_join target "release/worker") job_dir "release"
        (path_join target (df_out_prefix args +:+ "-release.json"));
  container ← docker_differential args b;
  mret (if compare a b && container then 0 else 1).
End Difftest.

(** ** Facts *)

Lemma compare_eq a b :
  compare a b = true <-> r_status a = r_status b /\ r_instructions a = r_instructions b /\
    result_hash a = result_hash b /\ r_chunk_hashes a = r_chunk_hashes b /\ output_hex a = output_hex b.
Proof.
  unfold compare. rewrite !andb_true_iff, !bool_decide_eq_true, Z.eqb_eq. tauto.
Qed.

Section Facts.
Context `{Blake3} `{Ed25519} `{!Signer} `{Os} `{WorkerOs} `{Json JobManifest} `{Json WorkerResult} `{!JsonLaws WorkerResult}.
Context (root : string) (cargo : string -> list string -> M Disk string bool).
Context (spawn : string -> list string -> M Disk string bool).
Context (docker : string -> list string -> M Disk string bool).
Context (seed : list Z) (jd : Dir).
Context (Hwrite : forall p b, os_write p b = Ok b).
Context (Hspawn : forall bin argv d, spawn bin argv d = worker_process seed jd argv d).

(** The result of one worker: its compared fields are those of executing the job. *)
Lemma diff_worker_result bin dir id out d r d' :
  diff_worker spawn bin dir id out d = (Ok r, d') ->
  exists job o h, load_dir dir jd = Ok job /\ cli_execute default_args job = Ok o /\
    cli_hashes false o = Ok (h, r_chunk_hashes r) /\ result_hash r = h /\
    r_status r = status_str (status o) /\ r_instructions r = instructions o /\ output_hex r = hex <$> Run.output o.
Proof.
  unfold diff_worker. intros Hd. apply bind_ok in Hd as (st & d1 & He & Hl).
  unfold expect_m in He. rewrite Hspawn in He. unfold worker_process in He.
  rewrite (bool_decide_true ("run"%string = "run"%string)) in He by done. simpl in He.
  set (args := mkRunArgs (Some out) id false None false None) in He.
  destruct (worker_run args seed dir jd d) as [res d0] eqn:Hr. simpl in He. injection He as <- <-.
  case_bool_decide as Hok; [|done]. destruct res as [[]| |]; try done. clear Hok.
  unfold worker_run in Hr. apply bind_ok in Hr as (r0 & d2 & Hc & Hw). simpl in Hw.
  unfold expect_m, write_file in Hw. rewrite Hwrite in Hw. simpl in Hw. injection Hw as <-.
  unfold load_result in Hl. rewrite lookup_insert_eq, from_to_vec_pretty in Hl. injection Hl as -> _.
  unfold cli_result in Hc. apply bind_ok in Hc as (job & ? & Hj & Hc). injection Hj as Hj <-.
  apply bind_ok in Hc as (o & ? & Ho & Hc). injection Ho as Ho <-.
  apply bind_ok in Hc as ([h chain] & ? & Hh & Hc). unfold lift in Hh. apply pair_equal_spec in Hh as [Hh <-].
  apply bind_ok in Hc as ([pk sg] & ? & Hs & [= <- _]).
  exists job, o, h. split_and!; [exact Hj|exact Ho|exact Hh|reflexivity..].
Qed.

(** On a job that executes, the worker's result is written and read back. *)
Lemma diff_worker_total bin dir id out d job o :
  load_dir dir jd = Ok job -> cli_execute default_args job = Ok o ->
  exists r d', diff_worker spawn bin dir id out d = (Ok r, d').
Proof.
  intros Hj Ho. unfold diff_worker, mbind, M_bind, expect_m. rewrite Hspawn. unfold worker_process.
  rewrite bool_decide_true by done. simpl. unfold worker_run, cli_result, mbind, M_bind, lift. rewrite Hj. simpl.
  unfold cli_execute in *. simpl in *. rewrite Ho. simpl. unfold expect_m, write_file. rewrite Hwrite. simpl.
  unfold load_result. rewrite lookup_insert_eq, from_to_vec_pretty. by do 2 eexists.
Qed.

(** Two results of the worker on one job compare as equal. *)
Lemma diff_workers_agree dir bin1 id1 out1 d1 a d1' bin2 id2 out2 d2 b d2' :
  diff_worker spawn bin1 dir id1 out1 d1 = (Ok a, d1') -> diff_worker spawn bin2 dir id2 out2 d2 = (Ok b, d2') ->
  compare a b = true.
Proof.
  intros (job & o & h & Hj & Ho & Hh & Eh & Es & Ei & Eo)%diff_worker_result
    (job' & o' & h' & Hj' & Ho' & Hh' & Eh' & Es' & Ei' & Eo')%diff_worker_result.
  rewrite Hj in Hj'. injection Hj' as <-. rewrite Ho in Ho'. injection Ho' as <-.
  rewrite Hh in Hh'. injection Hh' as <- Hch. apply compare_eq. split_and!; congruence.
Qed.

(** The directory the workers are given. *)
Definition given_dir (args : DiffArgs) : string :=
  if is_absolute (df_job_dir args) then df_job_dir args else path_join root (df_job_dir args).

(** Builds of the same source never diverge: whatever the job, when the harness ends on its
    two local workers, it exits 0; and it does end on a built job that loads and executes when
    both builds of the worker succeed. *)
Theorem differential_passes args d :
  df_docker args = None ->
  (forall code d', diff_main root cargo spawn docker args d = (Ok code, d') -> code = 0) /\
  (forall job o, is_Some (d !! path_join (given_dir args) "program.elf") ->
     (forall dir argv d0, exists d1, cargo dir argv d0 = (Ok true, d1)) ->
     load_dir (given_dir args) jd = Ok job -> cli_execute default_args job = Ok o ->
     exists d', diff_main root cargo spawn docker args d = (Ok 0, d')).
Proof.
  intros Hdock. unfold diff_main. fold (given_dir args). split.
  - intros code d' Hm.
    apply bind_ok in Hm as (? & d1 & _ & Hm). apply bind_ok in Hm as (? & d2 & _ & Hm).
    apply bind_ok in Hm as (? & d3 & _ & Hm). apply bind_ok in Hm as (a & d4 & Ha & Hm).
    apply bind_ok in Hm as (b & d5 & Hb & Hm). unfold docker_differential in Hm. rewrite Hdock in Hm.
    simpl in Hm. rewrite (diff_workers_agree _ _ _ _ _ _ _ _ _ _ _ _ _ Ha Hb) in Hm. by injection Hm as <- _.
  - intros job o Helf Hcargo Hj Ho.
    assert (forall rel d0, exists d1, build_worker root cargo rel d0 = (Ok tt, d1)) as Hbuild.
    { intros rel d0. destruct (Hcargo root (["build"; "-p"; "worker"]%string ++ if rel then ["--release"%string] else []) d0)
        as [d1 Hd1]. exists d1. unfold build_worker, mbind, M_bind, expect_m. by rewrite Hd1. }
    rewrite (bind_eq _ _ d tt d) by (unfold ensure_job_built; by rewrite bool_decide_true).
    destruct (Hbuild false d) as [d1 Hd1]. rewrite (bind_eq _ _ _ _ _ Hd1).
    destruct (Hbuild true d1) as [d2 Hd2]. rewrite (bind_eq _ _ _ _ _ Hd2).
    edestruct diff_worker_total as (a & d3 & Ha); [done..|]. rewrite (bind_eq _ _ _ _ _ Ha).
    edestruct diff_worker_total as (b & d4 & Hb); [done..|]. rewrite (bind_eq _ _ _ _ _ Hb).
    unfold docker_differential. rewrite Hdock. exists d4. simpl.
    by rewrite (diff_workers_agree _ _ _ _ _ _ _ _ _ _ _ _ _ Ha Hb).
Qed.

(** The container's worker is called without its subcommand: it refuses its arguments. *)
Lemma docker_worker_refuses job_dir d :
  slashes job_dir <> "run"%string -> worker_process seed jd (docker_argv job_dir) d = (Ok false, d).
Proof. intros Hr. unfold worker_process, docker_argv. by rewrite bool_decide_false. Qed.

(** So a differential with a container that runs the worker as the script says never ends. *)
Theorem docker_differential_fails image args d :
  df_docker args = Some image -> slashes (df_job_dir args) <> "run"%string ->
  (forall argv d0, docker image argv d0 = worker_process seed jd argv d0) ->
  forall code d', diff_main root cargo spawn docker args d <> (Ok code, d').
Proof.
  intros Hdock Hr Hrun code d' Hm. unfold diff_main in Hm.
  do 5 (apply bind_ok in Hm as (? & ? & _ & Hm)). apply bind_ok in Hm as (c & d6 & Hc & _).
  unfold docker_differential in Hc. rewrite Hdock in Hc. unfold mbind, M_bind, expect_m in Hc.
  by rewrite Hrun, docker_worker_refuses in Hc.
Qed.
End Facts.
