(* ===== verification/Jobs.v ===== *)
(** * The example jobs (jobs/demo-hash, jobs/agent-task and the job of jobkit's scaffold)

    A job is a program over the memory of the sandbox: it reads its input where the host
    put it, writes its output where the host looks for it, and halts.  Here each job is a
    function on memories, volatile accesses as reads and writes of bytes, its loops as in the
    source; the theorems give the output the host collects as a function of the input. *)

From S2P Require Import Prelude Mem Cpu Interp Run Isa IsaFacts IsaRun Sp1.

(** ** Memory as a job sees it *)

Abbreviation memory := (Z -> Z).

(** [read_volatile] of [n] bytes and [write_volatile] of some bytes. *)
Definition rd (n : Z) (μ : memory) (a : Z) : Z := le_val (μ <$> seqZ a n).
Definition wr (μ : memory) (a : Z) (bs : list Z) : memory := fun x =>
  if (a <=? x) && (x <? a + Z.of_nat (length bs)) then default 0 (bs !! Z.to_nat (x - a)) else μ x.

(** The memory at the start: the image, and the input with its length. *)
Definition job_mem (img : memory) (input : list Z) : memory := imem (job_start img 0 input).

(** What the host collects. *)
Definition output_of (μ : memory) : list Z := μ <$> seqZ OUTPUT_DATA_ADDR (rd 8 μ OUTPUT_LEN_ADDR).

(** [for i in 0..in_len]: a fold over the input bytes, read one by one. *)
Fixpoint fold_input {A} (f : A -> Z -> A) (k : nat) (i : Z) (μ : memory) (acc : A) : A :=
  match k with
  | O => acc
  | S k' => fold_input f k' (i + 1) μ (f acc (μ (INPUT_DATA_ADDR + i)))
  end.

Definition in_len (μ : memory) : Z := rd 8 μ INPUT_LEN_ADDR.

(** ** demo-hash *)

(** [for s in 0..4]: the accumulators as words. *)
Fixpoint write_words (a : Z) (ws : list Z) (μ : memory) : memory :=
  match ws with
  | [] => μ
  | w :: ws' => write_words (a + 8) ws' (wr μ a (le_bytes 8 w))
  end.

Definition demo_hash (μ : memory) : memory :=
  let acc := fold_input fnv_step (Z.to_nat (in_len μ)) 0 μ SEEDS in
  write_words OUTPUT_DATA_ADDR acc (wr μ OUTPUT_LEN_ADDR (le_bytes 8 32)).

(** ** The scaffolded job *)

Definition fnv1a (acc b : Z) : Z := wmul (Z.lxor acc b) MUL.
Definition FNV_SEED : Z := 0xcbf29ce484222325.

(** [for (i, &b) in result.iter().enumerate()] *)
Fixpoint write_bytes (a : Z) (bs : list Z) (μ : memory) : memory :=
  match bs with
  | [] => μ
  | b :: bs' => write_bytes (a + 1) bs' (wr μ a [b])
  end.

Definition scaffold_job (μ : memory) : memory :=
  let acc := fold_input fnv1a (Z.to_nat (in_len μ)) 0 μ FNV_SEED in
  let result := le_bytes 8 acc in
  write_bytes OUTPUT_DATA_ADDR result (wr μ OUTPUT_LEN_ADDR (le_bytes 8 (Z.of_nat (length result)))).

(** ** agent-task *)

Definition MAX_RECORDS : Z := 4096.

(** The value is kept as its 32 bits. *)
Record record : Type := mkRecord { rc_id : Z; rc_value : Z; rc_op : Z }.

Definition read_record (μ : memory) (a : Z) : record := mkRecord (rd 4 μ a) (rd 4 μ (a + 4)) (rd 1 μ (a + 8)).

(** The operation of a record: double, zero, negate, keep. *)
Definition apply_op (r : record) : Z :=
  if rc_op r =? 1 then wrap 32 (rc_value r * 2)
  else if rc_op r =? 2 then 0
  else if rc_op r =? 3 then wrap 32 (- rc_value r)
  else rc_value r.

(** One round of the loop: the position in the output and the checksum. *)
Definition agent_round (i : Z) (s : Z * Z * memory) : Z * Z * memory :=
  let '(out_n, checksum, μ) := s in
  let out_base := OUTPUT_DATA_ADDR + 24 in
  let rec := read_record μ (INPUT_DATA_ADDR + (8 + i * 16)) in
  let value := apply_op rec in
  let μ1 := wr μ (out_base + out_n) (le_bytes 4 (rc_id rec)) in
  let μ2 := wr μ1 (out_base + (out_n + 4)) (le_bytes 4 value) in
  (out_n + 8, foldl fnv1a checksum (le_bytes 4 value), μ2).

Fixpoint agent_loop (k : nat) (i : Z) (s : Z * Z * memory) : Z * Z * memory :=
  match k with
  | O => s
  | S k' => agent_loop k' (i + 1) (agent_round i s)
  end.

Definition write_output_header (byte_len checksum : Z) (μ : memory) : memory :=
  wr (wr (wr μ OUTPUT_LEN_ADDR (le_bytes 8 (byte_len + 24))) OUTPUT_DATA_ADDR (le_bytes 8 byte_len))
     (OUTPUT_DATA_ADDR + 8) (le_bytes 8 checksum).

Definition agent_task (μ : memory) : memory :=
  if in_len μ <? 8 then write_output_header 0 0 μ
  else
    let n := rd 4 μ INPUT_DATA_ADDR in
    let n := if MAX_RECORDS <? n then MAX_RECORDS else n in
    let '(out_n, checksum, μ') := agent_loop (Z.to_nat n) 0 (0, FNV_SEED, μ) in
    write_output_header out_n checksum μ'.

(** ** Reads and writes *)

Lemma wr_same μ a bs : wr μ a bs <$> seqZ a (Z.of_nat (length bs)) = bs.
Proof.
  apply list_eq_same_length with (length bs); [done|rewrite length_fmap, length_seqZ; lia|].
  intros i x y Hi Hx Hy. rewrite list_lookup_fmap, lookup_seqZ_lt in Hx by lia. injection Hx as <-.
  unfold wr. rewrite (proj2 (Z.leb_le _ _)), (proj2 (Z.ltb_lt _ _)) by lia. cbn [andb].
  by replace (Z.to_nat (a + Z.of_nat i - a)) with i by lia; rewrite Hy.
Qed.

Lemma wr_other μ a bs b n :
  b + n <= a \/ a + Z.of_nat (length bs) <= b -> wr μ a bs <$> seqZ b n = μ <$> seqZ b n.
Proof.
  intros Hd. apply list_fmap_ext. intros i x Hx. apply lookup_seqZ in Hx as [-> Hi]. unfold wr.
  destruct (Z.leb_spec a (b + Z.of_nat i)), (Z.ltb_spec (b + Z.of_nat i) (a + Z.of_nat (length bs))); try done. lia.
Qed.

Lemma wr_word μ a n v : wr μ a (le_bytes n v) <$> seqZ a (Z.of_nat n) = le_bytes n v.
Proof. pose proof (wr_same μ a (le_bytes n v)) as Hw. by rewrite length_le_bytes in Hw. Qed.

Lemma rd_wr μ a n v : is_u (8 * Z.of_nat n) v -> rd (Z.of_nat n) (wr μ a (le_bytes n v)) a = v.
Proof. intros Hv. unfold rd. rewrite wr_word. by apply le_val_le_bytes. Qed.

Lemma rd_other n μ a bs b :
  b + n <= a \/ a + Z.of_nat (length bs) <= b -> rd n (wr μ a bs) b = rd n μ b.
Proof. intros Hd. unfold rd. by rewrite wr_other. Qed.

(** Adjacent regions. *)
Lemma region_app (μ : memory) a n k : 0 <= n -> 0 <= k -> μ <$> seqZ a (n + k) = (μ <$> seqZ a n) ++ (μ <$> seqZ (a + n) k).
Proof. intros Hn Hk. by rewrite seqZ_app, fmap_app by lia. Qed.

(** ** The input *)

Section Input.
Context (img : memory) (input : list Z) (Hlen : Z.of_nat (length input) < 2 ^ 64).

Lemma in_len_job_mem : in_len (job_mem img input) = Z.of_nat (length input).
Proof.
  unfold in_len, rd. assert (job_mem img input <$> seqZ INPUT_LEN_ADDR 8 = le_bytes 8 (Z.of_nat (length input))) as ->.
  { apply list_eq_same_length with 8%nat; [by rewrite length_le_bytes|by rewrite length_fmap, length_seqZ|].
    intros i x y Hi Hx Hy. rewrite list_lookup_fmap, lookup_seqZ_lt in Hx by lia. injection Hx as <-.
    rewrite le_bytes_lookup in Hy by lia. injection Hy as <-. unfold job_mem, job_start. cbn [imem].
    unfold INPUT_DATA_ADDR, INPUT_LEN_ADDR. rewrite (proj2 (Z.leb_gt _ _)) by lia. cbn [andb].
    rewrite (proj2 (Z.leb_le _ _)), (proj2 (Z.ltb_lt _ _)) by lia. cbn [andb].
    by replace (0x10000000 + Z.of_nat i - 0x10000000) with (Z.of_nat i) by lia. }
  apply le_val_le_bytes. split; lia.
Qed.

Lemma job_mem_data i b : input !! i = Some b -> job_mem img input (INPUT_DATA_ADDR + Z.of_nat i) = b.
Proof.
  intros Hi. pose proof (lookup_lt_Some _ _ _ Hi). unfold job_mem, job_start. cbn [imem].
  rewrite (proj2 (Z.leb_le _ _)), (proj2 (Z.ltb_lt _ _)) by lia. cbn [andb].
  by replace (Z.to_nat (INPUT_DATA_ADDR + Z.of_nat i - INPUT_DATA_ADDR)) with i by lia; rewrite Hi.
Qed.

Lemma fold_input_spec {A} (f : A -> Z -> A) rest i acc :
  (i + length rest = length input)%nat -> drop i input = rest ->
  fold_input f (length rest) (Z.of_nat i) (job_mem img input) acc = foldl f acc rest.
Proof.
  revert i acc. induction rest as [|b rest IH]; intros i acc Hi Hd; [done|]. cbn [length fold_input foldl].
  assert (input !! i = Some b) as Hb by (rewrite <- (Nat.add_0_r i), <- lookup_drop, Hd; done).
  rewrite (job_mem_data i b Hb). replace (Z.of_nat i + 1) with (Z.of_nat (S i)) by lia. apply IH; [simpl in Hi; lia|].
  by rewrite <- Nat.add_1_r, <- drop_drop, Hd.
Qed.

Lemma fold_whole {A} (f : A -> Z -> A) acc :
  fold_input f (Z.to_nat (in_len (job_mem img input))) 0 (job_mem img input) acc = foldl f acc input.
Proof. rewrite in_len_job_mem, Nat2Z.id. by apply (fold_input_spec f input 0). Qed.
End Input.

(** ** The hash jobs *)

Lemma write_words_other a ws μ b n :
  b + n <= a \/ a + 8 * Z.of_nat (length ws) <= b -> write_words a ws μ <$> seqZ b n = μ <$> seqZ b n.
Proof.
  revert a μ. induction ws as [|w ws IH]; intros a μ Hd; [done|]. cbn [write_words length] in *.
  rewrite IH by lia. apply wr_other. rewrite length_le_bytes. lia.
Qed.

Lemma write_words_same a ws μ :
  write_words a ws μ <$> seqZ a (8 * Z.of_nat (length ws)) = concat (le_bytes 8 <$> ws).
Proof.
  revert a μ. induction ws as [|w ws IH]; intros a μ; [done|]. cbn [write_words length].
  replace (8 * Z.of_nat (S (length ws))) with (8 + 8 * Z.of_nat (length ws)) by lia.
  rewrite region_app, IH, write_words_other by lia.
  by rewrite (wr_word μ a 8 w : _ <$> seqZ a 8 = _).
Qed.

Lemma write_bytes_other a bs μ b n :
  b + n <= a \/ a + Z.of_nat (length bs) <= b -> write_bytes a bs μ <$> seqZ b n = μ <$> seqZ b n.
Proof.
  revert a μ. induction bs as [|w bs IH]; intros a μ Hd; [done|]. cbn [write_bytes length] in *.
  rewrite IH by lia. apply wr_other. simpl. lia.
Qed.

Lemma write_bytes_same a bs μ : write_bytes a bs μ <$> seqZ a (Z.of_nat (length bs)) = bs.
Proof.
  revert a μ. induction bs as [|b bs IH]; intros a μ; [done|]. cbn [write_bytes length].
  replace (Z.of_nat (S (length bs))) with (1 + Z.of_nat (length bs)) by lia.
  rewrite region_app, IH, write_bytes_other by lia. pose proof (wr_same μ a [b]) as E. cbn [length] in E.
  by change (Z.of_nat 1) with 1 in E; rewrite E.
Qed.

Lemma fnv_step_length acc b : length acc = 4%nat -> length (fnv_step acc b) = 4%nat.
Proof. by destruct acc as [|? [|? [|? [|? []]]]]. Qed.

Lemma fnv_fold_length inp acc : length acc = 4%nat -> length (foldl fnv_step acc inp) = 4%nat.
Proof. revert acc. induction inp as [|b inp IH]; intros acc Ha; [done|]. apply IH. by apply fnv_step_length. Qed.

(** The length the host reads after demo-hash. *)
Lemma demo_hash_len img input :
  Z.of_nat (length input) < 2 ^ 64 -> rd 8 (demo_hash (job_mem img input)) OUTPUT_LEN_ADDR = 32.
Proof.
  intros Hlen. unfold demo_hash. rewrite fold_whole by done. unfold rd at 1.
  rewrite write_words_other by (left; done). by apply (rd_wr _ _ 8).
Qed.

(** demo-hash on the input [input]: the host collects the four accumulators over the input,
    which is what the V2 build of the demo job commits. *)
Lemma demo_hash_output img input :
  Z.of_nat (length input) < 2 ^ 64 -> output_of (demo_hash (job_mem img input)) = v2_fold input.
Proof.
  intros Hlen. unfold output_of. rewrite demo_hash_len by done. unfold demo_hash. rewrite fold_whole by done.
  set (acc := foldl fnv_step SEEDS input). assert (length acc = 4%nat) as Ha by by apply fnv_fold_length.
  replace 32 with (8 * Z.of_nat (length acc)) at 2 by (rewrite Ha; done). apply write_words_same.
Qed.

(** The scaffolded job: the FNV-1a hash of the input, as eight bytes. *)
Lemma scaffold_job_output img input :
  Z.of_nat (length input) < 2 ^ 64 ->
  output_of (scaffold_job (job_mem img input)) = le_bytes 8 (foldl fnv1a FNV_SEED input).
Proof.
  intros Hlen. unfold scaffold_job. rewrite fold_whole, length_le_bytes by done.
  set (bs := le_bytes 8 (foldl fnv1a FNV_SEED input)). unfold output_of.
  assert (length bs = 8%nat) as Hb by apply length_le_bytes.
  assert (rd 8 (write_bytes OUTPUT_DATA_ADDR bs (wr (job_mem img input) OUTPUT_LEN_ADDR (le_bytes 8 (Z.of_nat 8)))) OUTPUT_LEN_ADDR = 8)
    as ->.
  { unfold rd at 1. rewrite write_bytes_other by (left; done). by apply (rd_wr _ _ 8). }
  replace 8 with (Z.of_nat (length bs)) at 2 by (rewrite Hb; done). apply write_bytes_same.
Qed.

(** ** The records of agent-task *)

Definition decode_record (bs : list Z) : record :=
  mkRecord (le_val (take 4 bs)) (le_val (take 4 (drop 4 bs))) (le_val (take 1 (drop 8 bs))).
(** The [i]th record of an input, after the header. *)
Definition nth_record (input : list Z) (i : nat) : record := decode_record (take 16 (drop (8 + 16 * i) input)).
Definition emit (r : record) : list Z := le_bytes 4 (rc_id r) ++ le_bytes 4 (apply_op r).
Definition mix (c : Z) (r : record) : Z := foldl fnv1a c (le_bytes 4 (apply_op r)).

(** Memory below the output. *)
Definition below (μ μ' : memory) (top : Z) : Prop := forall a, a < top -> μ a = μ' a.

Lemma below_region μ μ' top a n : below μ μ' top -> a + n <= top -> μ <$> seqZ a n = μ' <$> seqZ a n.
Proof. intros Hb Hn. apply list_fmap_ext. intros i x Hx. apply lookup_seqZ in Hx as [-> Hi]. apply Hb. lia. Qed.

Lemma below_wr μ μ' top a bs : below μ μ' top -> top <= a -> below (wr μ a bs) μ' top.
Proof. intros Hb Ha x Hx. unfold wr. rewrite (proj2 (Z.leb_gt _ _)) by lia. by apply Hb. Qed.

Lemma below_le μ μ' top top' : below μ μ' top -> top' <= top -> below μ μ' top'.
Proof. intros Hb Ht a Ha. apply Hb. lia. Qed.

Lemma emit_length r : length (emit r) = 8%nat.
Proof. unfold emit. by rewrite length_app, !length_le_bytes. Qed.

(** The output region after the header: its length, the two words, the eight bytes between
    header and records, which nothing writes, and the records. *)
Lemma header_output μ byte_len checksum :
  is_u64 (byte_len + 24) -> 0 <= byte_len ->
  output_of (write_output_header byte_len checksum μ) =
    le_bytes 8 byte_len ++ le_bytes 8 checksum ++ (μ <$> seqZ (OUTPUT_DATA_ADDR + 16) 8) ++
    (μ <$> seqZ (OUTPUT_DATA_ADDR + 24) byte_len).
Proof.
  intros Hu Hb. unfold output_of, write_output_header.
  rewrite !rd_other by (rewrite length_le_bytes; unfold OUTPUT_DATA_ADDR, OUTPUT_LEN_ADDR; lia).
  pose proof (rd_wr μ OUTPUT_LEN_ADDR 8 (byte_len + 24) Hu) as E. change (Z.of_nat 8) with 8 in E. rewrite E.
  replace (byte_len + 24) with (8 + (8 + (8 + byte_len))) by lia.
  rewrite !region_app by lia. rewrite <- !Z.add_assoc.
  change (8 + 8) with 16. change (8 + 16) with 24.
  repeat match goal with
  | |- context [wr ?m ?a (le_bytes 8 ?v) <$> seqZ ?a 8] => rewrite (wr_word m a 8 v : _ <$> seqZ a 8 = _)
  | |- context [wr ?m ?a ?bs <$> seqZ ?b ?n] =>
      rewrite (wr_other m a bs b n) by (rewrite ?length_le_bytes; unfold OUTPUT_DATA_ADDR, OUTPUT_LEN_ADDR; lia)
  end.
  done.
Qed.

Section Agent.
Context (img : memory) (input : list Z) (Hmax : Z.of_nat (length input) <= INPUT_MAX).

Lemma input_max : Z.of_nat (length input) <= 0x4000000.
Proof. exact Hmax. Qed.

(** A slice of the input, in memory. *)
Lemma job_mem_region i n :
  (i + n <= length input)%nat ->
  job_mem img input <$> seqZ (INPUT_DATA_ADDR + Z.of_nat i) (Z.of_nat n) = take n (drop i input).
Proof.
  intros Hi. apply list_eq_same_length with n; [rewrite length_take, length_drop; lia|rewrite length_fmap, length_seqZ; lia|].
  intros j x y Hj Hx Hy. rewrite list_lookup_fmap, lookup_seqZ_lt in Hx by lia. injection Hx as <-.
  rewrite lookup_take_lt, lookup_drop in Hy by lia. rewrite <- (job_mem_data img input _ _ Hy). f_equal. lia.
Qed.

Lemma read_record_spec μ i :
  below μ (job_mem img input) OUTPUT_LEN_ADDR -> (8 + 16 * S i <= length input)%nat ->
  read_record μ (INPUT_DATA_ADDR + (8 + Z.of_nat i * 16)) = nth_record input i.
Proof.
  intros Hb Hi. pose proof input_max as Hm. unfold read_record, nth_record, decode_record, rd.
  rewrite !(below_region μ _ _ _ _ Hb) by (unfold INPUT_DATA_ADDR, OUTPUT_LEN_ADDR; lia).
  replace (INPUT_DATA_ADDR + (8 + Z.of_nat i * 16)) with (INPUT_DATA_ADDR + Z.of_nat (8 + 16 * i)) by lia.
  replace (INPUT_DATA_ADDR + Z.of_nat (8 + 16 * i) + 4) with (INPUT_DATA_ADDR + Z.of_nat (8 + 16 * i + 4)) by lia.
  replace (INPUT_DATA_ADDR + Z.of_nat (8 + 16 * i) + 8) with (INPUT_DATA_ADDR + Z.of_nat (8 + 16 * i + 8)) by lia.
  rewrite (job_mem_region _ 4), (job_mem_region _ 4), (job_mem_region _ 1) by lia.
  rewrite !skipn_firstn_comm, !take_take, !drop_drop. done.
Qed.

(** The loop from record [i]: [k] more records are emitted, nothing below them changes. *)
Lemma agent_loop_spec k i c μ :
  below μ (job_mem img input) OUTPUT_LEN_ADDR -> (8 + 16 * (i + k) <= length input)%nat ->
  let rs := nth_record input <$> seq i k in
  let out := OUTPUT_DATA_ADDR + 24 + 8 * Z.of_nat i in
  exists μ', agent_loop k (Z.of_nat i) (8 * Z.of_nat i, c, μ) = (8 * Z.of_nat (i + k), foldl mix c rs, μ') /\
    below μ' μ out /\ μ' <$> seqZ out (8 * Z.of_nat k) = concat (emit <$> rs).
Proof.
  revert i c μ. induction k as [|k IH]; intros i c μ Hb Hi rs out.
  - exists μ. rewrite Nat.add_0_r. split_and!; done.
  - cbn [agent_loop]. unfold agent_round. rewrite read_record_spec by (done || lia).
    set (r := nth_record input i). set (μ2 := wr (wr μ _ _) _ _).
    change (foldl fnv1a c (le_bytes 4 (apply_op r))) with (mix c r).
    assert (below μ2 μ out) as Hb2.
    { apply below_wr; [apply below_wr; [by intros a|]|]; unfold out; lia. }
    replace (Z.of_nat i + 1) with (Z.of_nat (S i)) by lia. replace (8 * Z.of_nat i + 8) with (8 * Z.of_nat (S i)) by lia.
    destruct (IH (S i) (mix c r) μ2) as (μ' & -> & Hbl & Hreg).
    { apply below_wr; [by apply below_wr; [|unfold OUTPUT_DATA_ADDR, OUTPUT_LEN_ADDR; lia]|unfold OUTPUT_DATA_ADDR, OUTPUT_LEN_ADDR; lia]. }
    { lia. }
    exists μ'. split_and!.
    + by rewrite Nat.add_succ_r.
    + intros a Ha. rewrite Hbl by (unfold out in Ha; lia). by apply Hb2.
    + unfold rs. cbn [seq fmap list_fmap concat]. replace (8 * Z.of_nat (S k)) with (8 + 8 * Z.of_nat k) by lia.
      rewrite region_app by lia. f_equal.
      * rewrite (below_region μ' μ2 _ _ _ Hbl) by (unfold out; lia). unfold emit.
        replace 8 with (4 + 4) by lia. rewrite (region_app μ2 out 4 4) by lia. f_equal; unfold μ2, out.
        -- rewrite wr_other by lia. apply (wr_word μ _ 4).
        -- replace (OUTPUT_DATA_ADDR + 24 + 8 * Z.of_nat i + 4) with (OUTPUT_DATA_ADDR + 24 + (8 * Z.of_nat i + 4)) by lia.
           apply (wr_word _ _ 4).
      * replace (out + 8) with (OUTPUT_DATA_ADDR + 24 + 8 * Z.of_nat (S i)) by (unfold out; lia). exact Hreg.
Qed.

Lemma job_mem_above a : OUTPUT_LEN_ADDR <= a -> job_mem img input a = img a.
Proof.
  pose proof input_max. unfold OUTPUT_LEN_ADDR, job_mem, job_start, INPUT_DATA_ADDR, INPUT_LEN_ADDR. cbn [imem]. intros Ha.
  rewrite !(proj2 (Z.leb_le _ _)) by lia. rewrite !(proj2 (Z.ltb_ge _ _)) by lia. done.
Qed.

Lemma job_mem_gap : job_mem img input <$> seqZ (OUTPUT_DATA_ADDR + 16) 8 = img <$> seqZ (OUTPUT_DATA_ADDR + 16) 8.
Proof.
  apply list_fmap_ext. intros i x Hx. apply lookup_seqZ in Hx as [-> Hi].
  apply job_mem_above. unfold OUTPUT_DATA_ADDR, OUTPUT_LEN_ADDR. lia.
Qed.
End Agent.

(** The records agent-task processes: the count in the header, at most [MAX_RECORDS]. *)
Definition record_count (input : list Z) : nat := Z.to_nat (Z.min (le_val (take 4 input)) MAX_RECORDS).

Lemma record_count_spec input : (record_count input <= 4096)%nat.
Proof. unfold record_count, MAX_RECORDS. lia. Qed.

(** agent-task: an input whose records are all there gives the number of record bytes, the
    checksum of the new values, eight bytes of the image, and each record's id and new value;
    an input too short for a header gives an empty report. *)
Theorem agent_task_output img input :
  Z.of_nat (length input) <= INPUT_MAX -> Forall is_byte input ->
  let n := record_count input in
  let rs := nth_record input <$> seq 0 n in
  let gap := img <$> seqZ (OUTPUT_DATA_ADDR + 16) 8 in
  ((length input < 8)%nat -> output_of (agent_task (job_mem img input)) = le_bytes 8 0 ++ le_bytes 8 0 ++ gap) /\
  ((8 <= length input)%nat -> (8 + 16 * n <= length input)%nat ->
   output_of (agent_task (job_mem img input)) =
     le_bytes 8 (8 * Z.of_nat n) ++ le_bytes 8 (foldl mix FNV_SEED rs) ++ gap ++ concat (emit <$> rs)).
Proof.
  intros Hmax Hbytes n rs gap. pose proof (input_max input Hmax) as Hm.
  pose proof (in_len_job_mem img input ltac:(lia)) as Hl. pose proof (record_count_spec input) as Hn. fold n in Hn.
  unfold agent_task. rewrite Hl. split.
  - intros Hs. rewrite (proj2 (Z.ltb_lt _ _)) by lia. rewrite header_output by (done || split; lia).
    rewrite job_mem_gap by done. cbn [seqZ fmap list_fmap]. by rewrite app_nil_r.
  - intros Hs Hr. rewrite (proj2 (Z.ltb_ge _ _)) by lia.
    assert (rd 4 (job_mem img input) INPUT_DATA_ADDR = le_val (take 4 input)) as ->.
    { unfold rd. pose proof (job_mem_region img input 0 4 ltac:(lia)) as E.
      rewrite Z.add_0_r in E. exact (f_equal le_val E). }
    assert (Z.to_nat (if MAX_RECORDS <? le_val (take 4 input) then MAX_RECORDS else le_val (take 4 input)) = n) as ->.
    { unfold n, record_count. destruct (Z.ltb_spec MAX_RECORDS (le_val (take 4 input))); f_equal; lia. }
    destruct (agent_loop_spec img input Hmax n 0 FNV_SEED (job_mem img input)) as (μ' & Hloop & Hb & Hreg); [by intros a|lia|].
    change (Z.of_nat 0) with 0 in *. rewrite Z.mul_0_r, Z.add_0_r in *. rewrite Hloop.
    rewrite header_output by first [split; lia | lia]. cbn [Nat.add]. rewrite Hreg.
    by rewrite (below_region μ' _ _ _ _ Hb), job_mem_gap by (done || lia).
Qed.

(** Two records: double 7, negate 5. *)
Definition agent_input : list Z :=
  le_bytes 4 2 ++ le_bytes 4 2 ++
  le_bytes 4 100 ++ le_bytes 4 7 ++ [1] ++ replicate 7 0 ++
  le_bytes 4 101 ++ le_bytes 4 5 ++ [3] ++ replicate 7 0.

Lemma agent_task_output_witness :
  output_of (agent_task (job_mem (fun _ => 0) agent_input)) =
    le_bytes 8 16 ++ le_bytes 8 (foldl fnv1a FNV_SEED (le_bytes 4 14 ++ le_bytes 4 (2 ^ 32 - 5))) ++ replicate 8 0 ++
    le_bytes 4 100 ++ le_bytes 4 14 ++ le_bytes 4 101 ++ le_bytes 4 (2 ^ 32 - 5).
Proof.
  assert (Z.of_nat (length agent_input) <= INPUT_MAX) as Hm by done.
  assert (Forall is_byte agent_input) as Hb by (apply (bool_decide_unpack _); vm_compute; exact I).
  rewrite (proj2 (agent_task_output (fun _ => 0) agent_input Hm Hb)).
  - vm_compute. reflexivity.
  - vm_compute. lia.
  - vm_compute. lia.
Defined.
