(* ===== verification/DemoBinary.v ===== *)
(** * The committed demo-hash binary (jobs/demo-hash-nano/program.elf)

    The machine code of the one program the repository commits, against the source it was
    compiled from (jobs/demo-hash/job/src/main.rs): a proof, over every input, that the
    reference machine executes it to the memory [Jobs.demo_hash] computes, in a number of
    instructions linear in the input; hence what the emulator and the workers report on it. *)

From S2P Require Import Prelude Text Mem Cpu Interp InterpFacts Run Elf JobFmt ContentStore Wire Quorum Dispute Worker Isa IsaFacts IsaShort IsaRun Sp1 Jobs.

(** ** The program *)

Definition BASE : Z := 0x80000000.

(** The .text section, instruction by instruction. *)
Definition entry_code : list code :=
  [Full (LUI 14 0x10000); Full (Load LD 16 14 0);
   Full (AUIPC 12 0); Full (AUIPC 11 0); Full (AUIPC 10 0); Full (AUIPC 13 0);
   Full (Branch BEQ 16 0 90)].
Definition setup_code : list code :=
  [Short (CLI 15 1); Short (CADDI 14 8);
   Full (Load LD 12 12 160); Full (Load LD 11 11 164); Full (Load LD 6 10 168); Full (Load LD 13 13 140);
   Short (CSLLI 15 40); Full (OpImm ADDI 5 15 435); Short (CADD 16 14); Full (OpImm ADDI 17 5 (-1))].
Definition loop_code : list code :=
  [Full (Load LBU 15 14 0); Short (CADDI 14 1);
   Short (CArith CXOR 4 7); Short (CArith CXOR 3 7); Full (ShImm SLLI 10 15 7); Short (CArith CXOR 5 7);
   Full (Op Isa.MUL 12 12 5); Full (Op Isa.MUL 11 11 17); Full (Op XOR 10 6 10); Full (Op Isa.MUL 13 13 5);
   Full (Op Isa.MUL 6 10 5); Full (ShImm SRLI 10 13 51); Short (CSLLI 13 13); Short (CArith COR 2 5);
   Full (Op XOR 13 10 15); Full (Branch BNE 14 16 (-48))].
Definition empty_code : list code :=
  [Full (Load LD 12 12 160); Full (Load LD 11 11 164); Full (Load LD 6 10 168); Full (Load LD 13 13 140)].
Definition exit_code : list code :=
  [Full (LUI 14 0x20000); Full (OpImm ADDI 15 0 32);
   Short (CSD 7 6 0); Short (CSD 4 6 8); Short (CSD 3 6 16); Full (Store SD 14 6 24); Short (CSD 5 6 32);
   Short CEBREAK].

Definition text : list Z :=
  concat (code_bytes <$> entry_code ++ setup_code ++ loop_code ++ [Short (CJ 18)] ++ empty_code ++ exit_code) ++ [0; 0].
(** The .rodata section: the seeds, as the compiler ordered them. *)
Definition rodata : list Z :=
  concat (le_bytes 8 <$> [0x27d4eb2f165667c5; 0xcbf29ce484222325; 0x9e3779b97f4a7c15; 0x165667e19a9c2b1d]).

(** ** Executions, block by block *)

(** The machine halts after [n] instructions with a memory that satisfies [Q]. *)
Definition ends (σ : isa) (n : Z) (Q : memory -> Prop) : Prop := exists σ', executes σ n σ' /\ Q (imem σ').

(** The sections are in memory. *)
Definition loaded (μ : memory) : Prop :=
  (forall i b, text !! i = Some b -> μ (BASE + Z.of_nat i) = b) /\
  (forall i b, rodata !! i = Some b -> μ (BASE + 0xa0 + Z.of_nat i) = b).

(** The bytes of [k] in the .text section. *)
Definition code_here (pc : Z) (k : code) : bool :=
  (BASE <=? pc) && (pc mod 2 =? 0) && (pc + len k <=? BASE + 154) &&
  bool_decide (take (Z.to_nat (len k)) (drop (Z.to_nat (pc - BASE)) text) = code_bytes k).

Lemma region_lookup (μ : memory) a n bs :
  length bs = Z.to_nat n -> (forall i b, bs !! i = Some b -> μ (a + Z.of_nat i) = b) -> μ <$> seqZ a n = bs.
Proof.
  intros Hl Hb. apply list_eq_same_length with (Z.to_nat n); [done|by rewrite length_fmap, length_seqZ|].
  intros i x y Hi Hx Hy. rewrite list_lookup_fmap, lookup_seqZ_lt in Hx by lia. injection Hx as <-. by apply Hb.
Qed.

Lemma loaded_code μ pc k : loaded μ -> code_here pc k = true -> μ <$> seqZ pc (len k) = code_bytes k.
Proof.
  intros [Ht _] Hc. unfold code_here in Hc. rewrite !andb_true_iff, bool_decide_eq_true, !Z.leb_le in Hc.
  destruct Hc as [[[Hb _] _] Hc]. apply region_lookup.
  - unfold code_bytes. apply length_le_bytes.
  - intros i b Hi. rewrite <- Hc in Hi. apply lookup_take_Some in Hi as [Hi _]. rewrite lookup_drop in Hi.
    rewrite <- (Ht _ _ Hi). f_equal. lia.
Qed.

Lemma word_fits k : code_ok k -> is_u (8 * len k) (word k).
Proof.
  destruct k as [i|c]; cbn [len word code_ok]; intros Hk.
  - by apply encode_low.
  - by apply cencode_low.
Qed.

Lemma loaded_placed rg pc μ k : loaded μ -> code_here pc k = true -> code_ok k -> placed (mkIsa rg pc μ) k.
Proof.
  intros Hl Hc Hk. pose proof (loaded_code μ pc k Hl Hc) as Hb. unfold code_here in Hc.
  rewrite !andb_true_iff, !Z.leb_le, Z.eqb_eq in Hc. destruct Hc as [[[Hb0 He] Ht] _].
  unfold placed, load_bytes. cbn [ipc imem]. unfold BASE, ADDR_SPACE in *. split_and!; [done|lia|lia|].
  rewrite Hb. unfold code_bytes. apply le_val_le_bytes. rewrite Z2Nat.id by by destruct k. by apply word_fits.
Qed.

Lemma ends_next k rg pc μ σ1 n Q :
  loaded μ -> code_here pc k = true -> code_ok k -> division_ok (meaning k) (mkIsa rg pc μ) ->
  isa_exec (len k) (meaning k) (mkIsa rg pc μ) = Next σ1 -> ends σ1 (n - 1) Q -> ends (mkIsa rg pc μ) n Q.
Proof.
  intros Hl Hc Hk Hd E (σ' & Hx & HQ). exists σ'. split; [|done]. replace n with (n - 1 + 1) by lia.
  eapply ex_next; [done|by apply loaded_placed|done..].
Qed.

Lemma ends_halt rg pc μ Q :
  loaded μ -> code_here pc (Short CEBREAK) = true -> Q μ -> ends (mkIsa rg pc μ) 1 Q.
Proof.
  intros Hl Hc HQ. exists (mkIsa rg pc μ). split; [|done]. eapply (ex_halt _ (Short CEBREAK)); [done| |done].
  by apply loaded_placed.
Qed.

Lemma ends_count σ n m Q : ends σ m Q -> n = m -> ends σ n Q.
Proof. by intros ? ->. Qed.

Lemma ends_impl σ n (P Q : memory -> Prop) : ends σ n P -> (forall μ, P μ -> Q μ) -> ends σ n Q.
Proof. intros (σ' & Hx & HP) HQ. exists σ'. split; [done|]. by apply HQ. Qed.

(** Loads and stores inside the space, at a known address. *)
Definition upd (rg : Z -> Z) (rd v : Z) : Z -> Z := fun r => if r =? rd then v else rg r.
Definition st8 (μ : memory) (a v : Z) : memory := fun a' =>
  if (a <=? a') && (a' <? a + 8) then (v / 256 ^ (a' - a)) mod 256 else μ a'.

Lemma ends_load k op rd rs1 imm a v rg pc μ n Q :
  loaded μ -> code_here pc k = true -> code_ok k -> meaning k = Load op rd rs1 imm ->
  u64 (reg (mkIsa rg pc μ) rs1 + imm) = a -> a + l_size op <= ADDR_SPACE ->
  l_val op (le_val (μ <$> seqZ a (l_size op))) = v ->
  ends (mkIsa (upd rg rd v) ((pc + len k) mod 2 ^ 64) μ) (n - 1) Q -> ends (mkIsa rg pc μ) n Q.
Proof.
  intros Hl Hc Hk Hm Ha Hs Hv He. eapply (ends_next k); [done..| | |exact He].
  - by rewrite Hm.
  - rewrite Hm. cbn [isa_exec]. rewrite Ha, (proj2 (Z.leb_le _ _)) by done. unfold load_bytes. cbn [imem].
    by rewrite Hv.
Qed.

Lemma ends_store k rs1 rs2 imm a v rg pc μ n Q :
  loaded μ -> code_here pc k = true -> code_ok k -> meaning k = Store SD rs1 rs2 imm ->
  u64 (reg (mkIsa rg pc μ) rs1 + imm) = a -> reg (mkIsa rg pc μ) rs2 = v -> a + 8 <= ADDR_SPACE ->
  ends (mkIsa rg ((pc + len k) mod 2 ^ 64) (st8 μ a v)) (n - 1) Q -> ends (mkIsa rg pc μ) n Q.
Proof.
  intros Hl Hc Hk Hm Ha Hv Hs He. eapply (ends_next k); [done..| | |exact He].
  - by rewrite Hm.
  - rewrite Hm. cbn [isa_exec s_size]. by rewrite Ha, Hv, (proj2 (Z.leb_le _ _)) by done.
Qed.

Lemma loaded_st8 μ a v : loaded μ -> a + 8 <= BASE -> loaded (st8 μ a v).
Proof.
  intros [Ht Hr] Ha. split; intros i b Hi; unfold st8.
  - rewrite (proj2 (Z.ltb_ge _ _)) by lia. rewrite andb_false_r. by apply Ht.
  - rewrite (proj2 (Z.ltb_ge _ _)) by lia. rewrite andb_false_r. by apply Hr.
Qed.

Lemma st8_wr μ ν a v : (forall x, μ x = ν x) -> forall x, st8 μ a v x = wr ν a (le_bytes 8 v) x.
Proof.
  intros He x. unfold st8, wr. rewrite length_le_bytes. change (Z.of_nat 8) with 8.
  destruct (Z.leb_spec a x), (Z.ltb_spec x (a + 8)); cbn [andb]; try apply He.
  rewrite le_bytes_lookup by lia. cbn [default from_option id]. by rewrite Z2Nat.id by lia.
Qed.

(** *** Tactics: one instruction at a known pc *)

Ltac norm_pc :=
  match goal with
  | |- ends (mkIsa ?rg ?p ?m) ?n ?Q => let p' := eval vm_compute in p in change (ends (mkIsa rg p' m) n Q)
  end.
Ltac regs_of := cbn [reg regs upd Z.eqb Pos.eqb].
Ltac at_pc := first [assumption | vm_compute; reflexivity | by vm_compute].
Ltac branch k :=
  eapply (ends_next k); [at_pc|at_pc|at_pc|exact I| |];
  [let i := eval vm_compute in (meaning k) in change (meaning k) with i;
   cbn [isa_exec]; unfold retire, jump, reg;
   cbn [regs ipc imem r_val i_val sh_val b_taken upd Z.eqb Pos.eqb len]; reflexivity
  |].
Ltac alu k := branch k; norm_pc.

(** Stores to the output keep the program. *)
Ltac keeps_code := repeat (apply loaded_st8; [|done]); assumption.
Ltac load_seed Hseed k rd rs imm i a v :=
  eapply (ends_load k LD rd rs imm a v);
  [at_pc|at_pc|at_pc|reflexivity|reflexivity|done|exact (Hseed i a v eq_refl eq_refl ltac:(done))|norm_pc].
Ltac store k rs1 rs2 imm a v :=
  eapply (ends_store k rs1 rs2 imm a v); [keeps_code|at_pc|at_pc|reflexivity|reflexivity|reflexivity|done|norm_pc].

(** ** The loop *)

(** The accumulators live in x12, x11, x6 and x13. *)
Definition accs (rg : Z -> Z) : list Z := [rg 12; rg 11; rg 6; rg 13].

Lemma rotl7_byte b : is_byte b -> rotl 7 b = u64 (b * 2 ^ 7).
Proof.
  intros Hb. unfold rotl, wrap, u64. rewrite Z.shiftl_mul_pow2, Z.shiftr_div_pow2 by lia.
  rewrite (Z.div_small b) by (unfold is_u in Hb; lia). apply Z.lor_0_r.
Qed.

Lemma rotl13 x : Z.lor (x / 2 ^ 51) (u64 (x * 2 ^ 13)) = rotl 13 x.
Proof. unfold rotl, wrap, u64. rewrite Z.shiftl_mul_pow2, Z.shiftr_div_pow2 by lia. apply Z.lor_comm. Qed.

Section Loop.
Context (μ : memory) (Hl : loaded μ).

(** One round: the byte at x14 is mixed in, and the branch decides on x14 and x16. *)
Lemma round_ends rg n Q b :
  μ (rg 14) = b -> is_byte b -> 0 <= rg 14 < ADDR_SPACE -> rg 5 = Sp1.MUL -> rg 17 = Z.lxor Sp1.MUL 1 ->
  (forall rg', accs rg' = fnv_step (accs rg) b -> rg' 14 = rg 14 + 1 -> rg' 16 = rg 16 -> rg' 5 = rg 5 -> rg' 17 = rg 17 ->
     ends (mkIsa rg' (if rg' 14 =? rg' 16 then 0x80000070 else 0x8000003c) μ) (n - 16) Q) ->
  ends (mkIsa rg 0x8000003c μ) n Q.
Proof.
  intros Hb Hbyte Hp H5 H17 K. unfold ADDR_SPACE in Hp.
  eapply (ends_load (Full (Load LBU 15 14 0)) LBU 15 14 0 (rg 14) b);
    [at_pc|at_pc|at_pc|done| |unfold ADDR_SPACE; cbn [l_size]; lia| |norm_pc].
  { regs_of. unfold u64. rewrite Z.add_0_r. apply Z.mod_small. lia. }
  { cbn [l_size l_val]. replace (seqZ (rg 14) 1) with [rg 14] by done. cbn [fmap list_fmap le_val]. rewrite Hb. lia. }
  alu (Short (CADDI 14 1)). alu (Short (CArith CXOR 4 7)). alu (Short (CArith CXOR 3 7)).
  alu (Full (ShImm SLLI 10 15 7)). alu (Short (CArith CXOR 5 7)).
  alu (Full (Op Isa.MUL 12 12 5)). alu (Full (Op Isa.MUL 11 11 17)). alu (Full (Op XOR 10 6 10)).
  alu (Full (Op Isa.MUL 13 13 5)). alu (Full (Op Isa.MUL 6 10 5)).
  alu (Full (ShImm SRLI 10 13 51)). alu (Short (CSLLI 13 13)). alu (Short (CArith COR 2 5)). alu (Full (Op XOR 13 10 15)).
  branch (Full (Branch BNE 14 16 (-48))).
  match goal with |- ends (mkIsa ?f _ _) _ _ => set (rg' := f) end.
  assert (u64 (rg 14 + 1) = rg 14 + 1) as E by (unfold u64; apply Z.mod_small; lia).
  assert (accs rg' = fnv_step (accs rg) b) as Ha.
  { unfold accs, rg'. cbn [fnv_step Z.eqb Pos.eqb]. rewrite rotl13, rotl7_byte, H5, H17 by done. reflexivity. }
  specialize (K rg' Ha E eq_refl eq_refl eq_refl). change (rg' 14) with (u64 (rg 14 + 1)) in K. change (rg' 16) with (rg 16) in K.
  eapply ends_count; [|instantiate (1 := n - 16); lia].
  by destruct (u64 (rg 14 + 1) =? rg 16).
Qed.

(** What is left of a run: the loop over the rest of the input, then the output. *)
Definition answers (acc : list Z) (μ' : memory) : Prop :=
  forall a, μ' a = write_words OUTPUT_DATA_ADDR acc (wr μ OUTPUT_LEN_ADDR (le_bytes 8 32)) a.

Lemma exit_ends rg acc : accs rg = acc -> ends (mkIsa rg 0x80000082 μ) 8 (answers acc).
Proof.
  intros <-.
  alu (Full (LUI 14 0x20000)). alu (Full (OpImm ADDI 15 0 32)).
  store (Short (CSD 7 6 0)) 14 15 0 OUTPUT_LEN_ADDR 32.
  store (Short (CSD 4 6 8)) 14 12 8 OUTPUT_DATA_ADDR (rg 12).
  store (Short (CSD 3 6 16)) 14 11 16 (OUTPUT_DATA_ADDR + 8) (rg 11).
  store (Full (Store SD 14 6 24)) 14 6 24 (OUTPUT_DATA_ADDR + 8 + 8) (rg 6).
  store (Short (CSD 5 6 32)) 14 13 32 (OUTPUT_DATA_ADDR + 8 + 8 + 8) (rg 13).
  eapply ends_count; [|instantiate (1 := 1); lia]. apply ends_halt; [keeps_code|at_pc|].
  unfold answers, accs. cbn [write_words]. repeat apply st8_wr. done.
Qed.

Lemma loop_ends rest rg :
  rest <> [] -> Forall is_byte rest -> (forall i b, rest !! i = Some b -> μ (rg 14 + Z.of_nat i) = b) ->
  0 <= rg 14 -> rg 14 + Z.of_nat (length rest) <= ADDR_SPACE -> rg 16 = rg 14 + Z.of_nat (length rest) ->
  rg 5 = Sp1.MUL -> rg 17 = Z.lxor Sp1.MUL 1 ->
  ends (mkIsa rg 0x8000003c μ) (16 * Z.of_nat (length rest) + 9) (answers (foldl fnv_step (accs rg) rest)).
Proof.
  revert rg. induction rest as [|b rest IH]; intros rg Hne Hb Hμ H0 Hs H16 H5 H17; [done|].
  apply Forall_cons in Hb as [Hb Hrest]. cbn [length foldl] in *.
  eapply (round_ends _ _ _ b); [|done|lia|done|done|].
  { rewrite <- (Z.add_0_r (rg 14)). by apply (Hμ 0%nat). }
  intros rg' Ha E14 E16 E5 E17. rewrite <- Ha, E14, E16, H16.
  destruct rest as [|b' rest].
  - cbn [length foldl]. rewrite (proj2 (Z.eqb_eq _ _)) by (simpl; lia).
    eapply (ends_count _ _ (1 + 8)); [|simpl; lia]. alu (Short (CJ 18)). by apply exit_ends.
  - rewrite (proj2 (Z.eqb_neq _ _)) by (cbn [length]; lia).
    eapply ends_count; [apply IH|]; [done|done| |lia| |lia|congruence|congruence|lia].
    + intros i x Hi. rewrite E14. rewrite <- (Hμ (S i) x Hi). f_equal. lia.
    + cbn [length] in *. lia.
Qed.

(** A seed of the .rodata section. *)
Lemma seed_at i a v :
  BASE + 0xa0 + Z.of_nat i = a -> bool_decide (take 8 (drop i rodata) = le_bytes 8 v) = true -> is_u64 v ->
  le_val (μ <$> seqZ a 8) = v.
Proof.
  intros <- Hr%bool_decide_eq_true Hv. rewrite (region_lookup μ _ 8 (le_bytes 8 v)), le_val_le_bytes; [done|done|done|].
  intros j b Hj. rewrite <- Hr in Hj. apply lookup_take_Some in Hj as [Hj _]. rewrite lookup_drop in Hj.
  destruct Hl as [_ Hro]. rewrite <- (Hro _ _ Hj). f_equal. lia.
Qed.

(** The program from its entry, on an input of [n] bytes at the ABI's addresses. *)
Lemma entry_ends rg input :
  Forall is_byte input -> Z.of_nat (length input) <= INPUT_MAX ->
  rd 8 μ INPUT_LEN_ADDR = Z.of_nat (length input) ->
  (forall i b, input !! i = Some b -> μ (INPUT_DATA_ADDR + Z.of_nat i) = b) ->
  ends (mkIsa rg 0x80000000 μ) (if bool_decide (input = []) then 19 else 26 + 16 * Z.of_nat (length input))
    (answers (foldl fnv_step SEEDS input)).
Proof.
  intros Hb Hmax Hlen Hin. change INPUT_MAX with 0x4000000 in Hmax.
  alu (Full (LUI 14 0x10000)).
  eapply (ends_load (Full (Load LD 16 14 0)) LD 16 14 0 INPUT_LEN_ADDR (Z.of_nat (length input)));
    [at_pc|at_pc|at_pc|done|reflexivity|done|exact Hlen|norm_pc].
  alu (Full (AUIPC 12 0)). alu (Full (AUIPC 11 0)). alu (Full (AUIPC 10 0)). alu (Full (AUIPC 13 0)).
  destruct (decide (input = [])) as [->|Hne].
  - alu (Full (Branch BEQ 16 0 90)).
    load_seed seed_at (Full (Load LD 12 12 160)) 12 12 160 8%nat 0x800000a8 0xcbf29ce484222325.
    load_seed seed_at (Full (Load LD 11 11 164)) 11 11 164 16%nat 0x800000b0 0x9e3779b97f4a7c15.
    load_seed seed_at (Full (Load LD 6 10 168)) 6 10 168 24%nat 0x800000b8 0x165667e19a9c2b1d.
    load_seed seed_at (Full (Load LD 13 13 140)) 13 13 140 0%nat 0x800000a0 0x27d4eb2f165667c5.
    eapply ends_count; [by apply exit_ends|done].
  - rewrite bool_decide_false by done.
    branch (Full (Branch BEQ 16 0 90)).
    rewrite (proj2 (Z.eqb_neq _ _)) by (destruct input; [done|simpl; lia]). norm_pc.
    alu (Short (CLI 15 1)). alu (Short (CADDI 14 8)).
    load_seed seed_at (Full (Load LD 12 12 160)) 12 12 160 8%nat 0x800000a8 0xcbf29ce484222325.
    load_seed seed_at (Full (Load LD 11 11 164)) 11 11 164 16%nat 0x800000b0 0x9e3779b97f4a7c15.
    load_seed seed_at (Full (Load LD 6 10 168)) 6 10 168 24%nat 0x800000b8 0x165667e19a9c2b1d.
    load_seed seed_at (Full (Load LD 13 13 140)) 13 13 140 0%nat 0x800000a0 0x27d4eb2f165667c5.
    alu (Short (CSLLI 15 40)). alu (Full (OpImm ADDI 5 15 435)). alu (Short (CADD 16 14)). alu (Full (OpImm ADDI 17 5 (-1))).
    match goal with |- ends (mkIsa ?f _ _) _ _ => set (rg' := f) end.
    assert (rg' 14 = INPUT_DATA_ADDR) as E14 by reflexivity.
    assert (rg' 16 = INPUT_DATA_ADDR + Z.of_nat (length input)) as E16.
    { change (rg' 16) with (u64 (Z.of_nat (length input) + INPUT_DATA_ADDR)). unfold u64, INPUT_DATA_ADDR.
      rewrite Z.mod_small by lia. lia. }
    eapply ends_count; [apply (loop_ends input rg'); [done|done| | | | |reflexivity|reflexivity]|lia].
    + rewrite E14. exact Hin.
    + rewrite E14. done.
    + rewrite E14. unfold INPUT_DATA_ADDR, ADDR_SPACE. lia.
    + by rewrite E14, E16.
Qed.
End Loop.

(** ** The file *)

(** The ELF and program headers. *)
Definition nano_head : list Z :=
   [127; 69; 76; 70; 2; 1; 1] ++ replicate 9 0 ++ [2; 0; 243; 0; 1] ++ replicate 6 0 ++ [128; 0; 0; 0; 0; 64] ++
   replicate 7 0 ++ [224; 19] ++ replicate 6 0 ++ [1; 0; 0; 0; 64; 0; 56; 0; 4; 0; 64; 0; 9; 0; 7; 0; 1; 0; 0; 0;
   5; 0; 0; 0; 0; 16] ++ replicate 9 0 ++ [128] ++ replicate 7 0 ++ [128; 0; 0; 0; 0; 154] ++ replicate 7 0 ++
   [154] ++ replicate 8 0 ++ [16] ++ replicate 6 0 ++ [1; 0; 0; 0; 4; 0; 0; 0; 160; 16] ++ replicate 6 0 ++ [160;
   0; 0; 128; 0; 0; 0; 0; 160; 0; 0; 128; 0; 0; 0; 0; 32] ++ replicate 7 0 ++ [32] ++ replicate 8 0 ++ [16] ++
   replicate 6 0 ++ [81; 229; 116; 100; 6] ++ replicate 51 0 ++ [3; 0; 0; 112; 4; 0; 0; 0; 89; 17] ++ replicate
   22 0 ++ [78] ++ replicate 7 0 ++ [78] ++ replicate 7 0 ++ [1] ++ replicate 7 0.

(** The comment, attribute, symbol and name sections, and the section headers. *)
Definition nano_tail : list Z :=
   [114; 117; 115; 116; 99; 32; 118; 101; 114; 115; 105; 111; 110; 32; 49; 46; 57; 56; 46; 49; 32; 40; 52; 56;
   97; 50; 50; 57; 99; 101; 97; 32; 50; 48; 50; 54; 45; 48; 57; 45; 48; 49; 41; 0; 0; 76; 105; 110; 107; 101;
   114; 58; 32; 76; 76; 68; 32; 50; 50; 46; 49; 46; 56; 32; 40; 104; 116; 116; 112; 115; 58; 47; 47; 103; 105;
   116; 104; 117; 98; 46; 99; 111; 109; 47; 114; 117; 115; 116; 45; 108; 97; 110; 103; 47; 108; 108; 118; 109;
   45; 112; 114; 111; 106; 101; 99; 116; 46; 103; 105; 116; 32; 53; 50; 101; 100; 49; 52; 102; 99; 100; 53; 54;
   97; 102; 99; 51; 48; 102; 57; 99; 99; 99; 100; 56; 99; 97; 56; 99; 101; 50; 51; 55; 99; 50; 101; 101; 102; 55;
   101; 48; 52; 41; 0; 65; 77; 0; 0; 0; 114; 105; 115; 99; 118; 0; 1; 67; 0; 0; 0; 4; 16; 5; 114; 118; 54; 52;
   105; 50; 112; 49; 95; 109; 50; 112; 48; 95; 97; 50; 112; 49; 95; 99; 50; 112; 48; 95; 122; 109; 109; 117; 108;
   49; 112; 48; 95; 122; 97; 97; 109; 111; 49; 112; 48; 95; 122; 97; 108; 114; 115; 99; 49; 112; 48; 95; 122; 99;
   97; 49; 112; 48] ++ replicate 26 0 ++ [1; 0; 0; 0; 4; 0; 241; 255] ++ replicate 16 0 ++ [34; 0; 0; 0; 0; 0; 2;
   0; 168; 0; 0; 128] ++ replicate 12 0 ++ [37; 0; 0; 0; 0; 0; 1; 0; 0; 0; 0; 128] ++ replicate 12 0 ++ [42; 0;
   0; 0; 0; 0; 1; 0; 0; 0; 0; 128] ++ replicate 12 0 ++ [45; 0; 0; 0; 0; 0; 1; 0; 8; 0; 0; 128] ++ replicate 12 0
   ++ [57; 0; 0; 0; 0; 0; 1; 0; 12; 0; 0; 128] ++ replicate 12 0 ++ [69; 0; 0; 0; 0; 0; 1; 0; 16; 0; 0; 128] ++
   replicate 12 0 ++ [81; 0; 0; 0; 0; 0; 1; 0; 20; 0; 0; 128] ++ replicate 12 0 ++ [93; 0; 0; 0; 0; 0; 4; 0; 44]
   ++ replicate 15 0 ++ [96; 0; 0; 0; 0; 0; 241; 255] ++ replicate 16 0 ++ [99; 0; 0; 0; 0; 0; 241; 255] ++
   replicate 16 0 ++ [104; 0; 0; 0; 0; 0; 241; 255] ++ replicate 16 0 ++ [107; 0; 0; 0; 18; 0; 1; 0; 0; 0; 0;
   128; 0; 0; 0; 0; 154] ++ replicate 7 0 ++ [114; 0; 0; 0; 16; 0; 3; 0; 192; 8; 0; 128] ++ replicate 13 0 ++
   [46; 116; 101; 120; 116; 0; 46; 114; 111; 100; 97; 116; 97; 0; 46; 100; 97; 116; 97; 0; 46; 99; 111; 109; 109;
   101; 110; 116; 0; 46; 114; 105; 115; 99; 118; 46; 97; 116; 116; 114; 105; 98; 117; 116; 101; 115; 0; 46; 115;
   121; 109; 116; 97; 98; 0; 46; 115; 104; 115; 116; 114; 116; 97; 98; 0; 46; 115; 116; 114; 116; 97; 98; 0; 0;
   100; 101; 109; 111; 95; 104; 97; 115; 104; 46; 98; 50; 54; 48; 99; 56; 54; 101; 99; 55; 48; 52; 57; 52; 48;
   57; 45; 99; 103; 117; 46; 48; 0; 36; 100; 0; 46; 76; 48; 32; 0; 36; 120; 0; 46; 76; 112; 99; 114; 101; 108;
   95; 104; 105; 48; 0; 46; 76; 112; 99; 114; 101; 108; 95; 104; 105; 49; 0; 46; 76; 112; 99; 114; 101; 108; 95;
   104; 105; 50; 0; 46; 76; 112; 99; 114; 101; 108; 95; 104; 105; 51; 0; 36; 100; 0; 36; 100; 0; 46; 76; 48; 32;
   0; 36; 100; 0; 95; 115; 116; 97; 114; 116; 0; 95; 95; 103; 108; 111; 98; 97; 108; 95; 112; 111; 105; 110; 116;
   101; 114; 36] ++ replicate 67 0 ++ [1; 0; 0; 0; 1; 0; 0; 0; 6] ++ replicate 10 0 ++ [128; 0; 0; 0; 0; 0; 16]
   ++ replicate 6 0 ++ [154] ++ replicate 15 0 ++ [2] ++ replicate 15 0 ++ [7; 0; 0; 0; 1; 0; 0; 0; 18] ++
   replicate 7 0 ++ [160; 0; 0; 128; 0; 0; 0; 0; 160; 16] ++ replicate 6 0 ++ [32] ++ replicate 15 0 ++ [8] ++
   replicate 7 0 ++ [8] ++ replicate 7 0 ++ [15; 0; 0; 0; 1; 0; 0; 0; 2] ++ replicate 7 0 ++ [192; 0; 0; 128; 0;
   0; 0; 0; 192; 16] ++ replicate 22 0 ++ [8] ++ replicate 15 0 ++ [21; 0; 0; 0; 1; 0; 0; 0; 48] ++ replicate 15
   0 ++ [192; 16] ++ replicate 6 0 ++ [153] ++ replicate 15 0 ++ [1] ++ replicate 7 0 ++ [1] ++ replicate 7 0 ++
   [30; 0; 0; 0; 3; 0; 0; 112] ++ replicate 16 0 ++ [89; 17] ++ replicate 6 0 ++ [78] ++ replicate 15 0 ++ [1] ++
   replicate 15 0 ++ [48; 0; 0; 0; 2] ++ replicate 19 0 ++ [168; 17] ++ replicate 6 0 ++ [104; 1] ++ replicate 6
   0 ++ [8; 0; 0; 0; 13; 0; 0; 0; 8] ++ replicate 7 0 ++ [24] ++ replicate 7 0 ++ [56; 0; 0; 0; 3] ++ replicate
   19 0 ++ [16; 19] ++ replicate 6 0 ++ [74] ++ replicate 15 0 ++ [1] ++ replicate 15 0 ++ [66; 0; 0; 0; 3] ++
   replicate 19 0 ++ [90; 19] ++ replicate 6 0 ++ [132] ++ replicate 15 0 ++ [1] ++ replicate 15 0.

(** jobs/demo-hash-nano/program.elf *)
Definition nano_elf : list Z :=
  nano_head ++ replicate 3808 0 ++ text ++ replicate 6 0 ++ rodata ++ nano_tail.

Lemma nano_parse : parse nano_elf = Ok (mkElf BASE [(BASE, text); (BASE + 0xa0, rodata)] None).
Proof. vm_compute. reflexivity. Qed.

Lemma nano_bytes : Forall is_byte nano_elf.
Proof. apply (bool_decide_unpack _). vm_compute. exact I. Qed.

(** ** The program on every input *)

(** The instructions of a run on [n] bytes of input. *)
Definition demo_instructions (input : list Z) : Z :=
  if bool_decide (input = []) then 19 else 26 + 16 * Z.of_nat (length input).

Lemma loaded_job_mem img input : loaded img -> Z.of_nat (length input) <= INPUT_MAX -> loaded (job_mem img input).
Proof.
  intros [Ht Hr] Hm. split; intros i b Hi.
  - rewrite job_mem_above by (done || unfold BASE, OUTPUT_LEN_ADDR; lia). by apply Ht.
  - rewrite job_mem_above by (done || unfold BASE, OUTPUT_LEN_ADDR; lia). by apply Hr.
Qed.

(** The machine code implements the source: on every input, byte for byte, the memory it
    halts with is the one the source computes. *)
Lemma demo_binary_executes img input :
  loaded img -> Forall is_byte input -> Z.of_nat (length input) <= INPUT_MAX ->
  exists σ', executes (job_start img BASE input) (demo_instructions input) σ' /\
    forall a, imem σ' a = demo_hash (job_mem img input) a.
Proof.
  intros Hl Hb Hm. pose proof Hm as Hm'. change INPUT_MAX with 0x4000000 in Hm'.
  assert (Z.of_nat (length input) < 2 ^ 64) as H64 by lia.
  pose proof (loaded_job_mem img input Hl Hm) as Hlm.
  destruct (entry_ends (job_mem img input) Hlm (regs (job_start img BASE input)) input) as (σ' & Hx & Ha); [done|done| | |].
  - by apply in_len_job_mem.
  - intros i b. by apply job_mem_data.
  - exists σ'. split; [exact Hx|]. intros a. rewrite Ha. unfold demo_hash. by rewrite fold_whole.
Qed.

(** Hence the output region. *)
Lemma demo_binary_output img input σ' :
  (forall a, imem σ' a = demo_hash (job_mem img input) a) -> Z.of_nat (length input) < 2 ^ 64 ->
  job_output_len σ' = 32 /\ job_output σ' = v2_fold input.
Proof.
  intros Ha Hlen. rewrite <- (demo_hash_output img input Hlen), <- (demo_hash_len img input Hlen).
  unfold job_output, job_output_len, output_of, rd, load_bytes.
  assert (forall b n, imem σ' <$> seqZ b n = demo_hash (job_mem img input) <$> seqZ b n) as E
    by (intros b n; apply list_fmap_ext; intros; apply Ha).
  by rewrite !E.
Qed.

Lemma awrite_pages_ok A a bs : pages_ok A -> Forall is_byte bs -> pages_ok (awrite A a bs).
Proof.
  intros HA Hb. revert A a HA. induction Hb as [|b bs Hb _ IH]; intros A a HA; [done|]. cbn [awrite].
  apply IH. by apply awrite1_ok.
Qed.

(** Two segments, one after the other. *)
Lemma two_segments A a1 d1 a2 d2 :
  pages_ok A -> Forall is_byte d1 -> Forall is_byte d2 -> a1 + Z.of_nat (length d1) <= a2 ->
  (forall i b, d1 !! i = Some b -> abyte (awrite (awrite A a1 d1) a2 d2) (a1 + Z.of_nat i) = b) /\
  (forall i b, d2 !! i = Some b -> abyte (awrite (awrite A a1 d1) a2 d2) (a2 + Z.of_nat i) = b).
Proof.
  intros HA H1 H2 Hs. split; intros i b Hi; pose proof (lookup_lt_Some _ _ _ Hi);
    (rewrite abyte_awrite; [|by apply awrite_pages_ok|done]).
  - rewrite decide_False by lia. rewrite abyte_awrite by done. rewrite decide_True by lia.
    replace (Z.to_nat (a1 + Z.of_nat i - a1)) with i by lia. by rewrite Hi.
  - rewrite decide_True by lia. replace (Z.to_nat (a2 + Z.of_nat i - a2)) with i by lia. by rewrite Hi.
Qed.

Lemma image_loaded A : pages_ok A -> loaded (abyte (awrite (awrite A BASE text) (BASE + 0xa0) rodata)).
Proof.
  intros HA. apply two_segments; [exact HA|apply (bool_decide_unpack _); vm_compute; exact I..|].
  apply (bool_decide_unpack _). vm_compute. exact I.
Qed.

Section Run.
Context `{Blake3}.

(** The run from a memory that holds the image. *)
Lemma nano_run cfg m input :
  job_config cfg -> mem_wf m -> loaded (abyte (abs m)) -> Forall is_byte input -> Z.of_nat (length input) <= INPUT_MAX ->
  demo_instructions input <= max_instructions cfg ->
  exists out, run m BASE input cfg = Some (Ok out) /\ status out = Halted /\ instructions out = demo_instructions input /\
    Run.output out = Some (v2_fold input).
Proof.
  intros Hcfg Wm Hl Hb Hmax Hn. pose proof Hmax as Hm. change INPUT_MAX with 0x4000000 in Hm.
  assert (Z.of_nat (length input) < 2 ^ 64) as H64 by lia.
  destruct (demo_binary_executes _ _ Hl Hb Hmax) as (σ' & Hx & Ha).
  destruct (demo_binary_output _ _ σ' Ha H64) as [Hlen Ho].
  destruct (run_refines cfg Hcfg m BASE input (demo_instructions input) σ' Wm) as (out & Hr & Hi & Hs);
    [done|done|unfold INPUT_DATA_ADDR, ADDR_SPACE; lia|exact Hx|exact Hn|].
  rewrite Hlen, Ho in Hs. destruct Hs as [Hs Hout]. by exists out.
Qed.

(** A worker's execution of the binary. *)
Lemma demo_run job :
  job_elf job = nano_elf -> Forall is_byte (job_input job) -> Z.of_nat (length (job_input job)) <= INPUT_MAX ->
  demo_instructions (job_input job) <= m_max_instructions (manifest job) ->
  exists out, execute_job job = Ok out /\ status out = Halted /\ instructions out = demo_instructions (job_input job) /\
    Run.output out = Some (v2_fold (job_input job)).
Proof.
  intros He Hb Hmax Hn.
  destruct (load_parsed nano_elf _ new nano_bytes nano_parse new_wf) as (m & Hload & Wm & Habs & _).
  assert (loaded (abyte (abs m))) as Hl by (rewrite Habs; exact (image_loaded _ (abs_pages_ok _ new_wf))).
  destruct (nano_run (judge_cfg (m_chunk_size (manifest job)) (m_max_instructions (manifest job))) m (job_input job))
    as (out & Hr & Hs & Hi & Ho); [split; reflexivity|exact Wm|exact Hl|exact Hb|exact Hmax|exact Hn|].
  exists out. split; [|split; [exact Hs|split; [exact Hi|exact Ho]]].
  unfold execute_job. rewrite He, nano_parse. cbn [map_err mbind outcome_bind]. rewrite Hload. cbn [entry]. by rewrite Hr.
Qed.

(** C6. The committed binary is the job its source describes: a worker that executes
    jobs/demo-hash-nano/program.elf on any input within the ABI's limit and the manifest's
    budget finishes halted, after 26 instructions and 16 for each byte (19 for an empty
    input), and its output is the four-stream hash of the source, which is also what the V2
    build of the job commits. *)
Theorem demo_binary_correct job :
  job_elf job = nano_elf -> Forall is_byte (job_input job) -> Z.of_nat (length (job_input job)) <= INPUT_MAX ->
  demo_instructions (job_input job) <= m_max_instructions (manifest job) ->
  exists out, execute_job job = Ok out /\ status out = Halted /\ instructions out = demo_instructions (job_input job) /\
    Run.output out = Some (v2_fold (job_input job)) /\
    forall img, output_of (demo_hash (job_mem img (job_input job))) = v2_fold (job_input job).
Proof.
  intros He Hb Hmax Hn. destruct (demo_run job He Hb Hmax Hn) as (out & Hx & Hs & Hi & Ho).
  exists out. split; [exact Hx|split; [exact Hs|split; [exact Hi|split; [exact Ho|]]]].
  intros img. apply demo_hash_output. change INPUT_MAX with 0x4000000 in Hmax. lia.
Qed.
End Run.
