(* ===== verification/DemoJob.v ===== *)
(** * The committed job through the whole system

    The theorems of [EndToEnd] at the job whose ELF is jobs/demo-hash-nano/program.elf: with
    [DemoBinary] the accepted hash is not only that of some run but the digest of the hash
    function the source of the job computes. *)

From S2P Require Import Prelude Text Mem Cpu Interp Run Elf JobFmt ContentStore Wire Quorum Ledger Dispute ZkJudge.
From S2P Require Import Server Serve ServeFacts DispatchFacts Worker EndToEnd NetDemo EndDemo Sp1 Jobs DemoBinary.

Section DemoJob.
Context `{Blake3} `{Sha256} `{Ed25519} `{!Signer} `{Os} `{NetOs} `{TmpOs} `{Procs}.
Context `{Json JobManifest} `{Json JobDescriptor} `{Json RVerdict} `{Json JudgeVerdict} `{Json ProveMeta}.
Context `{Json Ledger} `{Json Evidence} `{Json ClientToServer} `{Json ServerToClient} `{Json PeerToPeer}.

(** A manifest under which the committed binary runs on [inp]. *)
Definition demo_manifest_ok (m : JobManifest) (inp : list Z) : Prop :=
  names_ok m /\ is_sp1_v2 m = false /\ demo_instructions inp <= m_max_instructions m.

(** The digest a run of the job has. *)
Definition demo_digest (inp : list Z) : string := hex (journal_digest (demo_instructions inp) (v2_fold inp)).

(** The job's own run is that of the binary. *)
Lemma nano_runs_to desc mb m inp :
  job_blobs desc mb m nano_elf inp -> demo_manifest_ok m inp -> Forall is_byte inp -> Z.of_nat (length inp) <= INPUT_MAX ->
  exists o, runs_to desc o /\ status o = Halted /\ out_digest o = demo_digest inp.
Proof.
  intros Hblobs ((Pe & Pi & Hei & Hej & Hij) & Hv & Hn) Hb Hm.
  destruct (demo_run {| manifest := m; dir := ""; job_elf := nano_elf; job_input := inp |} eq_refl Hb Hm Hn)
    as (o & Hx & Hs & Hi & Ho).
  exists o. split_and!; [|done|by unfold out_digest, demo_digest; rewrite Hi, Ho].
  exists mb, m, nano_elf, inp. split; [exact Hblobs|]. destruct Hblobs as (_ & Hs' & _).
  exists mb, m, nano_elf, inp. split_and!; try done; unfold job_files.
  - by rewrite !lookup_insert_ne, lookup_singleton_eq.
  - rewrite lookup_insert_ne by (intros E; exact (Hei (eq_sym E))). apply lookup_insert_eq.
  - apply lookup_insert_eq.
Qed.

End DemoJob.

(** ** The session of a pool on the committed job *)

#[local] Existing Instances toy_blake3 toy_sha256 toy_ed25519 toy_os toy_net toy_tmp toy_procs toy_sink toy_signer toy_wos.
#[local] Existing Instances k1 k2 k3 k4 k5 k6 k7 k8 k9 k10.

Definition nano_input : list Z := [1; 2; 3].
Definition nano_job : Job := {| manifest := demo_manifest; dir := ""; job_elf := nano_elf; job_input := nano_input |}.
Definition nano_out : RunOutcome := default (mkOutcome Halted [] 0 None []) (ok (execute_job nano_job)).

Lemma nano_input_ok : Forall is_byte nano_input /\ Z.of_nat (length nano_input) <= INPUT_MAX.
Proof. split; [by repeat constructor|done]. Qed.

Lemma demo_binary_correct_witness :
  exists out, execute_job nano_job = Ok out /\ status out = Halted /\ instructions out = 74 /\
    Run.output out = Some (v2_fold nano_input).
Proof.
  destruct (demo_binary_correct nano_job eq_refl (proj1 nano_input_ok) (proj2 nano_input_ok) ltac:(vm_compute; discriminate))
    as (out & Hx & Hs & Hi & Ho & _).
  exists out. split; [exact Hx|]. split; [exact Hs|]. split; [exact Hi|exact Ho].
Defined.

Definition nano_store : Store := (put_blob nano_input (put_blob nano_elf (put_blob demo_mb ∅).2).2).2.
Definition nano_desc : JobDescriptor := {|
  d_job_id := "demo"; d_manifest := to_hex (from_data demo_mb); d_elf := to_hex (from_data nano_elf);
  d_input := to_hex (from_data nano_input) |}.
Definition nano_vote (id : string) (n : Z) : WorkerResult :=
  sign_result (Some n) (build_result (worker_cfg id) nano_job nano_out).
Definition nano_forged : WorkerResult := sign_result (Some 3) (build_result liar_cfg nano_job nano_out).

Lemma nano_honest id n :
  submits (worker_cfg id) (Some n) nano_desc (nano_vote id n) -> honest_result nano_desc (nano_vote id n).
Proof. intros Hs. exists toy_os, toy_wos, toy_sink, (worker_cfg id), n. by split_and!; [exact toy_faithful|..]. Qed.

Lemma nano_vote_1 : honest_result nano_desc (nano_vote "w1" 1).
Proof.
  apply nano_honest. exists [], (worker_with nano_store [] []), [JobResult (nano_vote "w1" 1)].
  split; [vm_compute; reflexivity|left].
Qed.

Lemma nano_vote_2 : honest_result nano_desc (nano_vote "w2" 2).
Proof.
  apply nano_honest. exists [], (worker_with nano_store [] []), [JobResult (nano_vote "w2" 2)].
  split; [vm_compute; reflexivity|left].
Qed.

Definition nano_server : Server :=
  init_server nano_store {[ "demo.desc.json"%string := to_vec nano_desc ]} ∅ NotFound tmp0 ∅.
Definition nano_session : list sys_input :=
  pool_session ++ vote 1 (nano_vote "w1" 1) ++ vote 3 nano_forged ++ vote 2 (nano_vote "w2" 2).
Definition nano_voted : Server := default nano_server (exec net_cfg nano_session nano_server).
Definition nano_finished : Server := (turn net_cfg (net_env 0 []) nano_voted).2.

Definition nano_outcome : FinishedJob :=
  default (mkFinished "" Escalate [] []) (last (outcomes nano_finished)).

Lemma nano_voted_reachable : reachable net_cfg nano_voted.
Proof.
  exists nano_store, {[ "demo.desc.json"%string := to_vec nano_desc ]}, ∅, NotFound, tmp0, ∅.
  apply (exec_sound net_cfg nano_session); [apply session_envs; by repeat constructor|].
  unfold nano_voted. assert (is_Some (exec net_cfg nano_session nano_server)) as [sv Hsv];
    [|fold nano_server; by rewrite Hsv].
  apply (bool_decide_unpack _). vm_compute. exact I.
Qed.

Lemma nano_turn : turn net_cfg (net_env 0 []) nano_voted = (Ok true, nano_finished).
Proof. unfold nano_finished. apply ok_pair. vm_compute. reflexivity. Qed.

Lemma nano_outcomes : outcomes nano_finished = outcomes nano_voted ++ [nano_outcome].
Proof. vm_compute. reflexivity. Qed.

Definition nano_hash : string := match f_decision nano_outcome with Accept h _ _ _ => h | _ => ""%string end.

Lemma nano_decision :
  f_decision nano_outcome = Accept nano_hash (Some (hex (v2_fold nano_input))) ["w1"; "w2"]%string false.
Proof. vm_compute. reflexivity. Qed.

Definition nano_pending : PendingJob := default queued (pending (scan_step (net_env 0 []) nano_voted).2).

Lemma nano_pending_is :
  pending (scan_step (net_env 0 []) nano_voted).2 = Some nano_pending /\ pj_descriptor nano_pending = nano_desc /\
  results nano_pending = [nano_vote "w1" 1; nano_forged; nano_vote "w2" 2].
Proof. split_and!; vm_compute; reflexivity. Qed.

Lemma nano_blobs : job_blobs nano_desc demo_mb demo_manifest nano_elf nano_input.
Proof. split_and!; vm_compute; reflexivity. Qed.

Lemma nano_manifest_ok : demo_manifest_ok demo_manifest nano_input.
Proof. split; [split_and!; try done; apply (bool_decide_unpack _); vm_compute; exact I|split; [done|vm_compute; discriminate]]. Qed.

