(* ===== verification/Scaffold.v ===== *)
(** * Scaffolding of job crates (crates/jobkit/src/scaffold.rs and jobkit new)

    The templates, [str::replace], and the two forms of [jobkit new] over a tree of files and
    directories; and the programs of the templates, which compute the same output for the
    sandbox and for the zkVM.  In a template the double quote is written @ and the star %. *)

From S2P Require Import Prelude Text Mem Cpu Interp Run JobFmt Isa IsaRun Sp1 Jobs.

Definition template (s : string) : list Z :=
  (fun c => if c =? 64 then 34 else if c =? 37 then 42 else c) <$> as_bytes s.

(** ** The templates *)

Definition SCAFFOLD_ABI_RS : list Z := template
"//! The job ABI constants, as a path-dependency crate of the job.
//! Contract with the emulator (crates/abi in provework has the docs):

#![no_std]

pub const INPUT_LEN_ADDR: u64 = 0x1000_0000;
pub const INPUT_DATA_ADDR: u64 = 0x1000_0008;
pub const OUTPUT_LEN_ADDR: u64 = 0x2000_0000;
pub const OUTPUT_DATA_ADDR: u64 = 0x2000_0008;
pub const ELF_BASE: u64 = 0x8000_0000;
pub const STACK_TOP: u64 = 0x83F0_0000;
pub const ISA: &str = @rv64imc@;
".

Definition SCAFFOLD_MAIN_RS : list Z := template
"//! Your job: a deterministic, integer-only program. No network, no
//! filesystem, no clock, no floats. The emulator executes exactly this
//! code and the receipt proves the exact traversal.

#![no_std]
#![no_main]

use abi;
use core::arch::asm;
use core::panic::PanicInfo;
use core::ptr;

#[panic_handler]
fn panic(_: &PanicInfo) -> ! {
    unsafe { asm!(@ebreak@, options(noreturn)) }
}

#[no_mangle]
pub extern @C@ fn _start() -> ! {
    unsafe {
        let in_len = ptr::read_volatile(abi::INPUT_LEN_ADDR as %const u64) as usize;
        let in_ptr = abi::INPUT_DATA_ADDR as %const u8;

        // TODO: your computation over the input bytes.
        let mut acc: u64 = 0xcbf2_9ce4_8422_2325;
        for i in 0..in_len {
            acc = (acc ^ ptr::read_volatile(in_ptr.add(i)) as u64).wrapping_mul(0x100_0000_01b3);
        }

        // Write the result: u64 length, then bytes.
        let result = acc.to_le_bytes();
        ptr::write_volatile(abi::OUTPUT_LEN_ADDR as %mut u64, result.len() as u64);
        for (i, &b) in result.iter().enumerate() {
            ptr::write_volatile((abi::OUTPUT_DATA_ADDR as %mut u8).add(i), b);
        }

        asm!(@ebreak@, options(noreturn))
    }
}
".

Definition SCAFFOLD_LINK_LD : list Z := template
"OUTPUT_ARCH(@riscv@)
ENTRY(_start)

MEMORY {
    RAM (rwx) : ORIGIN = 0x80000000, LENGTH = 60M
}

SECTIONS {
    .text : {
        KEEP(%(.text._start))
        %(.text .text.%)
    } > RAM

    .rodata : ALIGN(8) {
        %(.rodata .rodata.%)
        %(.srodata .srodata.%)
    } > RAM

    .data : ALIGN(8) {
        __global_pointer$ = . + 0x800;
        %(.sdata .sdata.%)
        %(.data .data.%)
    } > RAM

    .bss (NOLOAD) : ALIGN(8) {
        %(.sbss .sbss.%)
        %(.bss .bss.%)
    } > RAM
}
".

Definition SCAFFOLD_ABI_CARGO_TOML : list Z := template
"[package]
name = @abi@
version = @0.1.0@
edition = @2021@

[workspace]
".

Definition SCAFFOLD_CARGO_TOML : list Z := template
"[package]
name = @{{NAME}}@
version = @0.1.0@
edition = @2021@

# Detached from any workspace: this crate targets RISC-V.
[workspace]
# The abi sub-crate is its own workspace root (built as a plain path
# dependency) — exclude it so cargo does not see two roots.
exclude = [@abi@]

[dependencies]
abi = { path = @abi@ }

[profile.release]
panic = @abort@
opt-level = 2
lto = true
codegen-units = 1
".

Definition SCAFFOLD_CARGO_CONFIG : list Z := template
"[build]
target = @riscv64imac-unknown-none-elf@

[target.riscv64imac-unknown-none-elf]
# -a: no atomics → no lr/sc in the instruction stream (the emulator
# pins rv64imc). Compressed instructions are fine.
rustflags = [
    @-C@, @link-arg=-Tlink.ld@,
    @-C@, @target-feature=-a@,
]
".

Definition SCAFFOLD_README : list Z := template
"# {{NAME}} — a provework job

A deterministic, integer-only program that runs inside the provework
sandbox on machines nobody has to trust.

## Constraints (the sandbox enforces these)

- Integer math only — no floating point, no atomics (`-a`).
- No network, no filesystem, no clock, no randomness.
- Fully deterministic: the same input always produces the same
  receipt chain on every machine.
- Input arrives at `abi::INPUT_DATA_ADDR` (length at `INPUT_LEN_ADDR`);
  write your result to `abi::OUTPUT_DATA_ADDR` (length at
  `OUTPUT_LEN_ADDR`); halt with `ebreak`.
- Runs at ~1/100th to ~1/1000th of native speed — size accordingly.

## Flow

```bash
jobkit build .        # compile for RISC-V + validate the ELF
jobkit submit . --server <coordinator:7777>   # delegate + wait for the receipt
jobkit evidence --results <results-dir> --job-id <id>   # auditor bundle
```
".

Definition SCAFFOLD_MANIFEST : list Z := template
"{
  @schema@: 1,
  @id@: @{{ID}}@,
  @name@: @{{NAME}}@,
  @isa@: @rv64imc@,
  @toolchain@: @rustc, riscv64imac-unknown-none-elf, rust-lld, link.ld@,
  @chunk_size@: 1048576,
  @max_instructions@: 4000000000,
  @verification_class@: @quorum3@,
  @elf@: @program.elf@,
  @input@: @input.bin@
}".

Definition V2_GUEST_CARGO_TOML : list Z := template
"[package]
name = @{{NAME}}@
version = @0.1.0@
edition = @2021@

[workspace]

[dependencies]
sp1-zkvm = @6.8.0@
blake3 = { version = @1@, default-features = false }
".

Definition V2_GUEST_MAIN_RS : list Z := template
"//! Your V2 (SP1-native) job. This program runs DIRECTLY inside the
//! SP1 zkVM — no emulator in the loop, ~100x cheaper to prove than
//! legacy jobs — but it is only executable by SP1 fleets.
//!
//! Protocol: read your input via `sp1_zkvm::io::read::<Vec<u8>>()`,
//! commit `blake3(input)` first (the binding verifiers pin receipts
//! with), then commit your output. Deterministic integer logic only:
//! no network, filesystem, clock, randomness, or floats.

#![no_main]
sp1_zkvm::entrypoint!(main);

fn main() {
    let input: Vec<u8> = sp1_zkvm::io::read();
    let input_id: [u8; 32] = blake3::hash(&input).into();
    sp1_zkvm::io::commit(&input_id);

    // TODO: your computation here. Replace this FNV hash with your
    // actual logic — anything deterministic and integer-only.
    let mut acc: u64 = 0xcbf2_9ce4_8422_2325;
    for &b in &input {
        acc = (acc ^ b as u64).wrapping_mul(0x100_0000_01b3);
    }
    let output = acc.to_le_bytes().to_vec();
    sp1_zkvm::io::commit(&output);
}
".

Definition V2_MANIFEST : list Z := template
"{
  @schema@: 1,
  @id@: @{{ID}}@,
  @name@: @{{NAME}}@,
  @isa@: @rv64imc@,
  @format@: @sp1-v2@,
  @toolchain@: @sp1 6.8.0 (riscv64im-succinct-zkvm-elf)@,
  @chunk_size@: 1048576,
  @max_instructions@: 1000000000,
  @verification_class@: @quorum3@,
  @elf@: @program.elf@,
  @input@: @input.bin@
}".

Definition SCAFFOLD_SAMPLE_INPUT : list Z := as_bytes "provework sample input" ++ [10].

(** ** Replacement *)

Definition starts (pat l : list Z) : bool := bool_decide (take (length pat) l = pat).

(** [str::replace]: leftmost occurrences, none overlapping; [skip] bytes are inside one. *)
Fixpoint replace_go (pat by_ : list Z) (skip : nat) (l : list Z) : list Z :=
  match l with
  | [] => []
  | c :: t =>
      match skip with
      | S k => replace_go pat by_ k t
      | O => if starts pat l then by_ ++ replace_go pat by_ (length pat - 1) t else c :: replace_go pat by_ 0 t
      end
  end.
Definition replace (l pat by_ : list Z) : list Z := replace_go pat by_ 0 l.

Definition NAME : list Z := as_bytes "{{NAME}}".
Definition ID : list Z := as_bytes "{{ID}}".

(** ** jobkit new *)

(** The file system: the files with their contents, and the directories. *)
Record Tree : Type := mkTree { t_files : gmap string (list Z); t_dirs : gset string }.

Section New.
Context `{Os} (os_mkdir : string -> outcome string unit).

Definition path_exists (t : Tree) (p : string) : bool := bool_decide (is_Some (t_files t !! p) \/ p ∈ t_dirs t).

(** [create_dir_all(..).expect(..)] and [write(..).unwrap()] *)
Definition make_dir (p : string) : M Tree string unit := fun t =>
  match os_mkdir p with
  | Ok _ => (Ok tt, mkTree (t_files t) ({[p]} ∪ t_dirs t))
  | _ => (Panic, t)
  end.
Definition put_file (p : string) (data : list Z) : M Tree string unit := fun t =>
  match os_write p data with
  | Ok stored => (Ok tt, mkTree (<[p := stored]> (t_files t)) (t_dirs t))
  | _ => (Panic, mkTree (failed_write p p data (t_files t)) (t_dirs t))
  end.

Fixpoint make_dirs (dir : string) (subs : list string) : M Tree string unit :=
  match subs with
  | [] => mret tt
  | s :: subs' => _ ← make_dir (dir +:+ "/" +:+ s); make_dirs dir subs'
  end.
Fixpoint put_files (dir : string) (files : list (string * list Z)) : M Tree string unit :=
  match files with
  | [] => mret tt
  | (p, data) :: files' => _ ← put_file (dir +:+ "/" +:+ p) data; put_files dir files'
  end.

(** job.json with both placeholders filled in, in this order. *)
Definition manifest_text (tmpl : list Z) (name : string) : list Z :=
  replace (replace tmpl NAME (as_bytes name)) ID (as_bytes (name +:+ "-0001")).

Definition legacy_files (name : string) : list (string * list Z) :=
  [("Cargo.toml"%string, replace SCAFFOLD_CARGO_TOML NAME (as_bytes name));
   (".cargo/config.toml"%string, SCAFFOLD_CARGO_CONFIG);
   ("link.ld"%string, SCAFFOLD_LINK_LD);
   ("README.md"%string, replace SCAFFOLD_README NAME (as_bytes name))].
Definition abi_files (name : string) : list (string * list Z) :=
  [("abi/Cargo.toml"%string, SCAFFOLD_ABI_CARGO_TOML);
   ("abi/src/lib.rs"%string, SCAFFOLD_ABI_RS);
   ("src/main.rs"%string, SCAFFOLD_MAIN_RS);
   ("job.json"%string, manifest_text SCAFFOLD_MANIFEST name);
   ("input.bin"%string, SCAFFOLD_SAMPLE_INPUT)].
Definition v2_files (name : string) : list (string * list Z) :=
  [("guest/Cargo.toml"%string, replace V2_GUEST_CARGO_TOML NAME (as_bytes (name +:+ "-guest")));
   ("guest/src/main.rs"%string, V2_GUEST_MAIN_RS);
   ("job.json"%string, manifest_text V2_MANIFEST name);
   ("input.bin"%string, SCAFFOLD_SAMPLE_INPUT)].

(** The exit code; a name that exists is refused before anything is written.  The empty
    subdirectory is the directory itself. *)
Definition new_job_v2 (name : string) : M Tree string Z := fun t =>
  if path_exists t name then (Ok 1, t)
  else (_ ← make_dir name; _ ← make_dirs name ["guest/src"%string]; _ ← put_files name (v2_files name); mret 0) t.

Definition new_job (name : string) (v2 : bool) : M Tree string Z := fun t =>
  if v2 then new_job_v2 name t
  else if path_exists t name then (Ok 1, t)
  else (_ ← make_dir name; _ ← make_dirs name ["src"; ".cargo"]%string; _ ← put_files name (legacy_files name);
        _ ← make_dirs name ["abi/src"%string]; _ ← put_files name (abi_files name); mret 0) t.
End New.

(** ** The program of the V2 template *)

Definition v2_scaffold_guest `{Blake3} `{Bincode} : M Guest string unit :=
  inp ← io_read;
  _ ← io_commit c_id (blake3 inp);
  io_commit c_bytes (le_bytes 8 (foldl fnv1a FNV_SEED inp)).

(** ** Replacement, part by part *)

(** No occurrence of [pat] starts in [l] and ends after it. *)
Fixpoint clean (pat l : list Z) : bool :=
  match l with
  | [] => true
  | c :: t => negb (bool_decide (take (length l) pat = l) && (length l <? length pat)%nat) && clean pat t
  end.

Lemma starts_app pat l k : clean pat l = true -> l <> [] -> starts pat (l ++ k) = starts pat l.
Proof.
  intros Hc Hl. unfold starts. destruct (decide (length pat <= length l)%nat) as [Hle|Hgt].
  - by rewrite take_app_le.
  - rewrite (bool_decide_false (take (length pat) l = pat)).
    + apply bool_decide_false. intros E. destruct l as [|c t]; [done|]. cbn [clean] in Hc.
      rewrite andb_true_iff, negb_true_iff, andb_false_iff, bool_decide_eq_false, Nat.ltb_ge in Hc.
      destruct Hc as [[Hc|Hc] _]; [|lia]. apply Hc. rewrite <- E, take_take, Nat.min_l by lia.
      by rewrite take_app_length.
    + intros E. apply (f_equal length) in E. rewrite length_take in E. lia.
Qed.

Lemma replace_go_app pat by_ skip l k :
  clean pat l = true -> (skip <= length l)%nat ->
  replace_go pat by_ skip (l ++ k) = replace_go pat by_ skip l ++ replace_go pat by_ 0 k.
Proof.
  revert skip. induction l as [|c t IH]; intros skip Hc Hs; [simpl in Hs; by destruct skip; [|lia]|].
  cbn [app replace_go]. assert (clean pat t = true) as Ht by (cbn [clean] in Hc; by apply andb_true_iff in Hc as [_ ?]).
  destruct skip as [|skip]; [|apply IH; [done|simpl in Hs; lia]].
  rewrite app_comm_cons, starts_app by done. destruct (starts pat (c :: t)) eqn:E.
  - rewrite <- app_assoc. f_equal. apply IH; [done|]. unfold starts in E. apply bool_decide_eq_true in E.
    apply (f_equal length) in E. rewrite length_take in E. simpl in E. lia.
  - cbn [app]. f_equal. apply IH; [done|lia].
Qed.

Lemma replace_app pat by_ l k : clean pat l = true -> replace (l ++ k) pat by_ = replace l pat by_ ++ replace k pat by_.
Proof. intros Hc. apply replace_go_app; [done|lia]. Qed.

Lemma replace_go_skip pat by_ skip l : (length l <= skip)%nat -> replace_go pat by_ skip l = [].
Proof.
  revert skip. induction l as [|c t IH]; intros skip Hs; [done|]. destruct skip as [|skip]; simpl in Hs; [lia|].
  cbn [replace_go]. apply IH. lia.
Qed.

Lemma replace_self pat by_ : pat <> [] -> replace pat pat by_ = by_.
Proof.
  intros Hp. unfold replace. destruct pat as [|c t]; [done|]. cbn [replace_go]. unfold starts.
  rewrite firstn_all, bool_decide_true by done. rewrite replace_go_skip by (simpl; lia). apply app_nil_r.
Qed.

(** Text without an opening brace is left alone by both placeholders. *)
Definition plain (l : list Z) : Prop := Forall (fun c => c <> 123) l.

Lemma plain_clean p l : plain l -> clean (123 :: p) l = true.
Proof.
  induction 1 as [|c t Hc _ IH]; [done|]. cbn [clean]. rewrite IH, andb_true_r, bool_decide_false; [done|].
  cbn [length take]. intros [= E _]. by apply Hc.
Qed.

Lemma replace_plain p by_ l : plain l -> replace l (123 :: p) by_ = l.
Proof.
  induction 1 as [|c t Hc _ IH]; [done|]. unfold replace in *. cbn [replace_go]. unfold starts.
  rewrite bool_decide_false; [by rewrite IH|]. cbn [length take]. intros [= E _]. by apply Hc.
Qed.

(** Both placeholders start with a brace. *)
Lemma plain_NAME by_ l : plain l -> replace l NAME by_ = l.
Proof. exact (replace_plain (drop 1 NAME) by_ l). Qed.
Lemma plain_ID by_ l : plain l -> replace l ID by_ = l.
Proof. exact (replace_plain (drop 1 ID) by_ l). Qed.
Lemma clean_ID l : plain l -> clean ID l = true.
Proof. exact (plain_clean (drop 1 ID) l). Qed.

(** ** The manifest *)

(** The texts of a manifest before the id, between id and name, and after the name. *)
Definition BEFORE_ID : list Z := template "{
  @schema@: 1,
  @id@: @".
Definition BEFORE_NAME : list Z := template "@,
  @name@: @".
Definition after_name (tmpl : list Z) : list Z := drop (length (BEFORE_ID ++ ID ++ BEFORE_NAME ++ NAME)) tmpl.

Lemma manifest_filled tmpl name :
  tmpl = BEFORE_ID ++ ID ++ BEFORE_NAME ++ NAME ++ after_name tmpl -> plain (after_name tmpl) -> plain (as_bytes name) ->
  manifest_text tmpl name = BEFORE_ID ++ as_bytes name ++ as_bytes "-0001" ++ BEFORE_NAME ++ as_bytes name ++ after_name tmpl.
Proof.
  intros -> Ha Hn. set (rest := after_name _) in *. clearbody rest.
  assert (replace (BEFORE_ID ++ ID ++ BEFORE_NAME ++ NAME ++ rest) NAME (as_bytes name) =
    (BEFORE_ID ++ ID ++ BEFORE_NAME) ++ as_bytes name ++ rest) as E.
  { rewrite !(replace_app NAME) by (vm_compute; reflexivity).
    rewrite (replace_self NAME), (plain_NAME _ rest) by done.
    rewrite <- !app_assoc. done. }
  unfold manifest_text. rewrite E, <- !app_assoc.
  rewrite (replace_app ID _ BEFORE_ID), (replace_app ID _ ID), (replace_app ID _ BEFORE_NAME) by (vm_compute; reflexivity).
  rewrite (replace_app ID _ (as_bytes name)) by by apply clean_ID.
  rewrite (plain_ID _ (as_bytes name)), (plain_ID _ rest) by done.
  rewrite (replace_self ID), as_bytes_app by done.
  rewrite <- !app_assoc. done.
Qed.

Lemma manifest_parts :
  (SCAFFOLD_MANIFEST = BEFORE_ID ++ ID ++ BEFORE_NAME ++ NAME ++ after_name SCAFFOLD_MANIFEST /\ plain (after_name SCAFFOLD_MANIFEST)) /\
  (V2_MANIFEST = BEFORE_ID ++ ID ++ BEFORE_NAME ++ NAME ++ after_name V2_MANIFEST /\ plain (after_name V2_MANIFEST)).
Proof. unfold plain. split; split; (vm_compute; reflexivity) || (apply (bool_decide_unpack _); vm_compute; exact I). Qed.

(** ** The created crate *)

Definition in_dir (dir p : string) : string := (dir +:+ "/" +:+ p)%string.
Definition place (dir : string) (files : list (string * list Z)) (m : gmap string (list Z)) : gmap string (list Z) :=
  foldl (fun m f => <[in_dir dir f.1 := f.2]> m) m files.

Lemma in_dir_inj dir p q : in_dir dir p = in_dir dir q -> p = q.
Proof. unfold in_dir. intros E. apply (inj (String.append dir)) in E. by injection E. Qed.

Lemma place_other dir files m q : (forall p, p ∈ files.*1 -> q <> in_dir dir p) -> place dir files m !! q = m !! q.
Proof.
  revert m. induction files as [|[p d] files IH]; intros m Hq; [done|]. unfold place in *. cbn [foldl].
  rewrite IH by (intros p' Hp'; apply Hq; by right). apply lookup_insert_ne. apply not_eq_sym, Hq. by left.
Qed.

Lemma place_lookup dir files m p d : NoDup files.*1 -> (p, d) ∈ files -> place dir files m !! in_dir dir p = Some d.
Proof.
  revert m. induction files as [|[p' d'] files IH]; intros m Hnd Hin; [by apply not_elem_of_nil in Hin|].
  cbn in Hnd. apply NoDup_cons in Hnd as [Hni Hnd]. apply elem_of_cons in Hin as [[= -> ->]|Hin].
  - change (place dir files (<[in_dir dir p' := d']> m) !! in_dir dir p' = Some d'). rewrite place_other.
    + apply lookup_insert_eq.
    + intros q Hq E. apply in_dir_inj in E as ->. done.
  - by apply (IH (<[in_dir dir p' := d']> m)).
Qed.

Lemma place_app dir f1 f2 m : place dir (f1 ++ f2) m = place dir f2 (place dir f1 m).
Proof. unfold place. by rewrite foldl_app. Qed.

(** Everything [jobkit new] writes. *)
Definition crate_files (name : string) (v2 : bool) : list (string * list Z) :=
  if v2 then v2_files name else legacy_files name ++ abi_files name.

Section NewFacts.
Context `{Os} (os_mkdir : string -> outcome string unit).
Context (Hmk : forall p, os_mkdir p = Ok tt) (Hw : forall p b, os_write p b = Ok b).

Lemma make_dirs_ok dir subs t : exists ds, make_dirs os_mkdir dir subs t = (Ok tt, mkTree (t_files t) ds).
Proof.
  revert t. induction subs as [|s subs IH]; intros t; [exists (t_dirs t); by destruct t|].
  cbn [make_dirs]. unfold mbind, M_bind, make_dir. rewrite Hmk. apply (IH (mkTree (t_files t) _)).
Qed.

Lemma put_files_ok dir files t : put_files dir files t = (Ok tt, mkTree (place dir files (t_files t)) (t_dirs t)).
Proof.
  revert t. induction files as [|[p d] files IH]; intros t; [by destruct t|].
  cbn [put_files]. unfold mbind, M_bind, put_file. rewrite Hw. by rewrite IH.
Qed.

Lemma new_job_created name v2 t :
  path_exists t name = false ->
  exists ds, new_job os_mkdir name v2 t = (Ok 0, mkTree (place name (crate_files name v2) (t_files t)) ds).
Proof.
  intros He. unfold new_job, new_job_v2. rewrite He.
  assert (make_dir os_mkdir name t = (Ok tt, mkTree (t_files t) ({[name]} ∪ t_dirs t))) as Hd
    by (unfold make_dir; by rewrite Hmk).
  destruct v2; rewrite (bind_eq _ _ _ _ _ Hd).
  - destruct (make_dirs_ok name ["guest/src"%string] (mkTree (t_files t) ({[name]} ∪ t_dirs t))) as [ds1 E1].
    rewrite (bind_eq _ _ _ _ _ E1), (bind_eq _ _ _ _ _ (put_files_ok _ _ _)). by eexists.
  - destruct (make_dirs_ok name ["src"; ".cargo"]%string (mkTree (t_files t) ({[name]} ∪ t_dirs t))) as [ds1 E1].
    rewrite (bind_eq _ _ _ _ _ E1), (bind_eq _ _ _ _ _ (put_files_ok _ _ _)). cbn [t_files t_dirs].
    destruct (make_dirs_ok name ["abi/src"%string] (mkTree (place name (legacy_files name) (t_files t)) ds1)) as [ds2 E2].
    rewrite (bind_eq _ _ _ _ _ E2), (bind_eq _ _ _ _ _ (put_files_ok _ _ _)). cbn [t_files t_dirs crate_files].
    rewrite place_app. by eexists.
Qed.

Lemma crate_files_distinct name v2 : NoDup (crate_files name v2).*1.
Proof. destruct v2; apply (bool_decide_unpack _); vm_compute; exact I. Qed.

(** [jobkit new] on a working disk: a name that exists is refused with exit code 1 and nothing
    is written; a fresh name gets exactly the files of its kind, and no other file changes; and
    for a name without braces the manifest carries the name and the id made from it where the
    template has its placeholders, and no placeholder is left. *)
Theorem new_job_spec name v2 t :
  (path_exists t name = true -> new_job os_mkdir name v2 t = (Ok 1, t)) /\
  (path_exists t name = false -> exists t', new_job os_mkdir name v2 t = (Ok 0, t') /\
     (forall p d, (p, d) ∈ crate_files name v2 -> t_files t' !! in_dir name p = Some d) /\
     (forall q, (forall p, p ∈ (crate_files name v2).*1 -> q <> in_dir name p) -> t_files t' !! q = t_files t !! q) /\
     (plain (as_bytes name) ->
        t_files t' !! in_dir name "job.json" =
          Some (BEFORE_ID ++ as_bytes name ++ as_bytes "-0001" ++ BEFORE_NAME ++ as_bytes name ++
                after_name (if v2 then V2_MANIFEST else SCAFFOLD_MANIFEST)))).
Proof.
  split.
  - intros He. unfold new_job, new_job_v2. rewrite He. by destruct v2.
  - intros He. destruct (new_job_created name v2 t He) as [ds Hn]. eexists. split; [exact Hn|]. cbn [t_files].
    split_and!.
    + intros p d. apply place_lookup, crate_files_distinct.
    + intros q. apply place_other.
    + intros Hp. destruct manifest_parts as [[E1 P1] [E2 P2]]. destruct v2.
      * rewrite <- (manifest_filled V2_MANIFEST name E2 P2 Hp). apply place_lookup; [apply (crate_files_distinct name true)|].
        right. right. left.
      * rewrite <- (manifest_filled SCAFFOLD_MANIFEST name E1 P1 Hp). apply place_lookup; [apply (crate_files_distinct name false)|].
        do 7 right. left.
Qed.
End NewFacts.

(** ** The two templates compute the same *)

(** Legacy and V2 scaffold: on every input, the output the host collects from the legacy
    template's job is what the V2 template's guest commits, after the input's id. *)
Theorem scaffolds_agree `{Blake3} `{Bincode} img inp :
  Z.of_nat (length inp) < 2 ^ 64 ->
  guest_run v2_scaffold_guest [inp] =
    Ok (enc c_id (blake3 inp) ++ enc c_bytes (output_of (scaffold_job (job_mem img inp)))).
Proof. intros Hl. by rewrite scaffold_job_output. Qed.

Definition no_files : Tree := mkTree ∅ ∅.

Lemma new_job_spec_witness :
  exists t', @new_job toy_os (fun _ => Ok tt) "my-job" false no_files = (Ok 0, t') /\
    t_files t' !! "my-job/job.json"%string =
      Some (BEFORE_ID ++ as_bytes "my-job" ++ as_bytes "-0001" ++ BEFORE_NAME ++ as_bytes "my-job" ++ after_name SCAFFOLD_MANIFEST).
Proof.
  assert (forall p, (fun _ : string => @Ok string unit tt) p = Ok tt) as Hmk by reflexivity.
  assert (forall p b, @os_write toy_os p b = Ok b) as Hw by reflexivity.
  destruct (proj2 (@new_job_spec toy_os (fun _ => Ok tt) Hmk Hw "my-job" false no_files) ltac:(vm_compute; reflexivity))
    as (t' & Hn & _ & _ & Hj).
  exists t'. split; [exact Hn|]. apply Hj. apply (bool_decide_unpack _). vm_compute. exact I.
Defined.
