(* ===== verification/Sp1Emu.v ===== *)
(** * Validation of the emulator guest (sp1-host/src/bin/emu.rs)

    The local emulator and the same emulator compiled as an SP1 guest on one job: [execute]
    compares the values the zkVM commits, [prove] also makes and saves a receipt, [verify]
    checks a saved receipt against the guest ELF and the local run.  Every assertion that
    fails is a panic. *)

From S2P Require Import Prelude Text Mem Cpu Interp InterpFacts Run Chain Elf JobFmt ContentStore Wire Quorum Dispute ZkJudge Worker Sp1 Sp1Facts.

Definition RECEIPT_PATH : string := "../sp1-artifacts/nano-receipt.bin".
Definition GUEST_COPY : string := "../sp1-artifacts/sp1-guest-emu.elf".
Definition GUEST_PATH : string := "../elf/sp1-guest-emu".

Section Emu.
Context `{Blake3} `{Bincode} `{!Sp1} `{Os} `{Json JobManifest}.

(** The three files of a job directory. *)
Definition read_file (d : Dir) (p : string) : outcome string (list Z) := expect (ok_or (d !! p) os_missing).

Definition read_job (d : Dir) (job_dir : string) : outcome string (list Z * list Z * list Z) :=
  mb ← read_file d (job_dir +:+ "/job.json")%string;
  e ← read_file d (job_dir +:+ "/program.elf")%string;
  i ← read_file d (job_dir +:+ "/input.bin")%string;
  mret (mb, e, i).

(** [local_reference]: status, instructions, chain and output of the local run. *)
Definition local_reference (mb e i : list Z) : outcome string (Z * Z * list (list Z) * list Z) :=
  m ← expect (from_slice (A := JobManifest) mb);
  out ← guest_execute m e i;
  mret (zk_status (status out), instructions out, chunk_hashes out, default [] (Run.output out)).

(** The assertions on the committed values, in their order. *)
Definition check_committed (mb e i : list Z) (st n : Z) (chain : list (list Z)) (out : list Z) : M (list Z) string unit :=
  binding ← pv_read c_ids;
  if negb (bool_decide (binding = job_binding mb e i)) then mpanic
  else
    st' ← pv_read c_u32;
    n' ← pv_read c_u64;
    chain' ← pv_read c_hashes;
    out' ← pv_read c_bytes;
    if bool_decide (st' = st /\ n' = n /\ chain' = chain /\ out' = out) then mret tt else mpanic.

(** [verify]: the receipt is loaded and the key derived from the guest ELF; the committed
    values are checked before the proof is. *)
Definition emu_verify (d : Dir) (mb e i : list Z) (ref : Z * Z * list (list Z) * list Z) (receipt guest : string) :
    outcome string unit :=
  let '(st, n, chain, out) := ref in
  rb ← read_file d receipt;
  proof ← expect (proof_load rb);
  gb ← read_file d guest;
  pk ← expect (sp1_setup gb);
  _ ← (check_committed mb e i st n chain out (public_values proof)).1;
  expect (sp1_verify proof pk).

Definition emu_execute (d : Dir) (mb e i : list Z) (ref : Z * Z * list (list Z) * list Z) : outcome string unit :=
  let '(st, n, chain, out) := ref in
  gb ← read_file d GUEST_PATH;
  _ ← expect (sp1_setup gb);
  '(pv, _) ← expect (sp1_execute gb [mb; e; i]);
  (check_committed mb e i st n chain out pv).1.

(** [prove]: the verified receipt and the guest ELF are saved for later checks. *)
Definition emu_prove (mb e i : list Z) (ref : Z * Z * list (list Z) * list Z) : M Dir string unit := fun d =>
  let '(st, n, chain, out) := ref in
  let r :=
    gb ← read_file d GUEST_PATH;
    pk ← expect (sp1_setup gb);
    proof ← expect (sp1_prove pk [mb; e; i]);
    _ ← (check_committed mb e i st n chain out (public_values proof)).1;
    _ ← expect (sp1_verify proof pk);
    mret (gb, proof) in
  match r with
  | Ok (gb, proof) =>
      match os_write RECEIPT_PATH (proof_bytes proof) with
      | Ok stored =>
          let d1 := <[RECEIPT_PATH := stored]> d in
          match os_write GUEST_COPY gb with
          | Ok copy => (Ok tt, <[GUEST_COPY := copy]> d1)
          | _ => (Panic, failed_write GUEST_COPY GUEST_COPY gb d1)
          end
      | _ => (Panic, failed_write RECEIPT_PATH RECEIPT_PATH (proof_bytes proof) d)
      end
  | Err e => (Err e, d)
  | Panic => (Panic, d)
  end.

Inductive EmuMode : Type := EmuExecute | EmuProve | EmuVerify (receipt guest : option string).

Definition emu_mode (args : list string) : outcome string EmuMode :=
  match args with
  | [] => Ok EmuExecute
  | m :: rest =>
      if bool_decide (m = "execute"%string) then Ok EmuExecute
      else if bool_decide (m = "prove"%string) then Ok EmuProve
      else if bool_decide (m = "verify"%string) then Ok (EmuVerify (rest !! 1%nat) (rest !! 2%nat))
      else Panic
  end.

(** [main], over the arguments after the program's name. *)
Definition emu_main (args : list string) : M Dir string unit := fun d =>
  let job_dir := default "../jobs/demo-hash-smoke"%string (args !! 1%nat) in
  match (mode ← emu_mode args; '(mb, e, i) ← read_job d job_dir; ref ← local_reference mb e i; mret (mode, mb, e, i, ref)) with
  | Ok (EmuExecute, mb, e, i, ref) => (emu_execute d mb e i ref, d)
  | Ok (EmuProve, mb, e, i, ref) => emu_prove mb e i ref d
  | Ok (EmuVerify receipt guest, mb, e, i, ref) =>
      (emu_verify d mb e i ref (default RECEIPT_PATH receipt) (default GUEST_COPY guest), d)
  | Err e => (Err e, d)
  | Panic => (Panic, d)
  end.
End Emu.

(** ** Facts *)

Section EmuFacts.
Context `{Blake3} `{Bincode} `{!BincodeLaws} `{!Sp1} `{Os} `{Json JobManifest} `{!ManifestTyped}.

(** The assertions hold exactly of the values a guest that runs the job commits. *)
Lemma check_committed_emu mb e i m out :
  Forall is_byte e -> Forall is_byte i -> from_slice mb = Ok m -> guest_execute m e i = Ok out ->
  (check_committed mb e i (zk_status (status out)) (instructions out) (chunk_hashes out) (default [] (Run.output out))
     (emu_values (job_binding mb e i) out)).1 = Ok tt.
Proof.
  intros He Hi Hm Hx. destruct (emu_values_back (job_binding mb e i) out (job_binding_typed _ _ _)
    (emu_typed _ _ _ _ _ He Hi Hm Hx)) as [Hids Hrest].
  unfold check_committed. rewrite (bind_eq _ _ _ _ _ Hids), bool_decide_true by done. cbn [negb].
  rewrite Hrest. by rewrite bool_decide_true.
Qed.

(** The zkVM agrees with the local emulator: on every job the local emulator runs, when the
    zkVM executes the compiled guest as its source says, the validation passes. *)
Theorem emu_execute_passes d mb e i ref gb pk pv n :
  Forall is_byte e -> Forall is_byte i -> local_reference mb e i = Ok ref ->
  d !! GUEST_PATH = Some gb -> sp1_setup gb = Ok pk ->
  sp1_execute gb [mb; e; i] = Ok (pv, n) -> guest_run guest_emu [mb; e; i] = Ok pv ->
  emu_execute d mb e i ref = Ok tt.
Proof.
  intros He Hi Href Hg Hpk Hex Hrun. unfold local_reference in Href.
  apply obind_ok in Href as (m & Hm & Href). apply expect_ok in Hm.
  apply obind_ok in Href as (out & Hx & [= <-]).
  apply guest_emu_inv in Hrun as (mb' & e' & i' & rest & m' & out' & [= <- <- <- _] & Hm' & Hx' & ->).
  rewrite Hm in Hm'. injection Hm' as <-. rewrite Hx in Hx'. injection Hx' as <-.
  unfold emu_execute, read_file. rewrite Hg. cbn [ok_or expect mbind outcome_bind].
  rewrite Hpk. cbn [expect mbind outcome_bind]. rewrite Hex. cbn [expect mbind outcome_bind].
  by eapply check_committed_emu.
Qed.

(** A saved receipt stays checkable: when proving passes on a working disk and receipts load
    as they were saved, the verification of the saved files passes. *)
Theorem prove_then_verify mb e i ref d d' :
  (forall p b, os_write p b = Ok b) -> (forall p : sp1_proof, proof_load (proof_bytes p) = Ok p) ->
  emu_prove mb e i ref d = (Ok tt, d') ->
  emu_verify d' mb e i ref RECEIPT_PATH GUEST_COPY = Ok tt.
Proof.
  intros Hw Hl. destruct ref as [[[st n] chain] out]. unfold emu_prove.
  destruct (read_file d GUEST_PATH ≫= _) as [[gb proof]| |] eqn:E; try done.
  rewrite !Hw. intros [= <-].
  apply obind_ok in E as (gb' & Hg & E). apply obind_ok in E as (pk & Hpk & E).
  apply obind_ok in E as (pr & Hpr & E). apply obind_ok in E as ([] & Hc & E).
  apply obind_ok in E as ([] & Hv & [= -> ->]). apply expect_ok in Hpk, Hv.
  unfold emu_verify, read_file. rewrite (lookup_insert_ne _ GUEST_COPY RECEIPT_PATH), (lookup_insert_eq d RECEIPT_PATH) by done.
  cbn [ok_or expect mbind outcome_bind]. rewrite Hl. cbn [expect mbind outcome_bind].
  rewrite lookup_insert_eq. cbn [ok_or expect mbind outcome_bind]. rewrite Hpk. cbn [expect mbind outcome_bind].
  rewrite Hc. cbn [mbind outcome_bind]. by rewrite Hv.
Qed.
End EmuFacts.
