(* ===== verification/HarnessDemo.v ===== *)
(** * Executions of the test harnesses

    The differential harness on the published job, the riscv-tests driver on a small
    directory, and the emulator validation on a zkVM that runs the guest. *)

From S2P Require Import Prelude Text Mem Cpu Interp Run Chain Elf JobFmt ContentStore Wire Quorum Ledger Dispute ZkJudge.
From S2P Require Import Server Serve ServeCmd ServeFacts DispatchFacts Worker Local EndToEnd NetDemo EndDemo LocalDemo.
From S2P Require Import Sp1 Sp1Facts Sp1Demo ConformanceCmd Difftest Sp1Emu.

#[local] Existing Instances toy_blake3 toy_sha256 toy_ed25519 toy_os toy_signer toy_wos.

(** ** The differential harness *)

Section Differential.
#[local] Existing Instances l1 l3 l3_laws.

Definition diff_args : DiffArgs := mkDiffArgs "jobs/demo" None "difftest".
Definition cargo_works : string -> list string -> M Disk string bool := fun _ _ d => (Ok true, d).
Definition built_disk : Disk := {[ path_join (given_dir "/src" diff_args) "program.elf" := demo_job_elf ]}.
Definition diff_job : Job := {| manifest := demo_manifest; dir := "/src/jobs/demo"; job_elf := demo_job_elf; job_input := [] |}.
Definition one_worker : string -> list string -> M Disk string bool := fun _ => worker_process (replicate 32 9) job_dir_files.

Lemma differential_passes_witness :
  exists d', diff_main "/src" cargo_works one_worker (fun _ _ d => (Ok false, d)) diff_args built_disk = (Ok 0, d').
Proof.
  assert (forall p b, os_write p b = Ok b) as Hw by (intros p b; reflexivity).
  assert (forall bin argv d, one_worker bin argv d = worker_process (replicate 32 9) job_dir_files argv d) as Hs
    by (intros bin argv d; reflexivity).
  apply (proj2 (differential_passes "/src" cargo_works one_worker (fun _ _ d => (Ok false, d)) (replicate 32 9)
    job_dir_files Hw Hs diff_args built_disk eq_refl) diff_job dir_out).
  - apply (bool_decide_unpack _). vm_compute. exact I.
  - intros dir argv d0. exists d0. reflexivity.
  - vm_compute. reflexivity.
  - vm_compute. reflexivity.
Defined.
End Differential.

(** ** riscv-tests *)

(** One program that is no ELF file, and one that halts without a report. *)
Definition test_files : gmap string (list Z) :=
  {[ "tests/a.elf"%string := [1; 2; 3]; "tests/b.elf"%string := demo_job_elf ]}.
Definition test_names : list string := ["b.elf"; "notes.txt"; "a.elf"]%string.
Definition arch_run : Z * nat * nat * list (string * Failure) :=
  default (9, 0%nat, 0%nat, []) (ok (cmd_arch test_files "tests" (Ok test_names))).

Lemma arch_spec_witness :
  (arch_run.1.1.1 = 0 <-> Forall (passes test_files "tests") (arch_elfs test_names)) /\ arch_run.1.1.1 = 1 /\
  arch_run.2.*1 = ["a"; "b"]%string.
Proof.
  split; [|vm_compute; split; reflexivity].
  apply (proj1 (arch_spec test_files "tests" test_names arch_run.1.1.1 arch_run.1.1.2 arch_run.1.2 arch_run.2
    ltac:(vm_compute; reflexivity))).
Defined.

(** A directory without tests passes. *)
Lemma arch_empty_passes : cmd_arch ∅ "tests" (Ok []) = Ok (0, 0%nat, 0%nat, []).
Proof. reflexivity. Qed.

(** ** The emulator validation *)

Section Emulator.
#[local] Existing Instances toy_bincode toy_bincode_laws s1 s1_typed toy_sp1.

Definition emu_disk : Dir := {[ GUEST_PATH := emu_elf ]}.
Definition emu_ref : Z * Z * list (list Z) * list Z :=
  default (9, 0, [], []) (ok (local_reference demo_mb demo_job_elf [])).
Definition emu_pv : list Z := default [] (ok (guest_run guest_emu [demo_mb; demo_job_elf; []])).

Lemma emu_ref_is : local_reference demo_mb demo_job_elf [] = Ok emu_ref.
Proof. vm_compute. reflexivity. Qed.
Lemma emu_pv_is : guest_run guest_emu [demo_mb; demo_job_elf; []] = Ok emu_pv.
Proof. vm_compute. reflexivity. Qed.
Lemma emu_run_is : sp1_execute emu_elf [demo_mb; demo_job_elf; []] = Ok (emu_pv, 100).
Proof. vm_compute. reflexivity. Qed.

Lemma emu_execute_passes_witness : emu_execute emu_disk demo_mb demo_job_elf [] emu_ref = Ok tt.
Proof.
  pose proof demo_typed as Ht. apply Forall_cons in Ht as [_ Ht]. apply Forall_cons in Ht as [He _].
  apply (emu_execute_passes emu_disk demo_mb demo_job_elf [] emu_ref emu_elf (emu_elf : @proving_key toy_sp1) emu_pv 100).
  - exact He.
  - constructor.
  - exact emu_ref_is.
  - reflexivity.
  - reflexivity.
  - exact emu_run_is.
  - exact emu_pv_is.
Defined.

Definition proved_disk : Dir := (emu_prove demo_mb demo_job_elf [] emu_ref emu_disk).2.

Lemma emu_proved : emu_prove demo_mb demo_job_elf [] emu_ref emu_disk = (Ok tt, proved_disk).
Proof. unfold proved_disk. apply any_ok_pair. vm_compute. reflexivity. Qed.

Lemma prove_then_verify_witness : emu_verify proved_disk demo_mb demo_job_elf [] emu_ref RECEIPT_PATH GUEST_COPY = Ok tt.
Proof.
  apply (prove_then_verify demo_mb demo_job_elf [] emu_ref emu_disk proved_disk).
  - intros p b. reflexivity.
  - intros p. apply (@from_to_vec _ _ (toy_json_laws (list (list Z)))).
  - exact emu_proved.
Defined.
End Emulator.
