(* ===== verification/Fuzz.v ===== *)
(** * The fuzz targets (fuzz/fuzz_targets)

    Each target is a function of the fuzzer's bytes that must not panic.  Here they are
    definitions, with the results they discard made explicit, and [fuzz_targets_pass]
    shows the property the fuzzer samples for every input: the loader places every image
    the parser accepts, the decoders and encoders of [jobfmt] accept every string, and a
    frame reader gives a message or an error.  [serde_json] and the formatting of a path
    with [{:?}] are parameters. *)

From S2P Require Import Prelude Text Mem Elf JobFmt Wire.

(** [let _ = e]: an error is discarded, a panic is not. *)
Definition discard {E A} (r : outcome E A) : outcome string unit :=
  match r with Panic => Panic | _ => Ok tt end.

(** [s.chars().take(n).collect()]: the first [n] characters of valid UTF-8. *)
Definition char_len (b : Z) : nat :=
  if b <? 0x80 then 1 else if b <? 0xe0 then 2 else if b <? 0xf0 then 3 else 4.

Fixpoint take_chars (n : nat) (l : list Z) : list Z :=
  match n, l with
  | S n', b :: _ => take (char_len b) l ++ take_chars n' (drop (char_len b) l)
  | _, _ => []
  end.

(** [fuzz_elf_parse] *)
Definition fuzz_elf_parse (data : list Z) : outcome string unit :=
  match parse data with
  | Ok image => discard (load new image).1
  | r => discard r
  end.

(** [fuzz_wire_frame]: a cursor hands out all its bytes, then the end of the stream. *)
Definition fuzz_wire_frame `{Json ServerToClient} (data : list Z) : outcome string unit :=
  discard (receive (A := ServerToClient) [Data data]).1.

(** The result that [fuzz_jobfmt] encodes. *)
Definition fuzz_result (data : list Z) (a b s : string) : WorkerResult :=
  mkResult a b "halted" (le_val (take 8 data ++ replicate (8 - length data) 0))
    (from_bytes (take_chars 64 (as_bytes s))) [a; b] None None None None.

(** [fuzz_jobfmt] *)
Definition fuzz_jobfmt (dbg : string -> string) (data : list Z) : outcome string unit :=
  let mid := (length data / 2)%nat in
  let a := from_bytes (utf8_lossy (take mid data)) in
  let b := from_bytes (utf8_lossy (drop mid data)) in
  let s := from_bytes (utf8_lossy data) in
  _ ← discard (from_hex a (str_len a / 2));
  _ ← discard (from_hex (from_bytes (trim (as_bytes s))) 32);
  _ ← discard (confined_name dbg s);
  let r := fuzz_result data a b s in
  if bool_decide (signing_message r = signing_message r) then Ok tt else Panic.

(** ** No target can panic *)

Lemma discard_ok {E A} (r : outcome E A) : r <> Panic -> discard r = Ok tt.
Proof. by destruct r. Qed.

Lemma receive_no_panic {A} `{Json A} es :
  (forall l, from_slice (A := A) l <> Panic) -> (receive (A := A) es).1 <> Panic.
Proof.
  intros Hj. unfold receive. destruct (read_exact es 4 []) as [len es'|es'|e es']; [|done..].
  cbv zeta. case_match; [done|]. destruct (read_exact es' _ []) as [buf es''|es''|e es'']; [|done..].
  cbn. specialize (Hj buf). unfold decode_frame. by destruct (from_slice buf).
Qed.

Lemma confined_name_no_panic dbg name : confined_name dbg name <> Panic.
Proof. unfold confined_name. by repeat case_match. Qed.

(** On every input of bytes, each of the three fuzz targets returns normally, when the JSON
    decoder itself never panics. *)
Theorem fuzz_targets_pass `{Json ServerToClient} dbg data :
  Forall is_byte data -> (forall l, from_slice (A := ServerToClient) l <> Panic) ->
  fuzz_elf_parse data = Ok tt /\ fuzz_wire_frame data = Ok tt /\ fuzz_jobfmt dbg data = Ok tt.
Proof.
  intros Hb Hj. split_and!.
  - unfold fuzz_elf_parse. destruct (parse data) as [img|e|] eqn:Hp; [| done |].
    + pose proof (parse_post data Hb) as Hi. rewrite Hp in Hi. destruct Hi as (_ & _ & Hs & _).
      destruct (load_segments_ok new (segments img) data new_wf Hs) as (m' & Hl & _).
      unfold load. by rewrite Hl.
    + pose proof (parse_post data Hb) as Hi. by rewrite Hp in Hi.
  - by apply discard_ok, receive_no_panic.
  - unfold fuzz_jobfmt. cbv zeta.
    rewrite !discard_ok by eauto using from_hex_no_panic, confined_name_no_panic. cbn.
    by rewrite bool_decide_eq_true_2.
Qed.

(** A decoder of one message. *)
Definition one_message : Json ServerToClient := {|
  to_vec _ := [123];
  to_vec_pretty _ := [123];
  from_slice l := if bool_decide (l = [123]) then Ok BetweenJobs else Err "expected value"%string;
|}.

(** An input with a broken character, longer than the fields it fills. *)
Lemma fuzz_targets_pass_witness :
  exists data, length data = 70%nat /\ fuzz_elf_parse data = Ok tt /\
    @fuzz_wire_frame one_message data = Ok tt /\ fuzz_jobfmt id data = Ok tt.
Proof.
  exists (0xc3 :: replicate 69 0xe2). split; [done|].
  apply (@fuzz_targets_pass one_message id).
  - by repeat constructor.
  - intros l. simpl. by case_match.
Defined.
