(* ===== verification/UnitTests.v ===== *)
(** * The unit tests

    The tests inside the crates' sources (jobfmt, coordinator/receipt.rs, zk_judge.rs and
    net.rs, worker/daemon.rs, wire), as programs over the model: an assertion that fails is
    a panic.  They hold for every hash function, disk and clock the model admits, except for
    two tests of the proof of work, which depend on digests of BLAKE3 and are characterised.
    Where a test parses JSON text, the value it stands for is given instead. *)

From S2P Require Import Prelude Text Mem Cpu Run JobFmt ContentStore Wire Quorum Ledger Dispute ZkJudge Server Worker.

(** [assert!(b)] *)
Definition assert (b : bool) : outcome string unit := if b then Ok tt else Panic.

Definition is_ok {E A} (r : outcome E A) : bool := match r with Ok _ => true | _ => false end.
Definition is_err {E A} (r : outcome E A) : bool := match r with Err _ => true | _ => false end.

(** [s.contains(sub)] *)
Fixpoint contains (sub l : list Z) : bool :=
  bool_decide (is_Some (strip_prefix sub l)) || match l with [] => false | _ :: t => contains sub t end.

(** [r.unwrap_err()] with an assertion on its text. *)
Definition assert_error {A} (r : outcome string A) (sub : string) : outcome string unit :=
  match r with Err e => assert (contains (as_bytes sub) (as_bytes e)) | _ => Panic end.

Fixpoint assert_all (bs : list bool) : outcome string unit :=
  match bs with [] => Ok tt | b :: rest => _ ← assert b; assert_all rest end.

(** ** jobfmt *)

Definition confined_name_accepts_only_plain_names (dbg : string -> string) : outcome string unit :=
  assert_all [is_ok (confined_name dbg "program.elf"); is_err (confined_name dbg "../escape");
    is_err (confined_name dbg "a/b"); is_err (confined_name dbg "a\b"); is_err (confined_name dbg "..");
    is_err (confined_name dbg "/abs"); is_err (confined_name dbg "C:\temp\x")].

Definition from_hex_is_byte_safe : outcome string unit :=
  assert_all [bool_decide (ok (from_hex "00ff" 2) = Some [0; 255]); is_err (from_hex "00f" 2); is_err (from_hex "00fg" 2);
    is_err (from_hex (from_bytes (concat (replicate 32 [0xc3; 0xa9]))) 32)].

Definition base_result : WorkerResult := {|
  worker_id := "w"; job_id := "j"; r_status := "halted"; r_instructions := 7; result_hash := "aa";
  r_chunk_hashes := ["aa"; "bb"]%string; output_hex := Some "cc"%string; trap := None;
  pubkey_hex := Some "pk"%string; sig_hex := Some "sig"%string |}.

(** The fields a test changes. *)
Definition changed (n : Z) (chunks : list string) (oh tr pk sg : option string) : WorkerResult := {|
  worker_id := "w"; job_id := "j"; r_status := "halted"; r_instructions := n; result_hash := "aa";
  r_chunk_hashes := chunks; output_hex := oh; trap := tr; pubkey_hex := pk; sig_hex := sg |}.

Definition signing_message_binds_every_field : outcome string unit :=
  let m0 := signing_message base_result in
  let same r := bool_decide (m0 = signing_message r) in
  let bb := ["aa"; "bb"]%string in let cc := Some "cc"%string in
  let pk := Some "pk"%string in let sg := Some "sig"%string in
  assert_all [same (changed 7 bb cc None None None); negb (same (changed 7 bb None None pk sg));
    negb (same (changed 8 bb cc None pk sg)); negb (same (changed 7 ["aa"%string] cc None pk sg));
    negb (same (changed 7 bb cc (Some "boom"%string) pk sg))].

(** ** receipt.rs *)

Section Receipt.
Context `{TmpOs} `{Procs} `{Json RVerdict}.

Definition zero_binding : list (list Z) := replicate 3 (replicate 32 0).

Definition oversized_receipt_rejected_before_spawn (t : Tmp) : outcome string unit :=
  let big := replicate (Z.to_nat (MAX_RECEIPT_BYTES + 1)) 0 in
  assert_error (verify_receipt "definitely-not-a-real-binary" big zero_binding "g" false t).1 "exceeds".

Definition missing_verifier_is_a_clean_error (t : Tmp) : outcome string unit :=
  assert_error (verify_receipt "definitely-not-a-real-binary-42" [1; 2; 3] zero_binding "guest" false t).1 "spawn".

(** [create_new] of an existing name fails. *)
Definition receipt_temp_files_are_unique_and_exclusive : M Tmp string unit :=
  a ← exclusive_receipt_file (as_bytes "one");
  b ← exclusive_receipt_file (as_bytes "two");
  _ ← (fun t => (assert_all [negb (bool_decide (a = b)); bool_decide (tmp_files t !! a = Some (as_bytes "one"));
         bool_decide (tmp_files t !! b = Some (as_bytes "two")); bool_decide (is_Some (tmp_files t !! a))], t));
  mmodify (fun t => remove_tmp b (remove_tmp a t)).
End Receipt.

(** ** zk_judge.rs *)

Section Judge.
Context `{Sha256}.

Definition test_id (b : Z) : string := hex [b] +:+ from_bytes (replicate 62 48).

Definition test_verdict (okv : bool) (status instructions : Z) (oh : string) : JudgeVerdict := {|
  j_ok := okv; j_error := None; j_status := Some status; j_instructions := Some instructions;
  j_output_hex := Some oh; j_vm_cycles := None; j_proving_secs := None;
  j_binding := Some [test_id 0xaa; test_id 0xbb; test_id 0xcc] |}.

Definition test_binding (c : Z) : list (list Z) := (fun b => b :: replicate 31 0) <$> [0xaa; 0xbb; c].

Definition verdict_digest_is_recomputed_not_trusted : outcome string unit :=
  match judge_decision (test_verdict true 0 5 "01") (test_binding 0xcc) false with
  | Ok (Accept hash oh agreed zk) =>
      let expect := hex (sha256 (le_bytes 8 5 ++ [1])) in
      assert_all [zk; bool_decide (agreed = []); bool_decide (oh = Some "01"%string); bool_decide (hash = expect)]
  | _ => Panic
  end.

Definition verdict_for_a_different_job_is_rejected : outcome string unit :=
  assert_error (judge_decision (test_verdict true 0 5 "01") (test_binding 0xff) false) "not for this job".

Definition trapped_job_is_a_reject_not_an_accept : outcome string unit :=
  match judge_decision (test_verdict true 2 5 "01") (test_binding 0xcc) false with
  | Ok (Reject _) => Ok tt
  | _ => Panic
  end.

Definition failing_verdict_is_an_error : outcome string unit :=
  let v := {| j_ok := false; j_error := Some "boom"%string; j_status := None; j_instructions := None;
              j_output_hex := None; j_vm_cycles := None; j_proving_secs := None; j_binding := None |} in
  assert_error (judge_decision v (test_binding 0xcc) false) "boom".
End Judge.

(** ** net.rs *)

Definition one_attempt_per_worker_then_dropped : outcome string unit :=
  let '(first, c1) := receipt_claim_gate [] "wC" in
  let '(second, c2) := receipt_claim_gate c1 "wC" in
  let '(third, c3) := receipt_claim_gate c2 "wD" in
  assert_all [first; negb second; third; bool_decide (c3 = ["wC"; "wD"]%string)].

(** ** daemon.rs *)

(** [p.starts_with(std::env::temp_dir())] and [ends_with] on the text of the path. *)
Definition stays_inside `{WorkerOs} (p sub : string) : outcome string unit :=
  assert_all [bool_decide (is_Some (strip_prefix (as_bytes os_temp_dir) (as_bytes p)));
              bool_decide (is_Some (strip_prefix (reverse (as_bytes sub)) (reverse (as_bytes p))))].

Definition materialize_dir_rejects_untrusted_job_ids `{Os} `{WorkerOs} : outcome string unit :=
  _ ← assert_all [is_ok (job_materialize_dir "wA" "demo-hash-smoke-0001"); is_err (job_materialize_dir "wA" "../../etc");
        is_err (job_materialize_dir "wA" "a/b"); is_err (job_materialize_dir "wA" "a\b");
        is_err (job_materialize_dir "wA" "..")];
  match job_materialize_dir "wA" "demo-hash-smoke-0001" with
  | Ok p => stays_inside p "p2pc-worker-wA-demo-hash-smoke-0001"
  | _ => Panic
  end.

(** ** wire *)

Section Pow.
Context `{Blake3}.

Definition mine_then_verify_roundtrips : option (outcome string unit) :=
  let nonce := replicate 32 7 in
  counter ← mine_pow nonce 12;
  Some (assert_all [verify_pow nonce counter 12; negb (verify_pow nonce (wrap 64 (counter + 1)) 12)]).

Definition zero_bits_always_passes : option (outcome string unit) :=
  if verify_pow (replicate 32 0) 0 0 then
    counter ← mine_pow (replicate 32 1) 0; Some (assert (counter =? 0))
  else Some Panic.

Definition different_nonce_invalidates_solution : option (outcome string unit) :=
  counter ← mine_pow (replicate 32 2) 8;
  Some (assert (negb (verify_pow (replicate 32 3) counter 8))).
End Pow.

(** ** The tests pass *)

Lemma contains_app sub a b : contains sub (a ++ sub ++ b) = true.
Proof.
  assert (forall p l, strip_prefix p (p ++ l) = Some l) as Hp.
  { induction p as [|x p IH]; intros l; [by destruct l|]. simpl. by rewrite Z.eqb_refl. }
  induction a as [|x a IH]; simpl.
  - destruct (sub ++ b) as [|y l] eqn:Hl; simpl; rewrite <- Hl, Hp; by rewrite bool_decide_true by (by eexists).
  - rewrite IH. apply orb_true_r.
Qed.

Lemma contains_text sub a b : contains (as_bytes sub) (as_bytes (a +:+ sub +:+ b)) = true.
Proof. rewrite !as_bytes_app. apply contains_app. Qed.

Lemma jobfmt_tests_pass dbg :
  confined_name_accepts_only_plain_names dbg = Ok tt /\ from_hex_is_byte_safe = Ok tt /\
  signing_message_binds_every_field = Ok tt.
Proof. split_and!; [|vm_compute; reflexivity..]. reflexivity. Qed.

Section ReceiptTests.
Context `{TmpOs} `{Procs} `{Json RVerdict}.

Lemma oversized_refused cmd bytes eb guest v2 t :
  MAX_RECEIPT_BYTES < Z.of_nat (length bytes) -> assert_error (verify_receipt cmd bytes eb guest v2 t).1 "exceeds" = Ok tt.
Proof.
  intros Hl. unfold verify_receipt. rewrite (proj2 (Z.ltb_lt _ _) Hl). unfold Prelude.mfail, assert_error, fst.
  set (n := pretty (Z.of_nat _)). set (k := pretty MAX_RECEIPT_BYTES).
  replace ("receipt claim " +:+ n +:+ " bytes exceeds the " +:+ k +:+ " byte limit")%string
    with (("receipt claim " +:+ n +:+ " bytes ") +:+ "exceeds" +:+ (" the " +:+ k +:+ " byte limit"))%string.
  - by rewrite contains_text.
  - apply as_bytes_inj. rewrite !as_bytes_app, <- !app_assoc. reflexivity.
Qed.

Lemma oversized_passes t : oversized_receipt_rejected_before_spawn t = Ok tt.
Proof.
  assert (0 <= MAX_RECEIPT_BYTES) as Hm by (vm_compute; discriminate).
  apply oversized_refused. rewrite length_replicate. lia.
Qed.

(** A temporary directory that works: it is empty, and files are created and written. *)
Definition tmp_works (t : Tmp) : Prop :=
  tmp_files t = ∅ /\ is_u64 (tmp_counter t) /\ tmp_mkdir = Ok tt /\
  (forall name, tmp_create name = Ok tt) /\ forall name l, tmp_write name l = (Ok tt, l).

Lemma exclusive_fresh bytes t :
  tmp_mkdir = Ok tt -> (forall name, tmp_create name = Ok tt) -> (forall name l, tmp_write name l = (Ok tt, l)) ->
  tmp_files t !! receipt_name (tmp_counter t) = None ->
  exclusive_receipt_file bytes t = (Ok (receipt_name (tmp_counter t)),
    {| tmp_counter := wrap 64 (tmp_counter t + 1); tmp_files := <[receipt_name (tmp_counter t) := bytes]> (tmp_files t) |}).
Proof.
  intros Hm Hc Hw Hn. unfold exclusive_receipt_file, mbind, M_bind, lift. rewrite Hm.
  change 32%nat with (S 31). generalize 31%nat. intros n. cbn [map_err exclusive_loop]. by rewrite Hn, Hc, Hw.
Qed.

Lemma missing_verifier_passes t :
  tmp_works t -> (forall args files, exists e, spawn "definitely-not-a-real-binary-42" args files = Err e) ->
  missing_verifier_is_a_clean_error t = Ok tt.
Proof.
  intros (Hf & _ & Hm & Hc & Hw) Hs. unfold missing_verifier_is_a_clean_error, verify_receipt.
  rewrite (proj2 (Z.ltb_ge _ _)) by (vm_compute; discriminate). unfold mbind, M_bind.
  rewrite exclusive_fresh by (done || by rewrite Hf). unfold run_verifier.
  edestruct Hs as [e ->]. unfold assert_error, fst.
  assert (forall x y, contains (as_bytes "spawn") (as_bytes ("zk verifier spawn (" +:+ x +:+ "): " +:+ y)) = true) as Hc'.
  { intros x y. replace ("zk verifier spawn (" +:+ x +:+ "): " +:+ y)%string
      with ("zk verifier " +:+ "spawn" +:+ (" (" +:+ x +:+ "): " +:+ y))%string; [apply contains_text|].
    apply as_bytes_inj. rewrite !as_bytes_app. reflexivity. }
  by rewrite Hc'.
Qed.

Lemma receipt_name_inj a b : 0 <= a -> 0 <= b -> receipt_name a = receipt_name b -> a = b.
Proof.
  intros Ha Hb Heq. unfold receipt_name in Heq. apply (f_equal as_bytes) in Heq. rewrite !as_bytes_app in Heq.
  do 3 apply app_inv_head in Heq. apply app_inv_tail in Heq. apply as_bytes_inj in Heq. by apply (inj pretty).
Qed.

Lemma temp_files_pass t :
  tmp_works t -> exists t', receipt_temp_files_are_unique_and_exclusive t = (Ok tt, t') /\ tmp_files t' = ∅.
Proof.
  intros (Hf & Hu & Hm & Hc & Hw). set (c := tmp_counter t) in *.
  assert (receipt_name c <> receipt_name (wrap 64 (c + 1))) as Hne.
  { intros Heq. destruct Hu as [Hu1 Hu2]. pose proof (wrap_range 64 (c + 1) ltac:(lia)) as [Hw1 _].
    apply receipt_name_inj in Heq; [|lia..]. unfold wrap in *.
    destruct (Z.eq_dec (c + 1) (2 ^ 64)) as [He|He].
    - rewrite He, Z_mod_same_full in Heq. lia.
    - rewrite Z.mod_small in Heq by lia. lia. }
  unfold receipt_temp_files_are_unique_and_exclusive, mbind, M_bind, mmodify.
  rewrite exclusive_fresh by (done || by rewrite Hf). fold c.
  rewrite exclusive_fresh; [|done..|cbn [tmp_files tmp_counter]; by rewrite lookup_insert_ne, Hf, lookup_empty by done].
  cbn [tmp_files tmp_counter]. rewrite Hf, (lookup_insert_ne _ _ (receipt_name c)), !lookup_insert_eq by done.
  rewrite bool_decide_false, !bool_decide_true by (done || by eexists). eexists. split; [reflexivity|].
  unfold remove_tmp. cbn [tmp_files]. rewrite delete_insert_ne, !delete_insert_eq, !delete_empty by done. done.
Qed.
End ReceiptTests.

Lemma judge_tests_pass `{Sha256} :
  verdict_digest_is_recomputed_not_trusted = Ok tt /\ verdict_for_a_different_job_is_rejected = Ok tt /\
  trapped_job_is_a_reject_not_an_accept = Ok tt /\ failing_verdict_is_an_error = Ok tt.
Proof.
  split_and!; [|vm_compute; reflexivity..]. unfold verdict_digest_is_recomputed_not_trusted.
  assert (judge_decision (test_verdict true 0 5 "01") (test_binding 0xcc) false =
    Ok (Accept (hex (sha256 (le_bytes 8 5 ++ [1]))) (Some "01"%string) [] true)) as -> by reflexivity.
  by rewrite !bool_decide_true by done.
Qed.

Lemma gate_test_passes : one_attempt_per_worker_then_dropped = Ok tt.
Proof. vm_compute. reflexivity. Qed.

Lemma strip_prefix_app p l : strip_prefix p (p ++ l) = Some l.
Proof. induction p as [|x p IH]; [by destruct l|]. simpl. by rewrite Z.eqb_refl. Qed.

Lemma stays_inside_ok `{WorkerOs} sub : stays_inside (os_temp_dir +:+ "/" +:+ sub) sub = Ok tt.
Proof.
  unfold stays_inside. rewrite !as_bytes_app, strip_prefix_app, !reverse_app, <- app_assoc, strip_prefix_app.
  by rewrite !bool_decide_true by (by eexists).
Qed.

Lemma materialize_test_passes `{Os} `{WorkerOs} : materialize_dir_rejects_untrusted_job_ids = Ok tt.
Proof.
  change materialize_dir_rejects_untrusted_job_ids with
    (stays_inside (os_temp_dir +:+ "/" +:+ "p2pc-worker-wA-demo-hash-smoke-0001") "p2pc-worker-wA-demo-hash-smoke-0001").
  apply stays_inside_ok.
Qed.

(** The proof of work: no difficulty is always met; a mined counter is verified, and the two
    remaining assertions say of one digest each that it does not meet the difficulty. *)
Lemma pow_tests `{Blake3} c :
  zero_bits_always_passes = Some (Ok tt) /\
  (mine_pow (replicate 32 7) 12 = Some c ->
     mine_then_verify_roundtrips = Some (assert (negb (verify_pow (replicate 32 7) (wrap 64 (c + 1)) 12)))) /\
  (mine_pow (replicate 32 2) 8 = Some c ->
     different_nonce_invalidates_solution = Some (assert (negb (verify_pow (replicate 32 3) c 8)))).
Proof.
  assert (forall nonce x, verify_pow nonce x 0 = true) as Hz.
  { intros nonce x. apply (proj1 (pow_spec nonce 0 ltac:(lia))).
    pose proof (be_val_range (blake3 (nonce ++ le_bytes 8 x)) (blake3_byte _)) as Hr. rewrite blake3_len in Hr. apply Hr. }
  split_and!.
  - unfold zero_bits_always_passes. rewrite Hz. pose proof (mine_pow_spec (replicate 32 1) 0) as Hm.
    destruct (mine_pow (replicate 32 1) 0) as [y|]; cbn [mbind option_bind].
    + destruct Hm as ([Hy _] & _ & Hl). destruct (decide (y = 0)) as [->|]; [done|].
      specialize (Hl 0 ltac:(lia)). by rewrite Hz in Hl.
    + specialize (Hm 0 ltac:(split; lia)). by rewrite Hz in Hm.
  - intros Hc. unfold mine_then_verify_roundtrips. pose proof (mine_pow_spec (replicate 32 7) 12) as Hm. rewrite Hc in *.
    cbn [mbind option_bind outcome_bind assert_all]. destruct Hm as (_ & -> & _). cbn [assert mbind outcome_bind].
    by destruct (verify_pow _ (wrap 64 (c + 1)) _).
  - intros Hc. unfold different_nonce_invalidates_solution. by rewrite Hc.
Qed.

(** The repository's unit tests pass on the model, for every hash function and disk; the
    tests that touch the disk or spawn a process do so on a working temporary directory and
    with a program that is not there. *)
Theorem unit_tests_pass `{Blake3} `{Sha256} `{Os} `{WorkerOs} `{TmpOs} `{Procs} `{Json RVerdict} dbg t :
  tmp_works t -> (forall args files, exists e, spawn "definitely-not-a-real-binary-42" args files = Err e) ->
  confined_name_accepts_only_plain_names dbg = Ok tt /\ from_hex_is_byte_safe = Ok tt /\
  signing_message_binds_every_field = Ok tt /\ oversized_receipt_rejected_before_spawn t = Ok tt /\
  missing_verifier_is_a_clean_error t = Ok tt /\ (receipt_temp_files_are_unique_and_exclusive t).1 = Ok tt /\
  verdict_digest_is_recomputed_not_trusted = Ok tt /\ verdict_for_a_different_job_is_rejected = Ok tt /\
  trapped_job_is_a_reject_not_an_accept = Ok tt /\ failing_verdict_is_an_error = Ok tt /\
  one_attempt_per_worker_then_dropped = Ok tt /\ materialize_dir_rejects_untrusted_job_ids = Ok tt /\
  zero_bits_always_passes = Some (Ok tt).
Proof.
  intros Ht Hs. pose proof (jobfmt_tests_pass dbg) as (J1 & J2 & J3). pose proof judge_tests_pass as (Z1 & Z2 & Z3 & Z4).
  destruct (temp_files_pass t Ht) as (t' & Htmp & _).
  split_and!; [exact J1|exact J2|exact J3|exact (oversized_passes t)|exact (missing_verifier_passes t Ht Hs)
    |by rewrite Htmp|exact Z1|exact Z2|exact Z3|exact Z4|exact gate_test_passes|exact materialize_test_passes
    |exact (proj1 (pow_tests 0))].
Qed.
