(* ===== verification/Stress.v ===== *)
(** * The stress harness (crates/coordinator/examples/stress.rs)

    A coordinator, two reconnecting daemons and a number of queued copies of one job.  The
    harness is modelled by what it does itself: the options it gives the coordinator and the
    daemons, the jobs it queues, how it retries a daemon, and how it judges the outcomes that
    the coordinator reports.  A panic is a failed [unwrap] or [expect]. *)

From S2P Require Import Prelude Text Mem Cpu Interp Run Elf JobFmt ContentStore Wire Quorum Ledger Dispute ZkJudge.
From S2P Require Import Server Serve ServeFacts DispatchFacts Worker EndToEnd Sp1.

(** ** Options *)

(** The first argument, or 20. *)
Definition stress_jobs (args : list string) : nat :=
  match args !! 1%nat ≫= parse_u64 with Some n => Z.to_nat n | None => 20 end.

Definition stress_cfg (jobs : nat) : ServeConfig := {|
  per_job_deadline := 60000; ledger_path := None; require_identity := true; zk := None; zk_judge := None;
  zk_prover := None; accept_submissions := false; results_dir := None; identity_pow_bits := 0;
  cfg_pool := Some 2%nat; max_jobs := Some jobs; round1_size := None; round1_ids := None |}.

Definition stress_daemon (root id : string) : DaemonConfig := {|
  dc_worker_id := id; identity_path := Some (root +:+ "/identities/" +:+ id +:+ ".key")%string;
  dc_listen_port := Some 0; corrupt := false; corrupt_byte := None; extra_submits := 0; receipt_file := None |}.

(** ** Queueing *)

Section Queue.
Context `{Os} `{NetOs} `{Json JobDescriptor}.

Definition queueing (i : nat) : string := "job" +:+ pretty i +:+ ".queueing".
Definition queued_name (i : nat) : string := "job" +:+ pretty i +:+ ".desc.json".

(** One descriptor, written under another name and renamed. *)
Definition stress_queue_one (desc : JobDescriptor) (i : nat) : M Dir string unit := fun d =>
  match os_write (queueing i) (to_vec desc) with
  | Ok stored =>
      match os_rename (queueing i) (queued_name i) with
      | Ok _ => (Ok tt, <[queued_name i := stored]> (delete (queueing i) d))
      | _ => (Panic, <[queueing i := stored]> d)
      end
  | _ => (Panic, failed_write (queueing i) (queueing i) (to_vec desc) d)
  end.

(** [for i in 0..jobs]: [k] are left, the next is [i]. *)
Fixpoint stress_queue (desc : JobDescriptor) (k i : nat) : M Dir string unit :=
  match k with
  | O => mret tt
  | S k' => _ ← stress_queue_one desc i; stress_queue desc k' (S i)
  end.
End Queue.

(** ** The daemons *)

(** The thread of a daemon over the results of [run_daemon]: an error is a drop and a retry,
    a panic ends the thread; [None] when it goes on. *)
Fixpoint stress_retry (runs : list (outcome string unit)) (drops : nat) : option (outcome string nat) :=
  match runs with
  | [] => None
  | Ok _ :: _ => Some (Ok drops)
  | Err _ :: rest => stress_retry rest (S drops)
  | Panic :: _ => Some Panic
  end.

(** [h.join().unwrap()] for each handle. *)
Fixpoint stress_join (daemons : list (list (outcome string unit))) (total : nat) : option (outcome string nat) :=
  match daemons with
  | [] => Some (Ok total)
  | runs :: rest =>
      match stress_retry runs 0 with
      | Some (Ok drops) => stress_join rest (total + drops)
      | Some _ => Some Panic
      | None => None
      end
  end.

(** ** Judging the outcomes *)

(** A result that differs from the first one. *)
Definition results_differ (rs : list WorkerResult) : bool :=
  existsb (fun r => match rs with f :: _ => negb (bool_decide (result_hash r = result_hash f)) | [] => false end) rs.

Record tally : Type := mkTally { accepted : nat; rejected : nat; wrong_accepted : bool }.

Definition tally_one (t : tally) (o : FinishedJob) : tally :=
  match f_decision o with
  | Accept _ _ _ _ => mkTally (S (accepted t)) (rejected t) (wrong_accepted t || results_differ (f_results o))
  | _ => mkTally (accepted t) (S (rejected t)) (wrong_accepted t)
  end.

(** [jobs] outcomes are received, each in time. *)
Fixpoint stress_collect (jobs : nat) (reported : list (option FinishedJob)) (t : tally) : outcome string tally :=
  match jobs with
  | O => Ok t
  | S k =>
      match reported with
      | Some o :: rest => stress_collect k rest (tally_one t o)
      | _ => Panic
      end
  end.

(** The exit code. *)
Definition stress_exit (jobs : nat) (t : tally) : Z :=
  if wrong_accepted t || negb (accepted t + rejected t =? jobs)%nat then 1 else 0.

(** [main] after the coordinator is up: the published descriptor is queued, the outcomes are
    collected, the daemons are joined; the exit code and the jobs directory. *)
Definition stress_main `{Os} `{NetOs} `{Json JobDescriptor} (jobs : nat) (published : outcome string JobDescriptor)
    (reported : list (option FinishedJob)) (daemons : list (list (outcome string unit))) : option (outcome string Z * Dir) :=
  match published with
  | Ok desc =>
      match stress_queue desc jobs 0 ∅ with
      | (Ok _, d) =>
          match stress_collect jobs reported (mkTally 0 0 false) with
          | Ok t =>
              match stress_join daemons 0 with
              | Some (Ok _) => Some (Ok (stress_exit jobs t), d)
              | Some _ => Some (Panic, d)
              | None => None
              end
          | _ => Some (Panic, d)
          end
      | (_, d) => Some (Panic, d)
      end
  | _ => Some (Panic, ∅)
  end.

(** ** What it queues *)

Section Facts.
Context `{Os} `{NetOs} `{Json JobDescriptor}.

Lemma queued_name_inj i j : queued_name i = queued_name j -> i = j.
Proof.
  unfold queued_name. intros Heq. apply (inj (String.append "job")) in Heq.
  apply (inj pretty). assert (forall a b, (a +:+ ".desc.json" = b +:+ ".desc.json")%string -> a = b) as Hs; [|by apply Hs].
  intros a b Hab. apply as_bytes_inj. apply (f_equal as_bytes) in Hab. rewrite !as_bytes_app in Hab. by apply app_inv_tail in Hab.
Qed.

Lemma queueing_not_queued i j : queueing i <> queued_name j.
Proof.
  unfold queueing, queued_name. intros Heq%(f_equal as_bytes). rewrite !as_bytes_app in Heq.
  apply app_inv_head, (f_equal last) in Heq. rewrite !last_app in Heq. vm_compute in Heq. discriminate.
Qed.

Lemma stress_queue_loop desc k :
  (forall name d, os_write name d = Ok d) -> (forall a b, os_rename a b = Ok tt) -> forall i d,
  exists d', stress_queue desc k i d = (Ok tt, d') /\
    (forall j, (i <= j < i + k)%nat -> d' !! queued_name j = Some (to_vec desc)) /\
    (forall j, (j < i)%nat -> d' !! queued_name j = d !! queued_name j) /\
    (forall name, is_Some (d' !! name) -> (exists j, (i <= j < i + k)%nat /\ name = queued_name j) \/ is_Some (d !! name)).
Proof.
  intros Hw Hr. induction k as [|k IH]; intros i d; cbn [stress_queue].
  - exists d. split_and!; [done|intros j Hj; lia|done|by right].
  - unfold mbind, M_bind, stress_queue_one. rewrite Hw, Hr.
    destruct (IH (S i) (<[queued_name i := to_vec desc]> (delete (queueing i) d))) as (d' & -> & Hin & Hbelow & Hdom).
    exists d'. split_and!; [done| | |].
    + intros j Hj. destruct (decide (j = i)) as [->|Hne]; [|apply Hin; lia].
      rewrite Hbelow by lia. apply lookup_insert_eq.
    + intros j Hj. rewrite Hbelow by lia. rewrite lookup_insert_ne by (intros ?%queued_name_inj; lia).
      apply lookup_delete_ne, queueing_not_queued.
    + intros name [(j & Hj & ->)|Hd]%Hdom; [left; exists j; split; [lia|done]|].
      destruct (decide (name = queued_name i)) as [->|Hne]; [left; exists i; split; [lia|done]|right].
      rewrite lookup_insert_ne in Hd by done. destruct Hd as [v [_ Hv]%lookup_delete_Some]. by exists v.
Qed.

(** Every job is in the directory under its own name, and nothing else is. *)
Lemma stress_queue_spec desc k :
  (forall name d, os_write name d = Ok d) -> (forall a b, os_rename a b = Ok tt) ->
  exists d, stress_queue desc k 0 ∅ = (Ok tt, d) /\
    forall name, (d !! name = Some (to_vec desc) <-> exists i, (i < k)%nat /\ name = queued_name i) /\
                 (is_Some (d !! name) -> d !! name = Some (to_vec desc)).
Proof.
  intros Hw Hr. destruct (stress_queue_loop desc k Hw Hr 0 ∅) as (d & Hq & Hin & _ & Hdom). exists d. split; [done|].
  assert (forall name, is_Some (d !! name) -> exists i, (i < k)%nat /\ name = queued_name i) as Hd.
  { intros name [(j & Hj & ->)|[v Hv]]%Hdom; [exists j; split; [lia|done]|by rewrite lookup_empty in Hv]. }
  intros name. split; [split|].
  - intros Hl. apply Hd. by eexists.
  - intros (i & Hi & ->). apply Hin. lia.
  - intros (i & Hi & ->)%Hd. apply Hin. lia.
Qed.

(** ** What it concludes *)

Lemma results_differ_spec rs :
  results_differ rs = false <-> forall r1 r2, r1 ∈ rs -> r2 ∈ rs -> result_hash r1 = result_hash r2.
Proof.
  unfold results_differ. rewrite <- not_true_iff_false, existsb_exists. split.
  - intros Hn. assert (forall f r, head rs = Some f -> r ∈ rs -> result_hash r = result_hash f) as Hf.
    { intros f r Hh Hr. destruct (decide (result_hash r = result_hash f)) as [|Hne]; [done|]. destruct Hn.
      exists r. split; [by apply list_elem_of_In|]. destruct rs as [|f' rs]; [done|]. injection Hh as ->. by rewrite bool_decide_false. }
    intros r1 r2 H1r H2r. destruct rs as [|f rs]; [by apply elem_of_nil in H1r|].
    by rewrite (Hf f r1 eq_refl H1r), (Hf f r2 eq_refl H2r).
  - intros Hall (r & Hr%list_elem_of_In & Hx). destruct rs as [|f rs]; [done|]. bools.
    destruct Hx. apply Hall; [done|by left].
Qed.

(** An accepted job on which two results differ. *)
Definition wrong_job (o : FinishedJob) : Prop :=
  (exists h oh agreed z, f_decision o = Accept h oh agreed z) /\
  exists r1 r2, r1 ∈ f_results o /\ r2 ∈ f_results o /\ result_hash r1 <> result_hash r2.

Lemma tally_one_spec t o :
  (accepted (tally_one t o) + rejected (tally_one t o) = S (accepted t + rejected t))%nat /\
  (wrong_accepted (tally_one t o) = true <-> wrong_accepted t = true \/ wrong_job o).
Proof.
  unfold tally_one, wrong_job. destruct (f_decision o) as [h oh agreed z| |]; simpl.
  - split; [lia|]. rewrite orb_true_iff. apply or_iff_compat_l. split.
    + intros Hd. split; [by do 4 eexists|].
      destruct (decide (Forall (fun r1 => Forall (fun r2 => result_hash r1 = result_hash r2) (f_results o)) (f_results o))) as [Hall|Hex].
      * rewrite (proj2 (results_differ_spec _)) in Hd; [done|]. intros r1 r2 H1r H2r. rewrite Forall_forall in Hall.
        specialize (Hall r1 H1r). rewrite Forall_forall in Hall. by apply Hall.
      * apply not_Forall_Exists, Exists_exists in Hex as (r1 & H1r & Hex); [|apply _].
        apply not_Forall_Exists, Exists_exists in Hex as (r2 & H2r & Hne); [|apply _]. by exists r1, r2.
    + intros (_ & r1 & r2 & H1r & H2r & Hne). apply not_false_is_true. intros Hf. by destruct Hne; apply (proj1 (results_differ_spec _) Hf).
  - split; [lia|]. split; [by left|]. intros [|((? & ? & ? & ? & [=]) & _)]; done.
  - split; [lia|]. split; [by left|]. intros [|((? & ? & ? & ? & [=]) & _)]; done.
Qed.

(** The collected tally counts every job and remembers a wrong one. *)
Lemma stress_collect_spec jobs : forall reported t t',
  stress_collect jobs reported t = Ok t' ->
  exists os, take jobs reported = Some <$> os /\ length os = jobs /\
    (accepted t' + rejected t' = accepted t + rejected t + jobs)%nat /\
    (wrong_accepted t' = true <-> wrong_accepted t = true \/ Exists wrong_job os).
Proof.
  induction jobs as [|k IH]; intros reported t t'; cbn [stress_collect].
  - intros [= <-]. exists []. split; [done|]. split; [done|]. split; [lia|]. rewrite Exists_nil. tauto.
  - destruct reported as [|[o|] rest]; try done. intros (os & Ht & Hl & Hc & Hw)%IH.
    destruct (tally_one_spec t o) as [Hc1 Hw1]. exists (o :: os). csimpl. split_and!; [by rewrite Ht|by rewrite Hl|lia|].
    rewrite Exists_cons, Hw, Hw1. tauto.
Qed.
End Facts.

(** The verdict of the harness: with the descriptor published, a disk that writes and renames,
    an outcome for every job and daemons that end, it leaves exactly the queued jobs in the
    directory and exits with 0 or 1, 1 just when two results of one accepted job differ; and
    when the results of the accepted jobs are those of unmodified daemons for the queued
    descriptor, it exits with 0 or a BLAKE3 collision is at hand. *)
Theorem stress_verdict `{Blake3} `{Sha256} `{Ed25519} `{!Signer} `{Os} `{NetOs} `{Json JobManifest} `{Json JobDescriptor}
    `{Json ClientToServer} `{Json ServerToClient} `{Json PeerToPeer} jobs desc os daemons drops :
  (forall name d, os_write name d = Ok d) -> (forall a b, os_rename a b = Ok tt) ->
  length os = jobs -> stress_join daemons 0 = Some (Ok drops) ->
  exists d code, stress_main jobs (Ok desc) (Some <$> os) daemons = Some (Ok code, d) /\
    (forall name, d !! name = Some (to_vec desc) <-> exists i, (i < jobs)%nat /\ name = queued_name i) /\
    (code = 1 /\ Exists wrong_job os \/ code = 0 /\ ~ Exists wrong_job os) /\
    ((forall o r, o ∈ os -> r ∈ f_results o -> honest_result desc r) -> code = 0 \/ exists x y, collision blake3 x y).
Proof.
  intros Hw Hr Hlen Hj. destruct (stress_queue_spec desc jobs Hw Hr) as (d & Hq & Hd).
  assert (exists t, stress_collect jobs (Some <$> os) (mkTally 0 0 false) = Ok t) as [t Ht].
  { clear -Hlen. revert jobs Hlen. generalize (mkTally 0 0 false). induction os as [|o os IH]; intros t [|k] Hl; try done; [by eexists|].
    csimpl. apply IH. by injection Hl. }
  unfold stress_main. rewrite Hq, Ht, Hj. eexists d, _. split; [reflexivity|]. split; [apply Hd|].
  apply stress_collect_spec in Ht as (os' & Htake & _ & Hc & Hwrong). simpl in Hc.
  rewrite take_ge in Htake by (rewrite length_fmap; lia). apply (inj (fmap Some)) in Htake as <-.
  unfold stress_exit. rewrite Hc, Nat.eqb_refl, orb_false_r.
  assert (Exists wrong_job os -> (forall o r, o ∈ os -> r ∈ f_results o -> honest_result desc r) -> exists x y, collision blake3 x y) as Hcol.
  { intros (o & Ho & _ & r1 & r2 & H1r & H2r & Hne)%Exists_exists Hh.
    destruct (honest_digest desc [r1; r2]) as [(o0 & _ & Hdig)|]; [done| | |done].
    - intros r Hin. rewrite !elem_of_cons in Hin. destruct Hin as [->|[->|Hin]]; [by eapply Hh..|by apply elem_of_nil in Hin].
    - destruct Hne. destruct (Hdig r1) as [-> _]; [by left|]. destruct (Hdig r2) as [-> _]; [by right; left|done]. }
  destruct (wrong_accepted t).
  - destruct (proj1 Hwrong eq_refl) as [|Hex]; [done|]. split; [by left|]. intros Hh. right. by apply Hcol.
  - split; [|by left]. right. split; [done|]. intros Hex. by discriminate (proj2 Hwrong (or_intror Hex)).
Qed.

(** Two daemons on two jobs, one of which drops once; the second job is rejected. *)
Example stress_run :
  exists d, stress_main (H := {| os_missing := ""; os_debug := id; os_write := fun _ d => Ok d; os_failed := fun _ _ => None |})
    (H0 := {| os_rename := fun _ _ => Ok tt; os_mkdir := fun _ => Ok tt; os_outside := fun _ => Err ""%string; os_time := 0 |})
    (H1 := {| to_vec := fun _ => [123]; to_vec_pretty := fun _ => [123]; from_slice := fun _ => Err ""%string |}) 2
    (Ok {| d_job_id := "j"; d_manifest := "m"; d_elf := "e"; d_input := "i" |})
    (Some <$> [mkFinished "j" (Accept "h" None [] false) [] []; mkFinished "j" (Reject "r") [] []])
    [[Ok tt]; [Err "lost"%string; Ok tt]] = Some (Ok 0, d).
Proof. eexists. vm_compute. reflexivity. Qed.
