(* ===== verification/Lifecycle.v ===== *)
(** * The life of a job

    Turns of the coordinator's loop in sequence: a turn of the idle server finds a job in the
    jobs directory and dispatches it, the answers of the workers are counted one turn each,
    and one more turn settles the job.  With the daemons of [Worker] as the workers, the job
    is accepted with the digest of its run. *)

From S2P Require Import Prelude Text Mem Cpu Interp Run Elf JobFmt ContentStore Wire Quorum Ledger Dispute ZkJudge.
From S2P Require Import Server Serve ServeFacts DispatchFacts Worker EndToEnd Sp1Facts JobkitFacts.

Section Lifecycle.
Context `{Blake3} `{Sha256} `{Ed25519} `{!Signer} `{Os} `{NetOs} `{TmpOs} `{Procs}.
Context `{Json JobManifest} `{Json JobDescriptor} `{Json RVerdict} `{Json JudgeVerdict} `{Json ProveMeta}.
Context `{Json Ledger} `{Json Evidence} `{Json ClientToServer} `{Json ServerToClient} `{Json PeerToPeer}.

(** The loop of [serve], one environment per turn; [false] when it has returned. *)
Fixpoint turns (cfg : ServeConfig) (es : list Env) : M Server string bool :=
  match es with
  | [] => mret true
  | e :: es' => go ← turn cfg e; if go : bool then turns cfg es' else mret false
  end.

Lemma turns_snoc cfg es e s s1 :
  turns cfg es s = (Ok true, s1) -> turns cfg (es ++ [e]) s = (go ← turn cfg e; mret (go : bool)) s1.
Proof.
  revert s. induction es as [|e0 es IH]; intros s; cbn [turns app]; unfold mbind, M_bind.
  - intros [= <-]. by destruct (turn cfg e s) as [[[]|?|] s'].
  - destruct (turn cfg e0 s) as [[[]|?|] s'] eqn:Ht; try done. apply IH.
Qed.

(** The loop has not been told to end. *)
Definition below_max (cfg : ServeConfig) (s : Server) : Prop :=
  match max_jobs cfg with Some n => (jobs_done s < n)%nat | None => True end.

(** Connection [k] may deliver the result [r]: it is admitted under the result's worker id,
    with the result's key. *)
Definition admits (cfg : ServeConfig) (m : Conns) (k : Z) (r : WorkerResult) : Prop :=
  exists c, m !! k = Some c /\ authed c = true /\ c_worker_id c = worker_id r /\
    match c_pubkey c with Some pk => pubkey_hex r = Some pk | None => require_identity cfg = false end.

(** An honest answer to the job, delivered on connection [kr.1]. *)
Definition answer_ok (cfg : ServeConfig) (m : Conns) (desc : JobDescriptor) (kr : Z * WorkerResult) : Prop :=
  admits cfg m kr.1 kr.2 /\ honest_result desc kr.2 /\ r_status kr.2 = "halted"%string /\ job_id kr.2 = d_job_id desc.

(** ** One turn of a waiting job *)

(** A turn while the job waits for its workers handles the oldest event. *)
Lemma waiting_turn cfg e s j :
  below_max cfg s -> pending s = Some j -> dispatched j = true -> all_in j = false ->
  now e - started j <= per_job_deadline cfg ->
  turn cfg e s = (_ ← event_step cfg e; mret true) s.
Proof.
  intros Hmax Hp Hd Ha Ht. unfold turn.
  replace (match max_jobs cfg with Some n => (n <=? jobs_done s)%nat | None => false end) with false
    by (unfold below_max in Hmax; destruct (max_jobs cfg); [symmetry; apply Nat.leb_gt; lia|done]).
  unfold mbind, M_bind, mmodify, scan_step. rewrite Hp. unfold dispatch_step. rewrite Hp, Hd. simpl.
  unfold completion_step. rewrite Hp. unfold check_completion. rewrite Hd, Ha. simpl.
  by rewrite (proj2 (Z.ltb_ge _ _) Ht).
Qed.

(** The digest of a daemon's result survives the coordinator's log line. *)
Lemma digest_prefix n out : exists t, str_slice (E := string) (hex (journal_digest n out)) 0 12 = Ok t.
Proof.
  pose proof (sha256_byte (journal n out)) as Hb. pose proof (sha256_len (journal n out)) as Hl.
  eexists. apply hex_prefix; [done|]. rewrite str_len_hex by done. unfold journal_digest. lia.
Qed.

(** An honest answer of a dispatched worker that has not answered is counted. *)
Lemma answer_counted cfg s j k r :
  pending s = Some j -> answer_ok cfg (conns s) (pj_descriptor j) (k, r) ->
  worker_id r ∈ dispatched_ids j -> (worker_id r ∉ worker_id <$> results j) ->
  on_result cfg k r s = (Ok tt, set_pending (Some (set_results (results j ++ [r]) j)) s).
Proof.
  intros Hp ((c & Hc & Ha & Hid & Hk) & Hh & _ & Hj) Hin Hnew. simpl in *.
  apply honest_result_reports in Hh as [Hv (job & out & _ & (_ & _ & _ & _ & Hr & _))].
  unfold on_result. rewrite Hc.
  assert (result_admissible cfg c r = Ok true) as ->.
  { unfold result_admissible. rewrite Ha, Hid, bool_decide_true, Hv by done. simpl.
    destruct (c_pubkey c) as [pk|]; [|by rewrite Hk]. by rewrite Hk, bool_decide_true. }
  rewrite Hp. unfold count_result. rewrite Hj, Hid, (bool_decide_true (_ = _)), (bool_decide_true (_ ∈ dispatched_ids j)) by done.
  rewrite bool_decide_false by done. simpl. rewrite Hr.
  by destruct (digest_prefix (instructions out) (default [] (Run.output out))) as [t ->].
Qed.

(** A result under another job id than the descriptor's is never counted, whoever sends it. *)
Lemma other_id_ignored wid r j : job_id r <> d_job_id (pj_descriptor j) -> count_result wid r j = Ok j.
Proof. intros Hne. unfold count_result. by rewrite bool_decide_false. Qed.

(** ** The answers, one turn each *)

Definition deliver (kr : Z * WorkerResult) : NetEvent := EvResult kr.1 kr.2.

(** A dispatched worker that has not answered keeps the job waiting. *)
Lemma not_all_in j id :
  zk_accept j = None -> id ∈ dispatched_ids j -> (id ∉ worker_id <$> results j) -> all_in j = false.
Proof.
  intros Hz Hin Hout. unfold all_in. rewrite Hz. simpl. apply not_true_is_false. intros Hall.
  rewrite forallb_forall in Hall. specialize (Hall id (proj1 (list_elem_of_In _ _) Hin)). by bools.
Qed.

(** With the answers queued and the deadline ahead, as many turns count them all. *)
Lemma answers_counted cfg : forall rs es s j,
  below_max cfg s -> pending s = Some j -> dispatched j = true -> zk_accept j = None ->
  events s = deliver <$> rs -> length es = length rs ->
  Forall (fun e => now e - started j <= per_job_deadline cfg) es ->
  Forall (answer_ok cfg (conns s) (pj_descriptor j)) rs ->
  NoDup (worker_id <$> results j ++ rs.*2) -> Forall (fun kr => worker_id kr.2 ∈ dispatched_ids j) rs ->
  turns cfg es s = (Ok true, set_pending (Some (set_results (results j ++ rs.*2) j)) (set_events [] s)).
Proof.
  induction rs as [|[k r] rs IH]; intros [|e es] s j Hmax Hp Hd Hz Hev Hlen Ht Hok Hnd Hin; try done.
  - simpl. rewrite app_nil_r. destruct s, j; simpl in *. by subst.
  - apply Forall_cons in Ht as [Ht Hts], Hok as [Hk Hok], Hin as [Hi Hin]. simpl in Hi.
    assert (worker_id r ∉ worker_id <$> results j) as Hnew.
    { rewrite fmap_app, NoDup_app in Hnd. destruct Hnd as (_ & Hnd & _). intros Hx. apply (Hnd _ Hx). csimpl. by left. }
    cbn [turns]. unfold mbind at 1, M_bind at 1.
    rewrite (waiting_turn cfg e s j Hmax Hp Hd (not_all_in j _ Hz Hi Hnew) Ht).
    unfold mbind, M_bind, event_step. rewrite Hev. csimpl.
    change (on_event cfg e (deliver (k, r))) with (on_result cfg k r).
    rewrite (answer_counted cfg (set_events (deliver <$> rs) s) j k r Hp Hk Hi Hnew). simpl.
    rewrite (IH es _ (set_results (results j ++ [r]) j)); simpl; try done; [|by injection Hlen|by rewrite <- app_assoc].
    by rewrite <- app_assoc.
Qed.

(** ** The round *)

(** From a dispatched job with the honest answers queued to its settlement.  The answers are
    those of more than half of the pool; the last turn comes when all have answered or the
    deadline has passed. *)
Lemma round_accepts cfg es e s j rs :
  below_max cfg s -> pending s = Some j -> dispatched j = true -> zk_accept j = None -> results j = [] ->
  events s = deliver <$> rs -> length es = length rs ->
  Forall (fun e' => now e' - started j <= per_job_deadline cfg) es ->
  Forall (answer_ok cfg (conns s) (pj_descriptor j)) rs ->
  NoDup (worker_id <$> rs.*2) -> Forall (fun kr => worker_id kr.2 ∈ dispatched_ids j) rs ->
  (length (dispatched_ids j) < 2 * length rs)%nat ->
  (forall id, id ∈ dispatched_ids j -> id ∈ worker_id <$> rs.*2) \/ per_job_deadline cfg < now e - started j ->
  ledger_room cfg (ledger_file s) (length rs) ->
  (exists s' f o oh agreed, turns cfg (es ++ [e]) s = (Ok true, s') /\ pending s' = None /\
     outcomes s' = outcomes s ++ [f] /\ f_job_id f = d_job_id (pj_descriptor j) /\
     runs_to (pj_descriptor j) o /\ status o = Halted /\ f_decision f = Accept (out_digest o) oh agreed false /\
     forall k r, (k, r) ∈ rs -> (worker_id r, 10) ∈ f_deltas f) \/
  exists x y, collision blake3 x y.
Proof.
  intros Hmax Hp Hd Hz Hr0 Hev Hlen Ht Hok Hnd Hin Hmaj Hwhen Hroom.
  assert (rs.*2 <> []) as Hne by (destruct rs; simpl in *; [lia|done]).
  assert (forall r, r ∈ rs.*2 -> honest_result (pj_descriptor j) r /\ r_status r = "halted"%string) as Hh.
  { intros r ([k r'] & -> & Hkr)%list_elem_of_fmap. rewrite Forall_forall in Hok. by destruct (Hok _ Hkr) as (_ & ? & ? & _). }
  destruct (honest_digest (pj_descriptor j) rs.*2 Hne) as [(o & Hruns & Hdig)|]; [by intros r [? _]%Hh|left|by right].
  assert (status o = Halted) as Hst.
  { destruct rs.*2 as [|r rs']; [done|]. destruct (Hdig r ltac:(by left)) as (_ & _ & Hst). apply Hst, Hh. by left. }
  pose proof (answers_counted cfg rs es s j Hmax Hp Hd Hz Hev Hlen Ht Hok) as Hturns. rewrite Hr0, app_nil_l in Hturns.
  specialize (Hturns Hnd Hin). set (j' := set_results rs.*2 j) in Hturns. set (s1 := set_pending _ _) in Hturns.
  assert (length rs.*2 <= length (dispatched_ids j))%nat as Hle.
  { rewrite <- (length_fmap worker_id). apply submseteq_length, NoDup_submseteq; [done|].
    intros id (r & -> & ([k r'] & -> & Hkr)%list_elem_of_fmap)%list_elem_of_fmap. rewrite Forall_forall in Hin. apply (Hin _ Hkr). }
  destruct (decide_carried (out_digest o) [out_digest o] rs.*2 rs.*2 (length (dispatched_ids j)))
    as (oh & agreed & Hdec & Hag); [done..|rewrite length_fmap in *; lia| | |].
  { intros r Hir. destruct (Hdig r Hir) as (? & ? & _), (Hh r Hir). done. }
  { intros r Hir _ _. by destruct (Hdig r Hir) as (_ & ? & _). }
  destruct (decided_turn cfg e s1 j' (Accept (out_digest o) oh agreed false) Hmax eq_refl Hd Hz)
    as (s' & Hturn & Hp' & _ & Ho); [|done|done|by simpl; rewrite length_fmap|].
  { destruct Hwhen as [Hall|]; [left|by right]. unfold all_in, j'. simpl. rewrite Hz. simpl.
    apply forallb_forall. intros id Hid%list_elem_of_In. apply bool_decide_eq_true. by apply Hall. }
  eexists s', _, o, oh, agreed. split_and!; try done.
  - rewrite (turns_snoc _ _ _ _ _ Hturns). unfold mbind, M_bind. by rewrite Hturn.
  - intros k r Hkr. simpl. apply list_elem_of_fmap. exists r.
    assert (r ∈ rs.*2) as Hr by (apply list_elem_of_fmap; by exists (k, r)).
    by rewrite bool_decide_true by auto.
Qed.
(** ** Dispatch *)

(** Pushing a message keeps the worker ids and what is already queued. *)
Lemma assign_keeps e p d ws : forall m ids m' k c,
  assign e p d ws m = (ids, m') -> m !! k = Some c ->
  exists c', m' !! k = Some c' /\ c_worker_id c' = c_worker_id c /\ forall msg, msg ∈ outbound c -> msg ∈ outbound c'.
Proof.
  induction ws as [|[wid hints] ws IH]; intros m ids m' k c; cbn [assign]; [intros [= _ <-] Hk; by exists c|].
  destruct (find_conn e (p wid) m) as [k0|]; [|by apply IH].
  destruct (assign e p d ws _) as [ids1 m1] eqn:Ha. intros [= _ <-] Hk.
  destruct (decide (k = k0)) as [->|Hne].
  - destruct (IH _ _ _ k0 (push_msg (JobAssignment d hints) c) Ha) as (c' & Hc' & Hid & Hm).
    { by rewrite lookup_alter_eq, Hk. }
    exists c'. split_and!; [done..|]. intros msg Hmsg. apply Hm. simpl. set_solver.
  - apply (IH _ _ _ k c Ha). by rewrite lookup_alter_ne.
Qed.

(** Every worker the job is assigned to has the assignment in its outbound queue. *)
Lemma assign_sends e d ws : forall m ids m' wid,
  env_ok e -> assign e same_id d ws m = (ids, m') -> wid ∈ ids ->
  exists k c hints, m' !! k = Some c /\ c_worker_id c = wid /\ JobAssignment d hints ∈ outbound c.
Proof.
  induction ws as [|[w hints] ws IH]; intros m ids m' wid He; cbn [assign]; [by intros [= <- _] ?%elem_of_nil|].
  destruct (find_conn e (same_id w) m) as [k|] eqn:Hf; [|by apply IH].
  destruct (assign e same_id d ws _) as [ids1 m1] eqn:Ha. intros [= <- <-] [->|Hin]%elem_of_cons; [|by eapply IH].
  unfold find_conn in Hf. apply fmap_Some in Hf as ([k' c] & [Hin Hid]%find_some & ->). simpl in *.
  unfold same_id in Hid. bools. rewrite <- list_elem_of_In, (He m), elem_of_map_to_list in Hin.
  destruct (assign_keeps _ _ _ _ _ _ _ k' (push_msg (JobAssignment d hints) c) Ha) as (c' & Hc' & Hid' & Hm).
  { by rewrite lookup_alter_eq, Hin. }
  exists k', c', hints. split_and!; [done|by rewrite Hid'|]. apply Hm. simpl. set_solver.
Qed.

(** The workers a job with these targets is dispatched to. *)
Definition selected (cfg : ServeConfig) (e : Env) (m : Conns) (tg : option (list string)) : list string :=
  (select cfg e tg (candidates e m tg)).*1.

(** A turn of the idle server that finds a job whose workers are there dispatches it. *)
Lemma idle_turn_dispatches cfg e s desc tg path d errs :
  env_ok e -> below_max cfg s -> pending s = None -> events s = [] -> 0 <= per_job_deadline cfg ->
  scan_jobs_dir e (jobs_dir s, scan_errors s) = (Ok (Some (desc, tg, path)), (d, errs)) ->
  targets_ready cfg e (conns s) tg = true -> selected cfg e (conns s) tg <> [] ->
  exists s1 j, turn cfg e s = (Ok true, s1) /\ pending s1 = Some j /\ jobs_done s1 = jobs_done s /\
    outcomes s1 = outcomes s /\ pj_descriptor j = desc /\ dispatched j = true /\ zk_accept j = None /\
    results j = [] /\ started j = now e /\ dispatched_ids j = selected cfg e (conns s) tg /\
    forall id, id ∈ dispatched_ids j -> exists k c hints, conns s1 !! k = Some c /\ c_worker_id c = id /\
      JobAssignment desc hints ∈ outbound c.
Proof.
  intros He Hmax Hp Hev Hdl Hscan Hready Hsel. unfold turn.
  replace (match max_jobs cfg with Some n => (n <=? jobs_done s)%nat | None => false end) with false
    by (unfold below_max in Hmax; destruct (max_jobs cfg); [symmetry; apply Nat.leb_gt; lia|done]).
  unfold mbind, M_bind, mmodify, scan_step. rewrite Hp, Hscan. unfold dispatch_step. simpl. rewrite Hready.
  unfold dispatch_job. simpl. destruct (assign _ _ _ _ _) as [ids m'] eqn:Ha.
  assert (ids = selected cfg e (conns s) tg) as Hids.
  { eapply assign_all; [done| |exact Ha]. intros wid Hw.
    apply (select_sub e cfg tg _ wid) in Hw. apply (elem_of_candidates e He) in Hw as [(k & c & Hk & _ & _ & Hid) _].
    by exists k, c. }
  assert (exists id, id ∈ ids) as [id Hid].
  { rewrite Hids. destruct (selected _ _ _ _) as [|id l]; [done|]. exists id. by left. }
  unfold completion_step. simpl. unfold check_completion. simpl.
  erewrite not_all_in; [|done|exact Hid|by apply not_elem_of_nil].
  rewrite Z.sub_diag, (proj2 (Z.ltb_ge _ _) Hdl). simpl. unfold event_step. simpl. rewrite Hev.
  do 2 eexists. split_and!; try reflexivity; [exact Hids|]. simpl. intros wid Hw. by eapply assign_sends.
Qed.

End Lifecycle.
