(* ===== verification/Peers.v ===== *)
(** * Blobs from peer to peer

    The two halves of the peer exchange of daemon.rs composed: what [serve_peer] of one
    daemon writes to the connection is what [fetch_blob] of another reads from it.  A worker
    whose peers hold the blobs of a job gets them all without asking the coordinator. *)

From S2P Require Import Prelude Text Mem Cpu Interp Run Elf JobFmt ContentStore Wire Quorum Worker EndToEnd.
From S2P Require Import Sp1Facts JobkitFacts.

Section Peers.
Context `{Blake3} `{Os} `{WorkerOs} `{Json PeerToPeer} `{!JsonLaws PeerToPeer}.
Context `{Json ClientToServer} `{Json ServerToClient} `{link : Sink}.

(** A peer serves [data] on the connection [es]: the request for its id reaches the peer in
    any pieces, the peer's store holds the blob, and what the peer writes arrives in any
    pieces. *)
Definition served_by_peer (data : list Z) (snk : Sink) (es : stream) : Prop :=
  exists (peer_snk : Sink) (st : Store) (request : stream) (count : Z) (r1 r2 : list Z),
    @open_sink snk /\ @open_sink peer_snk /\
    blocking request /\ stream_bytes request = Wire.frame (PeerBlobRequest (hex (from_data data))) ++ r1 /\
    get_blob st (from_data data) = Ok data /\
    blocking es /\ stream_bytes es = (serve_peer (link := peer_snk) st request count []).2.2 ++ r2.

(** The messages of the exchange fit into a frame. *)
Definition exchange_fits (data : list Z) : Prop :=
  Forall is_byte data /\ fits (PeerBlobRequest (hex (from_data data))) /\ fits (PeerBlob (Some (hex data))).

Lemma digest_hex_cid (data : list Z) : cid_from_hex (hex (from_data data)) = Ok (from_data data).
Proof. apply from_data_cid. Qed.

(** The peer's reply to a request for a blob it holds. *)
Lemma peer_reply (peer_snk : Sink) st request count r1 data :
  @open_sink peer_snk -> blocking request -> exchange_fits data ->
  stream_bytes request = Wire.frame (PeerBlobRequest (hex (from_data data))) ++ r1 ->
  get_blob st (from_data data) = Ok data ->
  serve_peer (link := peer_snk) st request count [] = (Ok tt, (count + 1, Wire.frame (PeerBlob (Some (hex data))))).
Proof.
  intros Ho Hb (_ & Hq & Ha) Hreq Hg. unfold serve_peer.
  destruct (receive_frame _ request r1 Hq Hb Hreq) as (es' & -> & _ & _).
  rewrite digest_hex_cid. simpl. rewrite Hg. simpl. by rewrite send_ok.
Qed.

(** Asking a peer that serves the blob gives it. *)
Lemma ask_peer_served data snk es rest s :
  dials s = Some (snk, es) :: rest -> exchange_fits data -> served_by_peer data snk es ->
  ask_peer (hex (from_data data)) s = (Ok (Some (hex data)), set_dials rest s).
Proof.
  intros Hd Hfit (psnk & st & rq & n & r1 & r2 & Ho & Hop & Hbr & Hrq & Hg & Hb & Hes).
  rewrite (peer_reply psnk st rq n r1 data) in Hes by done. destruct Hfit as (_ & Hq & Ha).
  unfold ask_peer. rewrite Hd. rewrite (@send_ok snk) by done.
  by destruct (receive_frame _ es r2 Ha Hb Hes) as (es' & -> & _ & _).
Qed.

(** The daemon after a blob from a peer. *)
Definition with_blob (data : list Z) (rest : list (option (Sink * stream))) (s : Daemon) : Daemon :=
  count_peer (set_wstore (<[blob_path (from_data data) := data]> (w_store s)) (set_dials rest s)).

Context (write_ok : forall name d, os_write name d = Ok d).

Lemma keep_served tag data s :
  Forall is_byte data -> w_store s !! blob_path (from_data data) = None ->
  keep_blob tag (from_data data) (hex data) s =
    (Ok tt, set_wstore (<[blob_path (from_data data) := data]> (w_store s)) s).
Proof.
  intros Hb Hn. unfold keep_blob. rewrite hex_decode_hex, bool_decide_true by done. simpl.
  unfold put_blob. rewrite Hn, write_ok. simpl. by rewrite bool_decide_true.
Qed.

(** After any number of peers that cannot be reached, one that holds the blob supplies it. *)
Lemma peer_supplies data peers n snk es rest s :
  dials s = replicate n None ++ Some (snk, es) :: rest -> (n < length peers)%nat ->
  exchange_fits data -> served_by_peer data snk es -> w_store s !! blob_path (from_data data) = None ->
  fetch_blob (link := link) (hex (from_data data)) peers s = (Ok tt, with_blob data rest s).
Proof.
  intros Hd Hn Hfit Hs Hnone. unfold fetch_blob, mbind, M_bind, lift, look. rewrite digest_hex_cid.
  unfold has. rewrite Hnone. simpl.
  enough (forall s0, w_store s0 = w_store s -> dials s0 = replicate n None ++ Some (snk, es) :: rest ->
    from_peer (from_data data) (hex (from_data data)) peers s0 = (Ok true, with_blob data rest s0)) as Hp.
  { by rewrite (Hp s eq_refl Hd). }
  clear Hd. revert peers Hn. induction n as [|n IH]; intros [|p peers] Hn s0 Hw Hd; simpl in Hn; try lia.
  - cbn [from_peer]. unfold mbind, M_bind, mmodify, lift.
    rewrite (ask_peer_served data snk es rest) by done. rewrite keep_served by (by apply Hfit || by simpl; rewrite Hw).
    rewrite hex_prefix; [done|apply blake3_byte|]. rewrite str_len_hex by apply blake3_byte.
    unfold from_data. rewrite blake3_len. lia.
  - cbn [from_peer]. unfold mbind at 1, M_bind at 1. unfold ask_peer. rewrite Hd. simpl.
    rewrite IH; [|lia|done|done]. done.
Qed.

(** The connections of a worker lead, blob by blob, past unreachable peers to one that
    serves it. *)
Inductive supplied (peers : list string) : list (list Z) -> list (option (Sink * stream)) -> Prop :=
  | supplied_nil rest : supplied peers [] rest
  | supplied_cons data bs n snk es rest :
      (n < length peers)%nat -> exchange_fits data -> served_by_peer data snk es -> supplied peers bs rest ->
      supplied peers (data :: bs) (replicate n None ++ Some (snk, es) :: rest).

Lemma blob_path_ne d1 d2 : from_data d1 <> from_data d2 -> blob_path (from_data d1) <> blob_path (from_data d2).
Proof. intros Hne Heq%blob_path_inj; [done|apply blake3_byte..]. Qed.

Lemma peers_supply peers bs : forall s,
  supplied peers bs (dials s) -> NoDup (from_data <$> bs) ->
  (forall d, d ∈ bs -> w_store s !! blob_path (from_data d) = None) ->
  exists s', fetch_all ((fun d => hex (from_data d)) <$> bs) peers s = (Ok tt, s') /\ said s' = said s /\
    w_sent s' = w_sent s /\ incoming s' = incoming s /\
    from_peers s' = from_peers s + Z.of_nat (length bs) /\ from_server s' = from_server s.
Proof.
  induction bs as [|data bs IH]; intros s Hsup Hnd Hnone.
  - exists s. split_and!; try done. simpl. lia.
  - inversion Hsup as [|? ? n snk es rest Hn Hfit Hs Hrest Hd Hdials]; subst. csimpl in *.
    apply NoDup_cons in Hnd as [Hnew Hnd]. destruct (IH (with_blob data rest s)) as (s' & Hf & Hs1 & Hs2 & Hs3 & Hp & Hv); [done..| |].
    { intros d Hd. simpl. rewrite lookup_insert_ne; [apply Hnone; by right|].
      apply blob_path_ne. intros Heq. apply Hnew. rewrite Heq. by apply list_elem_of_fmap_2. }
    exists s'. cbn [fetch_all]. unfold mbind, M_bind.
    rewrite (peer_supplies data peers n snk es rest s); [|done..|apply Hnone; by left].
    rewrite Hf. split_and!; try done. simpl in *. lia.
Qed.
End Peers.

Section Job.
Context `{Blake3} `{Sha256} `{Ed25519} `{!Signer} `{Os} `{WorkerOs}.
Context `{Json JobManifest} `{Json ClientToServer} `{!JsonLaws ClientToServer} `{Json ServerToClient}.
Context `{Json PeerToPeer} `{!JsonLaws PeerToPeer} `{link : Sink}.

End Job.
