(* ===== verification/Proving.v ===== *)
(** * The proving queue

    Jobs submitted with a demand for a proof are worked off by [prove_turn], which looks for
    a cached receipt before it has a fresh proof made, and hands its decision back to the
    loop as an event.  With the repository's zk-judge and zk-verify as the two commands, a
    decision to accept stands for the run of the job, and its subscribers are told. *)

From S2P Require Import Prelude Text Mem Cpu Interp Run Elf JobFmt ContentStore Wire Quorum Ledger Dispute ZkJudge.
From S2P Require Import Server Serve ServeFacts DispatchFacts Worker EndToEnd Sp1 Sp1Facts.

Section Proving.
Context `{Blake3} `{Sha256} `{Ed25519} `{!Signer} `{Os} `{NetOs} `{TmpOs} `{Procs} `{Bincode} `{!BincodeLaws} `{!Sp1}.
Context `{Json JobManifest} `{!ManifestTyped} `{Json JobDescriptor} `{Json RVerdict} `{Json JudgeVerdict} `{Json ProveMeta}.
Context `{Json Ledger} `{Json Evidence} `{Json ClientToServer} `{Json ServerToClient} `{Json PeerToPeer}.
Context `{Json string} `{Json (list string)} `{Json (option string)}.

(** The cache is checked with zk-verify on the compiled emulator guest, for which the proof
    system is sound; or no verifier is configured. *)
Definition cache_verified (zkj : ZkJudge) : Prop :=
  match verify_cmd zkj with
  | Some cmd => exists gb, verify_spawned cmd (z_guest_elf zkj) gb /\ proves gb guest_emu /\ z_guest_elf zkj <> "--v2"%string
  | None => True
  end.

(** [n] instructions and output [out] come from a clean run of the job: of the blobs in a
    directory of their own, or of the blobs with the descriptor's content ids. *)
Definition proven_for (desc : JobDescriptor) (n : Z) (out : list Z) : Prop :=
  (exists o, runs_to desc o /\ zk_status (status o) = 0 /\ n = instructions o /\ out = default [] (Run.output o)) \/
  exists em ee ei chain, from_hex (d_manifest desc) 32 = Ok em /\ from_hex (d_elf desc) 32 = Ok ee /\
    from_hex (d_input desc) 32 = Ok ei /\ proven_run [em; ee; ei] 0 n chain (hex out).

Definition carries (desc : JobDescriptor) (dec : Decision) : Prop :=
  match dec with
  | Accept h oh agreed z => z = true /\ agreed = [] /\
      exists n out, proven_for desc n out /\ h = hex (journal_digest n out) /\ oh = Some (hex out)
  | _ => True
  end.

Lemma from_hex_own l : Forall is_byte l -> from_hex (hex l) (str_len (hex l) / 2) = Ok l.
Proof. intros Hl. rewrite str_len_hex, Z.mul_comm, Z.div_mul by (done || lia). by apply from_hex_hex. Qed.

(** A hit in the cache. *)
Lemma cached_carries zkj disk rd key desc eb t dec t' :
  cache_verified zkj -> descriptor_binding "content id" desc = Ok eb ->
  verify_cached zkj disk rd key eb false t = (Ok dec, t') -> carries desc dec.
Proof.
  unfold cache_verified, verify_cached. destruct (verify_cmd zkj) as [cmd|]; [|done].
  intros (gb & Hsp & Hsound & Hg) Heb. unfold descriptor_binding, decode_hex32 in Heb.
  apply obind_ok in Heb as (em & [Dm Hm]%from_hex_tag_digest & (ee & [De He]%from_hex_tag_digest & (ei & [Di Hi]%from_hex_tag_digest & [= <-])%obind_ok)%obind_ok).
  destruct (disk !! _) as [receipt|]; [|done].
  destruct (verify_receipt _ _ _ _ _ _) as [[out|?|] t1] eqn:Hr; [|done..]. case_match eqn:Hst; [done|]. bools.
  apply (verify_receipt_proven _ _ _ _ gb) in Hr; [|done..|by do 3 (constructor; [done|])].
  intros [= Hd _]. pose proof Hr as (mb & m & e & i & o & _ & _ & _ & _ & _ & _ & Hoh & Hbo).
  rewrite Hoh, from_hex_own in Hd by done. injection Hd as <-. split_and!; [done..|].
  exists (ro_instructions out), (default [] (Run.output o)). split_and!; [|done..].
  right. exists em, ee, ei, (ro_chunk_hashes out). split_and!; [done..|]. by rewrite <- Hoh, <- Hst.
Qed.

(** A fresh proof. *)
Lemma fresh_carries zkj j st d key eb mb m disk dec disk' :
  judge_spawned (z_cmd zkj) -> faithful -> keeps_manifest st (pj_descriptor j) ->
  materialize (pj_descriptor j) st ∅ = (Ok tt, d) ->
  descriptor_binding "content id" (pj_descriptor j) = Ok eb ->
  fs_read d "job.json" = Ok mb -> from_slice mb = Ok m -> is_sp1_v2 m = false ->
  prove_fresh zkj j d key eb false disk = (Ok dec, disk') -> carries (pj_descriptor j) dec.
Proof.
  intros Hsp Hf Hk Hmat Heb Hmb Hm Hleg. unfold prove_fresh.
  destruct (run_judge _ _ _ _ _ _) as [[v|?|] disk1] eqn:Hrj; [|done..]. intros [= Hd _].
  destruct (run_judge_judged _ _ _ _ _ _ _ _ _ _ Hsp Hrj Hmb Hm Hleg) as (rd & l & Hsees & -> & Hl).
  apply judge_decision_ok in Hd as (hexes & s & n & ohx & o & _ & [= <-] & _ & [= <-] & [= <-] & [= <-] & Ho & ->);
    [|by eapply descriptor_binding_len].
  destruct (jl_status l =? 0) eqn:Hz; [|done]. bools.
  destruct (judged_run_runs _ _ _ _ _ _ Hf Hk Hmat Hsees Hl) as (out & Hruns & Hst & Hn & Hoh & Hbo).
  rewrite Hoh, from_hex_own in Ho by done. injection Ho as <-. split_and!; [done..|].
  exists (jl_instructions l), (default [] (Run.output out)). rewrite Hoh. split_and!; [|done..].
  left. exists out. split_and!; [done|by rewrite <- Hst|done..].
Qed.

Lemma prove_one_carries zkj st j td dec td' :
  judge_spawned (z_cmd zkj) -> cache_verified zkj -> faithful -> emulator_format (pj_descriptor j) st -> keeps_manifest st (pj_descriptor j) ->
  prove_one st zkj j td = (Ok dec, td') -> carries (pj_descriptor j) dec.
Proof.
  intros Hsp Hc Hf Hleg Hk. unfold prove_one. destruct td as [t disk].
  match goal with |- context [match ?x with Ok _ => _ | Err _ => _ | Panic => _ end] => destruct x as [[[[d eb] v2] key]|?|] eqn:Hpre end; [|done..].
  apply obind_ok in Hpre as (d0 & Hd & (eb0 & Heb & (mb & Hmb%map_err_ok & (m & Hm%map_err_ok & (key0 & _ & Hret)%obind_ok)%obind_ok)%obind_ok)%obind_ok).
  injection Hret as <- <- <- <-. rewrite (Hleg _ _ _ Hd Hmb Hm).
  assert (materialize (pj_descriptor j) st ∅ = (Ok tt, d0)) as Hmat.
  { unfold fresh_dir in Hd. destruct (materialize _ _ _) as [[[]|?|] d1]; [|done..]. by injection Hd as ->. }
  match goal with |- context [match ?x with (_, _) => _ end] => destruct x as [[dec0|?|] t'] eqn:Hcached end; [| |done].
  - intros [= <- _]. revert Hcached. destruct (receipt_dir zkj) as [rd|]; [|done]. by apply cached_carries.
  - destruct (prove_fresh _ _ _ _ _ _ _) as [r disk'] eqn:Hfresh. intros [= -> _]. exact (fresh_carries _ _ _ _ _ _ _ _ _ _ _ Hsp Hf Hk Hmat Heb Hmb Hm (Hleg _ _ _ Hd Hmb Hm) Hfresh).
Qed.

(** ** The outcome reaches the submitter *)

Lemma notify_tells j h oh agreed z (m : Conns) k c :
  k ∈ subscribers j -> m !! k = Some c ->
  exists c', notify j (Accept h oh agreed z) m !! k = Some c' /\
    JobOutcome (d_job_id (pj_descriptor j)) h agreed oh z None ∈ outbound c'.
Proof.
  unfold notify. set (msg := JobOutcome _ _ _ _ _ _).
  assert (forall (l : list Z) (m' : Conns) c0, m' !! k = Some c0 -> k ∈ l \/ msg ∈ outbound c0 ->
    exists c', foldl (fun m0 conn => alter (push_msg msg) conn m0) m' l !! k = Some c' /\ msg ∈ outbound c') as Hl.
  { induction l as [|k0 l IH]; intros m' c0 Hk Hin; simpl.
    - exists c0. destruct Hin as [Hin|]; [by apply elem_of_nil in Hin|done].
    - destruct (decide (k = k0)) as [->|Hne].
      + apply (IH _ (push_msg msg c0)); [by rewrite lookup_alter_eq, Hk|]. right. apply elem_of_app. right. by left.
      + apply (IH _ c0); [by rewrite lookup_alter_ne|]. destruct Hin as [[?|?]%elem_of_cons|]; [done|auto..]. }
  intros Hk Hm. apply (Hl _ _ c); auto.
Qed.

(** C12. A proved job of the emulator format is proved for its run and its submitter hears of it:
    when the two commands are zk-judge and zk-verify on the compiled emulator guest, for which
    the proof system is sound, and the queued job is not of the V2 format and its files do not
    replace its manifest, an acceptance delivered by the proving queue carries the digest and
    the output of a clean run of the job its descriptor names, whether the receipt is fresh or
    from the cache; and when the ledger has room, the event is handled by recording that
    decision and sending it, marked as proved, to every connection that waits for the job. *)
Theorem proving_queue_sound cfg zkj s j rest h oh agreed z :
  zk_prover cfg = Some zkj -> judge_spawned (z_cmd zkj) -> cache_verified zkj -> faithful ->
  prove_queue s = j :: rest -> emulator_format (pj_descriptor j) (sv_store s) ->
  keeps_manifest (sv_store s) (pj_descriptor j) ->
  events (prove_turn cfg s) = events s ++ [EvProved j (Accept h oh agreed z)] ->
  (z = true /\ exists n out, proven_for (pj_descriptor j) n out /\ h = hex (journal_digest n out) /\ oh = Some (hex out)) /\
  forall e s0, ledger_room cfg (ledger_file s0) (length (results j)) ->
    exists s', on_event cfg e (EvProved j (Accept h oh agreed z)) s0 = (Ok tt, s') /\
      outcomes s' = outcomes s0 ++ [{| f_job_id := d_job_id (pj_descriptor j); f_decision := Accept h oh agreed z;
        f_results := results j; f_deltas := slashing (Accept h oh agreed z) (results j) |}] /\
      forall k c, k ∈ subscribers j -> conns s0 !! k = Some c -> exists c', conns s' !! k = Some c' /\
        JobOutcome (d_job_id (pj_descriptor j)) h agreed oh true None ∈ outbound c'.
Proof.
  intros Hzk Hsp Hc Hf Hq Hleg Hk Hev. unfold prove_turn in Hev. rewrite Hzk, Hq in Hev.
  destruct (prove_one _ _ _ _) as [[dec|?|] [t disk]] eqn:Hp; simpl in Hev.
  2: { apply app_inv_head in Hev. done. }
  2: { apply (f_equal length) in Hev. rewrite length_app in Hev. simpl in Hev. lia. }
  apply app_inv_head in Hev. injection Hev as ->. apply prove_one_carries in Hp as (-> & -> & n & out & Hrun); [|done..].
  split; [split; [done|by exists n, out]|]. intros e s0 Hroom.
  destruct (finish_decided_job_total cfg j (Accept h oh [] true) s0 Hroom) as [s1 Hs1].
  cbn [on_event]. unfold mbind, M_bind. rewrite Hs1. unfold mmodify.
  eexists. split; [reflexivity|]. pose proof (finish_decided_job_inv _ _ _ _ _ _ Hs1) as (Ho & _ & Hconns & _).
  split; [done|]. intros k c Hsub Hkc. simpl. rewrite Hconns, lookup_fmap.
  destruct (notify_tells j h oh [] true (conns s0) k c Hsub Hkc) as (c' & -> & Hin).
  eexists. split; [reflexivity|]. apply elem_of_app. by left.
Qed.
End Proving.
