(* ===== verification/LifeDemo.v ===== *)
(** * Executions of whole jobs

    The theorems of [Lifecycle], [Peers] and [Proving] at concrete sessions: three admitted
    workers and a job in the directory, of which two answer and one stays silent; a worker
    without blobs between peers that have them; and a proving queue with a cached receipt. *)

From S2P Require Import Prelude Text Mem Cpu Interp InterpFacts Run Chain Elf JobFmt ContentStore Wire Quorum Ledger Dispute ZkJudge.
From S2P Require Import Server Serve ServeFacts DispatchFacts Worker EndToEnd NetDemo EndDemo Sp1 Sp1Facts Sp1Demo.
From S2P Require Import Lifecycle Peers Proving.

Section Session.
#[local] Existing Instances toy_blake3 toy_sha256 toy_ed25519 toy_os toy_net toy_tmp toy_procs toy_sink toy_signer toy_wos.
#[local] Existing Instances k1 k2 k3 k4 k5 k6 k7 k8 k9 k10.

(** Three workers are admitted; the job waits in the directory. *)
Definition idle_session : list sys_input := join 1 "w1" "worker" ++ join 2 "w2" "worker" ++ join 3 "w3" "worker".
Definition idle_server : Server := default job_server (exec net_cfg idle_session job_server).
Definition scan_env : Env := net_env 1 ["demo.desc.json"%string].

(** The server after the dispatch, and with the answers of two workers waiting. *)
Definition served_server : Server := (turn net_cfg scan_env idle_server).2.
Definition two_answers : list (Z * WorkerResult) := [(2, honest_vote "w2" 2); (1, honest_vote "w1" 1)].
Definition answered_server : Server := set_events (deliver <$> two_answers) served_server.

Definition found : outcome string (option (JobDescriptor * option (list string) * string)) * (Dir * gmap string Z) :=
  scan_jobs_dir scan_env (jobs_dir idle_server, scan_errors idle_server).

Lemma idle_server_is :
  pending idle_server = None /\ events idle_server = [] /\
  found.1 = Ok (Some (job_desc, None, "demo.desc.json.dispatching"%string)) /\
  targets_ready net_cfg scan_env (conns idle_server) None = true /\
  selected net_cfg scan_env (conns idle_server) None = ["w3"; "w2"; "w1"]%string.
Proof. split_and!; vm_compute; reflexivity. Qed.

Lemma answers_ok : Forall (answer_ok net_cfg (conns answered_server) job_desc) two_answers.
Proof.
  assert (forall k id n, honest_result job_desc (honest_vote id n) ->
    (exists c, conns answered_server !! k = Some c /\ authed c = true /\ c_worker_id c = worker_id (honest_vote id n) /\
      match c_pubkey c with Some pk => pubkey_hex (honest_vote id n) = Some pk | None => require_identity net_cfg = false end) ->
    r_status (honest_vote id n) = "halted"%string -> job_id (honest_vote id n) = d_job_id job_desc ->
    answer_ok net_cfg (conns answered_server) job_desc (k, honest_vote id n)) as Hok.
  { intros k id n Hh Hc Hs Hj. split; [exact Hc|]. split; [exact Hh|]. split; [exact Hs|exact Hj]. }
  repeat apply Forall_cons_2; [| |apply Forall_nil_2].
  - apply Hok; [exact honest_vote_2| |vm_compute; reflexivity..]. eexists. split_and!; vm_compute; reflexivity.
  - apply Hok; [exact honest_vote_1| |vm_compute; reflexivity..]. eexists. split_and!; vm_compute; reflexivity.
Qed.

Lemma served_pending : forall s1, turn net_cfg scan_env idle_server = (Ok true, s1) -> s1 = served_server.
Proof. intros s1 Ht. unfold served_server. rewrite Ht. reflexivity. Qed.


(** ** A job from peers *)

#[local] Instance peer_laws : JsonLaws PeerToPeer := tight_json_laws _.
#[local] Existing Instances k8_laws.

(** A frame that arrives in two pieces. *)
Definition in_two (msg : PeerToPeer) : stream := [Data (take 3 (Wire.frame msg)); Data (drop 3 (Wire.frame msg))].

Lemma in_two_ok msg : blocking (in_two msg) /\ stream_bytes (in_two msg) = Wire.frame msg ++ [].
Proof.
  assert (4 <= length (Wire.frame msg))%nat as Hl by (unfold Wire.frame; rewrite length_app, length_le_bytes; lia).
  split.
  - apply Forall_cons_2; [|apply Forall_cons_2; [|apply Forall_nil_2]]; intros Hn%(f_equal length);
      rewrite ?length_take, ?length_drop in Hn; simpl in Hn; lia.
  - unfold in_two. cbn [stream_bytes]. by rewrite !app_nil_r, take_drop.
Qed.

(** Peers with the job's blobs, behind one that is down. *)
Definition blobless_worker : Daemon :=
  worker_with ∅ [] [None; Some (toy_sink, in_two (PeerBlob (Some (hex demo_mb))));
                    Some (toy_sink, in_two (PeerBlob (Some (hex demo_job_elf))));
                    None; Some (toy_sink, in_two (PeerBlob (Some (hex []))))].

Lemma toy_open : @open_sink toy_sink.
Proof. split; intros; reflexivity. Qed.

Lemma demo_served data :
  exchange_fits data -> get_blob job_store (from_data data) = Ok data ->
  served_by_peer data toy_sink (in_two (PeerBlob (Some (hex data)))).
Proof.
  intros Hfit Hg. destruct (in_two_ok (PeerBlobRequest (hex (from_data data)))) as [Hb Hs].
  destruct (in_two_ok (PeerBlob (Some (hex data)))) as [Hb' Hs'].
  exists toy_sink, job_store, (in_two (PeerBlobRequest (hex (from_data data)))), 0, [], [].
  split_and!; [exact toy_open|exact toy_open|exact Hb|exact Hs|exact Hg|exact Hb'|].
  rewrite (peer_reply toy_sink job_store _ 0 [] data toy_open Hb Hfit Hs Hg). exact Hs'.
Qed.

Lemma demo_fits : Forall exchange_fits [demo_mb; demo_job_elf; []].
Proof.
  pose proof demo_typed as Ht. repeat apply Forall_cons_2; [| | |apply Forall_nil_2];
    (split_and!; [|apply (Z.leb_le _ _); vm_compute; reflexivity..]).
  - by apply Forall_cons in Ht as [? _].
  - by apply Forall_cons in Ht as [_ [? _]%Forall_cons].
  - constructor.
Qed.

Lemma demo_blobs : Forall (fun d => get_blob job_store (from_data d) = Ok d) [demo_mb; demo_job_elf; []].
Proof. apply (bool_decide_unpack _). vm_compute. exact I. Qed.

Lemma demo_supplied : supplied ["a"; "b"]%string [demo_mb; demo_job_elf; []] (dials blobless_worker).
Proof.
  pose proof demo_fits as [F1 [F2 [F3 _]%Forall_cons]%Forall_cons]%Forall_cons.
  pose proof demo_blobs as [B1 [B2 [B3 _]%Forall_cons]%Forall_cons]%Forall_cons.
  apply (supplied_cons _ _ _ 1); [simpl; lia|exact F1|exact (demo_served _ F1 B1)|].
  apply (supplied_cons _ _ _ 0); [simpl; lia|exact F2|exact (demo_served _ F2 B2)|].
  apply (supplied_cons _ _ _ 1); [simpl; lia|exact F3|exact (demo_served _ F3 B3)|constructor].
Qed.

End Session.

(** ** The proving queue *)

Section Queue.
#[local] Existing Instances toy_blake3 toy_sha256 toy_ed25519 toy_os toy_net toy_tmp toy_sink toy_signer toy_wos.
#[local] Existing Instances toy_bincode toy_bincode_laws s1 s1_typed s2 s3 s4 k5 k6 k7 s8 s9 s10 s11 s12 s13 toy_sp1 sp1_procs.

(** A prover whose cache holds the receipt of the job, which connection 4 waits for. *)
Definition queue_judge : ZkJudge := {|
  z_cmd := "zk-judge"; z_guest_elf := "emu.elf"; max_vm_cycles := 10000; z_timeout := "1800s";
  receipt_dir := Some "rd"%string; verify_cmd := Some "zk-verify"%string |}.

Definition queue_cfg : ServeConfig := {|
  per_job_deadline := 1000; ledger_path := None; require_identity := true; zk := None; zk_judge := None;
  zk_prover := Some queue_judge; accept_submissions := true; results_dir := None; identity_pow_bits := 0;
  cfg_pool := Some 3%nat; max_jobs := None; round1_size := None; round1_ids := None |}.

Definition proof_job : PendingJob := mkJob job_desc None "" false false [] [] [] 0 None [] [4].

Definition cache_key : string := default ""%string (ok (receipt_cache_key job_desc)).

Definition queue_server : Server :=
  set_queue [proof_job]
    (set_conns (insert 4 (mkConn [] (Some (key_of 4)) None "owner" true None "10.0.0.4" "submitter" 3))
       (init_server job_store ∅ ∅ NotFound tmp0 {[ (cache_paths "rd" cache_key).1 := demo_receipt ]})).

Lemma queue_cache_verified : cache_verified queue_judge.
Proof. exists emu_elf. split; [exact demo_verify_spawned|]. split; [exact toy_proves|discriminate]. Qed.

Lemma queue_proved :
  events (prove_turn queue_cfg queue_server) = events queue_server ++ [EvProved proof_job (Accept job_truth (Some ""%string) [] true)].
Proof. vm_compute. reflexivity. Qed.

Lemma proving_queue_sound_witness :
  (exists n out, proven_for job_desc n out /\ job_truth = hex (journal_digest n out)) /\
  exists s', on_event queue_cfg (net_env 0 []) (EvProved proof_job (Accept job_truth (Some ""%string) [] true)) queue_server = (Ok tt, s') /\
    exists c', conns s' !! 4 = Some c' /\
      JobOutcome "demo" job_truth [] (Some ""%string) true None ∈ outbound c'.
Proof.
  destruct (proving_queue_sound queue_cfg queue_judge queue_server proof_job [] job_truth (Some ""%string) [] true)
    as [(_ & n & out & Hp & Hh & _) Hd].
  - reflexivity.
  - exact demo_judge_spawned.
  - exact queue_cache_verified.
  - exact toy_faithful.
  - reflexivity.
  - intros d mb m Hd Hmb Hm. exact (demo_legacy d mb m Hd Hmb Hm).
  - exact demo_keeps.
  - exact queue_proved.
  - split; [exists n, out; split; [exact Hp|exact Hh]|].
    destruct (Hd (net_env 0 []) queue_server) as (s' & He & _ & Hc); [left; reflexivity|].
    exists s'. split; [exact He|].
    exact (Hc 4 (mkConn [] (Some (key_of 4)) None "owner" true None "10.0.0.4" "submitter" 3)
      ltac:(left) ltac:(reflexivity)).
Defined.
End Queue.
